(** * pylayout: the layout tree of [layout.py]

    A shallow embedding of the layout engine: nodes live in a store and are
    referred to by identity, as Python objects are, so that a child added to
    a parent and later mutated is the same object the parent reads.  Every
    method becomes a computation in a state-and-error monad over that store,
    the process-wide default style and the list of calls the renderer has
    received.  The one operation whose result the language leaves to the
    platform, the float power of [DottedLine.render], is a parameter of the
    state. *)

From Stdlib Require Import ZArith List Floats Lia String.
From stdpp Require Import gmap list.

Open Scope Z_scope.

(** ** Enumerations and styles (lines 11-49) *)

Inductive Align := TOP | CENTER | BOTTOM | RIGHT | LEFT.

Inductive Anchor :=
| TOP_LEFT | TOP_MIDDLE | TOP_RIGHT
| MIDDLE_LEFT | MIDDLE_MIDDLE | MIDDLE_RIGHT
| BOTTOM_LEFT | BOTTOM_MIDDLE | BOTTOM_RIGHT.

Record Style := mkStyle {
  padding : Z;
  font : string;
  font_size : Z;
  anchor : Anchor;
  stroke_color : string;
  fill_color : string;
  font_color : string
}.

(** [Style()]: the field defaults of the NamedTuple. *)
Definition Style_default : Style :=
  mkStyle 10 "Roboto-Regular.ttf" 32 TOP_LEFT "black" "white" "black".

(** The keyword arguments of [Style._replace]: one optional value per field. *)
Record StyleKw := mkStyleKw {
  kw_padding : option Z;
  kw_font : option string;
  kw_font_size : option Z;
  kw_anchor : option Anchor;
  kw_stroke_color : option string;
  kw_fill_color : option string;
  kw_font_color : option string
}.

Definition no_overrides : StyleKw :=
  mkStyleKw None None None None None None None.

Definition given {A} (o : option A) : bool :=
  match o with Some _ => true | None => false end.

(** Truth value of the dict [kwargs]: non-empty. *)
Definition has_overrides (k : StyleKw) : bool :=
  given (kw_padding k) || given (kw_font k)
  || given (kw_font_size k) || given (kw_anchor k)
  || given (kw_stroke_color k) || given (kw_fill_color k)
  || given (kw_font_color k).

Definition Style_replace (s : Style) (k : StyleKw) : Style :=
  mkStyle (default (padding s) (kw_padding k))
          (default (font s) (kw_font k))
          (default (font_size s) (kw_font_size k))
          (default (anchor s) (kw_anchor k))
          (default (stroke_color s) (kw_stroke_color k))
          (default (fill_color s) (kw_fill_color k))
          (default (font_color s) (kw_font_color k)).

(** ** Exceptions *)

(** [RecursionError] is what a call raises when the depth allowed (the fuel
    of [width], [height], [prepare] and [render] below) is used up.
    [NoSuchObject] has no counterpart in Python, where a reference always
    leads to an object: it is what an identity outside the store gives. *)
Inductive Error :=
| AssertionError
| TypeError
| ValueError
| IndexError
| OverflowError
| ZeroDivisionError
| RecursionError
| NoSuchObject.

Inductive Result (A : Type) :=
| Ok (a : A)
| Err (e : Error).
Arguments Ok {A} a.
Arguments Err {A} e.

(** The next step of a computation that may have raised. *)
Definition and_then {A B} (r : Result A) (k : A -> Result B) : Result B :=
  match r with
  | Ok a => k a
  | Err e => Err e
  end.

Notation "'let?' x ':=' r 'in' k" := (and_then r (fun x => k))
  (at level 10, x name, r at level 100, k at level 200).

(** ** Numbers and points *)

(** A Python number as [DottedLine.render] meets it: an [int] or a [float]
    (IEEE binary64, the kernel's primitive floats). *)
Inductive num := NInt (z : Z) | NFloat (f : float).

(** The float nearest to [z], ties to even; an infinity from [float_limit]
    on. *)
Definition z2f (z : Z) : float := SF2Prim (binary_normalize prec emax z 0 false).

(** [int(f)] on a finite float: truncation towards zero; [None] on an
    infinity or a NaN. *)
Definition f2z (f : float) : option Z :=
  match Prim2SF f with
  | S754_zero _ => Some 0
  | S754_finite s m e =>
      let v := if 0 <=? e then Z.shiftl (Zpos m) e else Z.shiftr (Zpos m) (- e) in
      Some (if s then - v else v)
  | _ => None
  end.

(** The first int too large for a float: half way between the largest
    float, 2^1024 - 2^971, and 2^1024. *)
Definition float_limit : Z := 2 ^ 1024 - 2 ^ 970.

Definition convertible (z : Z) : bool := Z.abs z <? float_limit.

(** An operand of a float operation: an [int] is converted first, and one
    too large raises [OverflowError] (int too large to convert to float). *)
Definition as_float (n : num) : Result float :=
  match n with
  | NInt z => if convertible z then Ok (z2f z) else Err OverflowError
  | NFloat f => Ok f
  end.

(** [a + b]: exact on two ints, a float addition otherwise, which overflows
    to an infinity without raising. *)
Definition py_add (a b : num) : Result num :=
  match a, b with
  | NInt x, NInt y => Ok (NInt (x + y))
  | _, _ => let? x := as_float a in let? y := as_float b in Ok (NFloat (x + y))
  end.

(** [a * b]. *)
Definition py_mul (a b : num) : Result num :=
  match a, b with
  | NInt x, NInt y => Ok (NInt (x * y))
  | _, _ => let? x := as_float a in let? y := as_float b in Ok (NFloat (x * y))
  end.

(** [a / d] for a float [d], as in [(end - start) / length]: the operand is
    converted, then a zero divisor raises [ZeroDivisionError]. *)
Definition py_truediv (a : num) (d : float) : Result num :=
  let? x := as_float a in
  if (d =? 0)%float then Err ZeroDivisionError else Ok (NFloat (x / d)).

(** The C library the interpreter runs on.  For a finite float [x] above 0
    and other than 1, [x ** 0.5] is what that library's [pow(x, 0.5)]
    returns, or the [OverflowError] or [ValueError] the interpreter makes of
    the [errno] it leaves: the language does not fix its rounding, which is
    not the correctly rounded square root of IEEE 754. *)
Record Platform := mkPlatform {
  libm_pow_half : float -> Result float
}.

(** [n ** 0.5] for an [int] n that is not negative: [n] is converted to a
    float; 0.0 and 1.0 are answered by the interpreter, every other value by
    the platform. *)
Definition pow_half (pf : Platform) (n : Z) : Result float :=
  let? iv := as_float (NInt n) in
  if (iv =? 0)%float then Ok 0%float
  else if (iv =? 1)%float then Ok 1%float
  else libm_pow_half pf iv.

(** A platform whose [pow(x, 0.5)] is correctly rounded, which makes it the
    square root of IEEE 754, and never sets [errno]. *)
Definition correctly_rounded : Platform :=
  mkPlatform (fun x => Ok (PrimFloat.sqrt x)).

(** Modelled from the spec: the [point] module is not among the sources.  The
    spec's data model gives [Point] as an immutable pair of coordinates with
    component-wise addition and subtraction and scalar multiplication and
    division.  [layout.py] also adds and subtracts a scalar: the spec's
    numbers for the canvas have [pos + padding] move both coordinates, and
    its arrowhead geometry gives [pos + end - alen] as the tip minus
    (alen, 0).  Layout coordinates are integers. *)
Record Point := P { px : Z; py : Z }.

Definition Point_add (a b : Point) : Point := P (px a + px b) (py a + py b).
Definition Point_sub (a b : Point) : Point := P (px a - px b) (py a - py b).
Definition Point_add_scalar (a : Point) (k : Z) : Point := P (px a + k) (py a + k).
Definition Point_sub_scalar (a : Point) (k : Z) : Point := P (px a - k) (py a).

(** Points whose coordinates may have become floats (the dashes of a dotted
    line), with the operations of [Point] on them, component by
    component. *)
Record NPoint := NP { nx : num; ny : num }.

Definition NPoint_of (p : Point) : NPoint := NP (NInt (px p)) (NInt (py p)).

Definition NPoint_py_add (a b : NPoint) : Result NPoint :=
  let? x := py_add (nx a) (nx b) in
  let? y := py_add (ny a) (ny b) in
  Ok (NP x y).

Definition NPoint_py_mul (a : NPoint) (k : Z) : Result NPoint :=
  let? x := py_mul (nx a) (NInt k) in
  let? y := py_mul (ny a) (NInt k) in
  Ok (NP x y).

Definition NPoint_py_truediv (a : NPoint) (d : float) : Result NPoint :=
  let? x := py_truediv (nx a) d in
  let? y := py_truediv (ny a) d in
  Ok (NP x y).

(** ** The renderer (lines 52-71) *)

(** The backend's measurement, and the record of every call made on it. *)
Record Renderer := mkRenderer {
  text_bbox : string -> Style -> Z * Z * Z * Z
}.

Inductive Call :=
| call_rectangle (p1 p2 : Z * Z) (s : Style)
| call_text (t : string) (p : Point) (s : Style)
| call_text_bbox (t : string) (s : Style)
| call_line (p1 p2 : NPoint) (s : Style)
| call_set_dimensions (dim : Z * Z).

(** ** Nodes and the store *)

Definition oid := nat.

(** The class of a node with the attributes its own constructor adds. *)
Inductive Class :=
| Object
| VLayout (align : Align)
| HLayout (align : Align)
| Rectangle
| Line (start end_ : Point)
| TextBox
| Table (align : Align)
| DottedLine (start end_ : Point) (dash_len : Z)
| Arrow (start end_ : Point) (double_sided : bool) (alen : Z)
| Spacer
| Text (text : string) (align : Align)
| Canvas.

(** The attributes [Object.__init__] sets (lines 81-85). *)
Record Node := mkNode {
  cls : Class;
  style : Style;
  _w : option Z;
  _h : option Z;
  children : list (oid * Point);
  parent : option oid
}.

Definition with_w (v : option Z) (o : Node) : Node :=
  mkNode (cls o) (style o) v (_h o) (children o) (parent o).
Definition with_h (v : option Z) (o : Node) : Node :=
  mkNode (cls o) (style o) (_w o) v (children o) (parent o).
Definition with_children (cs : list (oid * Point)) (o : Node) : Node :=
  mkNode (cls o) (style o) (_w o) (_h o) cs (parent o).
Definition with_parent (p : option oid) (o : Node) : Node :=
  mkNode (cls o) (style o) (_w o) (_h o) (children o) p.

(** What a run depends on and leaves behind: the objects, the default style
    of the module, the calls the renderer has received, and the platform,
    which no method changes. *)
Record State := mkState {
  heap : gmap oid Node;
  next_id : oid;
  default_style : Style;
  calls : list Call;
  platform : Platform
}.

(** The state the module is loaded in; the scenes below are built on a
    platform that rounds correctly. *)
Definition initial_state : State :=
  mkState ∅ 0%nat Style_default [] correctly_rounded.

Definition with_heap (h : gmap oid Node) (st : State) : State :=
  mkState h (next_id st) (default_style st) (calls st) (platform st).

(** ** The monad: state, and the exceptions the code can raise *)

(** A computation returns a value and the next state, or raises. *)
Definition M (A : Type) : Type := State -> Result (A * State).

Definition ret {A} (a : A) : M A := fun st => Ok (a, st).
Definition raise {A} (e : Error) : M A := fun _ => Err e.
Definition bind {A B} (m : M A) (k : A -> M B) : M B :=
  fun st => match m st with
            | Ok (a, st') => k a st'
            | Err e => Err e
            end.

Notation "x <- m ;; k" := (bind m (fun x => k))
  (at level 100, m at next level, right associativity).
Notation "m ;;; k" := (bind m (fun _ => k))
  (at level 100, right associativity).

(** [for a in l: f(a)].  The list is the one the object held when the loop
    began: no method adds, removes or reorders children, and the one update
    in place, the recentring in the height setter of a text box, leaves the
    child where it is in the list. *)
Fixpoint for_each {A} (l : list A) (f : A -> M unit) : M unit :=
  match l with
  | [] => ret tt
  | a :: l' => f a ;;; for_each l' f
  end.

(** A loop that carries a local variable from one iteration to the next. *)
Fixpoint for_each_acc {A B} (l : list A) (f : B -> A -> M B) (b : B) : M B :=
  match l with
  | [] => ret b
  | a :: l' => b' <- f b a ;; for_each_acc l' f b'
  end.

Definition get_node (self : oid) : M Node :=
  fun st => match heap st !! self with
            | Some o => Ok (o, st)
            | None => Err NoSuchObject
            end.

Definition update_node (self : oid) (f : Node -> Node) : M unit :=
  fun st => match heap st !! self with
            | Some o => Ok (tt, with_heap (<[self := f o]> (heap st)) st)
            | None => Err NoSuchObject
            end.

Definition alloc (o : Node) : M oid :=
  fun st => Ok (next_id st,
                mkState (<[next_id st := o]> (heap st)) (S (next_id st))
                        (default_style st) (calls st) (platform st)).

Definition emit (c : Call) : M unit :=
  fun st => Ok (tt, mkState (heap st) (next_id st) (default_style st)
                            (calls st ++ [c]) (platform st)).

Definition get_default_style : M Style := fun st => Ok (default_style st, st).

Definition get_platform : M Platform := fun st => Ok (platform st, st).

(** A computation without effect on the state. *)
Definition lift {A} (r : Result A) : M A :=
  fun st => match r with
            | Ok a => Ok (a, st)
            | Err e => Err e
            end.

(** [a or b] where [a] is [None] or an int: the first operand unless falsy. *)
Definition py_or (a : option Z) (b : Z) : Z :=
  match a with
  | Some v => if v =? 0 then b else v
  | None => b
  end.

(** [not a] where [a] is [None] or an int. *)
Definition py_not (a : option Z) : bool :=
  match a with
  | Some v => v =? 0
  | None => true
  end.

(** An operand of integer arithmetic: [None] raises [TypeError]. *)
Definition as_int (a : option Z) : M Z :=
  match a with
  | Some v => ret v
  | None => raise TypeError
  end.

(** [set_style] (lines 46-49). *)
Definition set_style (s : Style) : M unit :=
  fun st => Ok (tt, mkState (heap st) (next_id st) s (calls st) (platform st)).

(** ** Construction (lines 74-85, 105-107) *)

(** The keyword arguments [Object.__init__] receives: [width], [height] and
    [style], and whatever is left, which overrides fields of the style. *)
Record Kwargs := mkKwargs {
  kw_width : option Z;
  kw_height : option Z;
  kw_style : option Style;
  kw_rest : StyleKw
}.

Definition no_kwargs : Kwargs := mkKwargs None None None no_overrides.

(** [Object.__init__], run for a new object of class [c].  A [Style] is a
    non-empty tuple, so [not style] holds for [None] only. *)
Definition Object_init (c : Class) (kw : Kwargs) : M oid :=
  style0 <- match kw_style kw with
            | Some s => ret s
            | None => get_default_style
            end ;;
  let style1 := if has_overrides (kw_rest kw)
                then Style_replace style0 (kw_rest kw) else style0 in
  alloc (mkNode c style1 (kw_width kw) (kw_height kw) [] None).

(** [Object.add]. *)
Definition Object_add (self obj : oid) (pos : Point) : M unit :=
  update_node self (fun o => with_children (children o ++ [(obj, pos)]) o) ;;;
  update_node obj (with_parent (Some self)).

(** ** Dimensions (lines 87-103, 129-153, 177-202, 260-280) *)

Definition Object_width (self : oid) : M Z :=
  o <- get_node self ;;
  match _w o with
  | Some v => ret v
  | None => raise AssertionError
  end.

Definition Object_set_width (self : oid) (val : option Z) : M unit :=
  update_node self (with_w val).

Definition Object_height (self : oid) : M Z :=
  o <- get_node self ;;
  match _h o with
  | Some v => ret v
  | None => raise AssertionError
  end.

Definition Object_set_height (self : oid) (val : option Z) : M unit :=
  update_node self (with_h val).

(** [VLayout.width]; [width] is the getter of a child, whatever its class.
    The running maximum lives in [self._w]: the argument [self._w] of [max]
    is loaded before the child is read, and [max] is applied after. *)
Definition VLayout_width (width : oid -> M Z) (self : oid) : M Z :=
  update_node self (with_w (Some 0)) ;;;
  o <- get_node self ;;
  for_each (children o) (fun '(obj, offset) =>
    s <- get_node self ;;
    w <- width obj ;;
    cur <- as_int (_w s) ;;
    update_node self (with_w (Some (Z.max cur (w + px offset))))) ;;;
  s <- get_node self ;;
  as_int (_w s).

Definition VLayout_height (height : oid -> M Z) (self : oid) : M Z :=
  update_node self (with_h (Some 0)) ;;;
  o <- get_node self ;;
  for_each (children o) (fun '(obj, offset) =>
    s <- get_node self ;;
    h <- height obj ;;
    cur <- as_int (_h s) ;;
    update_node self (with_h (Some (cur + (h + py offset))))) ;;;
  s <- get_node self ;;
  as_int (_h s).

Definition HLayout_width (width : oid -> M Z) (self : oid) : M Z :=
  update_node self (with_w (Some 0)) ;;;
  o <- get_node self ;;
  for_each (children o) (fun '(obj, offset) =>
    s <- get_node self ;;
    w <- width obj ;;
    cur <- as_int (_w s) ;;
    update_node self (with_w (Some (cur + (w + px offset))))) ;;;
  s <- get_node self ;;
  as_int (_w s).

Definition HLayout_height (height : oid -> M Z) (self : oid) : M Z :=
  update_node self (with_h (Some 0)) ;;;
  o <- get_node self ;;
  for_each (children o) (fun '(obj, offset) =>
    s <- get_node self ;;
    h <- height obj ;;
    cur <- as_int (_h s) ;;
    update_node self (with_h (Some (Z.max cur (h + py offset))))) ;;;
  s <- get_node self ;;
  as_int (_h s).

(** [TextBox] repeats the getters of [Object]. *)
Definition TextBox_width (self : oid) : M Z :=
  o <- get_node self ;;
  match _w o with
  | Some v => ret v
  | None => raise AssertionError
  end.

Definition TextBox_height (self : oid) : M Z :=
  o <- get_node self ;;
  match _h o with
  | Some v => ret v
  | None => raise AssertionError
  end.

Definition TextBox_set_width (self : oid) (val : option Z) : M unit :=
  update_node self (with_w val).

(** [TextBox.height]'s setter recentres the text (lines 274-280). *)
Definition TextBox_set_height (self : oid) (val : option Z) : M unit :=
  update_node self (with_h val) ;;;
  o <- get_node self ;;
  match children o with
  | [] => raise IndexError
  | (t, _) :: _ =>
      w <- TextBox_width self ;;
      h <- TextBox_height self ;;
      update_node self (fun o' =>
        with_children (<[0%nat := (t, P (w / 2) (h / 2))]> (children o')) o')
  end.

(** Reading [obj.width]: the getter of the object's class.  The fuel bounds
    the depth of the calls, as the interpreter's recursion limit does. *)
Fixpoint width (fuel : nat) (self : oid) : M Z :=
  match fuel with
  | O => raise RecursionError
  | S n =>
      o <- get_node self ;;
      match cls o with
      | VLayout _ => VLayout_width (width n) self
      | HLayout _ | Table _ => HLayout_width (width n) self
      | TextBox => TextBox_width self
      | _ => Object_width self
      end
  end.

Fixpoint height (fuel : nat) (self : oid) : M Z :=
  match fuel with
  | O => raise RecursionError
  | S n =>
      o <- get_node self ;;
      match cls o with
      | VLayout _ => VLayout_height (height n) self
      | HLayout _ | Table _ => HLayout_height (height n) self
      | TextBox => TextBox_height self
      | _ => Object_height self
      end
  end.

(** Assigning [obj.width] and [obj.height]: the setter of the object's
    class. *)
Definition set_width (self : oid) (val : option Z) : M unit :=
  o <- get_node self ;;
  match cls o with
  | TextBox => TextBox_set_width self val
  | _ => Object_set_width self val
  end.

Definition set_height (self : oid) (val : option Z) : M unit :=
  o <- get_node self ;;
  match cls o with
  | TextBox => TextBox_set_height self val
  | _ => Object_set_height self val
  end.

(** ** The prepare pass (lines 109-111, 296-304, 368-374) *)

Definition Object_prepare (prepare : oid -> M unit) (self : oid) : M unit :=
  o <- get_node self ;;
  for_each (children o) (fun '(obj, _) => prepare obj).

Definition Table_prepare (prepare : oid -> M unit) (height : oid -> M Z)
    (self : oid) : M unit :=
  Object_prepare prepare self ;;;
  update_node self (with_h (Some 0)) ;;;
  o <- get_node self ;;
  for_each (children o) (fun '(obj, _) =>
    s <- get_node self ;;
    h <- height obj ;;
    cur <- as_int (_h s) ;;
    update_node self (with_h (Some (Z.max cur h)))) ;;;
  o <- get_node self ;;
  for_each (children o) (fun '(obj, _) =>
    s <- get_node self ;;
    set_height obj (_h s)).

Definition Text_prepare (renderer : Renderer) (prepare : oid -> M unit)
    (self : oid) : M unit :=
  Object_prepare prepare self ;;;
  o <- get_node self ;;
  if py_not (_w o) || py_not (_h o) then
    match cls o with
    | Text text _ =>
        emit (call_text_bbox text (style o)) ;;;
        let '(_, _, right_, bottom) := text_bbox renderer text (style o) in
        o1 <- get_node self ;;
        Object_set_width self (Some (py_or (_w o1) right_)) ;;;
        o2 <- get_node self ;;
        Object_set_height self (Some (py_or (_h o2) bottom))
    | _ => raise TypeError
    end
  else ret tt.

Fixpoint prepare (fuel : nat) (renderer : Renderer) (self : oid) : M unit :=
  match fuel with
  | O => raise RecursionError
  | S n =>
      o <- get_node self ;;
      match cls o with
      | Table _ => Table_prepare (prepare n renderer) (height n) self
      | Text _ _ => Text_prepare renderer (prepare n renderer) self
      | _ => Object_prepare (prepare n renderer) self
      end
  end.

(** ** The render pass *)

(** [Object.render] (lines 113-118). *)
Definition Object_render (render : oid -> Point -> M unit)
    (self : oid) (pos : Point) : M unit :=
  let x := px pos in
  let y := py pos in
  o <- get_node self ;;
  for_each (children o) (fun '(obj, offset) =>
    let offx := px offset in
    let offy := py offset in
    render obj (P (x + offx) (y + offy))).

(** [VLayout.render] (lines 155-169); [width] and [height] read a
    dimension of any object, [self] included. *)
Definition VLayout_render (width height : oid -> M Z)
    (render : oid -> Point -> M unit) (self : oid) (pos : Point) : M unit :=
  let x := px pos in
  let y := py pos in
  self_width <- width self ;;
  let centerx := x + self_width / 2 in
  o <- get_node self ;;
  for_each_acc (children o) (fun y '(obj, offset) =>
    let offx := px offset in
    let offy := py offset in
    let obj_posx := x + offx in
    obj_width <- width obj ;;
    let obj_centerx := obj_posx + obj_width / 2 in
    render obj (P (obj_posx + centerx - obj_centerx) (y + offy)) ;;;
    obj_height <- height obj ;;
    ret (y + (obj_height + offy))) y ;;;
  ret tt.

(** [HLayout.render] (lines 204-210). *)
Definition HLayout_render (width : oid -> M Z)
    (render : oid -> Point -> M unit) (self : oid) (pos : Point) : M unit :=
  let x := px pos in
  let y := py pos in
  o <- get_node self ;;
  for_each_acc (children o) (fun x '(obj, offset) =>
    let offx := px offset in
    let offy := py offset in
    render obj (P (x + offx) (y + offy)) ;;;
    obj_width <- width obj ;;
    ret (x + (obj_width + offx))) x ;;;
  ret tt.

(** [Rectangle.render] (lines 215-218): the corners use [_w] and [_h]
    directly. *)
Definition Rectangle_render (render : oid -> Point -> M unit)
    (self : oid) (pos : Point) : M unit :=
  let x := px pos in
  let y := py pos in
  o <- get_node self ;;
  w <- as_int (_w o) ;;
  h <- as_int (_h o) ;;
  emit (call_rectangle (x, y) (x + w, y + h) (style o)) ;;;
  Object_render render self pos.

(** [Line.render] (lines 231-232). *)
Definition Line_render (self : oid) (pos : Point) : M unit :=
  o <- get_node self ;;
  match cls o with
  | Line start end_ | DottedLine start end_ _ | Arrow start end_ _ _ =>
      emit (call_line (NPoint_of (Point_add start pos))
                      (NPoint_of (Point_add end_ pos)) (style o))
  | _ => raise TypeError
  end.

(** The length of [range(start, stop, step)]. *)
Definition range_len (start stop step : Z) : Z :=
  if 0 <? step then
    if start <? stop then (stop - start - 1) / step + 1 else 0
  else
    if stop <? start then (start - stop - 1) / (- step) + 1 else 0.

(** [range(start, stop, step)]; a zero step raises [ValueError]. *)
Definition py_range (start stop step : Z) : M (list Z) :=
  if step =? 0 then raise ValueError
  else ret (map (fun i => start + Z.of_nat i * step)
                (seq 0 (Z.to_nat (range_len start stop step)))).

(** [int(length)]: a NaN raises [ValueError], an infinity
    [OverflowError]. *)
Definition py_int (f : float) : M Z :=
  match f2z f with
  | Some z => ret z
  | None => raise (if is_nan f then ValueError else OverflowError)
  end.

(** The body of the loop of [DottedLine.render] (lines 323-326): one dash
    from the cursor, and the cursor's next value. *)
Definition dash_step (u : NPoint) (dash_len : Z) (s : Style)
    (xy1 : NPoint) (_ : Z) : M NPoint :=
  half <- lift (NPoint_py_mul u (dash_len / 2)) ;;
  xy2 <- lift (NPoint_py_add xy1 half) ;;
  emit (call_line xy1 xy2 s) ;;;
  full <- lift (NPoint_py_mul u dash_len) ;;
  lift (NPoint_py_add xy1 full).

(** The direction of [DottedLine.render] (lines 317-320). *)
Definition dash_direction (start end_ : Point) (length : float)
    : Result NPoint :=
  if negb (px end_ =? px start)
  then NPoint_py_truediv (NPoint_of (Point_sub end_ start)) length
  else Ok (NPoint_of (P 0 1)).

(** The length of [DottedLine.render] (lines 313-315); the base of the
    power is a sum of squares of ints, an int that is never negative. *)
Definition segment_length (pf : Platform) (start end_ : Point) : Result float :=
  pow_half pf ((px end_ - px start) ^ 2 + (py end_ - py start) ^ 2).

(** [DottedLine.render] (lines 312-326). *)
Definition DottedLine_render (self : oid) (pos : Point) : M unit :=
  o <- get_node self ;;
  match cls o with
  | DottedLine start end_ dash_len =>
      pf <- get_platform ;;
      length <- lift (segment_length pf start end_) ;;
      u <- lift (dash_direction start end_ length) ;;
      let xy1 := NPoint_of (Point_add start pos) in
      n <- py_int length ;;
      r <- py_range 0 n dash_len ;;
      for_each_acc r (dash_step u dash_len (style o)) xy1 ;;;
      ret tt
  | _ => raise TypeError
  end.

(** [Arrow.render] (lines 335-351). *)
Definition Arrow_render (self : oid) (pos : Point) : M unit :=
  o <- get_node self ;;
  match cls o with
  | Arrow start end_ double_sided alen =>
      let line p1 p2 := emit (call_line (NPoint_of p1) (NPoint_of p2) (style o)) in
      line (Point_add start pos) (Point_add end_ pos) ;;;
      line (Point_add pos end_) (Point_sub_scalar (Point_add pos end_) alen) ;;;
      line (Point_add pos end_) (Point_add (Point_add pos end_) (P (- alen) alen)) ;;;
      if double_sided then
        line (Point_add pos start) (Point_add (Point_add pos start) (P alen (- alen))) ;;;
        line (Point_add pos start) (Point_add_scalar (Point_add pos start) alen)
      else ret tt
  | _ => raise TypeError
  end.

Definition replace_anchor (s : Style) (a : Anchor) : Style :=
  Style_replace s (mkStyleKw None None None (Some a) None None None).

(** [Text.render] (lines 376-383); [Align.RIGHT] is the string "right". *)
Definition Text_render (self : oid) (pos : Point) : M unit :=
  o <- get_node self ;;
  match cls o with
  | Text text align =>
      match align with
      | RIGHT =>
          w <- Object_width self ;;
          let pos := Point_add pos (P w 0) in
          emit (call_text text pos (replace_anchor (style o) TOP_RIGHT))
      | _ => emit (call_text text pos (style o))
      end
  | _ => raise TypeError
  end.

(** [Canvas.render] (lines 390-408). *)
Definition Canvas_render (prepare : oid -> M unit)
    (width height : oid -> M Z) (render : oid -> Point -> M unit)
    (self : oid) (pos : Point) : M unit :=
  o <- get_node self ;;
  let pad := padding (style o) in
  Object_set_width self (Some pad) ;;;
  Object_set_height self (Some pad) ;;;
  let pos := Point_add_scalar pos pad in
  o <- get_node self ;;
  for_each (children o) (fun '(obj, offset) =>
    prepare obj ;;;
    render obj (Point_add pos offset) ;;;
    let x := px (Point_add offset pos) in
    let y := py (Point_add offset pos) in
    self_width <- Object_width self ;;
    obj_width <- width obj ;;
    Object_set_width self (Some (Z.max self_width (obj_width + x))) ;;;
    self_height <- Object_height self ;;
    obj_height <- height obj ;;
    Object_set_height self (Some (Z.max self_height (obj_height + y)))) ;;;
  self_width <- Object_width self ;;
  Object_set_width self (Some (self_width + pad)) ;;;
  self_height <- Object_height self ;;
  Object_set_height self (Some (self_height + pad)) ;;;
  self_width <- Object_width self ;;
  self_height <- Object_height self ;;
  emit (call_set_dimensions (self_width, self_height)).

(** Calling [obj.render(renderer, pos)]: the method of the object's class. *)
Fixpoint render (fuel : nat) (renderer : Renderer) (self : oid) (pos : Point)
    : M unit :=
  match fuel with
  | O => raise RecursionError
  | S n =>
      o <- get_node self ;;
      match cls o with
      | Object | Spacer => Object_render (render n renderer) self pos
      | VLayout _ =>
          VLayout_render (width n) (height n) (render n renderer) self pos
      | HLayout _ | Table _ =>
          HLayout_render (width n) (render n renderer) self pos
      | Rectangle | TextBox => Rectangle_render (render n renderer) self pos
      | Line _ _ => Line_render self pos
      | DottedLine _ _ _ => DottedLine_render self pos
      | Arrow _ _ _ _ => Arrow_render self pos
      | Text _ _ => Text_render self pos
      | Canvas =>
          Canvas_render (prepare n renderer) (width n) (height n)
                        (render n renderer) self pos
      end
  end.

(** ** The constructors of the subclasses *)

Definition VLayout_init (align : Align) (kw : Kwargs) : M oid :=
  Object_init (VLayout align) kw.

Definition HLayout_init (align : Align) (kw : Kwargs) : M oid :=
  Object_init (HLayout align) kw.

Definition Table_init (align : Align) (kw : Kwargs) : M oid :=
  Object_init (Table align) kw.

Definition Rectangle_init (kw : Kwargs) : M oid := Object_init Rectangle kw.

Definition Canvas_init (kw : Kwargs) : M oid := Object_init Canvas kw.

(** [Line.__init__] passes [width=] and [height=] itself: a caller's own
    is a second value for the same keyword. *)
Definition Line_kwargs (start end_ : Point) (kw : Kwargs) : M Kwargs :=
  if given (kw_width kw) || given (kw_height kw) then raise TypeError
  else ret (mkKwargs (Some (Z.max (px start) (px end_)))
                     (Some (Z.max (py start) (py end_)))
                     (kw_style kw) (kw_rest kw)).

Definition Line_init (end_ start : Point) (kw : Kwargs) : M oid :=
  kw' <- Line_kwargs start end_ kw ;;
  Object_init (Line start end_) kw'.

Definition DottedLine_init (dash_len : Z) (end_ start : Point) (kw : Kwargs)
    : M oid :=
  kw' <- Line_kwargs start end_ kw ;;
  Object_init (DottedLine start end_ dash_len) kw'.

Definition Arrow_init (double_sided : bool) (arrow_length : Z)
    (end_ start : Point) (kw : Kwargs) : M oid :=
  kw' <- Line_kwargs start end_ kw ;;
  Object_init (Arrow start end_ double_sided arrow_length) kw'.

(** [Spacer.__init__] (lines 355-358). *)
Definition Spacer_init (kw : Kwargs) : M oid :=
  self <- Object_init Spacer kw ;;
  o <- get_node self ;;
  Object_set_width self (Some (py_or (_w o) (padding (style o)))) ;;;
  o <- get_node self ;;
  Object_set_height self (Some (py_or (_h o) (padding (style o)))) ;;;
  ret self.

Definition Text_init (text : string) (align : Align) (kw : Kwargs) : M oid :=
  Object_init (Text text align) kw.

(** [TextBox.__init__] (lines 247-258). *)
Definition TextBox_init (text : string) (align : Anchor) (kw : Kwargs) : M oid :=
  self <- Object_init TextBox kw ;;
  o <- get_node self ;;
  sp <-
    match align with
    | MIDDLE_MIDDLE =>
        w <- TextBox_width self ;;
        h <- TextBox_height self ;;
        ret (replace_anchor (style o) MIDDLE_MIDDLE, P (w / 2) (h / 2))
    | _ => ret (style o, P 0 0)
    end ;;
  let style' := fst sp in
  let pos := snd sp in
  w <- TextBox_width self ;;
  h <- TextBox_height self ;;
  t <- Text_init text LEFT (mkKwargs (Some w) (Some h) (Some style') no_overrides) ;;
  Object_add self t pos ;;;
  ret self.

(** A call of a class: which class, and its own arguments. *)
Inductive Ctor :=
| new_Object
| new_VLayout (align : Align)
| new_HLayout (align : Align)
| new_Rectangle
| new_Line (end_ start : Point)
| new_TextBox (text : string) (align : Anchor)
| new_Table (align : Align)
| new_DottedLine (dash_len : Z) (end_ start : Point)
| new_Arrow (double_sided : bool) (arrow_length : Z) (end_ start : Point)
| new_Spacer
| new_Text (text : string) (align : Align)
| new_Canvas.

Definition construct (k : Ctor) (kw : Kwargs) : M oid :=
  match k with
  | new_Object => Object_init Object kw
  | new_VLayout align => VLayout_init align kw
  | new_HLayout align => HLayout_init align kw
  | new_Rectangle => Rectangle_init kw
  | new_Line end_ start => Line_init end_ start kw
  | new_TextBox text align => TextBox_init text align kw
  | new_Table align => Table_init align kw
  | new_DottedLine dash_len end_ start => DottedLine_init dash_len end_ start kw
  | new_Arrow double_sided arrow_length end_ start =>
      Arrow_init double_sided arrow_length end_ start kw
  | new_Spacer => Spacer_init kw
  | new_Text text align => Text_init text align kw
  | new_Canvas => Canvas_init kw
  end.

(** The style [Object.__init__] gives a node built without [style=] when
    the default is [d]: [d], with the fields the call overrides. *)
Definition captured_style (d : Style) (kw : Kwargs) : Style :=
  if has_overrides (kw_rest kw) then Style_replace d (kw_rest kw) else d.

(** ** Stored and derived dimensions *)

(** The classes whose [width] and [height] are recomputed on every read. *)
Definition derived (c : Class) : bool :=
  match c with
  | VLayout _ | HLayout _ | Table _ => true
  | _ => false
  end.

(** A node without what a derived class caches in [_w] and [_h]. *)
Definition erase (o : Node) : Node :=
  if derived (cls o) then with_w None (with_h None o) else o.

(** Two states that differ at most in the caches of derived nodes. *)
Definition sim (st st' : State) : Prop :=
  erase <$> heap st = erase <$> heap st'
  /\ next_id st = next_id st'
  /\ default_style st = default_style st'
  /\ calls st = calls st'.

(** One iteration of a loop that accumulates a dimension in a field of
    [self] (the getters of the layouts, the first loop of [Table.prepare]). *)
Definition dim_step (getf : Node -> option Z) (setf : option Z -> Node -> Node)
    (step : Z -> Z -> Point -> Z) (rec : oid -> M Z) (self : oid)
    (child : oid * Point) : M unit :=
  s <- get_node self ;;
  w <- rec (fst child) ;;
  cur <- as_int (getf s) ;;
  update_node self (setf (Some (step cur w (snd child)))).

(** What such a loop leaves in the field, from the values the children
    returned. *)
Definition accumulate (step : Z -> Z -> Point -> Z) (cs : list (oid * Point))
    (ws : list Z) (acc : Z) : Z :=
  fold_left (fun a wc => step a (fst wc) (snd (snd wc))) (zip ws cs) acc.

(** Every child of the list, read in state [st], returns its entry of [ws]. *)
Definition reads (rec : oid -> M Z) (st : State) (cs : list (oid * Point))
    (ws : list Z) : Prop :=
  Forall2 (fun c w => exists st', rec (fst c) st = Ok (w, st')) cs ws.

(** The shape the four getters of the layouts share: reset the field, loop
    over the children, return the field. *)
Definition derived_dim (getf : Node -> option Z) (setf : option Z -> Node -> Node)
    (step : Z -> Z -> Point -> Z) (rec : oid -> M Z) (self : oid) : M Z :=
  update_node self (setf (Some 0)) ;;;
  o <- get_node self ;;
  for_each (children o) (dim_step getf setf step rec self) ;;;
  s <- get_node self ;;
  as_int (getf s).

Definition max_step (sel : Point -> Z) (cur w : Z) (offset : Point) : Z :=
  Z.max cur (w + sel offset).

Definition sum_step (sel : Point -> Z) (cur w : Z) (offset : Point) : Z :=
  cur + (w + sel offset).

(** The extent of each child along one axis: its dimension plus its offset
    on that axis ([ci.width + oi.x], [ci.height + oi.y]). *)
Definition extents (sel : Point -> Z) (cs : list (oid * Point)) (ws : list Z)
    : list Z :=
  zip_with (fun w c => w + sel (snd c)) ws cs.

(** The maximum of a list as the spec writes it ([max_i]), 0 when there is
    no child. *)
Definition max_of (l : list Z) : Z :=
  match l with
  | [] => 0
  | x :: l' => fold_left Z.max l' x
  end.

(** ** What an operation on a node can touch *)

Definition kids (o : Node) : list oid := map fst (children o).

(** What no operation changes in a node: its class, its style and which
    children it has. *)
Definition shape (o : Node) : Class * Style * list oid :=
  (cls o, style o, kids o).

(** The node, its children, their children and so on, to the depth the fuel
    allows. *)
Fixpoint descendants (fuel : nat) (h : gmap oid Node) (self : oid) : list oid :=
  self :: match fuel with
          | O => []
          | S n =>
              match h !! self with
              | Some o => flat_map (descendants n h) (kids o)
              | None => []
              end
          end.

(** From [st] to [st'] every node kept its shape, and the nodes outside [S]
    are as they were, up to the caches. *)
Definition frame (S : list oid) (st st' : State) : Prop :=
  shape <$> heap st = shape <$> heap st'
  /\ forall id, ~ In id S -> erase <$> heap st !! id = erase <$> heap st' !! id.

(** The computation [m], run from a state reached from [st0] within [S],
    stays within [S]. *)
Definition keeps {A} (st0 : State) (S : list oid) (m : M A) : Prop :=
  forall s a s', frame S st0 s -> m s = Ok (a, s') -> frame S st0 s'.

(** ** Which calls a pass makes *)

Definition is_set_dimensions (c : Call) : bool :=
  match c with
  | call_set_dimensions _ => true
  | _ => false
  end.

(** None of the nodes [ids] is a canvas. *)
Definition canvas_free (h : gmap oid Node) (ids : list oid) : Prop :=
  forall id x, In id ids -> h !! id = Some x -> cls x <> Canvas.

(** From [s] to [s'] the renderer received more calls, none of them
    [set_dimensions]. *)
Definition no_dimensions_set (s s' : State) : Prop :=
  exists l, calls s' = calls s ++ l
            /\ Forall (fun c => is_set_dimensions c = false) l.

(** The computation [m] never calls [set_dimensions]. *)
Definition grows {A} (m : M A) : Prop :=
  forall s a s', m s = Ok (a, s') -> no_dimensions_set s s'.

(** The same, for a computation run from a state reached from [st0] within
    [S]. *)
Definition quiet {A} (st0 : State) (S : list oid) (m : M A) : Prop :=
  forall s a s', frame S st0 s -> m s = Ok (a, s') -> no_dimensions_set s s'.

(** ** The text's own step of [Text.prepare] *)

Definition bbox_right (b : Z * Z * Z * Z) : Z := snd (fst b).
Definition bbox_bottom (b : Z * Z * Z * Z) : Z := snd b.

(** The node [o] of a text once measured: a dimension that is [None] or 0
    becomes the measured one. *)
Definition measured_node (renderer : Renderer) (text : string) (o : Node) : Node :=
  let b := text_bbox renderer text (style o) in
  with_h (Some (py_or (_h o) (bbox_bottom b)))
         (with_w (Some (py_or (_w o) (bbox_right b))) o).

(** The state after the text [self], whose node is [o], has asked the
    renderer for its extent and stored it. *)
Definition measured (renderer : Renderer) (self : oid) (text : string) (o : Node)
    (s : State) : State :=
  mkState (<[self := measured_node renderer text o]> (heap s))
          (next_id s) (default_style s)
          (calls s ++ [call_text_bbox text (style o)]) (platform s).

(** Whether [Text.prepare] measures: [not self._w or not self._h]. *)
Definition needs_measure (o : Node) : bool := py_not (_w o) || py_not (_h o).

(** The keyword arguments with a zero [width] or [height] left out. *)
Definition drop_zero (a : option Z) : option Z :=
  match a with
  | Some v => if v =? 0 then None else Some v
  | None => None
  end.

Definition without_zero_dimensions (kw : Kwargs) : Kwargs :=
  mkKwargs (drop_zero (kw_width kw)) (drop_zero (kw_height kw))
           (kw_style kw) (kw_rest kw).

(** ** Cells of a table *)

(** Whether [obj.height = v] goes through: the setter of a text box reads
    its width and recentres its first child. *)
Definition height_settable (st : State) (obj : oid) : bool :=
  match heap st !! obj with
  | Some o =>
      match cls o with
      | TextBox => given (_w o) && match children o with [] => false | _ => true end
      | _ => true
      end
  | None => false
  end.

(** The stored height of [obj] is [m]. *)
Definition height_is (m : Z) (st : State) (obj : oid) : Prop :=
  exists o, heap st !! obj = Some o /\ _h o = Some m.

(** The running maximum of the first loop of [Table.prepare]. *)
Definition max_plain (cur h : Z) (_ : Point) : Z := Z.max cur h.

(** The state in which node [self] is [o]. *)
Definition put (self : oid) (o : Node) (st : State) : State :=
  with_heap (<[self := o]> (heap st)) st.

(** ** Placing children, in the words of the spec *)

(** The x at which a child [w] wide stands in a layout [W] wide drawn at
    [x] so that the centres agree: [centred_x + w // 2 = x + W // 2]. *)
Definition centred_x (x W w : Z) : Z := x + W / 2 - w / 2.

(** A vertical layout keeps a y cursor that starts at the layout's y and
    moves on by [child.height + offset.y]; each child is centred on the
    layout along x and drawn at the cursor plus its y offset. *)
Definition VLayout_render_spec (width height : oid -> M Z)
    (render : oid -> Point -> M unit) (self : oid) (pos : Point) : M unit :=
  layout_width <- width self ;;
  o <- get_node self ;;
  for_each_acc (children o) (fun cursor child =>
    child_width <- width (fst child) ;;
    render (fst child)
           (P (centred_x (px pos) layout_width child_width)
              (cursor + py (snd child))) ;;;
    child_height <- height (fst child) ;;
    ret (cursor + (child_height + py (snd child)))) (py pos) ;;;
  ret tt.

(** A horizontal layout keeps an x cursor that starts at the layout's x and
    moves on by [child.width + offset.x]; each child is drawn at the cursor
    (and the layout's y) moved by its offset, without centring. *)
Definition HLayout_render_spec (width : oid -> M Z)
    (render : oid -> Point -> M unit) (self : oid) (pos : Point) : M unit :=
  o <- get_node self ;;
  for_each_acc (children o) (fun cursor child =>
    render (fst child) (Point_add (P cursor (py pos)) (snd child)) ;;;
    child_width <- width (fst child) ;;
    ret (cursor + (child_width + px (snd child)))) (px pos) ;;;
  ret tt.

(** Every child drawn at [base] moved by the child's offset. *)
Definition render_translated (render : oid -> Point -> M unit)
    (self : oid) (base : Point) : M unit :=
  o <- get_node self ;;
  for_each (children o) (fun child =>
    render (fst child) (Point_add base (snd child))).

(** A rectangle draws itself, then its children at its own position moved by
    their offsets. *)
Definition Rectangle_render_spec (render : oid -> Point -> M unit)
    (self : oid) (pos : Point) : M unit :=
  o <- get_node self ;;
  w <- as_int (_w o) ;;
  h <- as_int (_h o) ;;
  emit (call_rectangle (px pos, py pos) (px pos + w, py pos + h) (style o)) ;;;
  render_translated render self pos.

(** A canvas prepares each child and draws it at the canvas position, padded,
    moved by the child's offset; it grows to the child's far corner, adds the
    padding once more and reports its dimensions. *)
Definition Canvas_render_spec (prepare : oid -> M unit)
    (width height : oid -> M Z) (render : oid -> Point -> M unit)
    (self : oid) (pos : Point) : M unit :=
  o <- get_node self ;;
  let pad := padding (style o) in
  let base := Point_add_scalar pos pad in
  Object_set_width self (Some pad) ;;;
  Object_set_height self (Some pad) ;;;
  o <- get_node self ;;
  for_each (children o) (fun child =>
    let at_ := Point_add base (snd child) in
    prepare (fst child) ;;;
    render (fst child) at_ ;;;
    w <- Object_width self ;;
    child_width <- width (fst child) ;;
    Object_set_width self (Some (Z.max w (child_width + px at_))) ;;;
    h <- Object_height self ;;
    child_height <- height (fst child) ;;
    Object_set_height self (Some (Z.max h (child_height + py at_)))) ;;;
  w <- Object_width self ;;
  Object_set_width self (Some (w + pad)) ;;;
  h <- Object_height self ;;
  Object_set_height self (Some (h + pad)) ;;;
  w <- Object_width self ;;
  h <- Object_height self ;;
  emit (call_set_dimensions (w, h)).

(** ** Dotted lines, in the words of the spec *)

(** The state after the renderer received [cs] more calls. *)
Definition log (cs : list Call) (st : State) : State :=
  mkState (heap st) (next_id st) (default_style st) (calls st ++ cs) (platform st).

(** [n] dashes from the cursor [xy1]: each a segment that starts at the
    cursor and ends [dash_len // 2] times the direction [u] further, the
    cursor then advanced by [dash_len] times [u]; the first operation that
    raises ends the drawing. *)
Fixpoint dashes (u : NPoint) (dash_len : Z) (s : Style) (xy1 : NPoint) (n : nat)
    : Result (list Call) :=
  match n with
  | O => Ok []
  | S n' =>
      let? half := NPoint_py_mul u (dash_len / 2) in
      let? xy2 := NPoint_py_add xy1 half in
      let? full := NPoint_py_mul u dash_len in
      let? next := NPoint_py_add xy1 full in
      let? rest := dashes u dash_len s next n' in
      Ok (call_line xy1 xy2 s :: rest)
  end.

(** The number of dashes the spec gives: floor(segment length / dash_len),
    for a length [len] and a dash length that a float holds. *)
Definition claimed_dash_count (len : float) (dash_len : Z) : option Z :=
  f2z (len / z2f dash_len).

(** ** Scenes *)

(** The state a construction script leaves, started on an empty store. *)
Definition build {A} (script : M A) : State :=
  match script initial_state with
  | Ok (_, st) => st
  | Err _ => initial_state
  end.

Definition sized (w h : Z) : Kwargs := mkKwargs (Some w) (Some h) None no_overrides.

(** A vertical layout (object 0) whose only child, a 5 by 5 rectangle
    (object 1), sits at offset (-10, 0). *)
Definition negative_offset_scene : State :=
  build (v <- VLayout_init CENTER no_kwargs ;;
         c <- Rectangle_init (sized 5 5) ;;
         Object_add v c (P (-10) 0)).

(** A vertical layout (object 0) and a horizontal one (object 1) over the
    same two rectangles: 10 by 20 at offset (1, 2) and 30 by 5 at (3, 4). *)
Definition two_children_scene : State :=
  build (v <- VLayout_init CENTER no_kwargs ;;
         h <- HLayout_init CENTER no_kwargs ;;
         a <- Rectangle_init (sized 10 20) ;;
         b <- Rectangle_init (sized 30 5) ;;
         Object_add v a (P 1 2) ;;;
         Object_add v b (P 3 4) ;;;
         Object_add h a (P 1 2) ;;;
         Object_add h b (P 3 4)).

(** A rectangle built without dimensions (object 0). *)
Definition unsized_scene : State := build (Rectangle_init no_kwargs).

(** A red-on-white style, to replace the default with. *)
Definition red_style : Style :=
  mkStyle 4 "Mono.ttf" 12 TOP_LEFT "red" "white" "red".

(** [unsized_scene] after [set_style(red_style)], and after a text (object
    1) is built then. *)
Definition restyled_scene : State :=
  build (Rectangle_init no_kwargs ;;; set_style red_style).

Definition text_after_scene : State :=
  build (Rectangle_init no_kwargs ;;; set_style red_style ;;;
         Text_init "a" LEFT no_kwargs).

(** A renderer for which every text is 40 by 12. *)
Definition fixed_renderer : Renderer := mkRenderer (fun _ _ => (0, 0, 40, 12)).

(** A dotted line (object 0) from (0,0) to ([len],0). *)
Definition dotted_scene (len dash_len : Z) : State :=
  build (DottedLine_init dash_len (P len 0) (P 0 0) no_kwargs).

(** A vertical layout (object 0) over one 10 by 10 rectangle (object 1) at
    offset [offset]. *)
Definition one_child_vlayout_scene (offset : Point) : State :=
  build (v <- VLayout_init CENTER no_kwargs ;;
         c <- Rectangle_init (sized 10 10) ;;
         Object_add v c offset).

(** A text 30 by 5 (object 0) to which a 10 by 10 rectangle (object 1) was
    added at offset (4, 0). *)
Definition text_with_child_scene : State :=
  build (t <- Text_init "ab" LEFT (sized 30 5) ;;
         c <- Rectangle_init (sized 10 10) ;;
         Object_add t c (P 4 0)).

(** A vertical layout (object 0) over a 40 by 10 and a 10 by 20 rectangle
    (objects 1 and 2), at offsets (0,0) and (6,3). *)
Definition stacked_scene : State :=
  build (v <- VLayout_init CENTER no_kwargs ;;
         a <- Rectangle_init (sized 40 10) ;;
         b <- Rectangle_init (sized 10 20) ;;
         Object_add v a (P 0 0) ;;;
         Object_add v b (P 6 3)).

(** A text (object 0) built with [width=0, height=5]. *)
Definition zero_width_text_scene : State :=
  build (Text_init "ab" LEFT (sized 0 5)).

(** A text (object 0) built with [width=30, height=5]. *)
Definition sized_text_scene : State :=
  build (Text_init "ab" LEFT (sized 30 5)).

(** A table (object 0) with three cells 10, 25 and 15 high (objects 1, 2
    and 3, each 20 wide). *)
Definition table_scene : State :=
  build (t <- Table_init CENTER no_kwargs ;;
         a <- Rectangle_init (sized 20 10) ;;
         b <- Rectangle_init (sized 20 25) ;;
         c <- Rectangle_init (sized 20 15) ;;
         Object_add t a (P 0 0) ;;;
         Object_add t b (P 0 0) ;;;
         Object_add t c (P 0 0)).

(** A table (object 0) with two cells, vertical layouts (objects 1 and 2)
    over one 10 by 5 rectangle each (objects 3 and 4), at the offsets
    (0, -10) and (0, -8): the cells are -5 and -3 high. *)
Definition sunken_table_scene : State :=
  build (t <- Table_init CENTER no_kwargs ;;
         a <- VLayout_init CENTER no_kwargs ;;
         b <- VLayout_init CENTER no_kwargs ;;
         r <- Rectangle_init (sized 10 5) ;;
         q <- Rectangle_init (sized 10 5) ;;
         Object_add a r (P 0 (-10)) ;;;
         Object_add b q (P 0 (-8)) ;;;
         Object_add t a (P 0 0) ;;;
         Object_add t b (P 0 0)).

(** A canvas (object 0) with the default style, whose padding is 10, holding
    one 50 by 30 rectangle (object 1) at offset (0, 0). *)
Definition canvas_scene : State :=
  build (c <- Canvas_init no_kwargs ;;
         r <- Rectangle_init (sized 50 30) ;;
         Object_add c r (P 0 0)).

(** ** What a constructor leaves in the store *)

(** The style [Object.__init__] ends with: the [style=] argument, or else
    the default of the moment, with the fields the call overrides. *)
Definition init_style (st : State) (kw : Kwargs) : Style :=
  captured_style (default (default_style st) (kw_style kw)) kw.

(** The two end points a line class is built from, [start] first. *)
Definition endpoints (k : Ctor) : option (Point * Point) :=
  match k with
  | new_Line end_ start | new_DottedLine _ end_ start
  | new_Arrow _ _ end_ start => Some (start, end_)
  | _ => None
  end.

(** A text box 40 by 20 (object 0) around the text "hi" (object 1), built
    with the anchor [MIDDLE_MIDDLE]. *)
Definition textbox_scene : State :=
  build (TextBox_init "hi" MIDDLE_MIDDLE (sized 40 20)).

(** A right-aligned text (object 0) built without dimensions. *)
Definition right_text_scene : State :=
  build (Text_init "ab" RIGHT no_kwargs).

(** ** The calls a computation adds *)

Definition is_text_bbox (c : Call) : bool :=
  match c with
  | call_text_bbox _ _ => true
  | _ => false
  end.

(** From [s] to [s'] no object was created, the default style is the same,
    and the renderer received more calls, all of them accepted by [ok]. *)
Definition called_only (ok : Call -> bool) (s s' : State) : Prop :=
  next_id s' = next_id s
  /\ default_style s' = default_style s
  /\ exists l, calls s' = calls s ++ l /\ Forall (fun c => ok c = true) l.

Definition emits_only {A} (ok : Call -> bool) (m : M A) : Prop :=
  forall s a s', m s = Ok (a, s') -> called_only ok s s'.

(** ** Vertical dotted lines *)

(** [count] dashes down from ([x], [y]), in integers: dash [i] starts
    [i * dash_len] below and is [dash_len // 2] long. *)
Definition vertical_dashes (x y dash_len : Z) (s : Style) (count : nat)
    : list Call :=
  map (fun i =>
         call_line (NPoint_of (P x (y + Z.of_nat i * dash_len)))
                   (NPoint_of (P x (y + Z.of_nat i * dash_len + dash_len / 2))) s)
      (seq 0 count).

(** A dotted line (object 0) from (5, 40) up to (5, 10), with dashes of 10. *)
Definition upward_dotted_scene : State :=
  build (DottedLine_init 10 (P 5 10) (P 5 40) no_kwargs).

(** ** Cycles *)

(** Every node of [C] has a child in [C]: from any of them the children
    lead on for ever. *)
Definition closed_cycle (h : gmap oid Node) (C : list oid) : Prop :=
  forall x, In x C ->
            exists o y, h !! x = Some o /\ In y (kids o) /\ In y C.

(** A vertical layout (object 0) added to itself. *)
Definition self_child_scene : State :=
  build (v <- VLayout_init CENTER no_kwargs ;; Object_add v v (P 0 0)).

(** Every call. *)
Definition any_call (c : Call) : bool := true.

(** The classes whose [render] goes through the children. *)
Definition walks (c : Class) : bool :=
  match c with
  | Line _ _ | DottedLine _ _ _ | Arrow _ _ _ _ | Text _ _ => false
  | _ => true
  end.

(** ** Canvases *)

(** The canvas node [o] once its dimensions are [w] and [h]. *)
Definition resized (w h : Z) (o : Node) : Node :=
  with_h (Some h) (with_w (Some w) o).

(** A canvas (object 0) without children, built with [padding=7] and
    [width=500]. *)
Definition empty_canvas_scene : State :=
  build (Canvas_init (mkKwargs (Some 500) None None
                        (mkStyleKw (Some 7) None None None None None None))).

(** ** Moving a drawing *)

(** A coordinate of a call moved by [k]: exact on an int, the float moved
    by the float nearest to [k] otherwise. *)
Definition num_move (k : Z) (n : num) : num :=
  match n with
  | NInt z => NInt (z + k)
  | NFloat f => NFloat (f + z2f k)
  end.

Definition NPoint_move (d : Point) (p : NPoint) : NPoint :=
  NP (num_move (px d) (nx p)) (num_move (py d) (ny p)).

(** A call with its coordinates moved by [d]. *)
Definition move_call (d : Point) (c : Call) : Call :=
  match c with
  | call_rectangle (x1, y1) (x2, y2) s =>
      call_rectangle (x1 + px d, y1 + py d) (x2 + px d, y2 + py d) s
  | call_text t p s => call_text t (Point_add p d) s
  | call_line p1 p2 s =>
      call_line (NPoint_move d p1) (NPoint_move d p2) s
  | call_text_bbox _ _ | call_set_dimensions _ => c
  end.

(** The classes that draw at integer coordinates relative to the position
    they are given: all but the canvas, whose dimensions grow with the
    position, and the dotted line, whose dashes are computed in floats. *)
Definition rigid (c : Class) : bool :=
  match c with
  | Canvas | DottedLine _ _ _ => false
  | _ => true
  end.

Definition all_rigid (h : gmap oid Node) (ids : list oid) : Prop :=
  forall id x, In id ids -> h !! id = Some x -> rigid (cls x) = true.

(** The state with the calls [cs] in place of its own. *)
Definition with_calls (cs : list Call) (s : State) : State :=
  mkState (heap s) (next_id s) (default_style s) cs (platform s).

(** A computation that neither reads nor extends the calls. *)
Definition blind {A} (m : M A) : Prop :=
  forall s c0,
    m (with_calls c0 s)
    = match m s with
      | Ok (a, s') => Ok (a, with_calls c0 s')
      | Err e => Err e
      end.

(** [m'] does what [m] does, with every call moved by [d] and results
    related by [R], from any state reached from [st0] within [S]. *)
Definition moves {A} (R : A -> A -> Prop) (d : Point) (st0 : State)
    (S : list oid) (m m' : M A) : Prop :=
  forall s a s',
    frame S st0 s -> m s = Ok (a, s') ->
    exists l a',
      R a a' /\ calls s' = calls s ++ l
      /\ forall c0, m' (with_calls c0 s)
                    = Ok (a', with_calls (c0 ++ map (move_call d) l) s').

(** An arrow with two heads (object 1) and a right-aligned text (object 2)
    in a rectangle (object 0). *)
Definition arrow_scene : State :=
  build (r <- Rectangle_init (sized 60 40) ;;
         a <- Arrow_init true 4 (P 50 20) (P 10 20) no_kwargs ;;
         t <- Text_init "ab" RIGHT (sized 30 12) ;;
         Object_add r a (P 0 0) ;;;
         Object_add r t (P 5 25)).

(** ** Rows and columns of rectangles *)

(** What a child that is a rectangle without children brings to a layout:
    its offset, its dimensions and its style. *)
Record Box := mkBox {
  box_offset : Point;
  box_w : Z;
  box_h : Z;
  box_style : Style
}.

Definition is_box (h : gmap oid Node) (c : oid * Point) (b : Box) : Prop :=
  snd c = box_offset b
  /\ exists r, h !! fst c = Some r /\ cls r = Rectangle /\ children r = []
               /\ _w r = Some (box_w b) /\ _h r = Some (box_h b)
               /\ style r = box_style b.

(** The rectangles a row draws from the cursor [x]: each at the cursor moved
    by its offset, the cursor then moving on by the width and the offset. *)
Fixpoint row_boxes (x y : Z) (bs : list Box) : list Call :=
  match bs with
  | [] => []
  | b :: bs' =>
      call_rectangle (x + px (box_offset b), y + py (box_offset b))
                     (x + px (box_offset b) + box_w b,
                      y + py (box_offset b) + box_h b) (box_style b)
      :: row_boxes (x + (box_w b + px (box_offset b))) y bs'
  end.

(** The rectangles a column [W] wide draws from the cursor [y]. *)
Fixpoint column_boxes (x W y : Z) (bs : list Box) : list Call :=
  match bs with
  | [] => []
  | b :: bs' =>
      call_rectangle (centred_x x W (box_w b), y + py (box_offset b))
                     (centred_x x W (box_w b) + box_w b,
                      y + py (box_offset b) + box_h b) (box_style b)
      :: column_boxes x W (y + (box_h b + py (box_offset b))) bs'
  end.

Definition x_extents (bs : list Box) : list Z :=
  map (fun b => box_w b + px (box_offset b)) bs.

Definition y_extents (bs : list Box) : list Z :=
  map (fun b => box_h b + py (box_offset b)) bs.

(** The sides of a rectangle drawn: left and right, top and bottom. *)
Definition x_span (c : Call) : Z * Z :=
  match c with
  | call_rectangle (x1, _) (x2, _) _ => (x1, x2)
  | _ => (0, 0)
  end.

Definition y_span (c : Call) : Z * Z :=
  match c with
  | call_rectangle (_, y1) (_, y2) _ => (y1, y2)
  | _ => (0, 0)
  end.

(** The spans follow one another between [lo] and [hi]: none starts before
    the one before it ends. *)
Fixpoint in_order (lo hi : Z) (l : list (Z * Z)) : Prop :=
  match l with
  | [] => lo <= hi
  | (a, b) :: l' => lo <= a /\ a <= b /\ in_order b hi l'
  end.

(** A horizontal layout (object 0) over rectangles 30 by 10 at offset (2, 0)
    and 20 by 15 at offset (5, 1) (objects 1 and 2). *)
Definition row_scene : State :=
  build (h <- HLayout_init CENTER no_kwargs ;;
         a <- Rectangle_init (sized 30 10) ;;
         b <- Rectangle_init (sized 20 15) ;;
         Object_add h a (P 2 0) ;;;
         Object_add h b (P 5 1)).

(** The rectangles a canvas draws: every one at [base] moved by its own
    offset. *)
Definition overlaid_boxes (base : Point) (bs : list Box) : list Call :=
  map (fun b =>
         call_rectangle (px base + px (box_offset b), py base + py (box_offset b))
                        (px base + px (box_offset b) + box_w b,
                         py base + py (box_offset b) + box_h b) (box_style b))
      bs.

(** The right edges, and the bottom edges, of rectangles drawn from [base]. *)
Definition right_edges (base : Point) (bs : list Box) : list Z :=
  map (fun b => box_w b + (px (box_offset b) + px base)) bs.

Definition bottom_edges (base : Point) (bs : list Box) : list Z :=
  map (fun b => box_h b + (py (box_offset b) + py base)) bs.

(** A canvas (object 0) with the default style holding a 50 by 30 rectangle
    at offset (0, 0) and a 20 by 60 one at offset (5, 5) (objects 1 and 2). *)
Definition two_box_canvas_scene : State :=
  build (c <- Canvas_init no_kwargs ;;
         a <- Rectangle_init (sized 50 30) ;;
         b <- Rectangle_init (sized 20 60) ;;
         Object_add c a (P 0 0) ;;;
         Object_add c b (P 5 5)).

(** ** When a dimension can be read *)

(** Within [fuel] calls, every path down from [x] through layouts ends at a
    node of another class whose field [getf] is set. *)
Fixpoint readable (getf : Node -> option Z) (fuel : nat) (h : gmap oid Node)
    (x : oid) : Prop :=
  match fuel with
  | O => False
  | S n =>
      exists o, h !! x = Some o
                /\ if derived (cls o)
                   then Forall (readable getf n h) (kids o)
                   else getf o <> None
  end.

(** A vertical layout (object 0) over a sized rectangle (object 1) and a
    horizontal layout (object 2) that holds a rectangle without dimensions
    (object 3). *)
Definition unsized_leaf_scene : State :=
  build (v <- VLayout_init CENTER no_kwargs ;;
         a <- Rectangle_init (sized 10 10) ;;
         h <- HLayout_init CENTER no_kwargs ;;
         b <- Rectangle_init no_kwargs ;;
         Object_add v a (P 0 0) ;;;
         Object_add v h (P 0 0) ;;;
         Object_add h b (P 0 0)).

(** ** The [align] of a layout *)

(** The class with [a] for the [align] a layout was built with. *)
Definition realign (a : Align) (c : Class) : Class :=
  match c with
  | VLayout _ => VLayout a
  | HLayout _ => HLayout a
  | Table _ => Table a
  | _ => c
  end.

Definition realign_node (a : Align) (o : Node) : Node :=
  mkNode (realign a (cls o)) (style o) (_w o) (_h o) (children o) (parent o).

(** The state in which every layout has the [align] [a]. *)
Definition realigned (a : Align) (st : State) : State :=
  with_heap (realign_node a <$> heap st) st.

(** The result [r] with [f] applied to the state it ends in. *)
Definition lifted {A} (f : State -> State) (r : Result (A * State))
    : Result (A * State) :=
  match r with
  | Ok (v, s) => Ok (v, f s)
  | Err e => Err e
  end.

(** [m'] on a realigned state does what [m] does on the state itself. *)
Definition agree {A} (a : Align) (m m' : M A) : Prop :=
  forall s, m' (realigned a s) = lifted (realigned a) (m s).

(** ** Finite trees *)

(** Within [fuel] levels the children below [x] form a finite tree, all of
    whose nodes have a class accepted by [ok]. *)
Fixpoint tree (ok : Class -> bool) (fuel : nat) (h : gmap oid Node) (x : oid)
    : Prop :=
  match fuel with
  | O => False
  | S n =>
      exists o, h !! x = Some o /\ ok (cls o) = true
                /\ Forall (tree ok n h) (kids o)
  end.

Definition any_class (c : Class) : bool := true.

Definition not_table (c : Class) : bool :=
  match c with
  | Table _ => false
  | _ => true
  end.

(* ================================================================== *)
(** * Properties *)

(** ** The monad *)

Lemma bind_ok {A B} (m : M A) (k : A -> M B) st a st1 :
  m st = Ok (a, st1) -> bind m k st = k a st1.
Proof. unfold bind. intros ->. reflexivity. Qed.

Lemma bind_inv {A B} (m : M A) (k : A -> M B) st b st2 :
  bind m k st = Ok (b, st2) ->
  exists a st1, m st = Ok (a, st1) /\ k a st1 = Ok (b, st2).
Proof.
  unfold bind. destruct (m st) as [[a st1]|e]; [eauto | discriminate].
Qed.

Lemma get_node_ok self st o :
  heap st !! self = Some o -> get_node self st = Ok (o, st).
Proof. unfold get_node. intros ->. reflexivity. Qed.

Lemma get_node_inv self st o st1 :
  get_node self st = Ok (o, st1) -> heap st !! self = Some o /\ st1 = st.
Proof.
  unfold get_node. destruct (heap st !! self); intros H; inversion H; auto.
Qed.

Lemma update_node_ok self f st o :
  heap st !! self = Some o ->
  update_node self f st = Ok (tt, with_heap (<[self := f o]> (heap st)) st).
Proof. unfold update_node. intros ->. reflexivity. Qed.

Lemma update_node_inv self f st u st1 :
  update_node self f st = Ok (u, st1) ->
  exists o, heap st !! self = Some o
            /\ st1 = with_heap (<[self := f o]> (heap st)) st.
Proof.
  unfold update_node. destruct (heap st !! self) as [o|]; intros H; inversion H; eauto.
Qed.

Lemma as_int_inv a st v st1 :
  as_int a st = Ok (v, st1) -> a = Some v /\ st1 = st.
Proof. destruct a; intros H; inversion H; auto. Qed.

Tactic Notation "inv_bind" hyp(H) "as" ident(a) ident(s) ident(H1) :=
  apply bind_inv in H; destruct H as (a & s & H1 & H).

(** ** States equal up to the caches *)

Lemma erase_cls o o' : erase o = erase o' -> cls o = cls o'.
Proof.
  unfold erase. intros H. apply (f_equal cls) in H.
  destruct (derived (cls o)), (derived (cls o')); exact H.
Qed.

Lemma erase_children o o' : erase o = erase o' -> children o = children o'.
Proof.
  unfold erase. intros H. apply (f_equal children) in H.
  destruct (derived (cls o)), (derived (cls o')); exact H.
Qed.

Lemma erase_stored o o' :
  erase o = erase o' -> derived (cls o) = false -> o = o'.
Proof.
  intros H Hd. pose proof (erase_cls _ _ H) as Hc.
  unfold erase in H. rewrite <- Hc, Hd in H. exact H.
Qed.

Lemma sim_refl st : sim st st.
Proof. unfold sim. auto. Qed.

Lemma sim_sym st st' : sim st st' -> sim st' st.
Proof. unfold sim. intuition congruence. Qed.

Lemma sim_trans st1 st2 st3 : sim st1 st2 -> sim st2 st3 -> sim st1 st3.
Proof. unfold sim. intuition congruence. Qed.

Lemma sim_calls s s' : sim s s' -> calls s' = calls s.
Proof. intros (_ & _ & _ & H). auto. Qed.

Lemma sim_lookup st st' self o :
  sim st st' -> heap st !! self = Some o ->
  exists o', heap st' !! self = Some o' /\ erase o = erase o'.
Proof.
  intros (Hh & _) Ho.
  assert (H : (erase <$> heap st) !! self = (erase <$> heap st') !! self)
    by (rewrite Hh; reflexivity).
  rewrite !lookup_fmap, Ho in H. simpl in H.
  destruct (heap st' !! self) as [o'|]; simpl in H; [|discriminate].
  exists o'. split; [reflexivity | congruence].
Qed.

Lemma sim_update self o f st :
  heap st !! self = Some o -> erase (f o) = erase o ->
  sim st (with_heap (<[self := f o]> (heap st)) st).
Proof.
  intros Ho He. unfold sim, with_heap. simpl. repeat split.
  rewrite fmap_insert, He. symmetry. apply insert_id.
  rewrite lookup_fmap, Ho. reflexivity.
Qed.

Lemma for_each_ext {A} (l : list A) (f g : A -> M unit) :
  (forall a st, f a st = g a st) -> forall st, for_each l f st = for_each l g st.
Proof.
  intros Hfg. induction l as [|a l IH]; intros st; simpl; [reflexivity|].
  unfold bind. rewrite Hfg. destruct (g a st) as [[[] st1]|e]; auto.
Qed.

Lemma reads_transfer rec st st' cs ws :
  (forall c s v s1 s', rec c s = Ok (v, s1) -> sim s s' ->
                       exists s1', rec c s' = Ok (v, s1')) ->
  reads rec st cs ws -> sim st st' -> reads rec st' cs ws.
Proof.
  intros Ht Hr Hs. unfold reads in *.
  induction Hr as [|c w cs ws [s1 Hc] _ IH]; constructor; [|exact IH].
  eapply Ht; eauto.
Qed.

(** ** Loops that accumulate a dimension *)

Section DimLoop.
Variable getf : Node -> option Z.
Variable setf : option Z -> Node -> Node.
Variable step : Z -> Z -> Point -> Z.
Variable rec : oid -> M Z.
Variable self : oid.

Hypothesis get_set : forall v o, getf (setf v o) = v.
Hypothesis set_erase :
  forall v o, derived (cls o) = true -> erase (setf v o) = erase o.
Hypothesis rec_sim : forall c s v s1, rec c s = Ok (v, s1) -> sim s s1.
Hypothesis rec_transfer :
  forall c s v s1 s', rec c s = Ok (v, s1) -> sim s s' ->
                      exists s1', rec c s' = Ok (v, s1').

Lemma set_derived v o : derived (cls o) = true -> derived (cls (setf v o)) = true.
Proof.
  intros Hd. rewrite (erase_cls _ _ (set_erase v o Hd)). exact Hd.
Qed.

Lemma dim_loop_ex cs ws :
  forall st0 st o acc,
    reads rec st0 cs ws -> sim st0 st ->
    heap st !! self = Some o -> derived (cls o) = true -> getf o = Some acc ->
    exists st1 o1,
      for_each cs (dim_step getf setf step rec self) st = Ok (tt, st1)
      /\ sim st st1 /\ heap st1 !! self = Some o1
      /\ derived (cls o1) = true
      /\ getf o1 = Some (accumulate step cs ws acc).
Proof.
  intros st0 st o acc Hr. revert st o acc.
  induction Hr as [|c w cs ws [s' Hc] Hr IH]; intros st o acc Hs Ho Hd Hg.
  - exists st, o. simpl. split_and!; auto using sim_refl.
  - destruct (rec_transfer _ _ _ _ st Hc Hs) as [s1 Hc1].
    pose proof (rec_sim _ _ _ _ Hc1) as Hs1.
    destruct (sim_lookup _ _ _ _ Hs1 Ho) as (o' & Ho' & He).
    assert (Hd' : derived (cls o') = true) by (rewrite <- (erase_cls _ _ He); exact Hd).
    set (v := step acc w (snd c)).
    set (s2 := with_heap (<[self := setf (Some v) o']> (heap s1)) s1).
    assert (Hs2 : sim s1 s2) by (apply sim_update; auto).
    destruct (IH s2 (setf (Some v) o') v) as (st1 & o1 & Hl & Hs3 & Ho1 & Hd1 & Hg1).
    + eauto using sim_trans.
    + unfold s2, with_heap. simpl. apply lookup_insert_eq.
    + apply set_derived, Hd'.
    + apply get_set.
    + exists st1, o1. split_and!; auto.
      * simpl. unfold dim_step at 1.
        erewrite bind_ok; [|erewrite bind_ok; [|apply get_node_ok, Ho]].
        2:{ erewrite bind_ok; [|exact Hc1]. rewrite Hg. simpl.
            erewrite bind_ok; [|reflexivity]. apply update_node_ok, Ho'. }
        exact Hl.
      * eauto using sim_trans.
Qed.

Lemma dim_loop_inv cs :
  forall st st1 o acc,
    for_each cs (dim_step getf setf step rec self) st = Ok (tt, st1) ->
    heap st !! self = Some o -> derived (cls o) = true -> getf o = Some acc ->
    exists ws o1,
      reads rec st cs ws /\ sim st st1 /\ heap st1 !! self = Some o1
      /\ derived (cls o1) = true
      /\ getf o1 = Some (accumulate step cs ws acc).
Proof.
  induction cs as [|c cs IH]; intros st st1 o acc Hl Ho Hd Hg.
  - simpl in Hl. inversion Hl; subst. exists [], o.
    split_and!; auto using sim_refl. constructor.
  - simpl in Hl. inv_bind Hl as u s2 Hstep. unfold dim_step in Hstep.
    inv_bind Hstep as o0 sa Hget. apply get_node_inv in Hget as [Ho0 ->].
    inv_bind Hstep as w s1 Hc.
    inv_bind Hstep as cur sb Hcur. apply as_int_inv in Hcur as [Hcur ->].
    apply update_node_inv in Hstep as (o' & Ho' & ->).
    assert (o0 = o) by congruence. subst o0.
    assert (cur = acc) by congruence. subst cur.
    pose proof (rec_sim _ _ _ _ Hc) as Hs1.
    destruct (sim_lookup _ _ _ _ Hs1 Ho) as (o'' & Ho'' & He).
    assert (o'' = o') by congruence. subst o''.
    assert (Hd' : derived (cls o') = true) by (rewrite <- (erase_cls _ _ He); exact Hd).
    set (v := step acc w (snd c)) in *.
    set (s2 := with_heap (<[self := setf (Some v) o']> (heap s1)) s1) in *.
    assert (Hs2 : sim s1 s2) by (apply sim_update; auto).
    destruct (IH s2 st1 (setf (Some v) o') v Hl) as (ws & o1 & Hr & Hs3 & Ho1 & Hd1 & Hg1).
    + unfold s2, with_heap. simpl. apply lookup_insert_eq.
    + apply set_derived, Hd'.
    + apply get_set.
    + exists (w :: ws), o1. split_and!; auto.
      * constructor; [eauto|].
        eapply reads_transfer; [exact rec_transfer | exact Hr |].
        apply sim_sym. eauto using sim_trans.
      * eauto using sim_trans.
Qed.

Lemma derived_dim_ex st o ws :
  heap st !! self = Some o -> derived (cls o) = true ->
  reads rec st (children o) ws ->
  exists st1,
    derived_dim getf setf step rec self st
    = Ok (accumulate step (children o) ws 0, st1)
    /\ sim st st1.
Proof.
  intros Ho Hd Hr.
  set (s0 := with_heap (<[self := setf (Some 0) o]> (heap st)) st).
  assert (Hs0 : sim st s0) by (apply sim_update; auto).
  assert (Ho0 : heap s0 !! self = Some (setf (Some 0) o))
    by (unfold s0, with_heap; simpl; apply lookup_insert_eq).
  assert (Hch : children (setf (Some 0) o) = children o)
    by (apply erase_children, set_erase, Hd).
  destruct (dim_loop_ex (children o) ws st s0 (setf (Some 0) o) 0)
    as (st1 & o1 & Hl & Hs1 & Ho1 & Hd1 & Hg1); auto using set_derived.
  exists st1. split; [|eauto using sim_trans].
  unfold derived_dim.
  erewrite bind_ok; [|apply update_node_ok, Ho]. fold s0.
  erewrite bind_ok; [|apply get_node_ok, Ho0]. rewrite Hch.
  erewrite bind_ok; [|exact Hl].
  erewrite bind_ok; [|apply get_node_ok, Ho1].
  rewrite Hg1. reflexivity.
Qed.

Lemma derived_dim_inv st o v st1 :
  heap st !! self = Some o -> derived (cls o) = true ->
  derived_dim getf setf step rec self st = Ok (v, st1) ->
  exists ws,
    reads rec st (children o) ws
    /\ v = accumulate step (children o) ws 0
    /\ sim st st1.
Proof.
  intros Ho Hd H. unfold derived_dim in H.
  inv_bind H as u s0 Hupd. apply update_node_inv in Hupd as (o' & Ho' & ->).
  assert (o' = o) by congruence. subst o'.
  set (s0 := with_heap (<[self := setf (Some 0) o]> (heap st)) st) in *.
  assert (Hs0 : sim st s0) by (apply sim_update; auto).
  assert (Ho0 : heap s0 !! self = Some (setf (Some 0) o))
    by (unfold s0, with_heap; simpl; apply lookup_insert_eq).
  assert (Hch : children (setf (Some 0) o) = children o)
    by (apply erase_children, set_erase, Hd).
  inv_bind H as o0 sa Hget. apply get_node_inv in Hget as [Hn ->].
  assert (o0 = setf (Some 0) o) by congruence. subst o0. rewrite Hch in H.
  inv_bind H as u' s1 Hloop. destruct u'.
  destruct (dim_loop_inv _ _ _ _ 0 Hloop Ho0) as (ws & o1 & Hr & Hs1 & Ho1 & Hd1 & Hg1);
    auto using set_derived.
  inv_bind H as o2 sb Hget. apply get_node_inv in Hget as [Hn1 ->].
  apply as_int_inv in H as [Hv ->].
  assert (o2 = o1) by congruence. subst o2.
  exists ws. split_and!.
  - eapply reads_transfer; [exact rec_transfer | exact Hr | apply sim_sym, Hs0].
  - congruence.
  - eauto using sim_trans.
Qed.

End DimLoop.

(** ** The getters of the layouts are accumulating loops *)

Lemma with_w_erase v o : derived (cls o) = true -> erase (with_w v o) = erase o.
Proof. intros Hd. unfold erase. simpl. rewrite Hd. reflexivity. Qed.

Lemma with_h_erase v o : derived (cls o) = true -> erase (with_h v o) = erase o.
Proof. intros Hd. unfold erase. simpl. rewrite Hd. reflexivity. Qed.

Ltac layout_getter_eq :=
  unfold derived_dim, bind;
  match goal with
  | |- context [update_node ?self ?f ?st] =>
      destruct (update_node self f st) as [[[] ?s]|]; [|reflexivity]
  end;
  match goal with
  | |- context [get_node ?self ?s] =>
      destruct (get_node self s) as [[?o ?s']|]; [|reflexivity]
  end;
  erewrite for_each_ext; [reflexivity|];
  intros [obj offset] s''; reflexivity.

Lemma VLayout_width_eq rec self st :
  VLayout_width rec self st = derived_dim _w with_w (max_step px) rec self st.
Proof. unfold VLayout_width. layout_getter_eq. Qed.

Lemma VLayout_height_eq rec self st :
  VLayout_height rec self st = derived_dim _h with_h (sum_step py) rec self st.
Proof. unfold VLayout_height. layout_getter_eq. Qed.

Lemma HLayout_width_eq rec self st :
  HLayout_width rec self st = derived_dim _w with_w (sum_step px) rec self st.
Proof. unfold HLayout_width. layout_getter_eq. Qed.

Lemma HLayout_height_eq rec self st :
  HLayout_height rec self st = derived_dim _h with_h (max_step py) rec self st.
Proof. unfold HLayout_height. layout_getter_eq. Qed.

Lemma Object_width_inv self st v st1 :
  Object_width self st = Ok (v, st1) ->
  exists o, heap st !! self = Some o /\ _w o = Some v /\ st1 = st.
Proof.
  unfold Object_width. intros H. inv_bind H as o s Hget.
  apply get_node_inv in Hget as [Ho ->]. exists o.
  destruct (_w o); inversion H; subst; auto.
Qed.

Lemma Object_height_inv self st v st1 :
  Object_height self st = Ok (v, st1) ->
  exists o, heap st !! self = Some o /\ _h o = Some v /\ st1 = st.
Proof.
  unfold Object_height. intros H. inv_bind H as o s Hget.
  apply get_node_inv in Hget as [Ho ->]. exists o.
  destruct (_h o); inversion H; subst; auto.
Qed.

Lemma Object_width_ok self st o v :
  heap st !! self = Some o -> _w o = Some v -> Object_width self st = Ok (v, st).
Proof.
  intros Ho Hw. unfold Object_width. erewrite bind_ok; [|apply get_node_ok, Ho].
  rewrite Hw. reflexivity.
Qed.

Lemma Object_height_ok self st o v :
  heap st !! self = Some o -> _h o = Some v -> Object_height self st = Ok (v, st).
Proof.
  intros Ho Hh. unfold Object_height. erewrite bind_ok; [|apply get_node_ok, Ho].
  rewrite Hh. reflexivity.
Qed.

(** Reading a dimension changes nothing but caches, and returns the same
    value from any state that differs in caches only. *)
Lemma width_sim n :
  (forall self st v st1, width n self st = Ok (v, st1) -> sim st st1)
  /\ (forall self st v st1 st',
        width n self st = Ok (v, st1) -> sim st st' ->
        exists st1', width n self st' = Ok (v, st1')).
Proof.
  induction n as [|n [IH1 IH2]]; [split; intros; discriminate|].
  split.
  - intros self st v st1 H. simpl in H. inv_bind H as o s Hget.
    apply get_node_inv in Hget as [Ho ->].
    destruct (cls o) eqn:Hc;
      try (apply Object_width_inv in H as (? & ? & ? & ->); apply sim_refl).
    + rewrite VLayout_width_eq in H.
      eapply derived_dim_inv in H as (ws & _ & _ & Hs);
        eauto using with_w_erase. rewrite Hc. reflexivity.
    + rewrite HLayout_width_eq in H.
      eapply derived_dim_inv in H as (ws & _ & _ & Hs);
        eauto using with_w_erase. rewrite Hc. reflexivity.
    + rewrite HLayout_width_eq in H.
      eapply derived_dim_inv in H as (ws & _ & _ & Hs);
        eauto using with_w_erase. rewrite Hc. reflexivity.
  - intros self st v st1 st' H Hs. simpl in H. inv_bind H as o s Hget.
    apply get_node_inv in Hget as [Ho ->].
    destruct (sim_lookup _ _ _ _ Hs Ho) as (o' & Ho' & He).
    pose proof (erase_cls _ _ He) as Hcls.
    pose proof (erase_children _ _ He) as Hch.
    simpl. erewrite bind_ok; [|apply get_node_ok, Ho']. rewrite <- Hcls.
    destruct (cls o) eqn:Hc;
      try (assert (o = o') by (apply erase_stored; [exact He | rewrite Hc; reflexivity]);
           subst o'; apply Object_width_inv in H as (o1 & Ho1 & Hw & ->);
           exists st'; apply Object_width_ok with o; congruence).
    + rewrite VLayout_width_eq in H.
      eapply derived_dim_inv in H as (ws & Hr & -> & _);
        eauto using with_w_erase; [|rewrite Hc; reflexivity].
      rewrite Hch.
      destruct (derived_dim_ex _w with_w (max_step px) (width n) self
                  (fun _ _ => eq_refl) with_w_erase IH1 IH2 st' o' ws)
        as (st1' & Hrun & _); auto.
      * rewrite <- Hcls. reflexivity.
      * rewrite <- Hch. eapply reads_transfer; eauto.
      * exists st1'. rewrite VLayout_width_eq. exact Hrun.
    + rewrite HLayout_width_eq in H.
      eapply derived_dim_inv in H as (ws & Hr & -> & _);
        eauto using with_w_erase; [|rewrite Hc; reflexivity].
      rewrite Hch.
      destruct (derived_dim_ex _w with_w (sum_step px) (width n) self
                  (fun _ _ => eq_refl) with_w_erase IH1 IH2 st' o' ws)
        as (st1' & Hrun & _); auto.
      * rewrite <- Hcls. reflexivity.
      * rewrite <- Hch. eapply reads_transfer; eauto.
      * exists st1'. rewrite HLayout_width_eq. exact Hrun.
    + rewrite HLayout_width_eq in H.
      eapply derived_dim_inv in H as (ws & Hr & -> & _);
        eauto using with_w_erase; [|rewrite Hc; reflexivity].
      rewrite Hch.
      destruct (derived_dim_ex _w with_w (sum_step px) (width n) self
                  (fun _ _ => eq_refl) with_w_erase IH1 IH2 st' o' ws)
        as (st1' & Hrun & _); auto.
      * rewrite <- Hcls. reflexivity.
      * rewrite <- Hch. eapply reads_transfer; eauto.
      * exists st1'. rewrite HLayout_width_eq. exact Hrun.
Qed.

Lemma height_sim n :
  (forall self st v st1, height n self st = Ok (v, st1) -> sim st st1)
  /\ (forall self st v st1 st',
        height n self st = Ok (v, st1) -> sim st st' ->
        exists st1', height n self st' = Ok (v, st1')).
Proof.
  induction n as [|n [IH1 IH2]]; [split; intros; discriminate|].
  split.
  - intros self st v st1 H. simpl in H. inv_bind H as o s Hget.
    apply get_node_inv in Hget as [Ho ->].
    destruct (cls o) eqn:Hc;
      try (apply Object_height_inv in H as (? & ? & ? & ->); apply sim_refl).
    + rewrite VLayout_height_eq in H.
      eapply derived_dim_inv in H as (ws & _ & _ & Hs);
        eauto using with_h_erase. rewrite Hc. reflexivity.
    + rewrite HLayout_height_eq in H.
      eapply derived_dim_inv in H as (ws & _ & _ & Hs);
        eauto using with_h_erase. rewrite Hc. reflexivity.
    + rewrite HLayout_height_eq in H.
      eapply derived_dim_inv in H as (ws & _ & _ & Hs);
        eauto using with_h_erase. rewrite Hc. reflexivity.
  - intros self st v st1 st' H Hs. simpl in H. inv_bind H as o s Hget.
    apply get_node_inv in Hget as [Ho ->].
    destruct (sim_lookup _ _ _ _ Hs Ho) as (o' & Ho' & He).
    pose proof (erase_cls _ _ He) as Hcls.
    pose proof (erase_children _ _ He) as Hch.
    simpl. erewrite bind_ok; [|apply get_node_ok, Ho']. rewrite <- Hcls.
    destruct (cls o) eqn:Hc;
      try (assert (o = o') by (apply erase_stored; [exact He | rewrite Hc; reflexivity]);
           subst o'; apply Object_height_inv in H as (o1 & Ho1 & Hh & ->);
           exists st'; apply Object_height_ok with o; congruence).
    + rewrite VLayout_height_eq in H.
      eapply derived_dim_inv in H as (ws & Hr & -> & _);
        eauto using with_h_erase; [|rewrite Hc; reflexivity].
      rewrite Hch.
      destruct (derived_dim_ex _h with_h (sum_step py) (height n) self
                  (fun _ _ => eq_refl) with_h_erase IH1 IH2 st' o' ws)
        as (st1' & Hrun & _); auto.
      * rewrite <- Hcls. reflexivity.
      * rewrite <- Hch. eapply reads_transfer; eauto.
      * exists st1'. rewrite VLayout_height_eq. exact Hrun.
    + rewrite HLayout_height_eq in H.
      eapply derived_dim_inv in H as (ws & Hr & -> & _);
        eauto using with_h_erase; [|rewrite Hc; reflexivity].
      rewrite Hch.
      destruct (derived_dim_ex _h with_h (max_step py) (height n) self
                  (fun _ _ => eq_refl) with_h_erase IH1 IH2 st' o' ws)
        as (st1' & Hrun & _); auto.
      * rewrite <- Hcls. reflexivity.
      * rewrite <- Hch. eapply reads_transfer; eauto.
      * exists st1'. rewrite HLayout_height_eq. exact Hrun.
    + rewrite HLayout_height_eq in H.
      eapply derived_dim_inv in H as (ws & Hr & -> & _);
        eauto using with_h_erase; [|rewrite Hc; reflexivity].
      rewrite Hch.
      destruct (derived_dim_ex _h with_h (max_step py) (height n) self
                  (fun _ _ => eq_refl) with_h_erase IH1 IH2 st' o' ws)
        as (st1' & Hrun & _); auto.
      * rewrite <- Hcls. reflexivity.
      * rewrite <- Hch. eapply reads_transfer; eauto.
      * exists st1'. rewrite HLayout_height_eq. exact Hrun.
Qed.

(** ** Derived dimensions *)

Lemma accumulate_max sel cs ws :
  forall acc, accumulate (max_step sel) cs ws acc
              = fold_left Z.max (extents sel cs ws) acc.
Proof.
  unfold accumulate, extents. revert cs.
  induction ws as [|w ws IH]; intros [|c cs] acc; simpl; auto.
Qed.

Lemma accumulate_sum sel cs ws :
  forall acc, accumulate (sum_step sel) cs ws acc
              = fold_left Z.add (extents sel cs ws) acc.
Proof.
  unfold accumulate, extents. revert cs.
  induction ws as [|w ws IH]; intros [|c cs] acc; simpl; auto.
Qed.

Lemma VLayout_width_formula n st self o a ws :
  heap st !! self = Some o -> cls o = VLayout a ->
  reads (width n) st (children o) ws ->
  exists st', width (S n) self st
              = Ok (fold_left Z.max (extents px (children o) ws) 0, st')
              /\ sim st st'.
Proof.
  intros Ho Hc Hr. destruct (width_sim n) as [H1 H2].
  destruct (derived_dim_ex _w with_w (max_step px) (width n) self
              (fun _ _ => eq_refl) with_w_erase H1 H2 st o ws)
    as (st' & Hrun & Hs); auto; [rewrite Hc; reflexivity|].
  exists st'. split; [|exact Hs]. simpl.
  erewrite bind_ok; [|apply get_node_ok, Ho]. rewrite Hc.
  rewrite VLayout_width_eq, Hrun, accumulate_max. reflexivity.
Qed.

Lemma VLayout_height_formula n st self o a hs :
  heap st !! self = Some o -> cls o = VLayout a ->
  reads (height n) st (children o) hs ->
  exists st', height (S n) self st
              = Ok (fold_left Z.add (extents py (children o) hs) 0, st')
              /\ sim st st'.
Proof.
  intros Ho Hc Hr. destruct (height_sim n) as [H1 H2].
  destruct (derived_dim_ex _h with_h (sum_step py) (height n) self
              (fun _ _ => eq_refl) with_h_erase H1 H2 st o hs)
    as (st' & Hrun & Hs); auto; [rewrite Hc; reflexivity|].
  exists st'. split; [|exact Hs]. simpl.
  erewrite bind_ok; [|apply get_node_ok, Ho]. rewrite Hc.
  rewrite VLayout_height_eq, Hrun, accumulate_sum. reflexivity.
Qed.

Lemma HLayout_width_formula n st self o ws :
  heap st !! self = Some o ->
  (exists a, cls o = HLayout a \/ cls o = Table a) ->
  reads (width n) st (children o) ws ->
  exists st', width (S n) self st
              = Ok (fold_left Z.add (extents px (children o) ws) 0, st')
              /\ sim st st'.
Proof.
  intros Ho (a & Hc) Hr. destruct (width_sim n) as [H1 H2].
  destruct (derived_dim_ex _w with_w (sum_step px) (width n) self
              (fun _ _ => eq_refl) with_w_erase H1 H2 st o ws)
    as (st' & Hrun & Hs); auto; [destruct Hc as [-> | ->]; reflexivity|].
  exists st'. split; [|exact Hs]. simpl.
  erewrite bind_ok; [|apply get_node_ok, Ho].
  destruct Hc as [-> | ->];
    rewrite HLayout_width_eq, Hrun, accumulate_sum; reflexivity.
Qed.

Lemma HLayout_height_formula n st self o hs :
  heap st !! self = Some o ->
  (exists a, cls o = HLayout a \/ cls o = Table a) ->
  reads (height n) st (children o) hs ->
  exists st', height (S n) self st
              = Ok (fold_left Z.max (extents py (children o) hs) 0, st')
              /\ sim st st'.
Proof.
  intros Ho (a & Hc) Hr. destruct (height_sim n) as [H1 H2].
  destruct (derived_dim_ex _h with_h (max_step py) (height n) self
              (fun _ _ => eq_refl) with_h_erase H1 H2 st o hs)
    as (st' & Hrun & Hs); auto; [destruct Hc as [-> | ->]; reflexivity|].
  exists st'. split; [|exact Hs]. simpl.
  erewrite bind_ok; [|apply get_node_ok, Ho].
  destruct Hc as [-> | ->];
    rewrite HLayout_height_eq, Hrun, accumulate_max; reflexivity.
Qed.

(** ** Stored dimensions *)

Lemma width_stored k st self o :
  heap st !! self = Some o -> derived (cls o) = false ->
  width (S k) self st
  = match _w o with Some v => Ok (v, st) | None => Err AssertionError end.
Proof.
  intros Ho Hd. simpl. erewrite bind_ok; [|apply get_node_ok, Ho].
  destruct (cls o); try discriminate Hd;
    unfold Object_width, TextBox_width;
    (erewrite bind_ok; [|apply get_node_ok, Ho]); destruct (_w o); reflexivity.
Qed.

Lemma height_stored k st self o :
  heap st !! self = Some o -> derived (cls o) = false ->
  height (S k) self st
  = match _h o with Some v => Ok (v, st) | None => Err AssertionError end.
Proof.
  intros Ho Hd. simpl. erewrite bind_ok; [|apply get_node_ok, Ho].
  destruct (cls o); try discriminate Hd;
    unfold Object_height, TextBox_height;
    (erewrite bind_ok; [|apply get_node_ok, Ho]); destruct (_h o); reflexivity.
Qed.

Lemma set_width_inv st self o v u st1 :
  heap st !! self = Some o -> set_width self v st = Ok (u, st1) ->
  st1 = with_heap (<[self := with_w v o]> (heap st)) st.
Proof.
  intros Ho H. unfold set_width in H. inv_bind H as o0 s Hget.
  apply get_node_inv in Hget as [Ho0 ->].
  assert (o0 = o) by congruence. subst o0.
  destruct (cls o); unfold Object_set_width, TextBox_set_width in H;
    apply update_node_inv in H as (o' & Ho' & ->); congruence.
Qed.

Lemma set_width_ok st self o v :
  heap st !! self = Some o ->
  set_width self v st = Ok (tt, with_heap (<[self := with_w v o]> (heap st)) st).
Proof.
  intros Ho. unfold set_width. erewrite bind_ok; [|apply get_node_ok, Ho].
  destruct (cls o); apply update_node_ok, Ho.
Qed.

(** After [c.width = v] on a node with a stored width, every read of
    [c.width] returns [v]. *)
Lemma reads_after_set_width n st c oc v u st1 cs ws :
  heap st !! c = Some oc -> derived (cls oc) = false ->
  set_width c (Some v) st = Ok (u, st1) ->
  reads (width n) st1 cs ws ->
  Forall2 (fun ch w => fst ch = c -> w = v) cs ws.
Proof.
  intros Hc Hd Hset Hr. apply (set_width_inv _ _ _ _ _ _ Hc) in Hset. subst st1.
  unfold reads in Hr. eapply Forall2_impl; [exact Hr|].
  intros ch w [st' Hread] Heq. rewrite Heq in Hread.
  destruct n as [|k]; [discriminate|].
  erewrite width_stored in Hread.
  2:{ unfold with_heap. simpl. apply lookup_insert_eq. }
  2:{ exact Hd. }
  simpl in Hread. congruence.
Qed.

(** C1, as amended.  For every layout [self] and every state: if reading the
    children's widths (heights) returns [ws] ([hs]), then reading the width
    of a VLayout returns the running maximum, started at 0, of
    [ci.width + oi.x], and its height the sum of [ci.height + oi.y]; an
    HLayout (a Table is one) has the sum along x and the maximum, started at
    0, along y.  The read leaves the state as it was up to the caches of
    layouts, whose content is never used: the value is recomputed on each
    read.  Without children both dimensions are 0.  And after [c.width = v]
    on a child with a stored width, with no [add] in between, the next read
    of the layout's width uses [v] for that child. *)
Theorem layout_dimensions_recomputed :
  forall n st self o,
    heap st !! self = Some o ->
    (forall a ws, cls o = VLayout a -> reads (width n) st (children o) ws ->
       exists st', width (S n) self st
                   = Ok (fold_left Z.max (extents px (children o) ws) 0, st')
                   /\ sim st st')
    /\ (forall a hs, cls o = VLayout a -> reads (height n) st (children o) hs ->
       exists st', height (S n) self st
                   = Ok (fold_left Z.add (extents py (children o) hs) 0, st')
                   /\ sim st st')
    /\ (forall a ws, cls o = HLayout a \/ cls o = Table a ->
       reads (width n) st (children o) ws ->
       exists st', width (S n) self st
                   = Ok (fold_left Z.add (extents px (children o) ws) 0, st')
                   /\ sim st st')
    /\ (forall a hs, cls o = HLayout a \/ cls o = Table a ->
       reads (height n) st (children o) hs ->
       exists st', height (S n) self st
                   = Ok (fold_left Z.max (extents py (children o) hs) 0, st')
                   /\ sim st st')
    /\ (derived (cls o) = true -> children o = [] ->
       exists st' st'', width (S n) self st = Ok (0, st')
                        /\ height (S n) self st = Ok (0, st''))
    /\ (forall c oc v st1 ws,
       heap st !! c = Some oc -> derived (cls oc) = false ->
       set_width c (Some v) st = Ok (tt, st1) ->
       reads (width n) st1 (children o) ws ->
       Forall2 (fun ch w => fst ch = c -> w = v) (children o) ws
       /\ (forall a, cls o = VLayout a ->
             exists st', width (S n) self st1
                         = Ok (fold_left Z.max (extents px (children o) ws) 0, st'))
       /\ (forall a, cls o = HLayout a \/ cls o = Table a ->
             exists st', width (S n) self st1
                         = Ok (fold_left Z.add (extents px (children o) ws) 0, st'))).
Proof.
  intros n st self o Ho. split_and!.
  - intros a ws Hc Hr. eapply VLayout_width_formula; eauto.
  - intros a hs Hc Hr. eapply VLayout_height_formula; eauto.
  - intros a ws Hc Hr. eapply HLayout_width_formula; eauto.
  - intros a hs Hc Hr. eapply HLayout_height_formula; eauto.
  - intros Hd Hch.
    assert (Hrw : reads (width n) st (children o) []) by (rewrite Hch; constructor).
    assert (Hrh : reads (height n) st (children o) []) by (rewrite Hch; constructor).
    destruct (cls o) eqn:Hc; try discriminate Hd.
    + destruct (VLayout_width_formula n st self o _ [] Ho Hc Hrw) as (s1 & H1 & _).
      destruct (VLayout_height_formula n st self o _ [] Ho Hc Hrh) as (s2 & H2 & _).
      rewrite Hch in H1, H2. eauto.
    + destruct (HLayout_width_formula n st self o [] Ho) as (s1 & H1 & _);
        [eauto | exact Hrw |].
      destruct (HLayout_height_formula n st self o [] Ho) as (s2 & H2 & _);
        [eauto | exact Hrh |].
      rewrite Hch in H1, H2. eauto.
    + destruct (HLayout_width_formula n st self o [] Ho) as (s1 & H1 & _);
        [eauto | exact Hrw |].
      destruct (HLayout_height_formula n st self o [] Ho) as (s2 & H2 & _);
        [eauto | exact Hrh |].
      rewrite Hch in H1, H2. eauto.
  - intros c oc v st1 ws Hoc Hd Hset Hr.
    split; [eapply reads_after_set_width; eauto|].
    pose proof (set_width_inv _ _ _ _ _ _ Hoc Hset) as ->.
    assert (Ho1 : derived (cls o) = true ->
              heap (with_heap (<[c := with_w (Some v) oc]> (heap st)) st) !! self
              = Some o).
    { intros Hdo. unfold with_heap. simpl. rewrite lookup_insert_ne; [exact Ho|].
      intros ->. congruence. }
    split.
    + intros a Hc.
      edestruct (VLayout_width_formula n) as (s1 & H1 & _);
        [apply Ho1; rewrite Hc; reflexivity | exact Hc | exact Hr |].
      eauto.
    + intros a Hc.
      edestruct (HLayout_width_formula n) as (s1 & H1 & _);
        [apply Ho1; destruct Hc as [-> | ->]; reflexivity | eauto | exact Hr |].
      eauto.
Qed.

(** The rectangles of [two_children_scene] (objects 2 and 3): the vertical
    layout is 33 wide (the maximum of 10+1 and 30+3) and 31 high, the
    horizontal one 44 wide and 22 high; once the first rectangle is 50
    wide, the vertical layout is 51 wide on its next read. *)
Lemma layout_dimensions_two_children :
  (exists st', width 2 0%nat two_children_scene = Ok (33, st'))
  /\ (exists st', height 2 0%nat two_children_scene = Ok (31, st'))
  /\ (exists st', width 2 1%nat two_children_scene = Ok (44, st'))
  /\ (exists st', height 2 1%nat two_children_scene = Ok (22, st'))
  /\ (exists st1 st',
        set_width 2%nat (Some 50) two_children_scene = Ok (tt, st1)
        /\ width 2 0%nat st1 = Ok (51, st')).
Proof.
  assert (Hv : heap two_children_scene !! 0%nat
               = Some (mkNode (VLayout CENTER) Style_default None None
                         [(2%nat, P 1 2); (3%nat, P 3 4)] None))
    by (vm_compute; reflexivity).
  assert (Hh : heap two_children_scene !! 1%nat
               = Some (mkNode (HLayout CENTER) Style_default None None
                         [(2%nat, P 1 2); (3%nat, P 3 4)] None))
    by (vm_compute; reflexivity).
  destruct (layout_dimensions_recomputed 1 two_children_scene 0%nat _ Hv)
    as (Vw & Vh & _ & _ & _ & Vlive).
  destruct (layout_dimensions_recomputed 1 two_children_scene 1%nat _ Hh)
    as (_ & _ & Hw & Hhh & _ & _).
  split_and!.
  - destruct (Vw CENTER [10; 30] eq_refl) as (st' & H & _); [|eauto].
    repeat constructor; eexists; vm_compute; reflexivity.
  - destruct (Vh CENTER [20; 5] eq_refl) as (st' & H & _); [|eauto].
    repeat constructor; eexists; vm_compute; reflexivity.
  - destruct (Hw CENTER [10; 30] (or_introl eq_refl)) as (st' & H & _); [|eauto].
    repeat constructor; eexists; vm_compute; reflexivity.
  - destruct (Hhh CENTER [20; 5] (or_introl eq_refl)) as (st' & H & _); [|eauto].
    repeat constructor; eexists; vm_compute; reflexivity.
  - set (oc := mkNode Rectangle Style_default (Some 10) (Some 20) [] (Some 1%nat)).
    assert (Hoc : heap two_children_scene !! 2%nat = Some oc)
      by (vm_compute; reflexivity).
    pose proof (set_width_ok _ _ _ (Some 50) Hoc) as Hset.
    destruct (Vlive 2%nat oc 50 _ [50; 30] Hoc eq_refl Hset) as (_ & Hlive & _).
    + repeat constructor; eexists; vm_compute; reflexivity.
    + destruct (Hlive CENTER eq_refl) as (st' & H). eauto.
Defined.

(** C1 as stated fails when every extent is negative: the layout of
    [negative_offset_scene] reads 0 wide, not [5 + -10]. *)
Lemma VLayout_width_negative_offset :
  children <$> heap negative_offset_scene !! 0%nat = Some [(1%nat, P (-10) 0)]
  /\ reads (width 1) negative_offset_scene [(1%nat, P (-10) 0)] [5]
  /\ (exists st', width 2 0%nat negative_offset_scene = Ok (0, st'))
  /\ max_of (extents px [(1%nat, P (-10) 0)] [5]) = -5.
Proof.
  split_and!.
  - vm_compute; reflexivity.
  - repeat constructor; eexists; vm_compute; reflexivity.
  - eexists; vm_compute; reflexivity.
  - reflexivity.
Qed.

Lemma Object_init_inv c kw st self st1 :
  Object_init c kw st = Ok (self, st1) ->
  self = next_id st
  /\ st1 = mkState
             (<[self := mkNode c
                          (let s0 := default (default_style st) (kw_style kw) in
                           if has_overrides (kw_rest kw)
                           then Style_replace s0 (kw_rest kw) else s0)
                          (kw_width kw) (kw_height kw) [] None]> (heap st))
             (S (next_id st)) (default_style st) (calls st) (platform st).
Proof.
  unfold Object_init, bind. destruct (kw_style kw) as [s|]; simpl;
    intros H; inversion H; subst; auto.
Qed.

Lemma Object_init_ok c kw st :
  exists self st1, Object_init c kw st = Ok (self, st1).
Proof.
  unfold Object_init, bind. destruct (kw_style kw); simpl; eauto.
Qed.

(** C8.  On a node of a class that does not derive its dimensions, reading
    the width (height) raises [AssertionError] when [_w] ([_h]) is [None],
    and is no default value; otherwise it returns the stored value and
    changes nothing.  A node that [Object.__init__] builds without
    [width=] has [_w] unset, so its first read fails; after an assignment
    the read returns the value assigned. *)
Theorem stored_dimension_read :
  forall k st self o,
    heap st !! self = Some o -> derived (cls o) = false ->
    (_w o = None -> width (S k) self st = Err AssertionError)
    /\ (_h o = None -> height (S k) self st = Err AssertionError)
    /\ (forall v, _w o = Some v -> width (S k) self st = Ok (v, st))
    /\ (forall v, _h o = Some v -> height (S k) self st = Ok (v, st))
    /\ (forall v st1, set_width self (Some v) st = Ok (tt, st1) ->
          width (S k) self st1 = Ok (v, st1))
    /\ (forall v st1, set_height self (Some v) st = Ok (tt, st1) ->
          height (S k) self st1 = Ok (v, st1))
    /\ (forall kw s0 new s1,
          Object_init (cls o) kw s0 = Ok (new, s1) ->
          (kw_width kw = None -> width (S k) new s1 = Err AssertionError)
          /\ (kw_height kw = None -> height (S k) new s1 = Err AssertionError)).
Proof.
  intros k st self o Ho Hd.
  pose proof (width_stored k st self o Ho Hd) as Hw.
  pose proof (height_stored k st self o Ho Hd) as Hh.
  split_and!.
  - intros E. rewrite Hw, E. reflexivity.
  - intros E. rewrite Hh, E. reflexivity.
  - intros v E. rewrite Hw, E. reflexivity.
  - intros v E. rewrite Hh, E. reflexivity.
  - intros v st1 Hset. apply (set_width_inv _ _ _ _ _ _ Ho) in Hset. subst st1.
    erewrite width_stored; [|unfold with_heap; simpl; apply lookup_insert_eq|exact Hd].
    reflexivity.
  - intros v st1 Hset. unfold set_height in Hset.
    inv_bind Hset as o0 s Hget. apply get_node_inv in Hget as [Ho0 ->].
    assert (o0 = o) by congruence. subst o0.
    assert (Hafter : exists o1, heap st1 !! self = Some o1
                                /\ cls o1 = cls o /\ _h o1 = Some v).
    { destruct (cls o) eqn:Hc; try discriminate Hd;
        try (unfold Object_set_height in Hset;
             apply update_node_inv in Hset as (o' & Ho' & ->);
             assert (o' = o) by congruence; subst o';
             exists (with_h (Some v) o); unfold with_heap; simpl;
             rewrite lookup_insert_eq; auto).
      unfold TextBox_set_height in Hset.
      inv_bind Hset as u s1 Hupd.
      apply update_node_inv in Hupd as (o' & Ho' & ->).
      assert (o' = o) by congruence. subst o'.
      inv_bind Hset as o1 s2 Hget. apply get_node_inv in Hget as [Ho1 ->].
      unfold with_heap in Ho1. simpl in Ho1. rewrite lookup_insert_eq in Ho1.
      inversion Ho1. subst o1. simpl in Hset.
      destruct (children o) as [|[t off] rest]; [discriminate|].
      inv_bind Hset as w s3 Hwd. inv_bind Hset as h s4 Hht.
      unfold TextBox_width in Hwd. inv_bind Hwd as o2 s5 Hg.
      apply get_node_inv in Hg as [_ ->].
      destruct (_w o2); inversion Hwd; subst.
      unfold TextBox_height in Hht. inv_bind Hht as o3 s6 Hg.
      apply get_node_inv in Hg as [_ ->].
      destruct (_h o3); inversion Hht; subst.
      apply update_node_inv in Hset as (o4 & Ho4 & ->).
      unfold with_heap in Ho4. simpl in Ho4. rewrite lookup_insert_eq in Ho4.
      inversion Ho4. subst o4.
      eexists. unfold with_heap. simpl. rewrite lookup_insert_eq.
      split; [reflexivity|]. simpl. auto. }
    destruct Hafter as (o1 & Ho1 & Hc1 & Hh1).
    erewrite height_stored; [|exact Ho1|rewrite Hc1; exact Hd].
    rewrite Hh1. reflexivity.
  - intros kw s0 new s1 Hinit. apply Object_init_inv in Hinit as [-> ->].
    split; intros E.
    + erewrite width_stored; [|simpl; apply lookup_insert_eq|exact Hd].
      simpl. rewrite E. reflexivity.
    + erewrite height_stored; [|simpl; apply lookup_insert_eq|exact Hd].
      simpl. rewrite E. reflexivity.
Qed.

(** A rectangle without [width=] cannot be measured; once 7 is assigned it
    is 7 wide. *)
Lemma stored_dimension_unsized_rectangle :
  width 1 0%nat unsized_scene = Err AssertionError
  /\ height 1 0%nat unsized_scene = Err AssertionError
  /\ exists st1, set_width 0%nat (Some 7) unsized_scene = Ok (tt, st1)
                 /\ width 1 0%nat st1 = Ok (7, st1).
Proof.
  set (o := mkNode Rectangle Style_default None None [] None).
  assert (Ho : heap unsized_scene !! 0%nat = Some o) by (vm_compute; reflexivity).
  destruct (stored_dimension_read 0 unsized_scene 0%nat o Ho eq_refl)
    as (Hw & Hh & _ & _ & Hset & _).
  split_and!; [apply Hw; reflexivity | apply Hh; reflexivity |].
  eexists. split; [apply (set_width_ok _ _ _ _ Ho)|].
  apply Hset. apply (set_width_ok _ _ _ _ Ho).
Defined.

(** ** Construction and the default style *)

Lemma Line_kwargs_inv start end_ kw st kw' st1 :
  Line_kwargs start end_ kw st = Ok (kw', st1) ->
  st1 = st /\ kw_style kw' = kw_style kw /\ kw_rest kw' = kw_rest kw.
Proof.
  unfold Line_kwargs. destruct (given (kw_width kw) || given (kw_height kw));
    intros H; inversion H; subst; auto.
Qed.

Lemma Object_init_style c kw st self st1 :
  kw_style kw = None -> Object_init c kw st = Ok (self, st1) ->
  default_style st1 = default_style st
  /\ exists o, heap st1 !! self = Some o
               /\ style o = captured_style (default_style st) kw.
Proof.
  intros Hs H. apply Object_init_inv in H as [-> ->]. simpl.
  split; [reflexivity|]. eexists. rewrite lookup_insert_eq.
  split; [reflexivity|]. simpl. rewrite Hs. reflexivity.
Qed.

Lemma construct_style k kw st self st1 :
  kw_style kw = None -> construct k kw st = Ok (self, st1) ->
  exists o, heap st1 !! self = Some o
            /\ style o = captured_style (default_style st) kw.
Proof.
  intros Hs H.
  destruct k; simpl in H;
    try (eapply Object_init_style in H as [_ H]; [exact H | exact Hs]).
  - (* Line *)
    unfold Line_init in H. inv_bind H as kw' s Hk.
    apply Line_kwargs_inv in Hk as (-> & Hst & Hr).
    eapply Object_init_style in H as [_ (o & Ho & Hsty)]; [|congruence].
    exists o. split; [exact Ho|]. rewrite Hsty. unfold captured_style.
    rewrite Hr. reflexivity.
  - (* TextBox *)
    unfold TextBox_init in H. inv_bind H as self0 s1 Hinit.
    apply Object_init_inv in Hinit as [-> ->].
    inv_bind H as o s2 Hget. apply get_node_inv in Hget as [Ho Es2].
    simpl in Ho. rewrite lookup_insert_eq in Ho. inversion Ho as [Eo]. clear Ho.
    inv_bind H as sp s3 Hsp.
    assert (s3 = s2) as ->.
    { destruct align; try (inversion Hsp; reflexivity).
      inv_bind Hsp as w sa Hw. apply Object_width_inv in Hw as (? & ? & ? & ->).
      inv_bind Hsp as h sb Hh. apply Object_height_inv in Hh as (? & ? & ? & ->).
      inversion Hsp. reflexivity. }
    subst s2.
    inv_bind H as w s4 Hw. apply Object_width_inv in Hw as (? & ? & ? & ->).
    inv_bind H as h s5 Hh. apply Object_height_inv in Hh as (? & ? & ? & ->).
    inv_bind H as t s6 Ht. unfold Text_init in Ht.
    apply Object_init_inv in Ht as [-> ->]. simpl in H.
    inv_bind H as u s7 Hadd. inversion H. subst. clear H.
    unfold Object_add in Hadd. inv_bind Hadd as u1 s8 Hu1.
    apply update_node_inv in Hu1 as (o1 & Ho1 & ->).
    apply update_node_inv in Hadd as (o2 & Ho2 & ->).
    simpl in Ho1.
    rewrite lookup_insert_ne in Ho1 by lia. rewrite lookup_insert_eq in Ho1.
    inversion Ho1. subst o1. clear Ho1.
    eexists. unfold with_heap. simpl.
    rewrite lookup_insert_ne by lia. rewrite lookup_insert_eq.
    split; [reflexivity|]. simpl. rewrite Hs. reflexivity.
  - (* DottedLine *)
    unfold DottedLine_init in H. inv_bind H as kw' s Hk.
    apply Line_kwargs_inv in Hk as (-> & Hst & Hr).
    eapply Object_init_style in H as [_ (o & Ho & Hsty)]; [|congruence].
    exists o. split; [exact Ho|]. rewrite Hsty. unfold captured_style.
    rewrite Hr. reflexivity.
  - (* Arrow *)
    unfold Arrow_init in H. inv_bind H as kw' s Hk.
    apply Line_kwargs_inv in Hk as (-> & Hst & Hr).
    eapply Object_init_style in H as [_ (o & Ho & Hsty)]; [|congruence].
    exists o. split; [exact Ho|]. rewrite Hsty. unfold captured_style.
    rewrite Hr. reflexivity.
  - (* Spacer *)
    unfold Spacer_init in H. inv_bind H as self0 s1 Hinit.
    apply Object_init_inv in Hinit as [-> ->].
    inv_bind H as o s2 Hget. apply get_node_inv in Hget as [Ho ->].
    inv_bind H as u s3 Hu. apply update_node_inv in Hu as (o1 & Ho1 & ->).
    inv_bind H as o' s4 Hget. apply get_node_inv in Hget as [Ho' ->].
    inv_bind H as u' s5 Hu. apply update_node_inv in Hu as (o2 & Ho2 & ->).
    inversion H. subst. clear H.
    simpl in Ho1. rewrite lookup_insert_eq in Ho1. inversion Ho1. subst o1.
    unfold with_heap in Ho2. simpl in Ho2. rewrite lookup_insert_eq in Ho2.
    inversion Ho2. subst o2.
    eexists. unfold with_heap. simpl. rewrite lookup_insert_eq.
    split; [reflexivity|]. simpl. rewrite Hs. reflexivity.
Qed.

(** C9.  A node of any class built without [style=] carries the default
    style of the moment of the call (with the fields the call overrides).
    [set_style] afterwards rebinds the default and touches no node, so the
    node keeps the style it captured, and a node built after it captures
    the new default. *)
Theorem default_style_captured_at_construction :
  forall k kw st self st1,
    kw_style kw = None ->
    construct k kw st = Ok (self, st1) ->
    (exists o, heap st1 !! self = Some o
               /\ style o = captured_style (default_style st) kw)
    /\ forall s',
         exists st2,
           set_style s' st1 = Ok (tt, st2)
           /\ heap st2 = heap st1
           /\ forall k' kw' self' st3,
                kw_style kw' = None ->
                construct k' kw' st2 = Ok (self', st3) ->
                exists o', heap st3 !! self' = Some o'
                           /\ style o' = captured_style s' kw'.
Proof.
  intros k kw st self st1 Hs H. split; [eapply construct_style; eauto|].
  intros s'. eexists. split; [reflexivity|]. split; [reflexivity|].
  intros k' kw' self' st3 Hs' H'.
  eapply construct_style in H'; [exact H' | exact Hs'].
Qed.

(** A rectangle captures the initial default; after [set_style red_style]
    it still has it, and a text built then has the red style. *)
Lemma default_style_replaced_later :
  construct new_Rectangle no_kwargs initial_state = Ok (0%nat, unsized_scene)
  /\ set_style red_style unsized_scene = Ok (tt, restyled_scene)
  /\ construct (new_Text "a" LEFT) no_kwargs restyled_scene
     = Ok (1%nat, text_after_scene)
  /\ style <$> heap restyled_scene !! 0%nat = Some Style_default
  /\ style <$> heap text_after_scene !! 1%nat = Some red_style.
Proof.
  destruct (default_style_captured_at_construction
              new_Rectangle no_kwargs initial_state 0%nat unsized_scene
              eq_refl eq_refl)
    as [(o & Ho & Hs) Hset].
  destruct (Hset red_style) as (st2 & H2 & Hheap & Hnew).
  injection H2 as <-.
  destruct (Hnew (new_Text "a" LEFT) no_kwargs 1%nat text_after_scene
              eq_refl eq_refl)
    as (o' & Ho' & Hs').
  split_and!; [reflexivity | reflexivity | reflexivity | |].
  - replace (heap restyled_scene !! 0%nat) with (Some o)
      by (rewrite <- Ho; reflexivity).
    simpl. rewrite Hs. reflexivity.
  - replace (heap text_after_scene !! 1%nat) with (Some o')
      by (rewrite <- Ho'; reflexivity).
    simpl. rewrite Hs'. reflexivity.
Defined.

(** ** Dotted lines *)

Lemma log_nil st : log [] st = st.
Proof. destruct st. unfold log. simpl. rewrite app_nil_r. reflexivity. Qed.

Lemma log_log a b st : log b (log a st) = log (a ++ b) st.
Proof. unfold log. simpl. rewrite app_assoc. reflexivity. Qed.

Lemma emit_log c st : emit c st = Ok (tt, log [c] st).
Proof. reflexivity. Qed.

Lemma lift_ok {A} (a : A) st : lift (Ok a) st = Ok (a, st).
Proof. reflexivity. Qed.

(** One iteration: the dash and the next cursor, when the four operations
    on points go through. *)
Lemma dash_step_run u dash_len s xy1 i st :
  dash_step u dash_len s xy1 i st
  = match (let? half := NPoint_py_mul u (dash_len / 2) in
           let? xy2 := NPoint_py_add xy1 half in
           let? full := NPoint_py_mul u dash_len in
           let? next := NPoint_py_add xy1 full in
           Ok (xy2, next)) with
    | Ok (xy2, next) => Ok (next, log [call_line xy1 xy2 s] st)
    | Err e => Err e
    end.
Proof.
  unfold dash_step, bind, lift, and_then.
  destruct (NPoint_py_mul u (dash_len / 2)) as [half|e]; [|reflexivity].
  destruct (NPoint_py_add xy1 half) as [xy2|e]; [|reflexivity].
  simpl. destruct (NPoint_py_mul u dash_len) as [full|e]; [|reflexivity].
  destruct (NPoint_py_add xy1 full) as [next|e]; reflexivity.
Qed.

(** The loop of [DottedLine.render] over a range of [length r] elements
    draws the dashes, or raises what the first failing operation raises. *)
Lemma dash_loop u dash_len s (r : list Z) :
  forall xy1 st,
    match dashes u dash_len s xy1 (length r) with
    | Ok l => exists xy, for_each_acc r (dash_step u dash_len s) xy1 st
                         = Ok (xy, log l st)
    | Err e => for_each_acc r (dash_step u dash_len s) xy1 st = Err e
    end.
Proof.
  induction r as [|i r IH]; intros xy1 st; simpl.
  - exists xy1. rewrite log_nil. reflexivity.
  - unfold bind. rewrite dash_step_run. unfold and_then.
    destruct (NPoint_py_mul u (dash_len / 2)) as [half|e]; [|reflexivity].
    destruct (NPoint_py_add xy1 half) as [xy2|e]; [|reflexivity].
    destruct (NPoint_py_mul u dash_len) as [full|e]; [|reflexivity].
    destruct (NPoint_py_add xy1 full) as [next|e]; [|reflexivity].
    specialize (IH next (log [call_line xy1 xy2 s] st)).
    destruct (dashes u dash_len s next (length r)) as [rest|e].
    + destruct IH as (xy & Hxy). exists xy.
      etransitivity; [exact Hxy|]. rewrite log_log. reflexivity.
    + exact IH.
Qed.

Lemma dashes_length u d s n :
  forall xy1 l, dashes u d s xy1 n = Ok l -> length l = n.
Proof.
  induction n as [|n IH]; intros xy1 l; simpl.
  - intros [= <-]. reflexivity.
  - unfold and_then.
    destruct (NPoint_py_mul u (d / 2)) as [half|e]; [|discriminate].
    destruct (NPoint_py_add xy1 half) as [xy2|e]; [|discriminate].
    destruct (NPoint_py_mul u d) as [full|e]; [|discriminate].
    destruct (NPoint_py_add xy1 full) as [next|e]; [|discriminate].
    destruct (dashes u d s next n) as [rest|e] eqn:E; [|discriminate].
    intros [= <-]. simpl. f_equal. eapply IH, E.
Qed.

(** With a positive step, [range(0, n, d)] has ceil(n / d) elements. *)
Lemma range_len_ceil n d :
  0 < d -> Z.to_nat (range_len 0 n d) = Z.to_nat ((n + d - 1) / d).
Proof.
  intros Hd. unfold range_len.
  destruct (Z.ltb_spec 0 d) as [_|]; [|lia].
  destruct (Z.ltb_spec 0 n) as [Hn|Hn].
  - f_equal. replace (n - 0 - 1) with (n - 1) by lia.
    replace (n + d - 1) with (n - 1 + 1 * d) by lia.
    rewrite Z.div_add by lia. reflexivity.
  - assert ((n + d - 1) / d <= 0); [|lia].
    assert (n + d - 1 < d) by lia.
    assert ((n + d - 1) / d < 1); [|lia].
    apply Z.div_lt_upper_bound; lia.
Qed.

Lemma py_range_length n d :
  0 < d ->
  forall st, exists r, py_range 0 n d st = Ok (r, st)
                       /\ length r = Z.to_nat ((n + d - 1) / d).
Proof.
  intros Hd st. unfold py_range.
  destruct (Z.eqb_spec d 0); [lia|].
  eexists. split; [reflexivity|].
  rewrite length_map, length_seq. apply range_len_ceil, Hd.
Qed.

Lemma convertible_half d : 0 < d -> convertible d = true -> convertible (d / 2) = true.
Proof.
  unfold convertible. intros Hd H.
  apply Z.ltb_lt in H. apply Z.ltb_lt.
  assert (0 <= d / 2) by (apply Z.div_pos; lia).
  assert (d / 2 <= d) by (apply Z.div_le_upper_bound; lia).
  lia.
Qed.

Lemma convertible_square a b :
  convertible (a ^ 2 + b ^ 2) = true -> convertible a = true /\ convertible b = true.
Proof.
  unfold convertible. intros H. apply Z.ltb_lt in H.
  assert (Z.abs a <= a ^ 2) by nia.
  assert (Z.abs b <= b ^ 2) by nia.
  assert (0 <= a ^ 2) by nia. assert (0 <= b ^ 2) by nia.
  split; apply Z.ltb_lt; lia.
Qed.

(** From a cursor in floats and a direction in floats, every dash can be
    computed when the dash length fits a float. *)
Lemma dashes_floats ux uy d s n :
  convertible d = true -> convertible (d / 2) = true ->
  forall x y, exists l,
    dashes (NP (NFloat ux) (NFloat uy)) d s (NP (NFloat x) (NFloat y)) n = Ok l.
Proof.
  intros Hd Hh. induction n as [|n IH]; intros x y; simpl; [eauto|].
  unfold NPoint_py_mul, NPoint_py_add, py_mul, py_add, as_float, and_then.
  cbn [nx ny]. rewrite Hd, Hh. cbn [nx ny].
  destruct (IH (x + ux * z2f d)%float (y + uy * z2f d)%float) as (l & Hl).
  unfold NPoint_py_mul, NPoint_py_add, py_mul, py_add, as_float, and_then in Hl.
  cbn [nx ny] in Hl. rewrite Hl. eauto.
Qed.

Lemma dashes_from_ints ux uy d s n x y :
  convertible d = true -> convertible (d / 2) = true ->
  convertible x = true -> convertible y = true ->
  exists l, dashes (NP (NFloat ux) (NFloat uy)) d s (NPoint_of (P x y)) n = Ok l.
Proof.
  intros Hd Hh Hx Hy. destruct n as [|n]; simpl; [eauto|].
  unfold NPoint_py_mul, NPoint_py_add, NPoint_of, py_mul, py_add, as_float, and_then.
  cbn [nx ny px py]. rewrite Hd, Hh, Hx, Hy. cbn [nx ny].
  destruct (dashes_floats ux uy d s n Hd Hh (z2f x + ux * z2f d)%float
              (z2f y + uy * z2f d)%float) as (l & Hl).
  rewrite Hl. eauto.
Qed.

(** Away from the vertical the direction is a pair of floats, when the
    length is not zero. *)
Lemma dash_direction_floats start end_ len :
  px end_ <> px start -> (len =? 0)%float = false ->
  convertible (px end_ - px start) = true ->
  convertible (py end_ - py start) = true ->
  exists ux uy, dash_direction start end_ len = Ok (NP (NFloat ux) (NFloat uy)).
Proof.
  intros Hx Hl Hdx Hdy. unfold dash_direction.
  destruct (Z.eqb_spec (px end_) (px start)) as [E|_]; [contradiction|]. simpl.
  unfold NPoint_py_truediv, NPoint_of, Point_sub, py_truediv, as_float, and_then.
  cbn [nx ny px py]. rewrite Hdx, Hdy, Hl. eauto.
Qed.

Lemma dash_direction_vertical start end_ len :
  px end_ = px start -> dash_direction start end_ len = Ok (NPoint_of (P 0 1)).
Proof.
  intros E. unfold dash_direction. rewrite E, Z.eqb_refl. reflexivity.
Qed.

(** A vertical line is dashed in integers, whatever the dash length. *)
Lemma vertical_dashes_eq d s count :
  forall x y,
    dashes (NPoint_of (P 0 1)) d s (NPoint_of (P x y)) count
    = Ok (vertical_dashes x y d s count).
Proof.
  unfold vertical_dashes.
  induction count as [|count IH]; intros x y; [reflexivity|].
  cbn [dashes seq map].
  unfold NPoint_py_mul, NPoint_py_add, NPoint_of, py_mul, py_add, and_then.
  cbn [nx ny px py].
  change (NP (NInt (x + 0 * d)) (NInt (y + 1 * d)))
    with (NPoint_of (P (x + 0 * d) (y + 1 * d))).
  rewrite IH. f_equal. f_equal.
  - unfold NPoint_of. cbn [px py]. f_equal; f_equal; f_equal; lia.
  - rewrite <- seq_shift, map_map. apply map_ext. intros i.
    unfold NPoint_of. cbn [px py].
    f_equal; apply f_equal2; apply f_equal; lia.
Qed.

Lemma segment_length_convertible pf start end_ len :
  segment_length pf start end_ = Ok len ->
  convertible (px end_ - px start) = true
  /\ convertible (py end_ - py start) = true.
Proof.
  unfold segment_length, pow_half, as_float, and_then. intros H.
  apply convertible_square.
  destruct (convertible _); [reflexivity | discriminate].
Qed.

(** C4, as amended.  A dotted line with a positive dash length whose length
    [len] truncates to the integer [n] draws ceil(n / dash_len) dashes, one
    for each element of [range(0, n, dash_len)], and nothing else: each
    from the cursor to the cursor plus [dash_len // 2] times the direction,
    the cursor starting at [start + pos] and advancing by [dash_len] times
    the direction.  The direction is (0, 1) when the end points have the
    same x and [(end - start) / len] otherwise, where the length must not
    be zero and the dash length and the coordinates of [start + pos] must
    fit a float. *)
Theorem DottedLine_render_dashes :
  forall k renderer st self o start end_ dash_len pos len n,
    heap st !! self = Some o ->
    cls o = DottedLine start end_ dash_len ->
    0 < dash_len ->
    segment_length (platform st) start end_ = Ok len ->
    f2z len = Some n ->
    (px end_ = px start
     \/ (len =? 0)%float = false
        /\ convertible dash_len = true
        /\ convertible (px start + px pos) = true
        /\ convertible (py start + py pos) = true) ->
    let count := Z.to_nat ((n + dash_len - 1) / dash_len) in
    exists u drawn,
      dash_direction start end_ len = Ok u
      /\ dashes u dash_len (style o) (NPoint_of (Point_add start pos)) count
         = Ok drawn
      /\ render (S k) renderer self pos st = Ok (tt, log drawn st)
      /\ length drawn = count.
Proof.
  intros k renderer st self o start end_ dash_len pos len n Ho Hc Hd Hlen Hn
    Hfit count.
  assert (Hu : exists u drawn,
             dash_direction start end_ len = Ok u
             /\ dashes u dash_len (style o) (NPoint_of (Point_add start pos)) count
                = Ok drawn).
  { destruct Hfit as [Hv | (Hz & Hcd & Hcx & Hcy)].
    - exists (NPoint_of (P 0 1)). eexists. split.
      + apply dash_direction_vertical, Hv.
      + unfold Point_add. apply vertical_dashes_eq.
    - destruct (Z.eq_dec (px end_) (px start)) as [Hv | Hx].
      + exists (NPoint_of (P 0 1)). eexists. split.
        * apply dash_direction_vertical, Hv.
        * unfold Point_add. apply vertical_dashes_eq.
      + destruct (segment_length_convertible _ _ _ _ Hlen) as [Hdx Hdy].
        destruct (dash_direction_floats start end_ len Hx Hz Hdx Hdy)
          as (ux & uy & Hdir).
        destruct (dashes_from_ints ux uy dash_len (style o) count
                    (px start + px pos) (py start + py pos) Hcd
                    (convertible_half _ Hd Hcd) Hcx Hcy) as (l & Hl).
        exists (NP (NFloat ux) (NFloat uy)), l. split; [exact Hdir | exact Hl]. }
  destruct Hu as (u & drawn & Hdir & Hdr).
  exists u, drawn. split_and!; [exact Hdir | exact Hdr | | eapply dashes_length, Hdr].
  simpl. erewrite bind_ok; [|apply get_node_ok, Ho]. rewrite Hc.
  unfold DottedLine_render. erewrite bind_ok; [|apply get_node_ok, Ho].
  rewrite Hc. erewrite bind_ok; [|reflexivity].
  rewrite Hlen. erewrite bind_ok; [|apply lift_ok].
  rewrite Hdir. erewrite bind_ok; [|apply lift_ok].
  unfold py_int. rewrite Hn.
  erewrite bind_ok; [|reflexivity].
  destruct (py_range_length n dash_len Hd st) as (r & Hr & Hlenr).
  erewrite bind_ok; [|exact Hr].
  pose proof (dash_loop u dash_len (style o) r (NPoint_of (Point_add start pos)) st)
    as Hloop.
  rewrite Hlenr in Hloop. fold count in Hloop. rewrite Hdr in Hloop.
  destruct Hloop as (xy & Hxy).
  erewrite bind_ok; [|exact Hxy]. reflexivity.
Qed.

(** The line from (0,0) to (100,0) with dashes of 10, drawn at the origin,
    where the power gives the length 100.0: ten dashes, from x = 10 i to
    x = 10 i + 5. *)
Lemma DottedLine_hundred_by_ten :
  exists st',
    render 1 fixed_renderer 0%nat (P 0 0) (dotted_scene 100 10) = Ok (tt, st')
    /\ calls st'
       = call_line (NP (NInt 0) (NInt 0)) (NP (NFloat 5) (NFloat 0)) Style_default
         :: map (fun i => call_line (NP (NFloat (z2f (10 * i))) (NFloat 0))
                                    (NP (NFloat (z2f (10 * i + 5))) (NFloat 0))
                                    Style_default)
                [1; 2; 3; 4; 5; 6; 7; 8; 9].
Proof.
  set (o := mkNode (DottedLine (P 0 0) (P 100 0) 10) Style_default
                   (Some 100) (Some 0) [] None).
  assert (Ho : heap (dotted_scene 100 10) !! 0%nat = Some o)
    by (vm_compute; reflexivity).
  destruct (DottedLine_render_dashes 0 fixed_renderer (dotted_scene 100 10) 0%nat o
              (P 0 0) (P 100 0) 10 (P 0 0) 100%float 100 Ho eq_refl eq_refl)
    as (u & drawn & Hdir & Hdr & Hrun & _).
  - vm_compute; reflexivity.
  - vm_compute; reflexivity.
  - right. vm_compute. auto.
  - eexists. split; [exact Hrun|].
    vm_compute in Hdir. injection Hdir as <-.
    vm_compute in Hdr. injection Hdr as <-.
    vm_compute. reflexivity.
Defined.

(** C4 as stated fails whenever the dash length does not divide the length:
    from (0,0) to (105,0), a length of 105.0, with dashes of 10 there are 11
    dashes, the last one starting at x = 100, where floor(105 / 10) is
    10. *)
Lemma DottedLine_eleven_dashes :
  segment_length (platform (dotted_scene 105 10)) (P 0 0) (P 105 0)
  = Ok 105%float
  /\ (exists st',
        render 1 fixed_renderer 0%nat (P 0 0) (dotted_scene 105 10) = Ok (tt, st')
        /\ length (calls st') = 11%nat
        /\ last (calls st')
           = Some (call_line (NP (NFloat 100) (NFloat 0))
                             (NP (NFloat 105) (NFloat 0)) Style_default))
  /\ claimed_dash_count 105 10 = Some 10.
Proof.
  split; [vm_compute; reflexivity|].
  split; [eexists; split; [vm_compute; reflexivity|]|]; vm_compute; auto.
Qed.

(** ** Where the children are rendered *)

Lemma for_each_acc_ext {A B} (l : list A) (f g : B -> A -> M B) :
  (forall b a st, f b a st = g b a st) ->
  forall b st, for_each_acc l f b st = for_each_acc l g b st.
Proof.
  intros Hfg. induction l as [|a l IH]; intros b st; simpl; [reflexivity|].
  unfold bind. rewrite Hfg. destruct (g b a st) as [[b' st1]|e]; auto.
Qed.

Lemma centred_x_centre x W w : centred_x x W w + w / 2 = x + W / 2.
Proof. unfold centred_x. lia. Qed.

Lemma VLayout_render_refines width height render self pos st :
  VLayout_render width height render self pos st
  = VLayout_render_spec width height render self pos st.
Proof.
  unfold VLayout_render, VLayout_render_spec, bind.
  destruct (width self st) as [[W s1]|]; [|reflexivity].
  destruct (get_node self s1) as [[o s2]|]; [|reflexivity].
  erewrite for_each_acc_ext; [reflexivity|].
  intros y [obj offset] s. simpl. unfold bind.
  destruct (width obj s) as [[w s3]|]; [|reflexivity].
  replace (px pos + px offset + (px pos + W / 2) - (px pos + px offset + w / 2))
    with (centred_x (px pos) W w) by (unfold centred_x; lia).
  reflexivity.
Qed.

Lemma HLayout_render_refines width render self pos st :
  HLayout_render width render self pos st
  = HLayout_render_spec width render self pos st.
Proof.
  unfold HLayout_render, HLayout_render_spec, bind.
  destruct (get_node self st) as [[o s1]|]; [|reflexivity].
  erewrite for_each_acc_ext; [reflexivity|].
  intros x [obj offset] s. reflexivity.
Qed.

Lemma Object_render_refines render self pos st :
  Object_render render self pos st = render_translated render self pos st.
Proof.
  unfold Object_render, render_translated, bind.
  destruct (get_node self st) as [[o s1]|]; [|reflexivity].
  apply for_each_ext. intros [obj offset] s. reflexivity.
Qed.

Lemma Rectangle_render_refines render self pos st :
  Rectangle_render render self pos st = Rectangle_render_spec render self pos st.
Proof.
  unfold Rectangle_render, Rectangle_render_spec, bind.
  destruct (get_node self st) as [[o s1]|]; [|reflexivity].
  destruct (as_int (_w o) s1) as [[w s2]|]; [|reflexivity].
  destruct (as_int (_h o) s2) as [[h s3]|]; [|reflexivity].
  destruct (emit _ s3) as [[u s4]|]; [|reflexivity].
  apply Object_render_refines.
Qed.

Lemma Canvas_render_refines prepare width height render self pos st :
  Canvas_render prepare width height render self pos st
  = Canvas_render_spec prepare width height render self pos st.
Proof.
  unfold Canvas_render, Canvas_render_spec, bind.
  destruct (get_node self st) as [[o s1]|]; [|reflexivity].
  destruct (Object_set_width self _ s1) as [[u1 s2]|]; [|reflexivity].
  destruct (Object_set_height self _ s2) as [[u2 s3]|]; [|reflexivity].
  destruct (get_node self s3) as [[o' s4]|]; [|reflexivity].
  erewrite for_each_ext; [reflexivity|].
  intros [obj offset] s. simpl. unfold bind.
  destruct (prepare obj s) as [[u3 s5]|]; [|reflexivity].
  destruct (render obj _ s5) as [[u4 s6]|]; [|reflexivity].
  destruct (Object_width self s6) as [[w s7]|]; [|reflexivity].
  destruct (width obj s7) as [[cw s8]|]; [|reflexivity].
  replace (px offset + (px pos + padding (style o)))
    with (px pos + padding (style o) + px offset) by lia.
  destruct (Object_set_width self _ s8) as [[u5 s9]|]; [|reflexivity].
  destruct (Object_height self s9) as [[h s10]|]; [|reflexivity].
  destruct (height obj s10) as [[ch s11]|]; [|reflexivity].
  replace (py offset + (py pos + padding (style o)))
    with (py pos + padding (style o) + py offset) by lia.
  reflexivity.
Qed.

(** C2.  Whatever reads the dimensions and renders a child,
    [VLayout.render] at (x, y) does what the spec says: it reads its own
    width, then walks the children in order with a y cursor that starts at
    y and advances by [child.height + offset.y] after each child, and gives
    each child the x for which [x_child + child.width // 2] is
    [x + layout.width // 2]; [HLayout.render] gives each child the x cursor
    plus [offset.x] and [y + offset.y], the cursor starting at x and
    advancing by [child.width + offset.x], and centres nothing. *)
Theorem stacking_layouts_render :
  (forall width height render self pos st,
      VLayout_render width height render self pos st
      = VLayout_render_spec width height render self pos st)
  /\ (forall x W w, centred_x x W w + w / 2 = x + W / 2)
  /\ (forall width render self pos st,
      HLayout_render width render self pos st
      = HLayout_render_spec width render self pos st)
  /\ (forall cursor y offset,
      Point_add (P cursor y) offset = P (cursor + px offset) (y + py offset))
  /\ (forall k renderer self pos st o a,
      heap st !! self = Some o -> cls o = VLayout a ->
      render (S k) renderer self pos st
      = VLayout_render_spec (width k) (height k) (render k renderer) self pos st)
  /\ (forall k renderer self pos st o a,
      heap st !! self = Some o -> cls o = HLayout a \/ cls o = Table a ->
      render (S k) renderer self pos st
      = HLayout_render_spec (width k) (render k renderer) self pos st).
Proof.
  split_and!.
  - apply VLayout_render_refines.
  - apply centred_x_centre.
  - apply HLayout_render_refines.
  - reflexivity.
  - intros k renderer self pos st o a Ho Hc. simpl.
    erewrite bind_ok; [|apply get_node_ok, Ho]. rewrite Hc.
    apply VLayout_render_refines.
  - intros k renderer self pos st o a Ho Hc. simpl.
    erewrite bind_ok; [|apply get_node_ok, Ho].
    destruct Hc as [-> | ->]; apply HLayout_render_refines.
Qed.

(** The layout of [stacked_scene], 40 wide, drawn at (100, 200): the first
    rectangle (40 wide) at x = 100, the second (10 wide, offset (6, 3)) at
    x = 115, both centred on x = 120; the second at y = 200 + 10 + 3. *)
Lemma stacked_scene_render :
  exists st',
    render 3 fixed_renderer 0%nat (P 100 200) stacked_scene = Ok (tt, st')
    /\ calls st' = [call_rectangle (100, 200) (140, 210) Style_default;
                    call_rectangle (115, 213) (125, 233) Style_default].
Proof.
  set (o := mkNode (VLayout CENTER) Style_default None None
                   [(1%nat, P 0 0); (2%nat, P 6 3)] None).
  assert (Ho : heap stacked_scene !! 0%nat = Some o) by (vm_compute; reflexivity).
  destruct stacking_layouts_render as (_ & _ & _ & _ & HV & _).
  rewrite (HV 2%nat fixed_renderer 0%nat (P 100 200) _ o CENTER Ho eq_refl).
  eexists. split; [vm_compute; reflexivity | reflexivity].
Defined.

(** C3, as amended.  A base node, a spacer, a rectangle and a text box give
    each child their own position moved by the child's offset on both axes;
    a horizontal layout or a table, the x cursor and their y, moved by the
    offset; a canvas, its padded position moved by the offset.  A vertical
    layout moves the y cursor by the offset's y, but on the x axis it
    centres the child: the offset's x is not added. *)
Theorem offsets_in_render :
  forall k renderer self pos st o,
    heap st !! self = Some o ->
    render (S k) renderer self pos st
    = match cls o with
      | Object | Spacer => render_translated (render k renderer) self pos st
      | Rectangle | TextBox =>
          Rectangle_render_spec (render k renderer) self pos st
      | HLayout _ | Table _ =>
          HLayout_render_spec (width k) (render k renderer) self pos st
      | Canvas =>
          Canvas_render_spec (prepare k renderer) (width k) (height k)
                             (render k renderer) self pos st
      | VLayout _ =>
          VLayout_render_spec (width k) (height k) (render k renderer) self pos st
      | Line _ _ => Line_render self pos st
      | DottedLine _ _ _ => DottedLine_render self pos st
      | Arrow _ _ _ _ => Arrow_render self pos st
      | Text _ _ => Text_render self pos st
      end.
Proof.
  intros k renderer self pos st o Ho. simpl.
  erewrite bind_ok; [|apply get_node_ok, Ho].
  destruct (cls o); try reflexivity;
    auto using VLayout_render_refines, HLayout_render_refines,
               Object_render_refines, Rectangle_render_refines,
               Canvas_render_refines.
Qed.

(** The layout of [one_child_vlayout_scene (P 4 0)] drawn at the origin:
    the theorem's right-hand side puts the rectangle at x = 2. *)
Lemma offsets_in_render_vlayout :
  exists st',
    render 3 fixed_renderer 0%nat (P 0 0) (one_child_vlayout_scene (P 4 0))
    = Ok (tt, st')
    /\ calls st' = [call_rectangle (2, 0) (12, 10) Style_default].
Proof.
  set (o := mkNode (VLayout CENTER) Style_default None None
                   [(1%nat, P 4 0)] None).
  assert (Ho : heap (one_child_vlayout_scene (P 4 0)) !! 0%nat = Some o)
    by (vm_compute; reflexivity).
  rewrite (offsets_in_render 2 fixed_renderer 0%nat (P 0 0) _ o Ho).
  eexists. split; [vm_compute; reflexivity | reflexivity].
Defined.

(** C3 as stated fails for a vertical layout: with a zero offset the child
    of [one_child_vlayout_scene] is drawn at x = 0; added at offset (4, 0)
    it is drawn at x = 2, not translated by 4.  It also fails for a text
    (or a line), which draws itself and none of its children. *)
Lemma VLayout_offset_not_added :
  (exists st',
     render 3 fixed_renderer 0%nat (P 0 0) (one_child_vlayout_scene (P 0 0))
     = Ok (tt, st')
     /\ calls st' = [call_rectangle (0, 0) (10, 10) Style_default])
  /\ (exists st',
     render 3 fixed_renderer 0%nat (P 0 0) (one_child_vlayout_scene (P 4 0))
     = Ok (tt, st')
     /\ calls st' = [call_rectangle (2, 0) (12, 10) Style_default])
  /\ Point_add (P 0 0) (P 4 0) = P 4 0
  /\ (exists st',
     render 3 fixed_renderer 0%nat (P 0 0) text_with_child_scene = Ok (tt, st')
     /\ calls st' = [call_text "ab" (P 0 0) Style_default]).
Proof.
  split_and!;
    [eexists; split; [vm_compute; reflexivity | reflexivity] ..
    | reflexivity
    | eexists; split; [vm_compute; reflexivity | reflexivity]].
Qed.

(** ** What the passes leave alone *)

Lemma shape_erase o : shape (erase o) = shape o.
Proof. unfold erase. destruct (derived (cls o)); reflexivity. Qed.

Lemma erase_shape o o' : erase o = erase o' -> shape o = shape o'.
Proof. intros H. rewrite <- (shape_erase o), H. apply shape_erase. Qed.

Lemma frame_refl S st : frame S st st.
Proof. split; auto. Qed.

Lemma frame_trans S st1 st2 st3 :
  frame S st1 st2 -> frame S st2 st3 -> frame S st1 st3.
Proof.
  intros [H1 H2] [H3 H4]. split; [congruence|].
  intros id Hid. rewrite H2, H4; auto.
Qed.

Lemma frame_mono S S' st st' : incl S S' -> frame S st st' -> frame S' st st'.
Proof. intros Hi [H1 H2]. split; [exact H1|]. intros id Hid. apply H2. auto. Qed.

Lemma sim_frame S st st' : sim st st' -> frame S st st'.
Proof.
  intros (Hh & _). split.
  - apply map_eq. intros id.
    assert (H : (erase <$> heap st) !! id = (erase <$> heap st') !! id)
      by (rewrite Hh; reflexivity).
    rewrite !lookup_fmap in *.
    destruct (heap st !! id) as [o|], (heap st' !! id) as [o'|];
      simpl in *; try discriminate; [|reflexivity].
    f_equal. apply erase_shape. congruence.
  - intros id _.
    assert (H : (erase <$> heap st) !! id = (erase <$> heap st') !! id)
      by (rewrite Hh; reflexivity).
    rewrite !lookup_fmap in H. exact H.
Qed.

Lemma frame_shape S st st' id :
  frame S st st' -> shape <$> heap st !! id = shape <$> heap st' !! id.
Proof.
  intros [H _].
  assert (E : (shape <$> heap st) !! id = (shape <$> heap st') !! id)
    by (rewrite H; reflexivity).
  rewrite !lookup_fmap in E. exact E.
Qed.

Lemma frame_lookup S st st' id o' :
  frame S st st' -> heap st' !! id = Some o' ->
  exists o, heap st !! id = Some o /\ shape o = shape o'.
Proof.
  intros Hf Ho'. pose proof (frame_shape _ _ _ id Hf) as E.
  rewrite Ho' in E. destruct (heap st !! id) as [o|]; simpl in E; [|discriminate].
  exists o. split; [reflexivity | congruence].
Qed.

(** A node outside [S] with a stored dimension is the same node afterwards. *)
Lemma frame_stored S st st' id o :
  frame S st st' -> ~ In id S -> heap st !! id = Some o ->
  derived (cls o) = false -> heap st' !! id = Some o.
Proof.
  intros [_ H] Hid Ho Hd. specialize (H id Hid). rewrite Ho in H. simpl in H.
  destruct (heap st' !! id) as [o'|]; simpl in H; [|discriminate].
  f_equal. symmetry. apply erase_stored; [congruence | exact Hd].
Qed.

Lemma frame_update S st self o f :
  heap st !! self = Some o -> shape (f o) = shape o -> In self S ->
  frame S st (with_heap (<[self := f o]> (heap st)) st).
Proof.
  intros Ho Hs Hin. split; simpl.
  - rewrite fmap_insert, Hs. symmetry. apply insert_id.
    rewrite lookup_fmap, Ho. reflexivity.
  - intros id Hid. rewrite lookup_insert_ne; [reflexivity|]. intros ->. auto.
Qed.

Lemma frame_same_heap S st st' : heap st' = heap st -> frame S st st'.
Proof. intros H. split; rewrite H; auto. Qed.

Lemma descendants_self n h self : In self (descendants n h self).
Proof. destruct n; simpl; auto. Qed.

Lemma descendants_shape n h h' :
  shape <$> h = shape <$> h' ->
  forall self, descendants n h self = descendants n h' self.
Proof.
  intros Hs. induction n as [|n IH]; intros self; simpl; [reflexivity|].
  f_equal.
  assert (E : (shape <$> h) !! self = (shape <$> h') !! self)
    by (rewrite Hs; reflexivity).
  rewrite !lookup_fmap in E.
  destruct (h !! self) as [o|], (h' !! self) as [o'|];
    simpl in E; try discriminate; [|reflexivity].
  assert (Hk : kids o = kids o') by (unfold shape in E; congruence).
  rewrite Hk. clear Hk E.
  induction (kids o') as [|c l IHl]; simpl; [reflexivity|].
  rewrite IH, IHl. reflexivity.
Qed.

Lemma descendants_child n h self o c :
  h !! self = Some o -> In c (kids o) ->
  incl (descendants n h c) (descendants (S n) h self).
Proof.
  intros Ho Hc id Hid. simpl. right. rewrite Ho.
  apply in_flat_map. eauto.
Qed.

(** *** Rules for [keeps] *)

Lemma keeps_ret {A} st0 S (a : A) : keeps st0 S (ret a).
Proof. intros s a' s' Hf H. inversion H. subst. exact Hf. Qed.

Lemma keeps_raise {A} st0 S e : keeps st0 S (@raise A e).
Proof. intros s a s' _ H. discriminate. Qed.

Lemma keeps_bind {A B} st0 S (m : M A) (k : A -> M B) :
  keeps st0 S m -> (forall a, keeps st0 S (k a)) -> keeps st0 S (bind m k).
Proof.
  intros Hm Hk s b s' Hf H. inv_bind H as a s1 Hrun.
  eapply Hk; [|exact H]. eapply Hm; eauto.
Qed.

Lemma keeps_for_each {A} st0 S (l : list A) (f : A -> M unit) :
  (forall a, In a l -> keeps st0 S (f a)) -> keeps st0 S (for_each l f).
Proof.
  induction l as [|a l IH]; intros Hf; simpl; [apply keeps_ret|].
  apply keeps_bind; [apply Hf; left; reflexivity|].
  intros _. apply IH. intros a' Ha'. apply Hf. right. exact Ha'.
Qed.

Lemma keeps_for_each_acc {A B} st0 S (l : list A) (f : B -> A -> M B) :
  (forall b a, In a l -> keeps st0 S (f b a)) ->
  forall b, keeps st0 S (for_each_acc l f b).
Proof.
  induction l as [|a l IH]; intros Hf b; simpl; [apply keeps_ret|].
  apply keeps_bind; [apply Hf; left; reflexivity|].
  intros b'. apply IH. intros b'' a' Ha'. apply Hf. right. exact Ha'.
Qed.

Lemma keeps_same_heap {A} st0 S (m : M A) :
  (forall s a s', m s = Ok (a, s') -> heap s' = heap s) -> keeps st0 S m.
Proof.
  intros Hm s a s' Hf H. eapply frame_trans; [exact Hf|].
  apply frame_same_heap. eauto.
Qed.

Lemma keeps_emit st0 S c : keeps st0 S (emit c).
Proof. apply keeps_same_heap. intros s a s' H. inversion H. reflexivity. Qed.

Lemma keeps_as_int st0 S a : keeps st0 S (as_int a).
Proof. destruct a; [apply keeps_ret | apply keeps_raise]. Qed.

Lemma keeps_lift {A} st0 S (r : Result A) : keeps st0 S (lift r).
Proof. destruct r; [apply keeps_ret | apply keeps_raise]. Qed.

Lemma keeps_get_platform st0 S : keeps st0 S get_platform.
Proof. apply keeps_same_heap. intros s a s' H. inversion H. reflexivity. Qed.

(** What follows [get_node self] runs on a node of the shape [self] had in
    [st0]. *)
Lemma keeps_get_node {A} st0 S self (k : Node -> M A) :
  (forall o o0, heap st0 !! self = Some o0 -> shape o = shape o0 ->
                keeps st0 S (k o)) ->
  keeps st0 S (bind (get_node self) k).
Proof.
  intros Hk s a s' Hf H. inv_bind H as o s1 Hget.
  apply get_node_inv in Hget as [Ho ->].
  destruct (frame_lookup _ _ _ _ _ Hf Ho) as (o0 & Ho0 & Hs).
  eapply (Hk o o0); eauto.
Qed.

Lemma keeps_update st0 S self f :
  In self S -> (forall o, shape (f o) = shape o) ->
  keeps st0 S (update_node self f).
Proof.
  intros Hin Hs s a s' Hf H. apply update_node_inv in H as (o & Ho & ->).
  eapply frame_trans; [exact Hf|]. apply frame_update; auto.
Qed.

Lemma keeps_sim {A} st0 S (m : M A) :
  (forall s a s', m s = Ok (a, s') -> sim s s') -> keeps st0 S m.
Proof.
  intros Hm s a s' Hf H. eapply frame_trans; [exact Hf|].
  apply sim_frame. eauto.
Qed.

Lemma keeps_width st0 S n c : keeps st0 S (width n c).
Proof. apply keeps_sim. apply (width_sim n). Qed.

Lemma keeps_height st0 S n c : keeps st0 S (height n c).
Proof. apply keeps_sim. apply (height_sim n). Qed.

Lemma keeps_Object_width st0 S self : keeps st0 S (Object_width self).
Proof.
  apply keeps_same_heap. intros s a s' H.
  apply Object_width_inv in H as (? & ? & ? & ->). reflexivity.
Qed.

Lemma keeps_Object_height st0 S self : keeps st0 S (Object_height self).
Proof.
  apply keeps_same_heap. intros s a s' H.
  apply Object_height_inv in H as (? & ? & ? & ->). reflexivity.
Qed.

(** A call on a child stays within the parent's descendants. *)
Lemma keeps_child {A} st0 S n (rec : oid -> M A) c :
  (forall s a s', rec c s = Ok (a, s') ->
                  frame (descendants n (heap s) c) s s') ->
  incl (descendants n (heap st0) c) S ->
  keeps st0 S (rec c).
Proof.
  intros Hrec Hi s a s' Hf H. eapply frame_trans; [exact Hf|].
  apply (frame_mono (descendants n (heap st0) c)); [exact Hi|].
  rewrite (descendants_shape n (heap st0) (heap s)) by apply Hf.
  eauto.
Qed.

Lemma set_height_frame obj v s u s' :
  set_height obj v s = Ok (u, s') -> frame [obj] s s'.
Proof.
  intros H. unfold set_height in H. inv_bind H as o s1 Hget.
  apply get_node_inv in Hget as [Ho ->].
  assert (Hobj : Object_set_height obj v s = Ok (u, s') -> frame [obj] s s').
  { intros Hu. apply update_node_inv in Hu as (o' & Ho' & ->).
    apply frame_update; [exact Ho' | reflexivity | left; reflexivity]. }
  destruct (cls o); auto.
  unfold TextBox_set_height in H. inv_bind H as u1 s1 Hupd.
  apply update_node_inv in Hupd as (o1 & Ho1 & ->).
  inv_bind H as o2 s2 Hget. apply get_node_inv in Hget as [Ho2 ->].
  unfold with_heap in Ho2. simpl in Ho2. rewrite lookup_insert_eq in Ho2.
  inversion Ho2. subst o2. simpl in H.
  destruct (children o1) as [|[t off] rest] eqn:Hch; [discriminate|].
  inv_bind H as w s3 Hw. apply Object_width_inv in Hw as (? & ? & ? & ->).
  inv_bind H as h s4 Hh. apply Object_height_inv in Hh as (? & ? & ? & ->).
  apply update_node_inv in H as (o3 & Ho3 & ->).
  unfold with_heap in Ho3. simpl in Ho3. rewrite lookup_insert_eq in Ho3.
  inversion Ho3. subst o3.
  eapply frame_trans.
  - apply (frame_update [obj] s obj o1 (with_h v));
      [exact Ho1 | reflexivity | left; reflexivity].
  - apply frame_update; [apply lookup_insert_eq | | left; reflexivity].
    unfold shape, kids. simpl. rewrite Hch. reflexivity.
Qed.

Lemma keeps_set_height st0 S obj v :
  In obj S -> keeps st0 S (set_height obj v).
Proof.
  intros Hin s a s' Hf H. eapply frame_trans; [exact Hf|].
  apply (frame_mono [obj]); [|eapply set_height_frame; eauto].
  intros id [<- | []]. exact Hin.
Qed.

Lemma child_incl n st0 self o0 o obj off :
  heap st0 !! self = Some o0 -> shape o = shape o0 ->
  In (obj, off) (children o) ->
  incl (descendants n (heap st0) obj) (descendants (S n) (heap st0) self).
Proof.
  intros Ho0 Hs Hin. eapply descendants_child; [exact Ho0|].
  assert (Hk : kids o = kids o0) by (unfold shape in Hs; congruence).
  rewrite <- Hk. unfold kids. apply (in_map fst) in Hin. exact Hin.
Qed.

Lemma child_in n st0 self o0 o obj off :
  heap st0 !! self = Some o0 -> shape o = shape o0 ->
  In (obj, off) (children o) ->
  In obj (descendants (S n) (heap st0) self).
Proof.
  intros Ho0 Hs Hin. eapply child_incl; eauto. apply descendants_self.
Qed.

Section PassesKeep.
Variable n : nat.
Variable renderer : Renderer.
Variable st0 : State.
Variable self : oid.
Variable prepare_n : oid -> M unit.
Variable render_n : oid -> Point -> M unit.

Hypothesis prepare_n_frame :
  forall c s u s', prepare_n c s = Ok (u, s') ->
                   frame (descendants n (heap s) c) s s'.
Hypothesis render_n_frame :
  forall c pos s u s', render_n c pos s = Ok (u, s') ->
                       frame (descendants n (heap s) c) s s'.

Local Notation "'here'" := (descendants (S n) (heap st0) self).

Lemma self_here : In self here.
Proof. apply descendants_self. Qed.

Lemma keeps_Object_prepare : keeps st0 here (Object_prepare prepare_n self).
Proof.
  unfold Object_prepare. apply keeps_get_node. intros o o0 Ho0 Hs.
  apply keeps_for_each. intros [obj off] Hin.
  apply (keeps_child st0 here n prepare_n obj); [apply prepare_n_frame|].
  eapply child_incl; eauto.
Qed.

Lemma keeps_Table_prepare :
  keeps st0 here (Table_prepare prepare_n (height n) self).
Proof.
  unfold Table_prepare.
  apply keeps_bind; [apply keeps_Object_prepare | intros _].
  apply keeps_bind; [apply keeps_update; [apply self_here | reflexivity] | intros _].
  apply keeps_get_node. intros o o0 Ho0 Hs.
  apply keeps_bind.
  { apply keeps_for_each. intros [obj off] Hin.
    apply keeps_get_node. intros o1 o2 _ _.
    apply keeps_bind; [apply keeps_height | intros h].
    apply keeps_bind; [apply keeps_as_int | intros cur].
    apply keeps_update; [apply self_here | reflexivity]. }
  intros _. apply keeps_get_node. intros o1 o2 Ho2 Hs1.
  apply keeps_for_each. intros [obj off] Hin.
  apply keeps_get_node. intros o3 o4 _ _.
  apply keeps_set_height. eapply child_in; eauto.
Qed.

Lemma keeps_Text_prepare :
  keeps st0 here (Text_prepare renderer prepare_n self).
Proof.
  unfold Text_prepare.
  apply keeps_bind; [apply keeps_Object_prepare | intros _].
  apply keeps_get_node. intros o o0 Ho0 Hs.
  destruct (py_not (_w o) || py_not (_h o)); [|apply keeps_ret].
  destruct (cls o); try apply keeps_raise.
  apply keeps_bind; [apply keeps_emit | intros _].
  match goal with
  | |- context [text_bbox ?r ?t ?s] => destruct (text_bbox r t s) as [[[l t'] rr] b]
  end.
  apply keeps_get_node. intros o1 o2 _ _.
  apply keeps_bind; [apply keeps_update; [apply self_here | reflexivity] | intros _].
  apply keeps_get_node. intros o3 o4 _ _.
  apply keeps_update; [apply self_here | reflexivity].
Qed.

Lemma keeps_Object_render pos : keeps st0 here (Object_render render_n self pos).
Proof.
  unfold Object_render. apply keeps_get_node. intros o o0 Ho0 Hs.
  apply keeps_for_each. intros [obj off] Hin.
  apply (keeps_child st0 here n (fun c => render_n c _) obj);
    [intros s u s' H; eapply render_n_frame; exact H|].
  eapply child_incl; eauto.
Qed.

Lemma keeps_VLayout_render pos :
  keeps st0 here (VLayout_render (width n) (height n) render_n self pos).
Proof.
  unfold VLayout_render.
  apply keeps_bind; [apply keeps_width | intros W].
  apply keeps_get_node. intros o o0 Ho0 Hs.
  apply keeps_bind; [|intros; apply keeps_ret].
  apply keeps_for_each_acc. intros y [obj off] Hin.
  apply keeps_bind; [apply keeps_width | intros w].
  apply keeps_bind.
  { apply (keeps_child st0 here n (fun c => render_n c _) obj);
      [intros s u s' H; eapply render_n_frame; exact H|].
    eapply child_incl; eauto. }
  intros _. apply keeps_bind; [apply keeps_height | intros h]. apply keeps_ret.
Qed.

Lemma keeps_HLayout_render pos :
  keeps st0 here (HLayout_render (width n) render_n self pos).
Proof.
  unfold HLayout_render.
  apply keeps_get_node. intros o o0 Ho0 Hs.
  apply keeps_bind; [|intros; apply keeps_ret].
  apply keeps_for_each_acc. intros x [obj off] Hin.
  apply keeps_bind.
  { apply (keeps_child st0 here n (fun c => render_n c _) obj);
      [intros s u s' H; eapply render_n_frame; exact H|].
    eapply child_incl; eauto. }
  intros _. apply keeps_bind; [apply keeps_width | intros w]. apply keeps_ret.
Qed.

Lemma keeps_Rectangle_render pos :
  keeps st0 here (Rectangle_render render_n self pos).
Proof.
  unfold Rectangle_render.
  apply keeps_get_node. intros o o0 Ho0 Hs.
  apply keeps_bind; [apply keeps_as_int | intros w].
  apply keeps_bind; [apply keeps_as_int | intros h].
  apply keeps_bind; [apply keeps_emit | intros _].
  apply keeps_Object_render.
Qed.

Lemma keeps_Canvas_render pos :
  keeps st0 here
        (Canvas_render prepare_n (width n) (height n) render_n self pos).
Proof.
  unfold Canvas_render.
  apply keeps_get_node. intros o o0 Ho0 Hs.
  apply keeps_bind; [apply keeps_update; [apply self_here | reflexivity] | intros _].
  apply keeps_bind; [apply keeps_update; [apply self_here | reflexivity] | intros _].
  apply keeps_get_node. intros o1 o2 Ho2 Hs1.
  apply keeps_bind.
  { apply keeps_for_each. intros [obj off] Hin.
    apply keeps_bind.
    { apply (keeps_child st0 here n prepare_n obj); [apply prepare_n_frame|].
      eapply child_incl; eauto. }
    intros _. apply keeps_bind.
    { apply (keeps_child st0 here n (fun c => render_n c _) obj);
        [intros s u s' H; eapply render_n_frame; exact H|].
      eapply child_incl; eauto. }
    intros _.
    apply keeps_bind; [apply keeps_Object_width | intros sw].
    apply keeps_bind; [apply keeps_width | intros w].
    apply keeps_bind; [apply keeps_update; [apply self_here | reflexivity] | intros _].
    apply keeps_bind; [apply keeps_Object_height | intros sh].
    apply keeps_bind; [apply keeps_height | intros h].
    apply keeps_update; [apply self_here | reflexivity]. }
  intros _.
  apply keeps_bind; [apply keeps_Object_width | intros sw].
  apply keeps_bind; [apply keeps_update; [apply self_here | reflexivity] | intros _].
  apply keeps_bind; [apply keeps_Object_height | intros sh].
  apply keeps_bind; [apply keeps_update; [apply self_here | reflexivity] | intros _].
  apply keeps_bind; [apply keeps_Object_width | intros sw'].
  apply keeps_bind; [apply keeps_Object_height | intros sh'].
  apply keeps_emit.
Qed.

End PassesKeep.

Lemma keeps_Line_render st0 S self pos : keeps st0 S (Line_render self pos).
Proof.
  unfold Line_render. apply keeps_get_node. intros o o0 _ _.
  destruct (cls o); try apply keeps_raise; apply keeps_emit.
Qed.

Lemma keeps_DottedLine_render st0 S self pos :
  keeps st0 S (DottedLine_render self pos).
Proof.
  unfold DottedLine_render. apply keeps_get_node. intros o o0 _ _.
  destruct (cls o); try apply keeps_raise.
  apply keeps_bind; [apply keeps_get_platform | intros pf].
  apply keeps_bind; [apply keeps_lift | intros len].
  apply keeps_bind; [apply keeps_lift | intros u].
  apply keeps_bind.
  { unfold py_int. destruct (f2z _); [apply keeps_ret | apply keeps_raise]. }
  intros m. apply keeps_bind.
  { unfold py_range.
    match goal with
    | |- context [if ?b then _ else _] => destruct b
    end; [apply keeps_raise | apply keeps_ret]. }
  intros r. apply keeps_bind; [|intros; apply keeps_ret].
  apply keeps_for_each_acc. intros xy i _. unfold dash_step.
  apply keeps_bind; [apply keeps_lift | intros half].
  apply keeps_bind; [apply keeps_lift | intros xy2].
  apply keeps_bind; [apply keeps_emit | intros _].
  apply keeps_bind; [apply keeps_lift | intros full]. apply keeps_lift.
Qed.

Lemma keeps_Arrow_render st0 S self pos : keeps st0 S (Arrow_render self pos).
Proof.
  unfold Arrow_render. apply keeps_get_node. intros o o0 _ _.
  destruct (cls o); try apply keeps_raise.
  repeat (apply keeps_bind; [apply keeps_emit | intros _]).
  match goal with
  | |- context [if ?b then _ else _] => destruct b
  end; [|apply keeps_ret].
  apply keeps_bind; [apply keeps_emit | intros _]. apply keeps_emit.
Qed.

Lemma keeps_Text_render st0 S self pos : keeps st0 S (Text_render self pos).
Proof.
  unfold Text_render. apply keeps_get_node. intros o o0 _ _.
  destruct (cls o); try apply keeps_raise.
  match goal with
  | |- context [match ?a with TOP => _ | _ => _ end] => destruct a
  end; try apply keeps_emit.
  apply keeps_bind; [apply keeps_Object_width | intros w]. apply keeps_emit.
Qed.

(** Preparing a node touches its descendants only. *)
Lemma prepare_frame renderer n :
  forall self s u s',
    prepare n renderer self s = Ok (u, s') ->
    frame (descendants n (heap s) self) s s'.
Proof.
  induction n as [|n IH]; intros self s u s' H; [discriminate|].
  assert (K : keeps s (descendants (S n) (heap s) self)
                    (prepare (S n) renderer self)).
  { simpl prepare. apply keeps_get_node. intros o o0 _ _.
    destruct (cls o);
      first [ apply keeps_Table_prepare; exact IH
            | apply keeps_Text_prepare; exact IH
            | apply keeps_Object_prepare; exact IH ]. }
  eapply K; [apply frame_refl | exact H].
Qed.

(** Rendering a node touches its descendants only. *)
Lemma render_frame renderer n :
  forall self pos s u s',
    render n renderer self pos s = Ok (u, s') ->
    frame (descendants n (heap s) self) s s'.
Proof.
  induction n as [|n IH]; intros self pos s u s' H; [discriminate|].
  assert (K : keeps s (descendants (S n) (heap s) self)
                    (render (S n) renderer self pos)).
  { simpl render. apply keeps_get_node. intros o o0 _ _.
    destruct (cls o);
      first [ apply keeps_Object_render; exact IH
            | apply keeps_VLayout_render; exact IH
            | apply keeps_HLayout_render; exact IH
            | apply keeps_Rectangle_render; exact IH
            | apply keeps_Line_render
            | apply keeps_DottedLine_render
            | apply keeps_Arrow_render
            | apply keeps_Text_render
            | apply keeps_Canvas_render;
              [apply prepare_frame | exact IH] ]. }
  eapply K; [apply frame_refl | exact H].
Qed.

(** ** [Text.prepare] *)

(** The children's pass of a node touches the descendants of its children. *)
Lemma Object_prepare_frame renderer n self s u s' o :
  heap s !! self = Some o ->
  Object_prepare (prepare n renderer) self s = Ok (u, s') ->
  frame (flat_map (descendants n (heap s)) (kids o)) s s'.
Proof.
  intros Ho H.
  assert (K : keeps s (flat_map (descendants n (heap s)) (kids o))
                    (Object_prepare (prepare n renderer) self)).
  { unfold Object_prepare. apply keeps_get_node. intros o1 o0 Ho0 Hs.
    assert (o0 = o) by congruence. subst o0.
    apply keeps_for_each. intros [obj off] Hin.
    apply (keeps_child s _ n (prepare n renderer) obj); [apply prepare_frame|].
    intros id Hid. apply in_flat_map. exists obj. split; [|exact Hid].
    assert (Hk : kids o1 = kids o) by (unfold shape in Hs; congruence).
    rewrite <- Hk. unfold kids. apply (in_map fst) in Hin. exact Hin. }
  eapply K; [apply frame_refl | exact H].
Qed.

Lemma Object_prepare_leaf rec self st o :
  heap st !! self = Some o -> children o = [] ->
  Object_prepare rec self st = Ok (tt, st).
Proof.
  intros Ho Hch. unfold Object_prepare.
  erewrite bind_ok; [|apply get_node_ok, Ho]. rewrite Hch. reflexivity.
Qed.

(** After the children's pass, the text measures itself when a dimension is
    [None] or 0, and does nothing otherwise. *)
Lemma Text_prepare_after renderer rec self st st1 o text a :
  Object_prepare rec self st = Ok (tt, st1) ->
  heap st1 !! self = Some o -> cls o = Text text a ->
  Text_prepare renderer rec self st
  = Ok (tt, if needs_measure o then measured renderer self text o st1 else st1).
Proof.
  intros Hpass Ho Hc. unfold Text_prepare.
  erewrite bind_ok; [|exact Hpass].
  erewrite bind_ok; [|apply get_node_ok, Ho].
  fold (needs_measure o). destruct (needs_measure o); [|reflexivity].
  rewrite Hc. unfold measured, measured_node, bbox_right, bbox_bottom.
  destruct (text_bbox renderer text (style o)) as [[[l t] r] b]. simpl.
  erewrite bind_ok; [|apply emit_log].
  erewrite bind_ok; [|apply get_node_ok; exact Ho].
  unfold Object_set_width, Object_set_height.
  erewrite bind_ok; [|apply update_node_ok; exact Ho].
  erewrite bind_ok;
    [|apply get_node_ok; unfold with_heap; simpl; apply lookup_insert_eq].
  erewrite update_node_ok; [|unfold with_heap; simpl; apply lookup_insert_eq].
  unfold with_heap, log. simpl. rewrite insert_insert_eq. reflexivity.
Qed.

Lemma prepare_Text_run n renderer st self o text a sA :
  heap st !! self = Some o -> cls o = Text text a ->
  ~ In self (flat_map (descendants n (heap st)) (kids o)) ->
  Object_prepare (prepare n renderer) self st = Ok (tt, sA) ->
  heap sA !! self = Some o
  /\ prepare (S n) renderer self st
     = Ok (tt, if needs_measure o then measured renderer self text o sA else sA).
Proof.
  intros Ho Hc Hacyc Hpass.
  assert (HoA : heap sA !! self = Some o).
  { eapply frame_stored; [eapply Object_prepare_frame; eauto | exact Hacyc
                         | exact Ho | rewrite Hc; reflexivity]. }
  split; [exact HoA|]. simpl.
  erewrite bind_ok; [|apply get_node_ok, Ho]. rewrite Hc.
  eapply Text_prepare_after; eauto.
Qed.

Lemma prepare_Text_inv n renderer st self o text a u st' :
  heap st !! self = Some o -> cls o = Text text a ->
  ~ In self (flat_map (descendants n (heap st)) (kids o)) ->
  prepare (S n) renderer self st = Ok (u, st') ->
  exists sA,
    Object_prepare (prepare n renderer) self st = Ok (tt, sA)
    /\ heap sA !! self = Some o
    /\ st' = if needs_measure o then measured renderer self text o sA else sA.
Proof.
  intros Ho Hc Hacyc H.
  assert (Hpass : exists sA, Object_prepare (prepare n renderer) self st = Ok (tt, sA)).
  { simpl in H. erewrite bind_ok in H; [|apply get_node_ok, Ho]. rewrite Hc in H.
    unfold Text_prepare in H. inv_bind H as u1 sA Hp. destruct u1. eauto. }
  destruct Hpass as (sA & Hpass). exists sA.
  destruct (prepare_Text_run n renderer st self o text a sA Ho Hc Hacyc Hpass)
    as [HoA Hrun].
  split_and!; auto. congruence.
Qed.

Lemma py_or_idem a b : py_or (Some (py_or a b)) b = py_or a b.
Proof.
  unfold py_or. destruct a as [v|].
  - destruct (Z.eqb_spec v 0) as [->|Hv].
    + destruct (b =? 0); reflexivity.
    + destruct (Z.eqb_spec v 0); [contradiction | reflexivity].
  - destruct (b =? 0) eqn:E; [|reflexivity]. apply Z.eqb_eq in E. auto.
Qed.

Lemma py_or_set v b : v <> 0 -> py_or (Some v) b = v.
Proof. intros Hv. unfold py_or. destruct (Z.eqb_spec v 0); [contradiction|reflexivity]. Qed.

Lemma py_or_drop_zero a b : py_or (drop_zero a) b = py_or a b.
Proof.
  destruct a as [v|]; simpl; [|reflexivity].
  destruct (v =? 0) eqn:E; simpl; rewrite ?E; reflexivity.
Qed.

Lemma py_not_drop_zero a : py_not (drop_zero a) = py_not a.
Proof.
  destruct a as [v|]; simpl; [|reflexivity].
  destruct (v =? 0) eqn:E; simpl; rewrite ?E; reflexivity.
Qed.

Lemma drop_zero_set a : py_not a = false -> drop_zero a = a.
Proof. destruct a as [v|]; simpl; [|discriminate]. intros ->. reflexivity. Qed.

Lemma measured_lookup renderer self text o s :
  heap (measured renderer self text o s) !! self
  = Some (measured_node renderer text o).
Proof. unfold measured. simpl. apply lookup_insert_eq. Qed.

(** A text, once prepared, has the same dimensions after a second
    [prepare]. *)
Lemma measured_node_again renderer text o :
  let o1 := if needs_measure o then measured_node renderer text o else o in
  let o2 := if needs_measure o1 then measured_node renderer text o1 else o1 in
  _w o2 = _w o1 /\ _h o2 = _h o1.
Proof.
  simpl. destruct (needs_measure o) eqn:E1.
  - destruct (needs_measure (measured_node renderer text o)); [|auto].
    unfold measured_node. simpl.
    split; f_equal; [apply (py_or_idem (_w o)) | apply (py_or_idem (_h o))].
  - rewrite E1. auto.
Qed.

Lemma prepared_text_lookup renderer self text o sA :
  heap sA !! self = Some o ->
  heap (if needs_measure o then measured renderer self text o sA else sA) !! self
  = Some (if needs_measure o then measured_node renderer text o else o).
Proof.
  intros Ho. destruct (needs_measure o); [apply measured_lookup | exact Ho].
Qed.

Lemma prepared_text_shape renderer text o :
  shape (if needs_measure o then measured_node renderer text o else o) = shape o.
Proof. destruct (needs_measure o); reflexivity. Qed.

Lemma flat_map_descendants_shape n h h' l :
  shape <$> h = shape <$> h' ->
  flat_map (descendants n h) l = flat_map (descendants n h') l.
Proof.
  intros Hs. apply flat_map_ext. intros c. apply descendants_shape, Hs.
Qed.

(** C7, as amended.  For a text node that is not below itself:
    [prepare] twice leaves the width and height [prepare] once left; on a
    text without children both calls return.  After the children's pass,
    [prepare] asks the renderer for the extent exactly when the width or the
    height is [None] or 0; so with both set to non-zero values it makes no
    call of [text_bbox] for this text and changes nothing, and when it
    measures, a dimension set to a non-zero value keeps it. *)
Theorem Text_prepare_idempotent :
  forall n renderer st self o text a,
    heap st !! self = Some o -> cls o = Text text a ->
    ~ In self (flat_map (descendants n (heap st)) (kids o)) ->
    (forall st1 st2,
        prepare (S n) renderer self st = Ok (tt, st1) ->
        prepare (S n) renderer self st1 = Ok (tt, st2) ->
        exists o1 o2,
          heap st1 !! self = Some o1 /\ heap st2 !! self = Some o2
          /\ _w o2 = _w o1 /\ _h o2 = _h o1)
    /\ (children o = [] ->
        exists st1 st2,
          prepare (S n) renderer self st = Ok (tt, st1)
          /\ prepare (S n) renderer self st1 = Ok (tt, st2))
    /\ (forall sA,
        Object_prepare (prepare n renderer) self st = Ok (tt, sA) ->
        exists st1 o1,
          prepare (S n) renderer self st = Ok (tt, st1)
          /\ heap st1 !! self = Some o1
          /\ (needs_measure o = false -> st1 = sA)
          /\ (needs_measure o = true ->
              calls st1 = calls sA ++ [call_text_bbox text (style o)])
          /\ (forall w, _w o = Some w -> w <> 0 -> _w o1 = Some w)
          /\ (forall h, _h o = Some h -> h <> 0 -> _h o1 = Some h))
    /\ (forall w h, _w o = Some w -> w <> 0 -> _h o = Some h -> h <> 0 ->
        needs_measure o = false).
Proof.
  intros n renderer st self o text a Ho Hc Hacyc. split_and!.
  - intros st1 st2 H1 H2.
    pose proof (prepare_frame renderer (S n) self st tt st1 H1) as [Hshape _].
    destruct (prepare_Text_inv n renderer st self o text a tt st1 Ho Hc Hacyc H1)
      as (sA & HpA & HoA & ->).
    pose proof (prepared_text_lookup renderer self text o sA HoA) as Ho1.
    pose proof (prepared_text_shape renderer text o) as Hs1.
    set (o1 := if needs_measure o then measured_node renderer text o else o) in *.
    assert (Hc1 : cls o1 = Text text a) by (unfold shape in Hs1; congruence).
    assert (Hacyc1 : ~ In self (flat_map (descendants n
                (heap (if needs_measure o then measured renderer self text o sA
                       else sA))) (kids o1))).
    { rewrite <- (flat_map_descendants_shape n _ _ _ Hshape).
      replace (kids o1) with (kids o) by (unfold shape in Hs1; congruence).
      exact Hacyc. }
    destruct (prepare_Text_inv n renderer _ self o1 text a tt st2 Ho1 Hc1 Hacyc1 H2)
      as (sB & HpB & HoB & ->).
    exists o1, (if needs_measure o1 then measured_node renderer text o1 else o1).
    split; [exact Ho1|]. split; [apply prepared_text_lookup, HoB|].
    apply measured_node_again.
  - intros Hch.
    assert (Hpass : Object_prepare (prepare n renderer) self st = Ok (tt, st))
      by (eapply Object_prepare_leaf; eauto).
    destruct (prepare_Text_run n renderer st self o text a st Ho Hc Hacyc Hpass)
      as [_ H1].
    pose proof (prepared_text_lookup renderer self text o st Ho) as Ho1.
    pose proof (prepared_text_shape renderer text o) as Hs1.
    set (o1 := if needs_measure o then measured_node renderer text o else o) in *.
    set (st1 := if needs_measure o then measured renderer self text o st else st) in *.
    assert (Hc1 : cls o1 = Text text a) by (unfold shape in Hs1; congruence).
    assert (Hch1 : children o1 = [])
      by (unfold o1; destruct (needs_measure o); simpl; exact Hch).
    assert (Hpass1 : Object_prepare (prepare n renderer) self st1 = Ok (tt, st1))
      by (eapply Object_prepare_leaf; eauto).
    destruct (prepare_Text_run n renderer st1 self o1 text a st1 Ho1 Hc1) as [_ H2];
      [unfold kids; rewrite Hch1; simpl; tauto | exact Hpass1 |].
    eauto.
  - intros sA Hpass.
    destruct (prepare_Text_run n renderer st self o text a sA Ho Hc Hacyc Hpass)
      as [HoA H1].
    eexists. exists (if needs_measure o then measured_node renderer text o else o).
    split; [exact H1|]. split; [apply prepared_text_lookup, HoA|].
    split_and!.
    + intros ->. reflexivity.
    + intros ->. reflexivity.
    + intros w Hw Hnz. destruct (needs_measure o); [|exact Hw].
      simpl. rewrite Hw, py_or_set by exact Hnz. reflexivity.
    + intros h Hh Hnz. destruct (needs_measure o); [|exact Hh].
      simpl. rewrite Hh, py_or_set by exact Hnz. reflexivity.
  - intros w h Hw Hwz Hh Hhz. unfold needs_measure. rewrite Hw, Hh. simpl.
    destruct (Z.eqb_spec w 0), (Z.eqb_spec h 0); try contradiction. reflexivity.
Qed.

(** A text built 30 by 5 is not measured, and stays 30 by 5 however often
    it is prepared. *)
Lemma Text_prepare_sized_text :
  prepare 1 fixed_renderer 0%nat sized_text_scene = Ok (tt, sized_text_scene)
  /\ calls sized_text_scene = []
  /\ exists o1, heap sized_text_scene !! 0%nat = Some o1
                /\ _w o1 = Some 30 /\ _h o1 = Some 5.
Proof.
  set (o := mkNode (Text "ab" LEFT) Style_default (Some 30) (Some 5) [] None).
  assert (Ho : heap sized_text_scene !! 0%nat = Some o) by (vm_compute; reflexivity).
  destruct (Text_prepare_idempotent 0 fixed_renderer sized_text_scene 0%nat o
              "ab"%string LEFT Ho eq_refl) as (Hidem & Hleaf & Hown & Hset);
    [simpl; tauto|].
  destruct (Hown sized_text_scene) as (st1 & o1 & H1 & Ho1 & Hsame & _ & Hw & Hh);
    [vm_compute; reflexivity|].
  rewrite (Hsame (Hset 30 5 eq_refl ltac:(lia) eq_refl ltac:(lia))) in H1, Ho1.
  split; [exact H1|]. split; [reflexivity|].
  exists o1. split; [exact Ho1|].
  split; [apply (Hw 30); [reflexivity | lia] | apply (Hh 5); [reflexivity | lia]].
Defined.

(** C7 as stated fails for a dimension set to 0: the text built with
    [width=0, height=5] asks the renderer for its extent, and its width
    becomes the measured 40. *)
Lemma Text_prepare_explicit_zero :
  (_w <$> heap zero_width_text_scene !! 0%nat = Some (Some 0)
   /\ _h <$> heap zero_width_text_scene !! 0%nat = Some (Some 5))
  /\ exists st1,
       prepare 1 fixed_renderer 0%nat zero_width_text_scene = Ok (tt, st1)
       /\ calls st1 = [call_text_bbox "ab" Style_default]
       /\ _w <$> heap st1 !! 0%nat = Some (Some 40).
Proof.
  split; [split; vm_compute; reflexivity|].
  eexists. split; [vm_compute; reflexivity|].
  split; vm_compute; reflexivity.
Qed.

(** C10.  A text built with a width or height of 0 and prepared ends in the
    very state it ends in when that dimension is left out.  And in any
    state, a text that is not below itself and whose width or height is 0
    after its children's pass asks the renderer for its extent, and the
    zero dimension becomes the measured one. *)
Theorem zero_dimension_is_unset :
  (forall k renderer st text align kw,
      (t <- Text_init text align kw ;; prepare (S k) renderer t) st
      = (t <- Text_init text align (without_zero_dimensions kw) ;;
         prepare (S k) renderer t) st)
  /\ (forall n renderer st self o text a sA,
      heap st !! self = Some o -> cls o = Text text a ->
      ~ In self (flat_map (descendants n (heap st)) (kids o)) ->
      Object_prepare (prepare n renderer) self st = Ok (tt, sA) ->
      _w o = Some 0 \/ _h o = Some 0 ->
      exists st1 o1,
        prepare (S n) renderer self st = Ok (tt, st1)
        /\ calls st1 = calls sA ++ [call_text_bbox text (style o)]
        /\ heap st1 !! self = Some o1
        /\ (_w o = Some 0 ->
            _w o1 = Some (bbox_right (text_bbox renderer text (style o))))
        /\ (_h o = Some 0 ->
            _h o1 = Some (bbox_bottom (text_bbox renderer text (style o))))).
Proof.
  split.
  - intros k renderer st text align kw.
    destruct (Object_init_ok (Text text align) kw st) as (t & s1 & H1).
    destruct (Object_init_ok (Text text align) (without_zero_dimensions kw) st)
      as (t' & s1' & H1').
    unfold Text_init. erewrite !bind_ok; [|exact H1'|exact H1].
    apply Object_init_inv in H1 as [-> ->].
    apply Object_init_inv in H1' as [-> ->].
    cbv zeta. simpl kw_style. simpl kw_rest. simpl kw_width. simpl kw_height.
    set (sty := if has_overrides (kw_rest kw)
                then Style_replace (default (default_style st) (kw_style kw)) (kw_rest kw)
                else default (default_style st) (kw_style kw)).
    set (o := mkNode (Text text align) sty (kw_width kw) (kw_height kw) [] None).
    set (o' := mkNode (Text text align) sty (drop_zero (kw_width kw))
                      (drop_zero (kw_height kw)) [] None).
    set (s := mkState (<[next_id st := o]> (heap st)) (S (next_id st))
                      (default_style st) (calls st) (platform st)).
    set (s' := mkState (<[next_id st := o']> (heap st)) (S (next_id st))
                       (default_style st) (calls st) (platform st)).
    assert (Ho : heap s !! next_id st = Some o) by apply lookup_insert_eq.
    assert (Ho' : heap s' !! next_id st = Some o') by apply lookup_insert_eq.
    destruct (prepare_Text_run k renderer s (next_id st) o text align s Ho eq_refl)
      as [_ ->]; [simpl; tauto | eapply Object_prepare_leaf; eauto |].
    destruct (prepare_Text_run k renderer s' (next_id st) o' text align s' Ho' eq_refl)
      as [_ ->]; [simpl; tauto | eapply Object_prepare_leaf; eauto |].
    assert (Hn : needs_measure o' = needs_measure o)
      by (unfold needs_measure; simpl; rewrite !py_not_drop_zero; reflexivity).
    rewrite Hn. destruct (needs_measure o) eqn:E.
    + f_equal. f_equal. unfold measured, measured_node. simpl.
      rewrite !insert_insert_eq, !py_or_drop_zero. reflexivity.
    + unfold needs_measure in E. simpl in E.
      apply orb_false_iff in E as [Ew Eh].
      unfold s, s', o, o'. rewrite (drop_zero_set _ Ew), (drop_zero_set _ Eh).
      reflexivity.
  - intros n renderer st self o text a sA Ho Hc Hacyc Hpass Hzero.
    destruct (prepare_Text_run n renderer st self o text a sA Ho Hc Hacyc Hpass)
      as [HoA H1].
    assert (Hn : needs_measure o = true).
    { unfold needs_measure. destruct Hzero as [-> | ->]; simpl;
        [reflexivity | apply orb_true_r]. }
    rewrite Hn in H1.
    exists (measured renderer self text o sA), (measured_node renderer text o).
    split; [exact H1|]. split; [reflexivity|].
    split; [apply measured_lookup|].
    split; intros E; simpl; rewrite E; reflexivity.
Qed.

(** The text built with [width=0, height=5]: the renderer is asked, and the
    text ends 40 wide and still 5 high. *)
Lemma zero_dimension_zero_width_text :
  exists st1 o1,
    prepare 1 fixed_renderer 0%nat zero_width_text_scene = Ok (tt, st1)
    /\ calls st1 = [call_text_bbox "ab" Style_default]
    /\ heap st1 !! 0%nat = Some o1
    /\ _w o1 = Some 40 /\ _h o1 = Some 5.
Proof.
  set (o := mkNode (Text "ab" LEFT) Style_default (Some 0) (Some 5) [] None).
  assert (Ho : heap zero_width_text_scene !! 0%nat = Some o)
    by (vm_compute; reflexivity).
  destruct zero_dimension_is_unset as [_ Hany].
  destruct (Hany 0%nat fixed_renderer zero_width_text_scene 0%nat o "ab"%string LEFT
              zero_width_text_scene Ho eq_refl)
    as (st1 & o1 & H1 & Hcalls & Ho1 & Hw & _);
    [simpl; tauto | vm_compute; reflexivity | left; reflexivity |].
  exists st1, o1.
  split; [exact H1|]. split; [rewrite Hcalls; reflexivity|].
  split; [exact Ho1|]. split; [rewrite (Hw eq_refl); reflexivity|].
  assert (E : prepare 1 fixed_renderer 0%nat zero_width_text_scene
              = Ok (tt, measured fixed_renderer 0%nat "ab" o zero_width_text_scene))
    by (vm_compute; reflexivity).
  rewrite E in H1. injection H1 as <-.
  rewrite measured_lookup in Ho1. injection Ho1 as <-. reflexivity.
Defined.

(** ** [Table.prepare] *)

Lemma accumulate_plain cs hs :
  length cs = length hs ->
  forall acc, accumulate max_plain cs hs acc = fold_left Z.max hs acc.
Proof.
  unfold accumulate. revert cs.
  induction hs as [|h hs IH]; intros [|c cs] Hl acc; simpl in *;
    try discriminate; auto.
Qed.

Lemma fold_max_ge hs : forall acc, acc <= fold_left Z.max hs acc.
Proof.
  induction hs as [|h hs IH]; intros acc; simpl; [lia|].
  specialize (IH (Z.max acc h)). lia.
Qed.

Lemma fold_max_upper hs :
  forall acc, Forall (fun h => h <= fold_left Z.max hs acc) hs.
Proof.
  induction hs as [|h hs IH]; intros acc; simpl; constructor; [|apply IH].
  pose proof (fold_max_ge hs (Z.max acc h)). lia.
Qed.

Lemma fold_max_in hs :
  forall acc, fold_left Z.max hs acc = acc \/ In (fold_left Z.max hs acc) hs.
Proof.
  induction hs as [|h hs IH]; intros acc; simpl; [auto|].
  destruct (IH (Z.max acc h)) as [E | Hin]; [|auto].
  rewrite E. destruct (Z.max_spec acc h) as [[_ ->] | [_ ->]]; auto.
Qed.

(** Started at 0, the running maximum is the maximum of the heights as soon
    as one of them is not negative. *)
Lemma fold_max_is_max hs :
  Exists (fun h => 0 <= h) hs -> In (fold_left Z.max hs 0) hs.
Proof.
  intros Hex. destruct (fold_max_in hs 0) as [E | Hin]; [|exact Hin].
  apply List.Exists_exists in Hex as (h & Hh & Hpos).
  pose proof (fold_max_upper hs 0) as Hup.
  rewrite List.Forall_forall in Hup. specialize (Hup h Hh).
  assert (h = 0) by lia. subst h. rewrite E. exact Hh.
Qed.

(** Writing to [obj] a node of the same class whose height is [m]. *)
Lemma put_height_props m s obj o o' :
  heap s !! obj = Some o -> cls o' = cls o -> _h o' = Some m ->
  height_settable s obj = true ->
  (cls o = TextBox -> _w o' = _w o /\ children o' <> []) ->
  let s' := with_heap (<[obj := o']> (heap s)) s in
  height_is m s' obj
  /\ (forall id, height_is m s id -> height_is m s' id)
  /\ (forall id, height_settable s id = true -> height_settable s' id = true)
  /\ (forall id x, heap s !! id = Some x ->
        exists x', heap s' !! id = Some x' /\ cls x' = cls x).
Proof.
  intros Ho Hc Hh Hset Hbox s'. unfold s', with_heap. split_and!.
  - exists o'. simpl. rewrite lookup_insert_eq. auto.
  - intros id (x & Hx & Hxh). unfold height_is. simpl.
    destruct (decide (obj = id)) as [->|Hne].
    + rewrite lookup_insert_eq. eauto.
    + rewrite lookup_insert_ne by exact Hne. eauto.
  - intros id Hid. unfold height_settable in *. simpl.
    destruct (decide (obj = id)) as [->|Hne].
    + rewrite lookup_insert_eq. rewrite Ho in Hid. rewrite Hc.
      destruct (cls o) eqn:E; auto.
      destruct (Hbox eq_refl) as [Hw Hch]. rewrite Hw.
      apply andb_true_iff in Hid as [Hg _]. rewrite Hg. simpl.
      destruct (children o'); [contradiction | reflexivity].
    + rewrite lookup_insert_ne by exact Hne. exact Hid.
  - intros id x Hx. simpl.
    destruct (decide (obj = id)) as [->|Hne].
    + rewrite lookup_insert_eq. exists o'. split; [reflexivity | congruence].
    + rewrite lookup_insert_ne by exact Hne. eauto.
Qed.

Lemma set_height_effect m s obj :
  height_settable s obj = true ->
  exists s',
    set_height obj (Some m) s = Ok (tt, s')
    /\ height_is m s' obj
    /\ (forall id, height_is m s id -> height_is m s' id)
    /\ (forall id, height_settable s id = true -> height_settable s' id = true)
    /\ (forall id x, heap s !! id = Some x ->
          exists x', heap s' !! id = Some x' /\ cls x' = cls x).
Proof.
  intros Hset. pose proof Hset as Hset0. unfold height_settable in Hset0.
  destruct (heap s !! obj) as [o|] eqn:Ho; [|discriminate].
  assert (Hplain : cls o <> TextBox ->
    exists s', Object_set_height obj (Some m) s = Ok (tt, s')
      /\ height_is m s' obj
      /\ (forall id, height_is m s id -> height_is m s' id)
      /\ (forall id, height_settable s id = true -> height_settable s' id = true)
      /\ (forall id x, heap s !! id = Some x ->
            exists x', heap s' !! id = Some x' /\ cls x' = cls x)).
  { intros Hne. eexists. split; [apply update_node_ok, Ho|].
    apply (put_height_props m s obj o (with_h (Some m) o)); auto. }
  unfold set_height. erewrite bind_ok; [|apply get_node_ok, Ho].
  destruct (cls o) eqn:Hc; try (apply Hplain; discriminate). clear Hplain.
  apply andb_true_iff in Hset0 as [Hg Hch].
  destruct (_w o) as [w|] eqn:Hw; [|discriminate].
  destruct (children o) as [|[t off] rest] eqn:Hkids; [discriminate|].
  set (o1 := with_h (Some m) o).
  set (s1 := with_heap (<[obj := o1]> (heap s)) s).
  assert (Ho1 : heap s1 !! obj = Some o1) by apply lookup_insert_eq.
  set (o2 := with_children (<[0%nat := (t, P (w / 2) (m / 2))]> (children o1)) o1).
  exists (with_heap (<[obj := o2]> (heap s)) s). split.
  - unfold TextBox_set_height.
    erewrite bind_ok; [|apply update_node_ok, Ho]. fold o1. fold s1.
    erewrite bind_ok; [|apply get_node_ok, Ho1].
    replace (children o1) with ((t, off) :: rest) by (symmetry; exact Hkids).
    erewrite bind_ok; [|eapply Object_width_ok; [exact Ho1 | exact Hw]].
    erewrite bind_ok; [|eapply Object_height_ok; [exact Ho1 | reflexivity]].
    erewrite update_node_ok; [|exact Ho1].
    unfold s1, with_heap. simpl. rewrite insert_insert_eq.
    unfold o2. simpl. rewrite Hkids. reflexivity.
  - apply (put_height_props m s obj o o2); auto.
    intros _. split; [reflexivity|]. unfold o2. simpl. rewrite Hkids. discriminate.
Qed.

Lemma set_heights_loop self m (cs : list (oid * Point)) :
  forall s,
    height_is m s self ->
    Forall (fun c => height_settable s (fst c) = true) cs ->
    exists s',
      for_each cs (fun '(obj, _) => x <- get_node self ;; set_height obj (_h x)) s
      = Ok (tt, s')
      /\ Forall (fun c => height_is m s' (fst c)) cs
      /\ (forall id, height_is m s id -> height_is m s' id)
      /\ (forall id x, heap s !! id = Some x ->
            exists x', heap s' !! id = Some x' /\ cls x' = cls x).
Proof.
  induction cs as [|[obj off] cs IH]; intros s Hself Hset.
  - exists s. simpl. split_and!; eauto.
  - inversion Hset as [|c l Hobj Hrest]; subst. simpl in Hobj.
    destruct (set_height_effect m s obj Hobj) as (s1 & Hrun & Hm & Hkeep & Hsett & Hcls).
    destruct (IH s1) as (s' & Hloop & Hall & Hkeep' & Hcls').
    + apply Hkeep, Hself.
    + eapply Forall_impl; [exact Hrest|]. intros c Hc. apply Hsett, Hc.
    + exists s'. split_and!.
      * simpl. destruct Hself as (x & Hx & Hxh).
        erewrite bind_ok; [exact Hloop|].
        erewrite bind_ok; [|apply get_node_ok, Hx]. rewrite Hxh. exact Hrun.
      * constructor; [apply Hkeep', Hm | exact Hall].
      * intros id Hid. apply Hkeep', Hkeep, Hid.
      * intros id x Hx. destruct (Hcls id x Hx) as (x1 & Hx1 & Hc1).
        destruct (Hcls' id x1 Hx1) as (x2 & Hx2 & Hc2).
        exists x2. split; [exact Hx2 | congruence].
Qed.

Lemma height_settable_sim s s' obj :
  sim s s' -> height_settable s obj = true -> height_settable s' obj = true.
Proof.
  intros Hs H. unfold height_settable in *.
  destruct (heap s !! obj) as [o|] eqn:Ho; [|discriminate].
  destruct (sim_lookup _ _ _ _ Hs Ho) as (o' & Ho' & He). rewrite Ho'.
  rewrite <- (erase_cls _ _ He).
  destruct (cls o) eqn:Hc; auto.
  assert (o = o') by (apply erase_stored; [exact He | rewrite Hc; reflexivity]).
  subst o'. exact H.
Qed.

Lemma reads_length rec st cs ws : reads rec st cs ws -> length cs = length ws.
Proof. apply Forall2_length. Qed.

(** C5, as amended.  For a table that is not below itself: once its cells
    are prepared, if their heights then read [hs] and each can be assigned a
    height,
    [Table.prepare] returns, and every cell's stored height is the running
    maximum of [hs] started at 0; a cell that stores its height reports it
    on every read.  No height exceeds that value, and it is one of the
    heights, hence their maximum, as soon as one height is not negative. *)
Theorem Table_prepare_equalizes :
  forall n renderer st self o a s1 hs,
    heap st !! self = Some o -> cls o = Table a ->
    ~ In self (flat_map (descendants n (heap st)) (kids o)) ->
    Object_prepare (prepare n renderer) self st = Ok (tt, s1) ->
    reads (height n) s1 (children o) hs ->
    Forall (fun c => height_settable s1 (fst c) = true) (children o) ->
    let m := fold_left Z.max hs 0 in
    exists s4,
      prepare (S n) renderer self st = Ok (tt, s4)
      /\ Forall (fun c =>
                   exists oc, heap s4 !! fst c = Some oc /\ _h oc = Some m
                              /\ (derived (cls oc) = false ->
                                  forall k, height (S k) (fst c) s4 = Ok (m, s4)))
                (children o)
      /\ Forall (fun h => h <= m) hs
      /\ (Exists (fun h => 0 <= h) hs -> In m hs).
Proof.
  intros n renderer st self o a s1 hs Ho Hc Hacyc Hpass Hr Hset m.
  (* the table itself after the cells' pass *)
  pose proof (Object_prepare_frame renderer n self st tt s1 o Ho Hpass) as [_ Hout].
  specialize (Hout self Hacyc). rewrite Ho in Hout. simpl in Hout.
  destruct (heap s1 !! self) as [o1|] eqn:Ho1; simpl in Hout; [|discriminate].
  assert (He : erase o = erase o1) by congruence.
  pose proof (erase_cls _ _ He) as Hc1. pose proof (erase_children _ _ He) as Hch1.
  assert (Hd1 : derived (cls o1) = true) by (rewrite <- Hc1, Hc; reflexivity).
  (* the first loop *)
  set (s2 := with_heap (<[self := with_h (Some 0) o1]> (heap s1)) s1).
  assert (Hs2 : sim s1 s2) by (apply sim_update; [exact Ho1 | apply with_h_erase, Hd1]).
  destruct (height_sim n) as [H1 H2].
  destruct (dim_loop_ex _h with_h max_plain (height n) self
              (fun _ _ => eq_refl) with_h_erase H1 H2 (children o) hs
              s1 s2 (with_h (Some 0) o1) 0)
    as (s3 & o3 & Hloop & Hs3 & Ho3 & Hd3 & Hh3); auto.
  { unfold s2, with_heap. simpl. apply lookup_insert_eq. }
  rewrite (accumulate_plain _ _ (reads_length _ _ _ _ Hr)) in Hh3. fold m in Hh3.
  assert (Hs13 : sim s1 s3) by (eapply sim_trans; eauto).
  assert (Hch3 : children o3 = children o).
  { destruct (sim_lookup _ _ _ _ Hs13 Ho1) as (o3' & Ho3' & He3).
    assert (o3' = o3) by congruence. subst o3'.
    rewrite <- (erase_children _ _ He3). congruence. }
  (* the second loop *)
  destruct (set_heights_loop self m (children o) s3) as (s4 & Hloop2 & Hall & _ & Hcls).
  { exists o3. auto. }
  { eapply Forall_impl; [exact Hset|]. intros c. apply height_settable_sim, Hs13. }
  exists s4. split_and!.
  - simpl. erewrite bind_ok; [|apply get_node_ok, Ho]. rewrite Hc.
    unfold Table_prepare.
    erewrite bind_ok; [|exact Hpass].
    erewrite bind_ok; [|apply update_node_ok, Ho1]. fold s2.
    erewrite bind_ok;
      [|apply get_node_ok; unfold s2, with_heap; simpl; apply lookup_insert_eq].
    replace (children (with_h (Some 0) o1)) with (children o)
      by (simpl; congruence).
    erewrite bind_ok.
    2:{ erewrite for_each_ext; [exact Hloop|]. intros [obj off] s. reflexivity. }
    erewrite bind_ok; [|apply get_node_ok, Ho3]. rewrite Hch3. exact Hloop2.
  - eapply Forall_impl; [exact Hall|]. intros c (oc & Hoc & Hhc).
    exists oc. split_and!; auto. intros Hdc k.
    erewrite height_stored; [|exact Hoc | exact Hdc]. rewrite Hhc. reflexivity.
  - apply fold_max_upper.
  - apply fold_max_is_max.
Qed.

(** The cells of [table_scene], 10, 25 and 15 high: after [prepare] all
    three report 25. *)
Lemma Table_prepare_three_cells :
  exists s4,
    prepare 2 fixed_renderer 0%nat table_scene = Ok (tt, s4)
    /\ height 1 1%nat s4 = Ok (25, s4)
    /\ height 1 2%nat s4 = Ok (25, s4)
    /\ height 1 3%nat s4 = Ok (25, s4).
Proof.
  set (o := mkNode (Table CENTER) Style_default None None
                   [(1%nat, P 0 0); (2%nat, P 0 0); (3%nat, P 0 0)] None).
  assert (Ho : heap table_scene !! 0%nat = Some o) by (vm_compute; reflexivity).
  destruct (Table_prepare_equalizes 1 fixed_renderer table_scene 0%nat o CENTER
              table_scene [10; 25; 15] Ho eq_refl)
    as (s4 & Hrun & Hcells & _ & _).
  - vm_compute. intros [H | [H | [H | []]]]; discriminate.
  - vm_compute; reflexivity.
  - repeat constructor; eexists; vm_compute; reflexivity.
  - repeat constructor.
  - assert (E : prepare 2 fixed_renderer 0%nat table_scene
                = Ok (tt, build (t <- Table_init CENTER no_kwargs ;;
                                 a <- Rectangle_init (sized 20 25) ;;
                                 b <- Rectangle_init (sized 20 25) ;;
                                 c <- Rectangle_init (sized 20 25) ;;
                                 Object_add t a (P 0 0) ;;;
                                 Object_add t b (P 0 0) ;;;
                                 Object_add t c (P 0 0) ;;;
                                 update_node t (with_h (Some 25)))))
      by (vm_compute; reflexivity).
    rewrite E in Hrun. injection Hrun as <-.
    eexists. split; [exact E|].
    inversion Hcells as [|c1 l1 (o1 & Ho1 & _ & Hrep1) Hcells1]; subst.
    inversion Hcells1 as [|c2 l2 (o2 & Ho2 & _ & Hrep2) Hcells2]; subst.
    inversion Hcells2 as [|c3 l3 (o3 & Ho3 & _ & Hrep3) _]; subst.
    split_and!; [apply Hrep1 | apply Hrep2 | apply Hrep3].
    + vm_compute in Ho1. injection Ho1 as <-. reflexivity.
    + vm_compute in Ho2. injection Ho2 as <-. reflexivity.
    + vm_compute in Ho3. injection Ho3 as <-. reflexivity.
Defined.

(** C5 as stated fails when every cell is negative in height: the cells of
    [sunken_table_scene] read -5 and -3, whose maximum is -3, and
    [Table.prepare] assigns 0 to both, the value its running maximum starts
    from. *)
Lemma Table_prepare_negative_cells :
  children <$> heap sunken_table_scene !! 0%nat
  = Some [(1%nat, P 0 0); (2%nat, P 0 0)]
  /\ reads (height 2) sunken_table_scene [(1%nat, P 0 0); (2%nat, P 0 0)] [-5; -3]
  /\ max_of [-5; -3] = -3
  /\ exists s4 a b,
       prepare 3 fixed_renderer 0%nat sunken_table_scene = Ok (tt, s4)
       /\ heap s4 !! 1%nat = Some a /\ _h a = Some 0
       /\ heap s4 !! 2%nat = Some b /\ _h b = Some 0.
Proof.
  split_and!.
  - vm_compute; reflexivity.
  - repeat constructor; eexists; vm_compute; reflexivity.
  - reflexivity.
  - do 3 eexists. split_and!; vm_compute; reflexivity.
Qed.

(** ** Only a canvas calls [set_dimensions] *)

Lemma no_dimensions_set_refl s s' : calls s' = calls s -> no_dimensions_set s s'.
Proof. intros H. exists []. rewrite app_nil_r. auto. Qed.

Lemma no_dimensions_set_trans s1 s2 s3 :
  no_dimensions_set s1 s2 -> no_dimensions_set s2 s3 -> no_dimensions_set s1 s3.
Proof.
  intros (l1 & E1 & F1) (l2 & E2 & F2). exists (l1 ++ l2).
  rewrite E2, E1, app_assoc. split; [reflexivity|].
  apply Forall_app. auto.
Qed.

Lemma grows_ret {A} (a : A) : grows (ret a).
Proof. intros s a' s' H. inversion H. apply no_dimensions_set_refl. reflexivity. Qed.

Lemma grows_raise {A} e : grows (@raise A e).
Proof. intros s a s' H. discriminate. Qed.

Lemma grows_bind {A B} (m : M A) (k : A -> M B) :
  grows m -> (forall a, grows (k a)) -> grows (bind m k).
Proof.
  intros Hm Hk s b s' H. inv_bind H as a s1 Hrun.
  eapply no_dimensions_set_trans; [eapply Hm | eapply Hk]; eauto.
Qed.

Lemma grows_for_each {A} (l : list A) (f : A -> M unit) :
  (forall a, grows (f a)) -> grows (for_each l f).
Proof.
  intros Hf. induction l as [|a l IH]; simpl; [apply grows_ret|].
  apply grows_bind; auto.
Qed.

Lemma grows_for_each_acc {A B} (l : list A) (f : B -> A -> M B) :
  (forall b a, grows (f b a)) -> forall b, grows (for_each_acc l f b).
Proof.
  intros Hf. induction l as [|a l IH]; intros b; simpl; [apply grows_ret|].
  apply grows_bind; auto.
Qed.

Lemma grows_same_calls {A} (m : M A) :
  (forall s a s', m s = Ok (a, s') -> calls s' = calls s) -> grows m.
Proof. intros Hm s a s' H. apply no_dimensions_set_refl. eauto. Qed.

Lemma grows_get_node self : grows (get_node self).
Proof.
  apply grows_same_calls. intros s a s' H.
  apply get_node_inv in H as [_ ->]. reflexivity.
Qed.

Lemma grows_lift {A} (r : Result A) : grows (lift r).
Proof. destruct r; [apply grows_ret | apply grows_raise]. Qed.

Lemma grows_get_platform : grows get_platform.
Proof. apply grows_same_calls. intros s a s' H. inversion H. reflexivity. Qed.

Lemma grows_update_node self f : grows (update_node self f).
Proof.
  apply grows_same_calls. intros s a s' H.
  apply update_node_inv in H as (o & _ & ->). reflexivity.
Qed.

Lemma grows_as_int a : grows (as_int a).
Proof. destruct a; [apply grows_ret | apply grows_raise]. Qed.

Lemma grows_emit c : is_set_dimensions c = false -> grows (emit c).
Proof.
  intros Hc s a s' H. inversion H. exists [c]. simpl. auto.
Qed.

Lemma grows_width n c : grows (width n c).
Proof.
  apply grows_same_calls. intros s a s' H.
  apply sim_calls. eapply (width_sim n); eauto.
Qed.

Lemma grows_height n c : grows (height n c).
Proof.
  apply grows_same_calls. intros s a s' H.
  apply sim_calls. eapply (height_sim n); eauto.
Qed.

Lemma grows_Object_width self : grows (Object_width self).
Proof.
  apply grows_same_calls. intros s a s' H.
  apply Object_width_inv in H as (? & ? & ? & ->). reflexivity.
Qed.

Lemma grows_Object_height self : grows (Object_height self).
Proof.
  apply grows_same_calls. intros s a s' H.
  apply Object_height_inv in H as (? & ? & ? & ->). reflexivity.
Qed.

Lemma grows_set_height obj v : grows (set_height obj v).
Proof.
  unfold set_height. apply grows_bind; [apply grows_get_node | intros o].
  destruct (cls o); try apply grows_update_node.
  unfold TextBox_set_height.
  apply grows_bind; [apply grows_update_node | intros _].
  apply grows_bind; [apply grows_get_node | intros o'].
  destruct (children o') as [|[t off] rest]; [apply grows_raise|].
  apply grows_bind; [apply grows_Object_width | intros w].
  apply grows_bind; [apply grows_Object_height | intros h].
  apply grows_update_node.
Qed.

(** The prepare pass never calls [set_dimensions]. *)
Lemma prepare_grows renderer n : forall self, grows (prepare n renderer self).
Proof.
  induction n as [|n IH]; intros self; [apply grows_raise|].
  assert (Hobj : grows (Object_prepare (prepare n renderer) self)).
  { unfold Object_prepare. apply grows_bind; [apply grows_get_node | intros o].
    apply grows_for_each. intros [obj off]. apply IH. }
  simpl prepare. apply grows_bind; [apply grows_get_node | intros o].
  destruct (cls o); try exact Hobj.
  - unfold Table_prepare.
    apply grows_bind; [exact Hobj | intros _].
    apply grows_bind; [apply grows_update_node | intros _].
    apply grows_bind; [apply grows_get_node | intros o1].
    apply grows_bind.
    { apply grows_for_each. intros [obj off].
      apply grows_bind; [apply grows_get_node | intros x].
      apply grows_bind; [apply grows_height | intros h].
      apply grows_bind; [apply grows_as_int | intros cur].
      apply grows_update_node. }
    intros _. apply grows_bind; [apply grows_get_node | intros o2].
    apply grows_for_each. intros [obj off].
    apply grows_bind; [apply grows_get_node | intros x].
    apply grows_set_height.
  - unfold Text_prepare.
    apply grows_bind; [exact Hobj | intros _].
    apply grows_bind; [apply grows_get_node | intros o1].
    destruct (py_not (_w o1) || py_not (_h o1)); [|apply grows_ret].
    destruct (cls o1); try apply grows_raise.
    apply grows_bind; [apply grows_emit; reflexivity | intros _].
    match goal with
    | |- context [text_bbox ?r ?t ?s] => destruct (text_bbox r t s) as [[[l t'] rr] b]
    end.
    apply grows_bind; [apply grows_get_node | intros x].
    apply grows_bind; [apply grows_update_node | intros _].
    apply grows_bind; [apply grows_get_node | intros y].
    apply grows_update_node.
Qed.

Lemma grows_Line_render self pos : grows (Line_render self pos).
Proof.
  unfold Line_render. apply grows_bind; [apply grows_get_node | intros o].
  destruct (cls o); try apply grows_raise; apply grows_emit; reflexivity.
Qed.

Lemma grows_DottedLine_render self pos : grows (DottedLine_render self pos).
Proof.
  unfold DottedLine_render. apply grows_bind; [apply grows_get_node | intros o].
  destruct (cls o); try apply grows_raise.
  apply grows_bind; [apply grows_get_platform | intros pf].
  apply grows_bind; [apply grows_lift | intros len].
  apply grows_bind; [apply grows_lift | intros u].
  apply grows_bind.
  { unfold py_int. destruct (f2z _); [apply grows_ret | apply grows_raise]. }
  intros m. apply grows_bind.
  { unfold py_range.
    match goal with
    | |- context [if ?b then _ else _] => destruct b
    end; [apply grows_raise | apply grows_ret]. }
  intros r. apply grows_bind; [|intros; apply grows_ret].
  apply grows_for_each_acc. intros xy i. unfold dash_step.
  apply grows_bind; [apply grows_lift | intros half].
  apply grows_bind; [apply grows_lift | intros xy2].
  apply grows_bind; [apply grows_emit; reflexivity | intros _].
  apply grows_bind; [apply grows_lift | intros full]. apply grows_lift.
Qed.

Lemma grows_Arrow_render self pos : grows (Arrow_render self pos).
Proof.
  unfold Arrow_render. apply grows_bind; [apply grows_get_node | intros o].
  destruct (cls o); try apply grows_raise.
  repeat (apply grows_bind; [apply grows_emit; reflexivity | intros _]).
  match goal with
  | |- context [if ?b then _ else _] => destruct b
  end; [|apply grows_ret].
  apply grows_bind; [apply grows_emit; reflexivity | intros _].
  apply grows_emit. reflexivity.
Qed.

Lemma grows_Text_render self pos : grows (Text_render self pos).
Proof.
  unfold Text_render. apply grows_bind; [apply grows_get_node | intros o].
  destruct (cls o); try apply grows_raise.
  match goal with
  | |- context [match ?a with TOP => _ | _ => _ end] => destruct a
  end; try (apply grows_emit; reflexivity).
  apply grows_bind; [apply grows_Object_width | intros w].
  apply grows_emit. reflexivity.
Qed.

Lemma grows_quiet {A} st0 S (m : M A) : grows m -> quiet st0 S m.
Proof. intros Hm s a s' _ H. eapply Hm; eauto. Qed.

Lemma quiet_bind {A B} st0 S (m : M A) (k : A -> M B) :
  keeps st0 S m -> quiet st0 S m -> (forall a, quiet st0 S (k a)) ->
  quiet st0 S (bind m k).
Proof.
  intros Hkeep Hm Hk s b s' Hf H. inv_bind H as a s1 Hrun.
  eapply no_dimensions_set_trans; [eapply Hm; eauto|].
  eapply Hk; [|exact H]. eapply Hkeep; eauto.
Qed.

Lemma quiet_for_each {A} st0 S (l : list A) (f : A -> M unit) :
  (forall a, In a l -> keeps st0 S (f a)) ->
  (forall a, In a l -> quiet st0 S (f a)) ->
  quiet st0 S (for_each l f).
Proof.
  induction l as [|a l IH]; intros Hkeep Hf; simpl;
    [apply grows_quiet, grows_ret|].
  apply quiet_bind; [apply Hkeep; left; reflexivity
                    | apply Hf; left; reflexivity |].
  intros _. apply IH; intros a' Ha'; [apply Hkeep | apply Hf]; right; exact Ha'.
Qed.

Lemma quiet_for_each_acc {A B} st0 S (l : list A) (f : B -> A -> M B) :
  (forall b a, In a l -> keeps st0 S (f b a)) ->
  (forall b a, In a l -> quiet st0 S (f b a)) ->
  forall b, quiet st0 S (for_each_acc l f b).
Proof.
  induction l as [|a l IH]; intros Hkeep Hf b; simpl;
    [apply grows_quiet, grows_ret|].
  apply quiet_bind; [apply Hkeep; left; reflexivity
                    | apply Hf; left; reflexivity |].
  intros b'. apply IH; intros b'' a' Ha'; [apply Hkeep | apply Hf]; right; exact Ha'.
Qed.

Lemma quiet_get_node {A} st0 S self (k : Node -> M A) :
  (forall o o0, heap st0 !! self = Some o0 -> shape o = shape o0 ->
                quiet st0 S (k o)) ->
  quiet st0 S (bind (get_node self) k).
Proof.
  intros Hk s a s' Hf H. inv_bind H as o s1 Hget.
  apply get_node_inv in Hget as [Ho ->].
  destruct (frame_lookup _ _ _ _ _ Hf Ho) as (o0 & Ho0 & Hs).
  eapply (Hk o o0); eauto.
Qed.

Lemma canvas_free_shape h h' ids :
  shape <$> h = shape <$> h' -> canvas_free h ids -> canvas_free h' ids.
Proof.
  intros Hs Hfree id x' Hin Hx'.
  assert (E : (shape <$> h) !! id = (shape <$> h') !! id) by (rewrite Hs; reflexivity).
  rewrite !lookup_fmap, Hx' in E.
  destruct (h !! id) as [x|] eqn:Hx; simpl in E; [|discriminate].
  assert (Hc : cls x = cls x') by (unfold shape in E; congruence).
  rewrite <- Hc. eapply Hfree; eauto.
Qed.

Lemma canvas_free_incl h ids ids' :
  incl ids ids' -> canvas_free h ids' -> canvas_free h ids.
Proof. intros Hi Hfree id x Hin. apply Hfree. auto. Qed.

(** A call on a child whose descendants hold no canvas. *)
Lemma quiet_child {A} st0 S n (rec : oid -> M A) c :
  (forall s a s', canvas_free (heap s) (descendants n (heap s) c) ->
                  rec c s = Ok (a, s') -> no_dimensions_set s s') ->
  canvas_free (heap st0) (descendants n (heap st0) c) ->
  quiet st0 S (rec c).
Proof.
  intros Hrec Hfree s a s' Hf H. eapply Hrec; [|exact H].
  rewrite <- (descendants_shape n (heap st0) (heap s)) by apply Hf.
  eapply canvas_free_shape; [apply Hf | exact Hfree].
Qed.

Section RenderQuiet.
Variable n : nat.
Variable renderer : Renderer.
Variable st0 : State.
Variable self : oid.
Variable render_n : oid -> Point -> M unit.

Hypothesis render_n_frame :
  forall c pos s u s', render_n c pos s = Ok (u, s') ->
                       frame (descendants n (heap s) c) s s'.
Hypothesis render_n_quiet :
  forall c pos s u s',
    canvas_free (heap s) (descendants n (heap s) c) ->
    render_n c pos s = Ok (u, s') -> no_dimensions_set s s'.
Hypothesis no_canvas :
  canvas_free (heap st0) (descendants (S n) (heap st0) self).

Local Notation "'here'" := (descendants (S n) (heap st0) self).

Lemma keeps_render_child o0 o obj off pos :
  heap st0 !! self = Some o0 -> shape o = shape o0 ->
  In (obj, off) (children o) ->
  keeps st0 here (render_n obj pos).
Proof.
  intros Ho0 Hs Hin.
  apply (keeps_child st0 here n (fun c => render_n c pos) obj);
    [intros s u s' H; eapply render_n_frame; exact H|].
  eapply child_incl; eauto.
Qed.

Lemma quiet_render_child o0 o obj off pos :
  heap st0 !! self = Some o0 -> shape o = shape o0 ->
  In (obj, off) (children o) ->
  quiet st0 here (render_n obj pos).
Proof.
  intros Ho0 Hs Hin.
  apply (quiet_child st0 here n (fun c => render_n c pos) obj);
    [intros s u s' Hfree H; eapply render_n_quiet; eauto|].
  eapply canvas_free_incl; [|exact no_canvas]. eapply child_incl; eauto.
Qed.

Lemma quiet_Object_render pos : quiet st0 here (Object_render render_n self pos).
Proof.
  unfold Object_render. apply quiet_get_node. intros o o0 Ho0 Hs.
  apply quiet_for_each; intros [obj off] Hin;
    [eapply keeps_render_child | eapply quiet_render_child]; eauto.
Qed.

Lemma quiet_VLayout_render pos :
  quiet st0 here (VLayout_render (width n) (height n) render_n self pos).
Proof.
  unfold VLayout_render.
  apply quiet_bind; [apply keeps_width | apply grows_quiet, grows_width | intros W].
  apply quiet_get_node. intros o o0 Ho0 Hs.
  assert (Hbody : forall y obj off, In (obj, off) (children o) ->
    keeps st0 here
      (obj_width <- width n obj ;;
       render_n obj (P (px pos + px off + (px pos + W / 2)
                        - (px pos + px off + obj_width / 2)) (y + py off)) ;;;
       obj_height <- height n obj ;; ret (y + (obj_height + py off)))).
  { intros y obj off Hin.
    apply keeps_bind; [apply keeps_width | intros w].
    apply keeps_bind; [eapply keeps_render_child; eauto | intros _].
    apply keeps_bind; [apply keeps_height | intros h]. apply keeps_ret. }
  apply quiet_bind; [| |intros; apply grows_quiet, grows_ret].
  - apply keeps_for_each_acc. intros y [obj off] Hin. apply Hbody, Hin.
  - apply quiet_for_each_acc; intros y [obj off] Hin; [apply Hbody, Hin|].
    apply quiet_bind; [apply keeps_width | apply grows_quiet, grows_width | intros w].
    apply quiet_bind; [eapply keeps_render_child; eauto
                      | eapply quiet_render_child; eauto | intros _].
    apply quiet_bind; [apply keeps_height | apply grows_quiet, grows_height | intros h].
    apply grows_quiet, grows_ret.
Qed.

Lemma quiet_HLayout_render pos :
  quiet st0 here (HLayout_render (width n) render_n self pos).
Proof.
  unfold HLayout_render.
  apply quiet_get_node. intros o o0 Ho0 Hs.
  assert (Hbody : forall x obj off, In (obj, off) (children o) ->
    keeps st0 here
      (render_n obj (P (x + px off) (py pos + py off)) ;;;
       obj_width <- width n obj ;; ret (x + (obj_width + px off)))).
  { intros x obj off Hin.
    apply keeps_bind; [eapply keeps_render_child; eauto | intros _].
    apply keeps_bind; [apply keeps_width | intros w]. apply keeps_ret. }
  apply quiet_bind; [| |intros; apply grows_quiet, grows_ret].
  - apply keeps_for_each_acc. intros x [obj off] Hin. apply Hbody, Hin.
  - apply quiet_for_each_acc; intros x [obj off] Hin; [apply Hbody, Hin|].
    apply quiet_bind; [eapply keeps_render_child; eauto
                      | eapply quiet_render_child; eauto | intros _].
    apply quiet_bind; [apply keeps_width | apply grows_quiet, grows_width | intros w].
    apply grows_quiet, grows_ret.
Qed.

Lemma quiet_Rectangle_render pos :
  quiet st0 here (Rectangle_render render_n self pos).
Proof.
  unfold Rectangle_render.
  apply quiet_get_node. intros o o0 Ho0 Hs.
  apply quiet_bind; [apply keeps_as_int | apply grows_quiet, grows_as_int | intros w].
  apply quiet_bind; [apply keeps_as_int | apply grows_quiet, grows_as_int | intros h].
  apply quiet_bind; [apply keeps_emit
                    | apply grows_quiet, grows_emit; reflexivity | intros _].
  apply quiet_Object_render.
Qed.

End RenderQuiet.

(** Rendering a node with no canvas among its descendants never calls
    [set_dimensions]. *)
Lemma render_quiet renderer n :
  forall self pos s u s',
    canvas_free (heap s) (descendants n (heap s) self) ->
    render n renderer self pos s = Ok (u, s') ->
    no_dimensions_set s s'.
Proof.
  induction n as [|n IH]; intros self pos s u s' Hfree H; [discriminate|].
  assert (K : quiet s (descendants (S n) (heap s) self)
                    (render (S n) renderer self pos)).
  { simpl render. apply quiet_get_node. intros o o0 Ho0 Hs.
    assert (Hc : cls o <> Canvas).
    { replace (cls o) with (cls o0) by (unfold shape in Hs; congruence).
      eapply Hfree; [apply descendants_self | exact Ho0]. }
    destruct (cls o);
      first [ contradiction
            | apply quiet_Object_render; [apply render_frame | exact IH | exact Hfree]
            | apply quiet_VLayout_render; [apply render_frame | exact IH | exact Hfree]
            | apply quiet_HLayout_render; [apply render_frame | exact IH | exact Hfree]
            | apply quiet_Rectangle_render; [apply render_frame | exact IH | exact Hfree]
            | apply grows_quiet, grows_Line_render
            | apply grows_quiet, grows_DottedLine_render
            | apply grows_quiet, grows_Arrow_render
            | apply grows_quiet, grows_Text_render ]. }
  eapply K; [apply frame_refl | exact H].
Qed.

(** ** [Canvas.render] *)

Lemma put_lookup self o st : heap (put self o st) !! self = Some o.
Proof. apply lookup_insert_eq. Qed.

Lemma put_put self o1 o2 st : put self o2 (put self o1 st) = put self o2 st.
Proof. unfold put, with_heap. simpl. rewrite insert_insert_eq. reflexivity. Qed.

Lemma update_node_put self f st o :
  heap st !! self = Some o -> update_node self f st = Ok (tt, put self (f o) st).
Proof. apply update_node_ok. Qed.

Lemma put_frame S self o o' st :
  heap st !! self = Some o -> shape o' = shape o -> In self S ->
  frame S st (put self o' st).
Proof.
  intros Ho Hs Hin. split; simpl.
  - rewrite fmap_insert, Hs. symmetry. apply insert_id.
    rewrite lookup_fmap, Ho. reflexivity.
  - intros id Hid. rewrite lookup_insert_ne; [reflexivity|]. intros ->. auto.
Qed.

Lemma sim_stored s s' self o :
  sim s s' -> heap s !! self = Some o -> derived (cls o) = false ->
  heap s' !! self = Some o.
Proof.
  intros Hs Ho Hd. destruct (sim_lookup _ _ _ _ Hs Ho) as (o' & Ho' & He).
  rewrite Ho'. f_equal. symmetry. apply erase_stored; auto.
Qed.

(** C6.  A canvas that holds one child at offset [off], is not below that
    child and is rendered at [pos]: it sets its dimensions to its padding,
    prepares the child and renders it at the padded position moved by
    [off]; if the child then reads [W] wide and [H] high, the canvas ends as
    wide as the larger of the padding and the child's right edge, plus the
    padding, and as high accordingly, and after everything the child drew it
    makes one call, [set_dimensions], with these two numbers; when no canvas
    sits at or below the child, that is the only [set_dimensions] call of the
    whole render.  With a padding of 10, a child 50 by 30 at offset (0, 0) and the origin for
    [pos]: 70 and 50. *)
Theorem Canvas_render_single_child :
  forall n renderer st self o c off pos sc sd se sg W H,
    heap st !! self = Some o -> cls o = Canvas ->
    children o = [(c, off)] ->
    ~ In self (descendants n (heap st) c) ->
    let pad := padding (style o) in
    let at_ := Point_add (Point_add_scalar pos pad) off in
    let ob := with_h (Some pad) (with_w (Some pad) o) in
    let ow := with_w (Some (Z.max pad (W + px at_))) ob in
    let width' := Z.max pad (W + px at_) + pad in
    let height' := Z.max pad (H + py at_) + pad in
    prepare n renderer c (put self ob st) = Ok (tt, sc) ->
    render n renderer c at_ sc = Ok (tt, sd) ->
    width n c sd = Ok (W, se) ->
    height n c (put self ow se) = Ok (H, sg) ->
    exists st',
      render (S n) renderer self pos st = Ok (tt, st')
      /\ heap st' !! self = Some (with_h (Some height') (with_w (Some width') o))
      /\ calls st' = calls sd ++ [call_set_dimensions (width', height')]
      /\ (canvas_free (heap st) (descendants n (heap st) c) ->
          exists l,
            calls st' = calls st ++ l ++ [call_set_dimensions (width', height')]
            /\ Forall (fun x => is_set_dimensions x = false) l)
      /\ (pad = 10 -> W = 50 -> H = 30 -> pos = P 0 0 -> off = P 0 0 ->
          width' = 70 /\ height' = 50).
Proof.
  intros n renderer st self o c off pos sc sd se sg W H Ho Hc Hch Hacyc
         pad at_ ob ow width' height' Hprep Hrend Hw Hh.
  assert (Hstored : forall x, cls x = Canvas -> derived (cls x) = false)
    by (intros x ->; reflexivity).
  (* the canvas is untouched while the child is prepared and rendered *)
  assert (Hsb : frame [self] st (put self ob st))
    by (apply (put_frame [self] self o ob st Ho); [reflexivity | left; reflexivity]).
  assert (Hob : heap (put self ob st) !! self = Some ob) by apply put_lookup.
  pose proof (prepare_frame renderer n c _ tt sc Hprep) as Hf1.
  rewrite <- (descendants_shape n (heap st)) in Hf1 by apply Hsb.
  assert (Hsc : heap sc !! self = Some ob)
    by (eapply frame_stored; [exact Hf1 | exact Hacyc | exact Hob | apply Hstored, Hc]).
  pose proof (render_frame renderer n c at_ sc tt sd Hrend) as Hf2.
  assert (Hshape : shape <$> heap st = shape <$> heap sc).
  { destruct Hsb as [E1 _]. destruct Hf1 as [E2 _]. congruence. }
  rewrite <- (descendants_shape n (heap st)) in Hf2 by exact Hshape.
  assert (Hsd : heap sd !! self = Some ob)
    by (eapply frame_stored; [exact Hf2 | exact Hacyc | exact Hsc | apply Hstored, Hc]).
  (* the reads change caches only *)
  pose proof (proj1 (width_sim n) c sd W se Hw) as Hsim1.
  assert (Hse : heap se !! self = Some ob)
    by (eapply sim_stored; [exact Hsim1 | exact Hsd | apply Hstored, Hc]).
  pose proof (proj1 (height_sim n) c _ H sg Hh) as Hsim2.
  assert (Hsg : heap sg !! self = Some ow)
    by (eapply sim_stored; [exact Hsim2 | apply put_lookup | apply Hstored, Hc]).
  set (oh := with_h (Some (Z.max pad (H + py at_))) ow).
  set (o1 := with_w (Some width') oh).
  set (o2 := with_h (Some height') o1).
  exists (log [call_set_dimensions (width', height')] (put self o2 sg)).
  split_and!.
  - simpl render. erewrite bind_ok; [|apply get_node_ok, Ho]. rewrite Hc.
    unfold Canvas_render.
    erewrite bind_ok; [|apply get_node_ok, Ho].
    unfold Object_set_width, Object_set_height.
    erewrite bind_ok; [|apply update_node_put, Ho].
    erewrite bind_ok; [|apply update_node_put, put_lookup].
    rewrite put_put. fold pad. fold ob.
    erewrite bind_ok; [|apply get_node_ok, put_lookup].
    replace (children ob) with [(c, off)] by (symmetry; exact Hch).
    erewrite bind_ok.
    2:{ simpl for_each. erewrite bind_ok; [reflexivity|].
        erewrite bind_ok; [|exact Hprep].
        erewrite bind_ok; [|exact Hrend].
        erewrite bind_ok; [|eapply Object_width_ok; [exact Hsd | reflexivity]].
        erewrite bind_ok; [|exact Hw].
        erewrite bind_ok; [|apply update_node_put, Hse].
        replace (px off + (px pos + pad)) with (px at_)
          by (unfold at_; simpl; lia).
        erewrite bind_ok;
          [|eapply Object_height_ok; [apply put_lookup | reflexivity]].
        erewrite bind_ok; [|exact Hh].
        replace (py off + (py pos + pad)) with (py at_)
          by (unfold at_; simpl; lia).
        apply update_node_put, Hsg. }
    fold oh.
    erewrite bind_ok; [|eapply Object_width_ok; [apply put_lookup | reflexivity]].
    erewrite bind_ok; [|apply update_node_put, put_lookup].
    rewrite put_put.
    erewrite bind_ok; [|eapply Object_height_ok; [apply put_lookup | reflexivity]].
    erewrite bind_ok; [|apply update_node_put, put_lookup].
    rewrite put_put.
    erewrite bind_ok; [|eapply Object_width_ok; [apply put_lookup | reflexivity]].
    erewrite bind_ok; [|eapply Object_height_ok; [apply put_lookup | reflexivity]].
    reflexivity.
  - simpl. rewrite lookup_insert_eq. reflexivity.
  - simpl. rewrite (sim_calls _ _ Hsim2). simpl.
    rewrite (sim_calls _ _ Hsim1). reflexivity.
  - intros Hfree.
    destruct (prepare_grows renderer n c _ _ _ Hprep) as (l1 & E1 & F1).
    destruct (render_quiet renderer n c at_ sc tt sd) as (l2 & E2 & F2);
      [|exact Hrend|].
    { rewrite <- (descendants_shape n (heap st)) by exact Hshape.
      eapply canvas_free_shape; [exact Hshape | exact Hfree]. }
    exists (l1 ++ l2). split; [|apply Forall_app; auto].
    simpl. rewrite (sim_calls _ _ Hsim2). simpl.
    rewrite (sim_calls _ _ Hsim1), E2, E1. simpl.
    rewrite <- !app_assoc. reflexivity.
  - intros Hp -> -> -> ->. unfold width', height', at_. rewrite Hp. simpl.
    split; reflexivity.
Qed.

(** The canvas of [canvas_scene] rendered at the origin: the rectangle is
    drawn at (10, 10), then [set_dimensions] is called, once, with
    (70, 50), and the canvas is 70 by 50. *)
Lemma Canvas_render_fifty_by_thirty :
  exists st',
    render 2 fixed_renderer 0%nat (P 0 0) canvas_scene = Ok (tt, st')
    /\ (_w <$> heap st' !! 0%nat = Some (Some 70)
        /\ _h <$> heap st' !! 0%nat = Some (Some 50))
    /\ calls st' = [call_rectangle (10, 10) (60, 40) Style_default;
                    call_set_dimensions (70, 50)].
Proof.
  set (o := mkNode Canvas Style_default None None [(1%nat, P 0 0)] None).
  assert (Ho : heap canvas_scene !! 0%nat = Some o) by (vm_compute; reflexivity).
  set (sb := put 0%nat (with_h (Some 10) (with_w (Some 10) o)) canvas_scene).
  set (sd := log [call_rectangle (10, 10) (60, 40) Style_default] sb).
  destruct (Canvas_render_single_child 1 fixed_renderer canvas_scene 0%nat o
              1%nat (P 0 0) (P 0 0) sb sd sd
              (put 0%nat (with_w (Some 60) (with_h (Some 10) (with_w (Some 10) o))) sd)
              50 30 Ho eq_refl eq_refl)
    as (st' & Hrun & Hnode & Hcalls & _ & Hdims).
  - vm_compute. intros [H | []]. discriminate.
  - vm_compute; reflexivity.
  - vm_compute; reflexivity.
  - vm_compute; reflexivity.
  - vm_compute; reflexivity.
  - destruct (Hdims eq_refl eq_refl eq_refl eq_refl eq_refl) as [E70 E50].
    exists st'. split; [exact Hrun|]. unfold oid in *. split.
    + rewrite Hnode, E70, E50. simpl. auto.
    + rewrite Hcalls, E70, E50. reflexivity.
Defined.

(* ================================================================== *)
(** * Further properties of [layout.py] *)

(** ** [Object.add] *)

Lemma Object_add_run self obj pos st o oc :
  self <> obj -> heap st !! self = Some o -> heap st !! obj = Some oc ->
  Object_add self obj pos st
  = Ok (tt, put obj (with_parent (Some self) oc)
              (put self (with_children (children o ++ [(obj, pos)]) o) st)).
Proof.
  intros Hne Ho Hoc. unfold Object_add.
  erewrite bind_ok; [|apply update_node_put, Ho].
  apply update_node_put. unfold put. simpl.
  rewrite lookup_insert_ne by exact Hne. exact Hoc.
Qed.

(** X1.  [add] appends and never unlinks.  A child added to two parents is the
    last child of both, at the offset given to each, and its [parent] is
    the second; added twice to one parent it is listed twice.  No other
    object changes. *)
Theorem Object_add_appends_and_links :
  forall st p1 p2 c o1 o2 oc pos1 pos2,
    heap st !! p1 = Some o1 -> heap st !! p2 = Some o2 ->
    heap st !! c = Some oc -> p1 <> c -> p2 <> c ->
    exists st',
      (Object_add p1 c pos1 ;;; Object_add p2 c pos2) st = Ok (tt, st')
      /\ heap st' !! c = Some (with_parent (Some p2) oc)
      /\ (p1 <> p2 ->
          heap st' !! p1 = Some (with_children (children o1 ++ [(c, pos1)]) o1)
          /\ heap st' !! p2 = Some (with_children (children o2 ++ [(c, pos2)]) o2))
      /\ (p1 = p2 ->
          heap st' !! p1
          = Some (with_children (children o1 ++ [(c, pos1); (c, pos2)]) o1))
      /\ (forall id, id <> p1 -> id <> p2 -> id <> c ->
                     heap st' !! id = heap st !! id)
      /\ next_id st' = next_id st /\ calls st' = calls st.
Proof.
  intros st p1 p2 c o1 o2 oc pos1 pos2 H1 H2 Hc N1 N2.
  set (s1 := put c (with_parent (Some p1) oc)
               (put p1 (with_children (children o1 ++ [(c, pos1)]) o1) st)).
  assert (Hrun1 : Object_add p1 c pos1 st = Ok (tt, s1))
    by (apply Object_add_run; auto).
  assert (Hc1 : heap s1 !! c = Some (with_parent (Some p1) oc))
    by apply put_lookup.
  destruct (decide (p1 = p2)) as [E | N].
  - subst p2.
    assert (Hp1 : heap s1 !! p1
                  = Some (with_children (children o1 ++ [(c, pos1)]) o1)).
    { unfold s1, put. simpl. rewrite lookup_insert_ne by auto.
      apply lookup_insert_eq. }
    eexists. split.
    { erewrite bind_ok; [|exact Hrun1].
      apply Object_add_run; [exact N1 | exact Hp1 | exact Hc1]. }
    split_and!.
    + rewrite put_lookup. reflexivity.
    + intros []. reflexivity.
    + intros _. unfold put. simpl. rewrite lookup_insert_ne by auto.
      rewrite lookup_insert_eq. unfold with_children. simpl.
      rewrite <- app_assoc. reflexivity.
    + intros id Hi _ Hic. unfold s1, put. simpl.
      rewrite !lookup_insert_ne by auto. reflexivity.
    + reflexivity.
    + reflexivity.
  - assert (Hp2 : heap s1 !! p2 = Some o2).
    { unfold s1, put. simpl. rewrite !lookup_insert_ne by auto. exact H2. }
    eexists. split.
    { erewrite bind_ok; [|exact Hrun1].
      apply Object_add_run; [exact N2 | exact Hp2 | exact Hc1]. }
    split_and!.
    + rewrite put_lookup. reflexivity.
    + intros _. split.
      * unfold s1, put. simpl. rewrite !lookup_insert_ne by auto.
        apply lookup_insert_eq.
      * unfold put. simpl. rewrite lookup_insert_ne by auto.
        apply lookup_insert_eq.
    + intros E. contradiction.
    + intros id Hi1 Hi2 Hic. unfold s1, put. simpl.
      rewrite !lookup_insert_ne by auto. reflexivity.
    + reflexivity.
    + reflexivity.
Qed.

(** A 7 by 7 rectangle (object 1) added twice to a horizontal layout (object
    0), at offsets (1, 0) and (2, 0): it is listed twice, and the layout is
    (7 + 1) + (7 + 2) wide. *)
Lemma Object_add_same_child_twice :
  exists st',
    (Object_add 0%nat 1%nat (P 1 0) ;;; Object_add 0%nat 1%nat (P 2 0))
      (build (h <- HLayout_init CENTER no_kwargs ;; Rectangle_init (sized 7 7)))
    = Ok (tt, st')
    /\ children <$> heap st' !! 0%nat = Some [(1%nat, P 1 0); (1%nat, P 2 0)]
    /\ (exists s, width 2 0%nat st' = Ok (17, s)).
Proof.
  set (st := build (h <- HLayout_init CENTER no_kwargs ;; Rectangle_init (sized 7 7))).
  destruct (Object_add_appends_and_links st 0%nat 0%nat 1%nat
              (mkNode (HLayout CENTER) Style_default None None [] None)
              (mkNode (HLayout CENTER) Style_default None None [] None)
              (mkNode Rectangle Style_default (Some 7) (Some 7) [] None)
              (P 1 0) (P 2 0))
    as (st' & Hrun & Hc & _ & Hsame & _); try (vm_compute; reflexivity);
    try (intros E; discriminate E).
  exists st'. split; [exact Hrun|].
  pose proof Hrun as E. vm_compute in E. injection E as <-.
  split; [reflexivity|]. eexists. vm_compute. reflexivity.
Defined.

(** ** Constructors *)

Lemma Object_init_run c kw st :
  Object_init c kw st
  = Ok (next_id st,
        mkState (<[next_id st := mkNode c (init_style st kw) (kw_width kw)
                                        (kw_height kw) [] None]> (heap st))
                (S (next_id st)) (default_style st) (calls st) (platform st)).
Proof.
  unfold Object_init, init_style, captured_style, bind, get_default_style, alloc.
  destruct (kw_style kw); reflexivity.
Qed.

Lemma init_style_Line_kwargs st kw w h :
  init_style st (mkKwargs w h (kw_style kw) (kw_rest kw)) = init_style st kw.
Proof. reflexivity. Qed.

(** X2.  Whatever the class, the node a constructor returns carries the style
    given with [style=] (with the fields the call overrides), and the
    default style plays no part. *)
Theorem explicit_style_wins :
  forall k kw s st self st1,
    kw_style kw = Some s ->
    construct k kw st = Ok (self, st1) ->
    exists o, heap st1 !! self = Some o /\ style o = captured_style s kw.
Proof.
  intros k kw s st self st1 Hs H.
  assert (Hi : init_style st kw = captured_style s kw)
    by (unfold init_style; rewrite Hs; reflexivity).
  assert (Hobj : forall c, Object_init c kw st = Ok (self, st1) ->
            exists o, heap st1 !! self = Some o /\ style o = captured_style s kw).
  { intros c Hc. rewrite Object_init_run in Hc. inversion Hc. subst. simpl.
    eexists. rewrite lookup_insert_eq. split; [reflexivity | exact Hi]. }
  assert (Hline : forall c start end_,
            (kw' <- Line_kwargs start end_ kw ;; Object_init c kw') st
            = Ok (self, st1) ->
            exists o, heap st1 !! self = Some o /\ style o = captured_style s kw).
  { intros c start end_ Hc. inv_bind Hc as kw' s0 Hk.
    unfold Line_kwargs in Hk.
    destruct (given (kw_width kw) || given (kw_height kw)); [discriminate|].
    inversion Hk. subst. rewrite Object_init_run in Hc. inversion Hc. subst.
    simpl. eexists. rewrite lookup_insert_eq. split; [reflexivity | exact Hi]. }
  destruct k; simpl in H; eauto.
  - (* TextBox *)
    unfold TextBox_init in H. inv_bind H as self0 s1 Hinit.
    rewrite Object_init_run in Hinit. inversion Hinit. subst self0 s1. clear Hinit.
    inv_bind H as o s2 Hget. apply get_node_inv in Hget as [Ho ->].
    inv_bind H as sp s3 Hsp.
    assert (s3 = mkState
                   (<[next_id st := mkNode TextBox (init_style st kw) (kw_width kw)
                                           (kw_height kw) [] None]> (heap st))
                   (S (next_id st)) (default_style st) (calls st) (platform st)) as ->.
    { destruct align; try (inversion Hsp; reflexivity).
      inv_bind Hsp as w sa Hw. apply Object_width_inv in Hw as (? & ? & ? & ->).
      inv_bind Hsp as h sb Hh. apply Object_height_inv in Hh as (? & ? & ? & ->).
      inversion Hsp. reflexivity. }
    inv_bind H as w s4 Hw. apply Object_width_inv in Hw as (? & ? & ? & ->).
    inv_bind H as h s5 Hh. apply Object_height_inv in Hh as (? & ? & ? & ->).
    inv_bind H as t s6 Ht. unfold Text_init in Ht.
    rewrite Object_init_run in Ht. inversion Ht. subst t s6. clear Ht.
    inv_bind H as u s7 Hadd. inversion H. subst. clear H.
    unfold Object_add in Hadd. inv_bind Hadd as u1 s8 Hu1.
    apply update_node_inv in Hu1 as (o1 & Ho1 & ->).
    apply update_node_inv in Hadd as (o2 & Ho2 & ->).
    simpl in Ho1.
    rewrite lookup_insert_ne in Ho1 by lia. rewrite lookup_insert_eq in Ho1.
    inversion Ho1. subst o1. clear Ho1.
    eexists. unfold with_heap. simpl.
    rewrite lookup_insert_ne by lia. rewrite lookup_insert_eq.
    split; [reflexivity | exact Hi].
  - (* Spacer *)
    unfold Spacer_init in H. inv_bind H as self0 s1 Hinit.
    rewrite Object_init_run in Hinit. inversion Hinit. subst self0 s1. clear Hinit.
    inv_bind H as o s2 Hget. apply get_node_inv in Hget as [Ho ->].
    inv_bind H as u s3 Hu. apply update_node_inv in Hu as (o1 & Ho1 & ->).
    inv_bind H as o' s4 Hget. apply get_node_inv in Hget as [Ho' ->].
    inv_bind H as u' s5 Hu. apply update_node_inv in Hu as (o2 & Ho2 & ->).
    inversion H. subst. clear H.
    simpl in Ho1. rewrite lookup_insert_eq in Ho1. inversion Ho1. subst o1.
    unfold with_heap in Ho2. simpl in Ho2. rewrite lookup_insert_eq in Ho2.
    inversion Ho2. subst o2.
    eexists. unfold with_heap. simpl. rewrite lookup_insert_eq.
    split; [reflexivity | exact Hi].
Qed.

(** A text built with [style=red_style] while the default style is the
    initial one: it is red. *)
Lemma explicit_style_red_text :
  exists o,
    heap (build (Text_init "a" LEFT
                   (mkKwargs None None (Some red_style) no_overrides)))
      !! 0%nat = Some o
    /\ style o = red_style.
Proof.
  apply (explicit_style_wins (new_Text "a" LEFT)
           (mkKwargs None None (Some red_style) no_overrides) red_style
           initial_state 0%nat); reflexivity.
Defined.

(** X3.  [Spacer.__init__] always returns, and the spacer has both dimensions:
    the one given unless it is 0 or missing, where it is the padding of the
    spacer's style.  Reading them cannot fail. *)
Theorem Spacer_always_sized :
  forall kw st,
    exists st1 o,
      Spacer_init kw st = Ok (next_id st, st1)
      /\ heap st1 !! next_id st = Some o
      /\ cls o = Spacer /\ style o = init_style st kw
      /\ _w o = Some (py_or (kw_width kw) (padding (init_style st kw)))
      /\ _h o = Some (py_or (kw_height kw) (padding (init_style st kw)))
      /\ (forall k, width (S k) (next_id st) st1
                    = Ok (py_or (kw_width kw) (padding (init_style st kw)), st1))
      /\ (forall k, height (S k) (next_id st) st1
                    = Ok (py_or (kw_height kw) (padding (init_style st kw)), st1)).
Proof.
  intros kw st.
  set (o0 := mkNode Spacer (init_style st kw) (kw_width kw) (kw_height kw) [] None).
  set (o2 := with_h (Some (py_or (kw_height kw) (padding (init_style st kw))))
               (with_w (Some (py_or (kw_width kw) (padding (init_style st kw)))) o0)).
  set (s1 := mkState (<[next_id st := o0]> (heap st)) (S (next_id st))
                     (default_style st) (calls st) (platform st)).
  exists (put (next_id st) o2 s1), o2.
  assert (Hl : heap (put (next_id st) o2 s1) !! next_id st = Some o2)
    by apply put_lookup.
  split_and!; try reflexivity; try exact Hl.
  - unfold Spacer_init. erewrite bind_ok; [|apply Object_init_run]. fold o0 s1.
    assert (H0 : heap s1 !! next_id st = Some o0) by apply lookup_insert_eq.
    erewrite bind_ok; [|apply get_node_ok, H0].
    unfold Object_set_width, Object_set_height.
    erewrite bind_ok; [|apply update_node_put, H0].
    erewrite bind_ok; [|apply get_node_ok, put_lookup].
    erewrite bind_ok; [|apply update_node_put, put_lookup].
    rewrite put_put. reflexivity.
  - intros k. rewrite (width_stored k _ _ o2 Hl eq_refl). reflexivity.
  - intros k. rewrite (height_stored k _ _ o2 Hl eq_refl). reflexivity.
Qed.

(** A spacer built with [width=0] and the default style, whose padding is
    10: it is 10 wide and 10 high. *)
Lemma Spacer_zero_width :
  exists st1,
    Spacer_init (mkKwargs (Some 0) None None no_overrides) initial_state
    = Ok (0%nat, st1)
    /\ width 1 0%nat st1 = Ok (10, st1) /\ height 1 0%nat st1 = Ok (10, st1).
Proof.
  destruct (Spacer_always_sized (mkKwargs (Some 0) None None no_overrides)
              initial_state)
    as (st1 & o & Hrun & _ & _ & _ & _ & _ & Hw & Hh).
  exists st1. split; [exact Hrun|]. split; [apply (Hw 0%nat) | apply (Hh 0%nat)].
Defined.

(** X4.  [Line], [DottedLine] and [Arrow] take no [width=] or [height=]: their
    constructor passes both itself, the larger x and the larger y of the two
    end points.  So a line always has its dimensions, which are not the
    extent of the segment. *)
Theorem Line_dimensions_from_endpoints :
  forall k start end_ kw st,
    endpoints k = Some (start, end_) ->
    (given (kw_width kw) || given (kw_height kw) = true ->
     construct k kw st = Err TypeError)
    /\ (kw_width kw = None -> kw_height kw = None ->
        exists st1 o,
          construct k kw st = Ok (next_id st, st1)
          /\ heap st1 !! next_id st = Some o
          /\ _w o = Some (Z.max (px start) (px end_))
          /\ _h o = Some (Z.max (py start) (py end_))
          /\ (forall n, width (S n) (next_id st) st1
                        = Ok (Z.max (px start) (px end_), st1))
          /\ (forall n, height (S n) (next_id st) st1
                        = Ok (Z.max (py start) (py end_), st1))).
Proof.
  intros k start end_ kw st Hk.
  assert (Hall : forall c, derived c = false ->
    ((given (kw_width kw) || given (kw_height kw) = true ->
      (kw' <- Line_kwargs start end_ kw ;; Object_init c kw') st = Err TypeError)
     /\ (kw_width kw = None -> kw_height kw = None ->
         exists st1 o,
           (kw' <- Line_kwargs start end_ kw ;; Object_init c kw') st
           = Ok (next_id st, st1)
           /\ heap st1 !! next_id st = Some o
           /\ _w o = Some (Z.max (px start) (px end_))
           /\ _h o = Some (Z.max (py start) (py end_))
           /\ (forall n, width (S n) (next_id st) st1
                         = Ok (Z.max (px start) (px end_), st1))
           /\ (forall n, height (S n) (next_id st) st1
                         = Ok (Z.max (py start) (py end_), st1))))).
  { intros c Hd. split.
    - intros Hg. unfold bind, Line_kwargs. rewrite Hg. reflexivity.
    - intros Hw Hh.
      set (kw' := mkKwargs (Some (Z.max (px start) (px end_)))
                           (Some (Z.max (py start) (py end_)))
                           (kw_style kw) (kw_rest kw)).
      set (o := mkNode c (init_style st kw') (kw_width kw') (kw_height kw') [] None).
      set (st1 := mkState (<[next_id st := o]> (heap st)) (S (next_id st))
                          (default_style st) (calls st) (platform st)).
      assert (Hl : heap st1 !! next_id st = Some o) by apply lookup_insert_eq.
      exists st1, o. split_and!; try reflexivity; try exact Hl.
      + erewrite bind_ok;
          [|unfold Line_kwargs; rewrite Hw, Hh; reflexivity].
        apply Object_init_run.
      + intros n. rewrite (width_stored n _ _ o Hl Hd). reflexivity.
      + intros n. rewrite (height_stored n _ _ o Hl Hd). reflexivity. }
  destruct k; try discriminate Hk; simpl in Hk; inversion Hk; subst;
    simpl construct; unfold Line_init, DottedLine_init, Arrow_init;
    apply Hall; reflexivity.
Qed.

(** The line from (10, 0) to (30, 5) is 30 wide and 5 high; with [width=]
    the constructor raises. *)
Lemma Line_from_ten_to_thirty :
  construct (new_Line (P 30 5) (P 10 0)) (sized 1 1) initial_state = Err TypeError
  /\ exists st1,
       construct (new_Line (P 30 5) (P 10 0)) no_kwargs initial_state
       = Ok (0%nat, st1)
       /\ width 1 0%nat st1 = Ok (30, st1) /\ height 1 0%nat st1 = Ok (5, st1).
Proof.
  destruct (Line_dimensions_from_endpoints (new_Line (P 30 5) (P 10 0))
              (P 10 0) (P 30 5) (sized 1 1) initial_state eq_refl) as [Herr _].
  destruct (Line_dimensions_from_endpoints (new_Line (P 30 5) (P 10 0))
              (P 10 0) (P 30 5) no_kwargs initial_state eq_refl)
    as [_ (st1 & o & Hrun & _ & _ & _ & Hw & Hh)]; [reflexivity | reflexivity |].
  split; [apply Herr; reflexivity|].
  exists st1. split; [exact Hrun|]. split; [apply Hw | apply Hh].
Defined.

(** ** Assigning a dimension of a layout *)

Lemma sim_reads_agree n st st1 :
  sim st st1 ->
  forall x v,
    ((exists s, width n x st = Ok (v, s)) <-> (exists s, width n x st1 = Ok (v, s)))
    /\ ((exists s, height n x st = Ok (v, s))
        <-> (exists s, height n x st1 = Ok (v, s))).
Proof.
  intros Hs x v. pose proof (sim_sym _ _ Hs) as Hs'.
  split; split; intros (s & H).
  - eapply (proj2 (width_sim n)); eauto.
  - eapply (proj2 (width_sim n)); eauto.
  - eapply (proj2 (height_sim n)); eauto.
  - eapply (proj2 (height_sim n)); eauto.
Qed.

(** X5.  The width and height setters of [VLayout] and [HLayout] (a [Table] has
    the latter's) store a value that is never read: after
    [layout.width = v] or [layout.height = v] every node, the layout
    included, reads the dimensions it read before. *)
Theorem layout_ignores_assigned_dimension :
  forall n st self o v st1,
    heap st !! self = Some o -> derived (cls o) = true ->
    set_width self v st = Ok (tt, st1) \/ set_height self v st = Ok (tt, st1) ->
    forall x d,
      ((exists s, width n x st = Ok (d, s)) <-> (exists s, width n x st1 = Ok (d, s)))
      /\ ((exists s, height n x st = Ok (d, s))
          <-> (exists s, height n x st1 = Ok (d, s))).
Proof.
  intros n st self o v st1 Ho Hd Hset.
  apply sim_reads_agree.
  assert (Hcls : cls o <> TextBox) by (intros E; rewrite E in Hd; discriminate).
  destruct Hset as [H | H].
  - rewrite (set_width_inv _ _ _ _ _ _ Ho H).
    apply sim_update; [exact Ho|]. unfold erase. simpl. rewrite Hd. reflexivity.
  - unfold set_height in H. erewrite bind_ok in H; [|apply get_node_ok, Ho].
    assert (H' : Object_set_height self v st = Ok (tt, st1))
      by (destruct (cls o); try exact H; contradiction).
    apply update_node_inv in H' as (o' & Ho' & ->).
    assert (o' = o) by congruence. subst o'.
    apply sim_update; [exact Ho|]. unfold erase. simpl. rewrite Hd. reflexivity.
Qed.

(** The vertical layout of [two_children_scene] reads 33 wide; it still does
    after [layout.width = 1000]. *)
Lemma layout_width_assigned_in_vain :
  exists st1,
    set_width 0%nat (Some 1000) two_children_scene = Ok (tt, st1)
    /\ (exists s, width 2 0%nat st1 = Ok (33, s)).
Proof.
  eexists. split; [vm_compute; reflexivity|].
  eapply (layout_ignores_assigned_dimension 2 two_children_scene 0%nat _
            (Some 1000) _); [vm_compute; reflexivity | reflexivity
                            | left; vm_compute; reflexivity |].
  eexists. vm_compute. reflexivity.
Defined.

(** ** Rectangles *)

(** X6.  [Rectangle.render] (a [TextBox] has it too) adds [_w] and [_h] to the
    position without going through the getters: when one of them is [None]
    the call raises [TypeError], where reading [width] raises
    [AssertionError].  With both set and no child it draws one rectangle,
    from the position to the position plus (width, height). *)
Theorem Rectangle_render_needs_dimensions :
  forall k renderer st self o pos,
    heap st !! self = Some o -> cls o = Rectangle \/ cls o = TextBox ->
    (_w o = None \/ _h o = None ->
     render (S k) renderer self pos st = Err TypeError)
    /\ (forall w h, _w o = Some w -> _h o = Some h -> children o = [] ->
        render (S k) renderer self pos st
        = Ok (tt, log [call_rectangle (px pos, py pos) (px pos + w, py pos + h)
                                      (style o)] st)).
Proof.
  intros k renderer st self o pos Ho Hc.
  assert (E : render (S k) renderer self pos st
              = Rectangle_render (render k renderer) self pos st).
  { simpl. erewrite bind_ok; [|apply get_node_ok, Ho].
    destruct Hc as [-> | ->]; reflexivity. }
  rewrite E. unfold Rectangle_render.
  erewrite bind_ok; [|apply get_node_ok, Ho]. split.
  - intros [Hw | Hh].
    + rewrite Hw. reflexivity.
    + rewrite Hh. destruct (_w o); reflexivity.
  - intros w h Hw Hh Hch. rewrite Hw, Hh.
    erewrite bind_ok; [|reflexivity]. erewrite bind_ok; [|reflexivity].
    erewrite bind_ok; [|apply emit_log].
    unfold Object_render. erewrite bind_ok; [|apply get_node_ok; exact Ho].
    rewrite Hch. reflexivity.
Qed.

(** The rectangle of [unsized_scene]: reading its width is an
    [AssertionError], rendering it a [TypeError]. *)
Lemma Rectangle_render_unsized :
  width 1 0%nat unsized_scene = Err AssertionError
  /\ render 1 fixed_renderer 0%nat (P 0 0) unsized_scene = Err TypeError.
Proof.
  split; [reflexivity|].
  apply (Rectangle_render_needs_dimensions 0 fixed_renderer unsized_scene 0%nat
           (mkNode Rectangle Style_default None None [] None) (P 0 0));
    [reflexivity | left; reflexivity | left; reflexivity].
Defined.

(** ** Text boxes *)

Lemma bind_err {A B} (m : M A) (k : A -> M B) st e :
  m st = Err e -> bind m k st = Err e.
Proof. unfold bind. intros ->. reflexivity. Qed.

Lemma bind_TextBox_width {A} self st o (k : Z -> M A) :
  heap st !! self = Some o ->
  (w <- TextBox_width self ;; k w) st
  = match _w o with Some v => k v st | None => Err AssertionError end.
Proof.
  intros Ho. unfold TextBox_width, bind, get_node. rewrite Ho.
  destruct (_w o); reflexivity.
Qed.

Lemma bind_TextBox_height {A} self st o (k : Z -> M A) :
  heap st !! self = Some o ->
  (h <- TextBox_height self ;; k h) st
  = match _h o with Some v => k v st | None => Err AssertionError end.
Proof.
  intros Ho. unfold TextBox_height, bind, get_node. rewrite Ho.
  destruct (_h o); reflexivity.
Qed.

(** X7.  [TextBox.__init__] reads [self.width] and [self.height]: without
    [width=] or [height=] it raises [AssertionError].  With both it builds
    the box and, as its only child, a left-aligned text of the same width
    and height whose parent is the box: for the anchor [MIDDLE_MIDDLE] at
    (width // 2, height // 2) with that anchor in its style, for any other
    at (0, 0) in the box's own style.  Rendered at [pos], the new box draws
    its rectangle and then the text at [pos] plus that offset. *)
Theorem TextBox_init_builds_text :
  forall text align kw st,
    (kw_width kw = None \/ kw_height kw = None ->
     TextBox_init text align kw st = Err AssertionError)
    /\ (forall w h,
          kw_width kw = Some w -> kw_height kw = Some h ->
          let self := next_id st in
          let t := S (next_id st) in
          let sty := init_style st kw in
          let centred := match align with MIDDLE_MIDDLE => true | _ => false end in
          let tstyle := if centred then replace_anchor sty MIDDLE_MIDDLE else sty in
          let tpos := if centred then P (w / 2) (h / 2) else P 0 0 in
          exists st1,
            TextBox_init text align kw st = Ok (self, st1)
            /\ heap st1 !! self
               = Some (mkNode TextBox sty (Some w) (Some h) [(t, tpos)] None)
            /\ heap st1 !! t
               = Some (mkNode (Text text LEFT) tstyle (Some w) (Some h) []
                              (Some self))
            /\ (forall id, id <> self -> id <> t -> heap st1 !! id = heap st !! id)
            /\ next_id st1 = S t /\ calls st1 = calls st
            /\ forall k renderer pos,
                 render (S (S k)) renderer self pos st1
                 = Ok (tt, log [call_rectangle (px pos, py pos)
                                               (px pos + w, py pos + h) sty;
                                call_text text (Point_add pos tpos) tstyle] st1)).
Proof.
  intros text align kw st.
  set (self := next_id st).
  set (sty := init_style st kw).
  set (o0 := mkNode TextBox sty (kw_width kw) (kw_height kw) [] None).
  set (s1 := mkState (<[self := o0]> (heap st)) (S self)
                     (default_style st) (calls st) (platform st)).
  assert (Hinit : Object_init TextBox kw st = Ok (self, s1))
    by apply Object_init_run.
  assert (H0 : heap s1 !! self = Some o0) by apply lookup_insert_eq.
  split.
  - intros Hnone. unfold TextBox_init.
    erewrite bind_ok; [|exact Hinit].
    erewrite bind_ok; [|apply get_node_ok, H0].
    assert (Hfail : forall A (k : Z -> Z -> M A),
              (w <- TextBox_width self ;; h <- TextBox_height self ;; k w h) s1
              = Err AssertionError).
    { intros A k. rewrite (bind_TextBox_width _ _ _ _ H0). simpl _w.
      destruct (kw_width kw) as [w|] eqn:Ew; [|reflexivity].
      rewrite (bind_TextBox_height _ _ _ _ H0). simpl _h.
      destruct Hnone as [E | E]; [discriminate E|]. rewrite E. reflexivity. }
    destruct align;
      first [ erewrite bind_ok; [|reflexivity]; apply Hfail
            | apply bind_err;
              apply (Hfail _ (fun w h =>
                       ret (replace_anchor (style o0) MIDDLE_MIDDLE,
                            P (w / 2) (h / 2)))) ].
  - intros w h Hw Hh self' t sty' centred tstyle tpos.
    subst self' sty'.
    assert (Ew : TextBox_width self s1 = Ok (w, s1))
      by (unfold TextBox_width; erewrite bind_ok; [|apply get_node_ok, H0];
          simpl; rewrite Hw; reflexivity).
    assert (Eh : TextBox_height self s1 = Ok (h, s1))
      by (unfold TextBox_height; erewrite bind_ok; [|apply get_node_ok, H0];
          simpl; rewrite Hh; reflexivity).
    set (t0 := mkNode (Text text LEFT) tstyle (Some w) (Some h) [] None).
    set (s2 := mkState (<[t := t0]> (heap s1)) (S t) (default_style st) (calls st) (platform st)).
    assert (Hne : self <> t) by (unfold t, self; lia).
    assert (Hb2 : heap s2 !! self = Some o0).
    { unfold s2. simpl. rewrite lookup_insert_ne by (intros E; apply Hne; auto).
      exact H0. }
    assert (Ht2 : heap s2 !! t = Some t0) by apply lookup_insert_eq.
    set (ob := with_children (children o0 ++ [(t, tpos)]) o0).
    set (ot := with_parent (Some self) t0).
    set (s3 := put t ot (put self ob s2)).
    assert (Hrun : TextBox_init text align kw st = Ok (self, s3)).
    { unfold TextBox_init.
      erewrite bind_ok; [|exact Hinit].
      erewrite bind_ok; [|apply get_node_ok, H0].
      erewrite (bind_ok _ _ s1 (tstyle, tpos) s1).
      2:{ unfold tstyle, tpos, centred.
          destruct align; try reflexivity.
          erewrite bind_ok; [|exact Ew]. erewrite bind_ok; [|exact Eh].
          reflexivity. }
      erewrite bind_ok; [|exact Ew]. erewrite bind_ok; [|exact Eh].
      erewrite bind_ok; [|unfold Text_init; apply Object_init_run].
      erewrite bind_ok; [reflexivity|].
      apply (Object_add_run self t tpos s2 o0 t0 Hne Hb2 Ht2). }
    assert (Eb : ob = mkNode TextBox sty (Some w) (Some h) [(t, tpos)] None)
      by (unfold ob, o0, with_children; simpl; rewrite Hw, Hh; reflexivity).
    assert (Hb3 : heap s3 !! self = Some ob).
    { unfold s3, put. simpl.
      rewrite lookup_insert_ne by (intros E; apply Hne; auto).
      apply lookup_insert_eq. }
    assert (Ht3 : heap s3 !! t = Some ot) by apply put_lookup.
    exists s3. split_and!; try reflexivity.
    + exact Hrun.
    + rewrite Hb3, Eb. reflexivity.
    + exact Ht3.
    + intros id H1 H2. unfold s3, put, s2, s1. simpl.
      rewrite !lookup_insert_ne by auto. reflexivity.
    + intros k renderer pos.
      change (render (S (S k)) renderer self pos s3)
        with ((o <- get_node self ;;
               match cls o with
               | Object | Spacer => Object_render (render (S k) renderer) self pos
               | VLayout _ =>
                   VLayout_render (width (S k)) (height (S k))
                                  (render (S k) renderer) self pos
               | HLayout _ | Table _ =>
                   HLayout_render (width (S k)) (render (S k) renderer) self pos
               | Rectangle | TextBox =>
                   Rectangle_render (render (S k) renderer) self pos
               | Line _ _ => Line_render self pos
               | DottedLine _ _ _ => DottedLine_render self pos
               | Arrow _ _ _ _ => Arrow_render self pos
               | Text _ _ => Text_render self pos
               | Canvas =>
                   Canvas_render (prepare (S k) renderer) (width (S k))
                                 (height (S k)) (render (S k) renderer) self pos
               end) s3).
      assert (Hcls : cls ob = TextBox) by (rewrite Eb; reflexivity).
      assert (Hwb : _w ob = Some w) by (rewrite Eb; reflexivity).
      assert (Hhb : _h ob = Some h) by (rewrite Eb; reflexivity).
      assert (Hchb : children ob = [(t, tpos)]) by (rewrite Eb; reflexivity).
      erewrite bind_ok; [|apply get_node_ok, Hb3].
      rewrite Hcls. unfold Rectangle_render.
      erewrite bind_ok; [|apply get_node_ok, Hb3].
      rewrite Hwb, Hhb.
      erewrite bind_ok; [|reflexivity]. erewrite bind_ok; [|reflexivity].
      erewrite bind_ok; [|apply emit_log].
      unfold Object_render.
      erewrite bind_ok; [|apply get_node_ok; exact Hb3].
      rewrite Hchb. cbn [for_each].
      replace (style ob) with sty by (rewrite Eb; reflexivity).
      set (sr := log [call_rectangle (px pos, py pos) (px pos + w, py pos + h) sty] s3).
      assert (Ht : heap sr !! t = Some ot) by exact Ht3.
      assert (Hr : render (S k) renderer t (P (px pos + px tpos) (py pos + py tpos)) sr
                   = Ok (tt, log [call_text text (Point_add pos tpos) tstyle] sr)).
      { simpl render. erewrite bind_ok; [|apply get_node_ok; exact Ht].
        cbn [ot t0 with_parent cls]. unfold Text_render.
        erewrite bind_ok; [|apply get_node_ok; exact Ht].
        cbn [ot t0 with_parent cls style]. apply emit_log. }
      erewrite bind_ok; [|exact Hr]. unfold sr. rewrite log_log. reflexivity.
Qed.

(** The box of [textbox_scene], 40 by 20 around "hi": drawn at the origin
    it is the rectangle and the text at (20, 10), anchored in its middle;
    without dimensions the constructor raises. *)
Lemma TextBox_forty_by_twenty :
  TextBox_init "hi" MIDDLE_MIDDLE no_kwargs initial_state = Err AssertionError
  /\ exists st1,
       TextBox_init "hi" MIDDLE_MIDDLE (sized 40 20) initial_state = Ok (0%nat, st1)
       /\ render 2 fixed_renderer 0%nat (P 0 0) st1
          = Ok (tt, log [call_rectangle (0, 0) (40, 20) Style_default;
                         call_text "hi" (P 20 10)
                                   (replace_anchor Style_default MIDDLE_MIDDLE)]
                      st1).
Proof.
  destruct (TextBox_init_builds_text "hi" MIDDLE_MIDDLE no_kwargs initial_state)
    as [Herr _].
  destruct (TextBox_init_builds_text "hi" MIDDLE_MIDDLE (sized 40 20) initial_state)
    as [_ H].
  destruct (H 40 20 eq_refl eq_refl) as (st1 & Hrun & _ & _ & _ & _ & _ & Hr).
  split; [apply Herr; left; reflexivity|].
  exists st1. split; [exact Hrun | apply (Hr 0%nat)].
Defined.

(** X8.  The width setter of a text box stores the value and leaves the text
    where it was.  The height setter stores it and moves the first child to
    (width // 2, height // 2), without resizing it; it raises [IndexError]
    on a box without children and [AssertionError] when the width or the new
    height is [None]. *)
Theorem TextBox_setters :
  forall st self o v,
    heap st !! self = Some o -> cls o = TextBox ->
    set_width self v st = Ok (tt, put self (with_w v o) st)
    /\ (children o = [] -> set_height self v st = Err IndexError)
    /\ (forall t off rest,
          children o = (t, off) :: rest ->
          (_w o = None \/ v = None -> set_height self v st = Err AssertionError)
          /\ (forall w h, _w o = Some w -> v = Some h ->
                set_height self v st
                = Ok (tt, put self (with_children ((t, P (w / 2) (h / 2)) :: rest)
                                      (with_h (Some h) o)) st))).
Proof.
  intros st self o v Ho Hc.
  assert (Ew : set_width self v st = TextBox_set_width self v st)
    by (unfold set_width; erewrite bind_ok; [|apply get_node_ok, Ho];
        rewrite Hc; reflexivity).
  assert (Eh : set_height self v st = TextBox_set_height self v st)
    by (unfold set_height; erewrite bind_ok; [|apply get_node_ok, Ho];
        rewrite Hc; reflexivity).
  assert (Hstep : forall (k : M unit),
            (update_node self (with_h v) ;;; k) st = k (put self (with_h v o) st))
    by (intros k; erewrite bind_ok; [reflexivity | apply update_node_put, Ho]).
  assert (H1 : heap (put self (with_h v o) st) !! self = Some (with_h v o))
    by apply put_lookup.
  split_and!.
  - rewrite Ew. apply update_node_put, Ho.
  - intros Hch. rewrite Eh. unfold TextBox_set_height. rewrite Hstep.
    erewrite bind_ok; [|apply get_node_ok, H1]. simpl. rewrite Hch. reflexivity.
  - intros t off rest Hch. split.
    + intros Hnone. rewrite Eh. unfold TextBox_set_height. rewrite Hstep.
      erewrite bind_ok; [|apply get_node_ok, H1].
      change (children (with_h v o)) with (children o). rewrite Hch.
      rewrite (bind_TextBox_width _ _ _ _ H1).
      change (_w (with_h v o)) with (_w o).
      destruct (_w o) as [w|] eqn:Ew'; [|reflexivity].
      rewrite (bind_TextBox_height _ _ _ _ H1).
      destruct Hnone as [E | E]; [discriminate E|]. rewrite E. reflexivity.
    + intros w h Hw Hv. subst v. rewrite Eh. unfold TextBox_set_height.
      rewrite Hstep. erewrite bind_ok; [|apply get_node_ok, H1].
      change (children (with_h (Some h) o)) with (children o). rewrite Hch.
      rewrite (bind_TextBox_width _ _ _ _ H1).
      change (_w (with_h (Some h) o)) with (_w o). rewrite Hw.
      rewrite (bind_TextBox_height _ _ _ _ H1). cbn [with_h _h].
      erewrite update_node_put; [|exact H1]. rewrite put_put.
      change (children (with_h (Some h) o)) with (children o). rewrite Hch.
      reflexivity.
Qed.

(** The box of [textbox_scene], made 60 high: its text moves from (20, 10)
    to (20, 30) and is still 20 high. *)
Lemma TextBox_grown_to_sixty :
  exists st1,
    set_height 0%nat (Some 60) textbox_scene = Ok (tt, st1)
    /\ children <$> heap st1 !! 0%nat = Some [(1%nat, P 20 30)]
    /\ _h <$> heap st1 !! 1%nat = Some (Some 20).
Proof.
  destruct (TextBox_setters textbox_scene 0%nat
              (mkNode TextBox Style_default (Some 40) (Some 20)
                      [(1%nat, P 20 10)] None) (Some 60))
    as (_ & _ & H); [vm_compute; reflexivity | reflexivity |].
  destruct (H 1%nat (P 20 10) [] eq_refl) as [_ H'].
  eexists. split; [apply (H' 40 60); reflexivity|].
  split; vm_compute; reflexivity.
Defined.

(** ** Texts *)

(** X9.  A text without children, prepared and then rendered.  [prepare] returns,
    having measured the text unless both dimensions were set and not 0; then
    [render] returns too, with one [text] call: for the alignment [RIGHT]
    at the position moved right by the text's width, with the anchor
    [TOP_RIGHT] in place of the style's own; for any other alignment at the
    position itself, in the text's style.  Rendered before [prepare], a
    right-aligned text without a width raises [AssertionError]. *)
Theorem Text_render_after_prepare :
  forall k k' renderer st self o text a pos,
    heap st !! self = Some o -> cls o = Text text a -> children o = [] ->
    let st1 := if needs_measure o then measured renderer self text o st else st in
    let w := py_or (_w o) (bbox_right (text_bbox renderer text (style o))) in
    prepare (S k) renderer self st = Ok (tt, st1)
    /\ render (S k') renderer self pos st1
       = Ok (tt, log [match a with
                      | RIGHT => call_text text (Point_add pos (P w 0))
                                           (replace_anchor (style o) TOP_RIGHT)
                      | _ => call_text text pos (style o)
                      end] st1)
    /\ (a = RIGHT -> _w o = None ->
        render (S k') renderer self pos st = Err AssertionError).
Proof.
  intros k k' renderer st self o text a pos Ho Hc Hch st1 w.
  assert (Hprep : prepare (S k) renderer self st = Ok (tt, st1)).
  { simpl prepare. erewrite bind_ok; [|apply get_node_ok, Ho]. rewrite Hc.
    eapply Text_prepare_after; [|exact Ho | exact Hc].
    eapply Object_prepare_leaf; eauto. }
  assert (Hnode : exists o1, heap st1 !! self = Some o1 /\ cls o1 = Text text a
                             /\ style o1 = style o /\ _w o1 = Some w).
  { unfold st1, w. destruct (needs_measure o) eqn:Hm.
    - exists (measured_node renderer text o). rewrite measured_lookup.
      split_and!; try reflexivity. exact Hc.
    - exists o. split_and!; auto.
      unfold needs_measure in Hm. apply orb_false_elim in Hm as [Hw _].
      destruct (_w o) as [v|]; [|discriminate Hw]. simpl in Hw.
      unfold py_or. rewrite Hw. reflexivity. }
  destruct Hnode as (o1 & Ho1 & Hc1 & Hs1 & Hw1).
  split_and!.
  - exact Hprep.
  - simpl render. erewrite bind_ok; [|apply get_node_ok, Ho1]. rewrite Hc1.
    unfold Text_render. erewrite bind_ok; [|apply get_node_ok, Ho1].
    rewrite Hc1, Hs1. destruct a; try apply emit_log.
    erewrite bind_ok; [|eapply Object_width_ok; [exact Ho1 | exact Hw1]].
    apply emit_log.
  - intros -> Hw. simpl render. erewrite bind_ok; [|apply get_node_ok, Ho].
    rewrite Hc. unfold Text_render. erewrite bind_ok; [|apply get_node_ok, Ho].
    rewrite Hc. unfold Object_width, bind, get_node. rewrite Ho, Hw. reflexivity.
Qed.

(** The text of [right_text_scene], which [fixed_renderer] measures 40 by
    12: rendered at (100, 50) it raises before [prepare], and after it is
    drawn at (140, 50) with the anchor [TOP_RIGHT]. *)
Lemma Text_right_aligned_at_hundred :
  render 1 fixed_renderer 0%nat (P 100 50) right_text_scene = Err AssertionError
  /\ exists st1,
       prepare 1 fixed_renderer 0%nat right_text_scene = Ok (tt, st1)
       /\ render 1 fixed_renderer 0%nat (P 100 50) st1
          = Ok (tt, log [call_text "ab" (P 140 50)
                                   (replace_anchor Style_default TOP_RIGHT)] st1).
Proof.
  destruct (Text_render_after_prepare 0 0 fixed_renderer right_text_scene 0%nat
              (mkNode (Text "ab" RIGHT) Style_default None None [] None)
              "ab"%string RIGHT (P 100 50) eq_refl eq_refl eq_refl)
    as (Hp & Hr & He).
  split; [apply He; reflexivity|].
  eexists. split; [exact Hp | exact Hr].
Defined.

(** ** What the passes leave alone *)

(** X10.  [prepare] and [render] create and delete no object and give no object
    another class, another style or other children; an object that is not
    the node or below it, and whose dimensions are stored, is left exactly
    as it was. *)
Theorem passes_keep_structure :
  forall n renderer self pos st u st',
    prepare n renderer self st = Ok (u, st')
    \/ render n renderer self pos st = Ok (u, st') ->
    forall id,
      match heap st !! id, heap st' !! id with
      | Some o, Some o' =>
          cls o' = cls o /\ style o' = style o /\ kids o' = kids o
          /\ (~ In id (descendants n (heap st) self) ->
              derived (cls o) = false -> o' = o)
      | None, None => True
      | _, _ => False
      end.
Proof.
  intros n renderer self pos st u st' H id.
  assert (Hf : frame (descendants n (heap st) self) st st').
  { destruct H as [H | H];
      [eapply prepare_frame | eapply render_frame]; exact H. }
  pose proof (frame_shape _ _ _ id Hf) as Hs.
  destruct (heap st !! id) as [o|] eqn:Ho, (heap st' !! id) as [o'|] eqn:Ho';
    simpl in Hs; try discriminate Hs; [|exact I].
  inversion Hs as [E]. unfold shape in E. inversion E. split_and!; auto.
  intros Hout Hd.
  pose proof (frame_stored _ _ _ _ _ Hf Hout Ho Hd) as Ho''. congruence.
Qed.

(** Rendering the canvas of [canvas_scene] leaves its rectangle (object 1) a
    rectangle with the default style and no children. *)
Lemma canvas_scene_keeps_structure :
  exists st',
    render 2 fixed_renderer 0%nat (P 0 0) canvas_scene = Ok (tt, st')
    /\ match heap canvas_scene !! 1%nat, heap st' !! 1%nat with
       | Some o, Some o' =>
           cls o' = cls o /\ style o' = style o /\ kids o' = kids o
           /\ (~ In 1%nat (descendants 2 (heap canvas_scene) 0%nat) ->
               derived (cls o) = false -> o' = o)
       | None, None => True
       | _, _ => False
       end.
Proof.
  eexists. split; [vm_compute; reflexivity|].
  apply (passes_keep_structure 2 fixed_renderer 0%nat (P 0 0) canvas_scene tt).
  right. vm_compute. reflexivity.
Defined.

(** ** The calls of the passes *)

Lemma called_only_refl ok s s' :
  next_id s' = next_id s -> default_style s' = default_style s ->
  calls s' = calls s -> called_only ok s s'.
Proof.
  intros H1 H2 H3. split_and!; auto. exists []. rewrite app_nil_r. auto.
Qed.

Lemma called_only_trans ok s1 s2 s3 :
  called_only ok s1 s2 -> called_only ok s2 s3 -> called_only ok s1 s3.
Proof.
  intros (N1 & D1 & l1 & E1 & F1) (N2 & D2 & l2 & E2 & F2).
  split_and!; [congruence | congruence |].
  exists (l1 ++ l2). rewrite E2, E1, app_assoc. split; [reflexivity|].
  apply Forall_app. auto.
Qed.

Lemma called_only_weaken (ok ok' : Call -> bool) s s' :
  (forall c, ok c = true -> ok' c = true) ->
  called_only ok s s' -> called_only ok' s s'.
Proof.
  intros Hw (N & D & l & E & F). split_and!; auto. exists l. split; [exact E|].
  eapply Forall_impl; [exact F | exact Hw].
Qed.

Lemma emits_only_ret {A} ok (a : A) : emits_only ok (ret a).
Proof. intros s a' s' H. inversion H. apply called_only_refl; reflexivity. Qed.

Lemma emits_only_raise {A} ok e : emits_only ok (@raise A e).
Proof. intros s a s' H. discriminate. Qed.

Lemma emits_only_bind {A B} ok (m : M A) (k : A -> M B) :
  emits_only ok m -> (forall a, emits_only ok (k a)) -> emits_only ok (bind m k).
Proof.
  intros Hm Hk s b s' H. inv_bind H as a s1 Hrun.
  eapply called_only_trans; [eapply Hm | eapply Hk]; eauto.
Qed.

Lemma emits_only_for_each {A} ok (l : list A) (f : A -> M unit) :
  (forall a, emits_only ok (f a)) -> emits_only ok (for_each l f).
Proof.
  intros Hf. induction l as [|a l IH]; simpl; [apply emits_only_ret|].
  apply emits_only_bind; auto.
Qed.

Lemma emits_only_for_each_acc {A B} ok (l : list A) (f : B -> A -> M B) :
  (forall b a, emits_only ok (f b a)) -> forall b, emits_only ok (for_each_acc l f b).
Proof.
  intros Hf. induction l as [|a l IH]; intros b; simpl; [apply emits_only_ret|].
  apply emits_only_bind; auto.
Qed.

Lemma emits_only_get_node ok self : emits_only ok (get_node self).
Proof.
  intros s a s' H. apply get_node_inv in H as [_ ->].
  apply called_only_refl; reflexivity.
Qed.

Lemma emits_only_lift {A} ok (r : Result A) : emits_only ok (lift r).
Proof. destruct r; [apply emits_only_ret | apply emits_only_raise]. Qed.

Lemma emits_only_get_platform ok : emits_only ok get_platform.
Proof. intros s a s' H. inversion H. apply called_only_refl; reflexivity. Qed.

Lemma emits_only_update_node ok self f : emits_only ok (update_node self f).
Proof.
  intros s a s' H. apply update_node_inv in H as (o & _ & ->).
  apply called_only_refl; reflexivity.
Qed.

Lemma emits_only_as_int ok a : emits_only ok (as_int a).
Proof. destruct a; [apply emits_only_ret | apply emits_only_raise]. Qed.

Lemma emits_only_emit (ok : Call -> bool) c : ok c = true -> emits_only ok (emit c).
Proof.
  intros Hc s a s' H. inversion H. split_and!; try reflexivity.
  exists [c]. simpl. auto.
Qed.

Lemma emits_only_sim {A} ok (m : M A) :
  (forall s a s', m s = Ok (a, s') -> sim s s') -> emits_only ok m.
Proof.
  intros Hm s a s' H. destruct (Hm _ _ _ H) as (_ & N & D & C).
  apply called_only_refl; auto.
Qed.

Lemma emits_only_width ok n c : emits_only ok (width n c).
Proof. apply emits_only_sim. apply (width_sim n). Qed.

Lemma emits_only_height ok n c : emits_only ok (height n c).
Proof. apply emits_only_sim. apply (height_sim n). Qed.

Lemma emits_only_Object_width ok self : emits_only ok (Object_width self).
Proof.
  intros s a s' H. apply Object_width_inv in H as (? & ? & ? & ->).
  apply called_only_refl; reflexivity.
Qed.

Lemma emits_only_Object_height ok self : emits_only ok (Object_height self).
Proof.
  intros s a s' H. apply Object_height_inv in H as (? & ? & ? & ->).
  apply called_only_refl; reflexivity.
Qed.

Lemma emits_only_set_height ok obj v : emits_only ok (set_height obj v).
Proof.
  unfold set_height. apply emits_only_bind; [apply emits_only_get_node | intros o].
  destruct (cls o); try apply emits_only_update_node.
  unfold TextBox_set_height.
  apply emits_only_bind; [apply emits_only_update_node | intros _].
  apply emits_only_bind; [apply emits_only_get_node | intros o'].
  destruct (children o') as [|[t off] rest]; [apply emits_only_raise|].
  apply emits_only_bind; [apply emits_only_Object_width | intros w].
  apply emits_only_bind; [apply emits_only_Object_height | intros h].
  apply emits_only_update_node.
Qed.

Lemma prepare_emits_only renderer n :
  forall self, emits_only is_text_bbox (prepare n renderer self).
Proof.
  induction n as [|n IH]; intros self; [apply emits_only_raise|].
  assert (Hobj : emits_only is_text_bbox (Object_prepare (prepare n renderer) self)).
  { unfold Object_prepare.
    apply emits_only_bind; [apply emits_only_get_node | intros o].
    apply emits_only_for_each. intros [obj off]. apply IH. }
  simpl prepare. apply emits_only_bind; [apply emits_only_get_node | intros o].
  destruct (cls o); try exact Hobj.
  - unfold Table_prepare.
    apply emits_only_bind; [exact Hobj | intros _].
    apply emits_only_bind; [apply emits_only_update_node | intros _].
    apply emits_only_bind; [apply emits_only_get_node | intros o1].
    apply emits_only_bind.
    { apply emits_only_for_each. intros [obj off].
      apply emits_only_bind; [apply emits_only_get_node | intros x].
      apply emits_only_bind; [apply emits_only_height | intros h].
      apply emits_only_bind; [apply emits_only_as_int | intros cur].
      apply emits_only_update_node. }
    intros _. apply emits_only_bind; [apply emits_only_get_node | intros o2].
    apply emits_only_for_each. intros [obj off].
    apply emits_only_bind; [apply emits_only_get_node | intros x].
    apply emits_only_set_height.
  - unfold Text_prepare.
    apply emits_only_bind; [exact Hobj | intros _].
    apply emits_only_bind; [apply emits_only_get_node | intros o1].
    destruct (py_not (_w o1) || py_not (_h o1)); [|apply emits_only_ret].
    destruct (cls o1); try apply emits_only_raise.
    apply emits_only_bind; [apply emits_only_emit; reflexivity | intros _].
    match goal with
    | |- context [text_bbox ?r ?t ?s] => destruct (text_bbox r t s) as [[[l t'] rr] b]
    end.
    apply emits_only_bind; [apply emits_only_get_node | intros x].
    apply emits_only_bind; [apply emits_only_update_node | intros _].
    apply emits_only_bind; [apply emits_only_get_node | intros y].
    apply emits_only_update_node.
Qed.

(** X11.  [prepare] draws nothing: the only method of the renderer it calls is
    [text_bbox].  It creates no object and leaves the default style. *)
Theorem prepare_only_measures :
  forall n renderer self st u st',
    prepare n renderer self st = Ok (u, st') ->
    next_id st' = next_id st
    /\ default_style st' = default_style st
    /\ exists l, calls st' = calls st ++ l
                 /\ Forall (fun c => is_text_bbox c = true) l.
Proof.
  intros n renderer self st u st' H.
  destruct (prepare_emits_only renderer n self st u st' H) as (Hn & Hd & l & El & Hl).
  split_and!; [exact Hn | exact Hd |]. exists l. split; [exact El | exact Hl].
Qed.

(** Preparing the text of [right_text_scene] makes one call, [text_bbox]. *)
Lemma prepare_right_text_measures :
  exists st' l,
    prepare 1 fixed_renderer 0%nat right_text_scene = Ok (tt, st')
    /\ calls st' = calls right_text_scene ++ l
    /\ Forall (fun c => is_text_bbox c = true) l.
Proof.
  destruct (prepare_only_measures 1 fixed_renderer 0%nat right_text_scene tt
              (measured fixed_renderer 0%nat "ab"
                 (mkNode (Text "ab" RIGHT) Style_default None None [] None)
                 right_text_scene) eq_refl)
    as (_ & _ & l & Hl & Hall).
  eexists. exists l. split; [reflexivity|]. split; [exact Hl | exact Hall].
Defined.


Lemma render_emits renderer n :
  forall self pos, emits_only any_call (render n renderer self pos).
Proof.
  induction n as [|n IH]; intros self pos; [apply emits_only_raise|].
  assert (Hobj : forall p, emits_only any_call
                             (Object_render (render n renderer) self p)).
  { intros p. unfold Object_render.
    apply emits_only_bind; [apply emits_only_get_node | intros o].
    apply emits_only_for_each. intros [obj off]. apply IH. }
  simpl render. apply emits_only_bind; [apply emits_only_get_node | intros o].
  destruct (cls o); try apply Hobj.
  - unfold VLayout_render.
    apply emits_only_bind; [apply emits_only_width | intros W].
    apply emits_only_bind; [apply emits_only_get_node | intros o1].
    apply emits_only_bind; [|intros; apply emits_only_ret].
    apply emits_only_for_each_acc. intros y [obj off].
    apply emits_only_bind; [apply emits_only_width | intros w].
    apply emits_only_bind; [apply IH | intros _].
    apply emits_only_bind; [apply emits_only_height | intros h].
    apply emits_only_ret.
  - unfold HLayout_render.
    apply emits_only_bind; [apply emits_only_get_node | intros o1].
    apply emits_only_bind; [|intros; apply emits_only_ret].
    apply emits_only_for_each_acc. intros x [obj off].
    apply emits_only_bind; [apply IH | intros _].
    apply emits_only_bind; [apply emits_only_width | intros w].
    apply emits_only_ret.
  - unfold Rectangle_render.
    apply emits_only_bind; [apply emits_only_get_node | intros o1].
    apply emits_only_bind; [apply emits_only_as_int | intros w].
    apply emits_only_bind; [apply emits_only_as_int | intros h].
    apply emits_only_bind; [apply emits_only_emit; reflexivity | intros _].
    apply Hobj.
  - unfold Line_render.
    apply emits_only_bind; [apply emits_only_get_node | intros o1].
    destruct (cls o1); try apply emits_only_raise;
      apply emits_only_emit; reflexivity.
  - unfold Rectangle_render.
    apply emits_only_bind; [apply emits_only_get_node | intros o1].
    apply emits_only_bind; [apply emits_only_as_int | intros w].
    apply emits_only_bind; [apply emits_only_as_int | intros h].
    apply emits_only_bind; [apply emits_only_emit; reflexivity | intros _].
    apply Hobj.
  - unfold HLayout_render.
    apply emits_only_bind; [apply emits_only_get_node | intros o1].
    apply emits_only_bind; [|intros; apply emits_only_ret].
    apply emits_only_for_each_acc. intros x [obj off].
    apply emits_only_bind; [apply IH | intros _].
    apply emits_only_bind; [apply emits_only_width | intros w].
    apply emits_only_ret.
  - unfold DottedLine_render.
    apply emits_only_bind; [apply emits_only_get_node | intros o1].
    destruct (cls o1); try apply emits_only_raise.
    apply emits_only_bind; [apply emits_only_get_platform | intros pf].
    apply emits_only_bind; [apply emits_only_lift | intros len].
    apply emits_only_bind; [apply emits_only_lift | intros u].
    apply emits_only_bind.
    { unfold py_int. destruct (f2z _); [apply emits_only_ret | apply emits_only_raise]. }
    intros m. apply emits_only_bind.
    { unfold py_range.
      match goal with
      | |- context [if ?b then _ else _] => destruct b
      end; [apply emits_only_raise | apply emits_only_ret]. }
    intros r. apply emits_only_bind; [|intros; apply emits_only_ret].
    apply emits_only_for_each_acc. intros xy i. unfold dash_step.
    apply emits_only_bind; [apply emits_only_lift | intros half].
    apply emits_only_bind; [apply emits_only_lift | intros xy2].
    apply emits_only_bind; [apply emits_only_emit; reflexivity | intros _].
    apply emits_only_bind; [apply emits_only_lift | intros full].
    apply emits_only_lift.
  - unfold Arrow_render.
    apply emits_only_bind; [apply emits_only_get_node | intros o1].
    destruct (cls o1); try apply emits_only_raise.
    repeat (apply emits_only_bind; [apply emits_only_emit; reflexivity | intros _]).
    match goal with
    | |- context [if ?b then _ else _] => destruct b
    end; [|apply emits_only_ret].
    apply emits_only_bind; [apply emits_only_emit; reflexivity | intros _].
    apply emits_only_emit. reflexivity.
  - unfold Text_render.
    apply emits_only_bind; [apply emits_only_get_node | intros o1].
    destruct (cls o1); try apply emits_only_raise.
    match goal with
    | |- context [match ?a with TOP => _ | _ => _ end] => destruct a
    end; try (apply emits_only_emit; reflexivity).
    apply emits_only_bind; [apply emits_only_Object_width | intros w].
    apply emits_only_emit. reflexivity.
  - unfold Canvas_render.
    apply emits_only_bind; [apply emits_only_get_node | intros o1].
    apply emits_only_bind; [apply emits_only_update_node | intros _].
    apply emits_only_bind; [apply emits_only_update_node | intros _].
    apply emits_only_bind; [apply emits_only_get_node | intros o2].
    apply emits_only_bind.
    { apply emits_only_for_each. intros [obj off].
      apply emits_only_bind.
      { intros s a s' H. eapply called_only_weaken;
          [|eapply prepare_emits_only; exact H]. reflexivity. }
      intros _. apply emits_only_bind; [apply IH | intros _].
      apply emits_only_bind; [apply emits_only_Object_width | intros sw].
      apply emits_only_bind; [apply emits_only_width | intros w].
      apply emits_only_bind; [apply emits_only_update_node | intros _].
      apply emits_only_bind; [apply emits_only_Object_height | intros sh].
      apply emits_only_bind; [apply emits_only_height | intros h].
      apply emits_only_update_node. }
    intros _.
    apply emits_only_bind; [apply emits_only_Object_width | intros sw].
    apply emits_only_bind; [apply emits_only_update_node | intros _].
    apply emits_only_bind; [apply emits_only_Object_height | intros sh].
    apply emits_only_bind; [apply emits_only_update_node | intros _].
    apply emits_only_bind; [apply emits_only_Object_width | intros sw'].
    apply emits_only_bind; [apply emits_only_Object_height | intros sh'].
    apply emits_only_emit. reflexivity.
Qed.

(** ** Canvases *)

Lemma shape_put self o o' st :
  heap st !! self = Some o -> shape o' = shape o ->
  shape <$> heap (put self o' st) = shape <$> heap st.
Proof.
  intros Ho Hs. simpl. rewrite fmap_insert, Hs. apply insert_id.
  rewrite lookup_fmap, Ho. reflexivity.
Qed.

Lemma sim_shape s s' : sim s s' -> shape <$> heap s = shape <$> heap s'.
Proof. intros H. exact (proj1 (sim_frame [] _ _ H)). Qed.

(** What the loop of [Canvas.render] keeps: the shape of the store, the
    canvas itself with dimensions no smaller than its padding, and the calls
    made so far. *)
Lemma Canvas_loop_inv n renderer self o base st :
  cls o = Canvas ->
  forall cs s u s',
    (forall c, In c (map fst cs) -> ~ In self (descendants n (heap st) c)) ->
    shape <$> heap s = shape <$> heap st ->
    (exists w h, heap s !! self = Some (resized w h o)
                 /\ padding (style o) <= w /\ padding (style o) <= h) ->
    for_each cs (fun '(obj, offset) =>
      prepare n renderer obj ;;;
      render n renderer obj (Point_add base offset) ;;;
      let x := px (Point_add offset base) in
      let y := py (Point_add offset base) in
      self_width <- Object_width self ;;
      obj_width <- width n obj ;;
      Object_set_width self (Some (Z.max self_width (obj_width + x))) ;;;
      self_height <- Object_height self ;;
      obj_height <- height n obj ;;
      Object_set_height self (Some (Z.max self_height (obj_height + y)))) s
    = Ok (u, s') ->
    shape <$> heap s' = shape <$> heap st
    /\ (exists w h, heap s' !! self = Some (resized w h o)
                    /\ padding (style o) <= w /\ padding (style o) <= h)
    /\ called_only any_call s s'.
Proof.
  intros Hc. induction cs as [|[obj offset] cs IH];
    intros s u s' Hacyc Hshape Hnode H.
  - inversion H. subst. split_and!; auto.
    apply called_only_refl; reflexivity.
  - simpl in H. inv_bind H as u0 sz Hbody.
    assert (Hstored : forall w h, derived (cls (resized w h o)) = false)
      by (intros; simpl; rewrite Hc; reflexivity).
    assert (Hout : ~ In self (descendants n (heap st) obj))
      by (apply Hacyc; left; reflexivity).
    destruct Hnode as (w & h & Hs & Hw & Hh).
    inv_bind Hbody as u1 s1 Hprep.
    pose proof (prepare_frame renderer n obj _ _ _ Hprep) as F1.
    rewrite (descendants_shape n (heap s) (heap st) Hshape) in F1.
    pose proof (frame_stored _ _ _ _ _ F1 Hout Hs (Hstored w h)) as Hs1.
    assert (Hshape1 : shape <$> heap s1 = shape <$> heap st)
      by (rewrite <- (proj1 F1); exact Hshape).
    inv_bind Hbody as u2 s2 Hrend.
    pose proof (render_frame renderer n obj _ _ _ _ Hrend) as F2.
    rewrite (descendants_shape n (heap s1) (heap st) Hshape1) in F2.
    pose proof (frame_stored _ _ _ _ _ F2 Hout Hs1 (Hstored w h)) as Hs2.
    assert (Hshape2 : shape <$> heap s2 = shape <$> heap st)
      by (rewrite <- (proj1 F2); exact Hshape1).
    inv_bind Hbody as cw s2' Hcw.
    apply Object_width_inv in Hcw as (x2 & Hx2 & Hcw & ->).
    assert (x2 = resized w h o) by congruence. subst x2.
    simpl in Hcw. inversion Hcw. subst cw. clear Hcw.
    inv_bind Hbody as W s3 HW.
    pose proof (proj1 (width_sim n) _ _ _ _ HW) as S3.
    pose proof (sim_stored _ _ _ _ S3 Hs2 (Hstored w h)) as Hs3.
    inv_bind Hbody as u3 s4 Hu.
    apply update_node_inv in Hu as (x3 & Hx3 & ->).
    assert (x3 = resized w h o) by congruence. subst x3.
    set (w' := Z.max w (W + px (Point_add offset base))) in *.
    inv_bind Hbody as ch s4' Hch.
    apply Object_height_inv in Hch as (x4 & Hx4 & Hch & ->).
    simpl in Hx4. rewrite lookup_insert_eq in Hx4. inversion Hx4. subst x4.
    simpl in Hch. inversion Hch. subst ch. clear Hch Hx4.
    inv_bind Hbody as H' s5 HH.
    pose proof (proj1 (height_sim n) _ _ _ _ HH) as S5.
    assert (Hs4 : heap (with_heap (<[self := with_w (Some w') (resized w h o)]> (heap s3)) s3)
                  !! self = Some (resized w' h o))
      by (simpl; rewrite lookup_insert_eq; reflexivity).
    pose proof (sim_stored _ _ _ _ S5 Hs4 (Hstored w' h)) as Hs5.
    apply update_node_inv in Hbody as (x5 & Hx5 & ->).
    assert (x5 = resized w' h o) by congruence. subst x5.
    set (h' := Z.max h (H' + py (Point_add offset base))) in *.
    set (s6 := with_heap (<[self := with_h (Some h') (resized w' h o)]> (heap s5)) s5) in *.
    assert (Hs6 : heap s6 !! self = Some (resized w' h' o))
      by (simpl; rewrite lookup_insert_eq; reflexivity).
    assert (Hshape6 : shape <$> heap s6 = shape <$> heap st).
    { rewrite <- Hshape2. rewrite (sim_shape _ _ S3).
      etransitivity; [apply (shape_put self _ _ s5 Hs5); reflexivity|].
      rewrite <- (sim_shape _ _ S5).
      apply (shape_put self _ _ s3 Hs3). reflexivity. }
    destruct (IH s6 u s') as (Hsh & Hnd & Hcalls); auto.
    { intros c Hin. apply Hacyc. right. exact Hin. }
    { exists w', h'. split; [exact Hs6|]. unfold w', h'. lia. }
    split_and!; auto.
    eapply called_only_trans; [|exact Hcalls].
    eapply called_only_trans;
      [eapply called_only_weaken; [|eapply prepare_emits_only; exact Hprep];
       reflexivity|].
    eapply called_only_trans; [eapply render_emits; exact Hrend|].
    destruct S3 as (_ & N3 & D3 & C3). destruct S5 as (_ & N5 & D5 & C5).
    apply called_only_refl; simpl in *; congruence.
Qed.

(** X12.  [Canvas.render] on a canvas that is not below one of its children.
    Without children the call returns, the canvas is twice its padding wide
    and high, whatever dimensions it was built with, and [set_dimensions]
    is the only call.  With children, if the call returns, the canvas is at
    least twice its padding wide and high, no call made before is lost, and
    the last call is [set_dimensions] with the dimensions the canvas ends
    with. *)
Theorem Canvas_render_reports_its_dimensions :
  forall n renderer st self o pos,
    heap st !! self = Some o -> cls o = Canvas ->
    (forall c, In c (kids o) -> ~ In self (descendants n (heap st) c)) ->
    let pad := padding (style o) in
    (children o = [] ->
     render (S n) renderer self pos st
     = Ok (tt, log [call_set_dimensions (pad + pad, pad + pad)]
                 (put self (resized (pad + pad) (pad + pad) o) st)))
    /\ (forall u st',
          render (S n) renderer self pos st = Ok (u, st') ->
          exists w h l,
            heap st' !! self = Some (resized w h o)
            /\ calls st' = calls st ++ l ++ [call_set_dimensions (w, h)]
            /\ 2 * pad <= w /\ 2 * pad <= h).
Proof.
  intros n renderer st self o pos Ho Hc Hacyc pad.
  assert (E : render (S n) renderer self pos st
              = Canvas_render (prepare n renderer) (width n) (height n)
                              (render n renderer) self pos st)
    by (simpl; erewrite bind_ok; [|apply get_node_ok, Ho]; rewrite Hc; reflexivity).
  rewrite E. clear E. unfold Canvas_render.
  erewrite bind_ok; [|apply get_node_ok, Ho].
  unfold Object_set_width, Object_set_height.
  erewrite bind_ok; [|apply update_node_put, Ho].
  erewrite bind_ok; [|apply update_node_put, put_lookup].
  rewrite put_put. fold pad.
  change (with_h (Some pad) (with_w (Some pad) o)) with (resized pad pad o).
  set (s0 := put self (resized pad pad o) st).
  assert (H0 : heap s0 !! self = Some (resized pad pad o)) by apply put_lookup.
  erewrite bind_ok; [|apply get_node_ok, H0].
  change (children (resized pad pad o)) with (children o).
  split.
  - intros Hch. rewrite Hch. cbn [for_each].
    erewrite bind_ok; [|reflexivity].
    erewrite bind_ok; [|eapply Object_width_ok; [exact H0 | reflexivity]].
    erewrite bind_ok; [|apply update_node_put, H0].
    erewrite bind_ok; [|eapply Object_height_ok; [apply put_lookup | reflexivity]].
    erewrite bind_ok; [|apply update_node_put, put_lookup].
    unfold s0. rewrite !put_put.
    erewrite bind_ok; [|eapply Object_width_ok; [apply put_lookup | reflexivity]].
    erewrite bind_ok; [|eapply Object_height_ok; [apply put_lookup | reflexivity]].
    reflexivity.
  - intros u st' H. inv_bind H as u0 sL Hloop.
    assert (Hshape0 : shape <$> heap s0 = shape <$> heap st)
      by (apply (shape_put self o); [exact Ho | reflexivity]).
    destruct (Canvas_loop_inv n renderer self o (Point_add_scalar pos pad) st Hc
                (children o) s0 u0 sL) as (HshL & (w & h & HsL & Hw & Hh) & HcL).
    { exact Hacyc. }
    { exact Hshape0. }
    { exists pad, pad. split; [exact H0|]. lia. }
    { exact Hloop. }
    inv_bind H as cw s1 Hcw.
    apply Object_width_inv in Hcw as (x1 & Hx1 & Hcw & ->).
    assert (x1 = resized w h o) by congruence. subst x1.
    simpl in Hcw. inversion Hcw. subst cw. clear Hcw.
    inv_bind H as u1 s2 Hu. apply update_node_inv in Hu as (x2 & Hx2 & ->).
    assert (x2 = resized w h o) by congruence. subst x2.
    inv_bind H as ch s3 Hch.
    apply Object_height_inv in Hch as (x3 & Hx3 & Hch & ->).
    simpl in Hx3. rewrite lookup_insert_eq in Hx3. inversion Hx3. subst x3.
    simpl in Hch. inversion Hch. subst ch. clear Hch Hx3.
    inv_bind H as u2 s4 Hu. apply update_node_inv in Hu as (x4 & Hx4 & ->).
    simpl in Hx4. rewrite lookup_insert_eq in Hx4. inversion Hx4. subst x4.
    clear Hx4.
    inv_bind H as cw s5 Hcw.
    apply Object_width_inv in Hcw as (x5 & Hx5 & Hcw & ->).
    simpl in Hx5. rewrite lookup_insert_eq in Hx5. inversion Hx5. subst x5.
    simpl in Hcw. inversion Hcw. subst cw. clear Hcw Hx5.
    inv_bind H as ch s6 Hch.
    apply Object_height_inv in Hch as (x6 & Hx6 & Hch & ->).
    simpl in Hx6. rewrite lookup_insert_eq in Hx6. inversion Hx6. subst x6.
    simpl in Hch. inversion Hch. subst ch. clear Hch Hx6.
    inversion H. subst. clear H.
    destruct HcL as (_ & _ & l & El & _).
    exists (w + pad), (h + pad), l. split_and!.
    + simpl. rewrite lookup_insert_eq. reflexivity.
    + simpl. rewrite El. rewrite <- app_assoc. reflexivity.
    + lia.
    + lia.
Qed.

(** The canvas of [empty_canvas_scene], built 500 wide with a padding of 7
    and rendered at (3, 4): it ends 14 by 14 and calls [set_dimensions] with
    that. *)
Lemma Canvas_render_empty :
  exists st',
    render 1 fixed_renderer 0%nat (P 3 4) empty_canvas_scene = Ok (tt, st')
    /\ calls st' = [call_set_dimensions (14, 14)].
Proof.
  set (o := mkNode Canvas (mkStyle 7 "Roboto-Regular.ttf" 32 TOP_LEFT
                                   "black" "white" "black")
                   (Some 500) None [] None).
  destruct (Canvas_render_reports_its_dimensions 0 fixed_renderer
              empty_canvas_scene 0%nat o (P 3 4) eq_refl eq_refl) as [Hrun _].
  - intros c [].
  - eexists. split; [apply Hrun; reflexivity | reflexivity].
Defined.

(** ** Dotted lines: the edges *)

(** A line without length has the length 0.0 on every platform. *)
Lemma segment_length_same pf p : segment_length pf p p = Ok 0%float.
Proof.
  unfold segment_length. rewrite !Z.sub_diag. reflexivity.
Qed.

Lemma range_len_backwards n d : 0 <= n -> d < 0 -> range_len 0 n d = 0.
Proof.
  intros Hn Hd. unfold range_len.
  destruct (Z.ltb_spec 0 d); [lia|].
  destruct (Z.ltb_spec n 0); [lia | reflexivity].
Qed.

(** The operations on points raise nothing but [OverflowError]. *)
Lemma py_mul_err a b e : py_mul a b = Err e -> e = OverflowError.
Proof.
  unfold py_mul, as_float, and_then.
  destruct a as [x|x], b as [y|y]; try discriminate;
    repeat match goal with
           | |- context [convertible ?z] => destruct (convertible z)
           end; congruence.
Qed.

Lemma py_add_err a b e : py_add a b = Err e -> e = OverflowError.
Proof.
  unfold py_add, as_float, and_then.
  destruct a as [x|x], b as [y|y]; try discriminate;
    repeat match goal with
           | |- context [convertible ?z] => destruct (convertible z)
           end; congruence.
Qed.

Lemma NPoint_py_mul_err a k e : NPoint_py_mul a k = Err e -> e = OverflowError.
Proof.
  unfold NPoint_py_mul, and_then.
  destruct (py_mul (nx a) (NInt k)) eqn:E1; [|intros [= <-]; eapply py_mul_err, E1].
  destruct (py_mul (ny a) (NInt k)) eqn:E2; [discriminate|].
  intros [= <-]. eapply py_mul_err, E2.
Qed.

Lemma NPoint_py_add_err a b e : NPoint_py_add a b = Err e -> e = OverflowError.
Proof.
  unfold NPoint_py_add, and_then.
  destruct (py_add (nx a) (nx b)) eqn:E1; [|intros [= <-]; eapply py_add_err, E1].
  destruct (py_add (ny a) (ny b)) eqn:E2; [discriminate|].
  intros [= <-]. eapply py_add_err, E2.
Qed.

(** A direction in floats cannot be multiplied by an int too large for a
    float: the first dash already fails. *)
Lemma dashes_overflow ux uy d s xy1 n :
  convertible d = false ->
  dashes (NP (NFloat ux) (NFloat uy)) d s xy1 (S n) = Err OverflowError.
Proof.
  intros Hd. simpl. unfold and_then.
  destruct (NPoint_py_mul _ (d / 2)) as [half|e] eqn:E1;
    [|f_equal; eapply NPoint_py_mul_err, E1].
  destruct (NPoint_py_add xy1 half) as [xy2|e] eqn:E2;
    [|f_equal; eapply NPoint_py_add_err, E2].
  unfold NPoint_py_mul, py_mul, as_float, and_then. cbn [nx ny].
  rewrite Hd. reflexivity.
Qed.

(** X13.  [DottedLine.render] at its edges.  A line whose end points are the
    same draws nothing, whatever the platform, without dividing by its
    length; end points so far apart that the sum of the squares does not fit
    a float raise [OverflowError].  Otherwise, for a length [len] that
    truncates to the integer [n]: a dash length of 0 raises [ValueError]; a
    negative one draws nothing; when both end points have the same x the
    direction is (0, 1) whichever of them is higher, so that the dashes
    start at [start + pos] and go down by [dash_len], each [dash_len // 2]
    long, in integer coordinates; and on any other line that has a dash to
    draw, a dash length too large for a float raises [OverflowError]. *)
Theorem DottedLine_render_edges :
  forall k renderer st self o start end_ dash_len pos,
    heap st !! self = Some o ->
    cls o = DottedLine start end_ dash_len ->
    (start = end_ -> dash_len <> 0 ->
     render (S k) renderer self pos st = Ok (tt, st))
    /\ (convertible ((px end_ - px start) ^ 2 + (py end_ - py start) ^ 2) = false ->
        render (S k) renderer self pos st = Err OverflowError)
    /\ forall len n u,
         segment_length (platform st) start end_ = Ok len ->
         dash_direction start end_ len = Ok u ->
         f2z len = Some n ->
         (dash_len = 0 -> render (S k) renderer self pos st = Err ValueError)
         /\ (0 <= n -> dash_len < 0 ->
             render (S k) renderer self pos st = Ok (tt, st))
         /\ (px end_ = px start -> 0 < dash_len ->
             render (S k) renderer self pos st
             = Ok (tt, log (vertical_dashes (px start + px pos) (py start + py pos)
                              dash_len (style o)
                              (Z.to_nat ((n + dash_len - 1) / dash_len))) st))
         /\ (px end_ <> px start -> 0 < n -> 0 < dash_len ->
             convertible dash_len = false ->
             render (S k) renderer self pos st = Err OverflowError).
Proof.
  intros k renderer st self o start end_ dash_len pos Ho Hc.
  assert (E0 : render (S k) renderer self pos st
               = (length <- lift (segment_length (platform st) start end_) ;;
                  u <- lift (dash_direction start end_ length) ;;
                  n <- py_int length ;;
                  r <- py_range 0 n dash_len ;;
                  for_each_acc r (dash_step u dash_len (style o))
                               (NPoint_of (Point_add start pos)) ;;; ret tt) st).
  { simpl render. erewrite bind_ok; [|apply get_node_ok, Ho].
    rewrite Hc. unfold DottedLine_render.
    erewrite bind_ok; [|apply get_node_ok, Ho]. rewrite Hc.
    erewrite bind_ok; [|reflexivity]. reflexivity. }
  assert (E : forall len n u,
            segment_length (platform st) start end_ = Ok len ->
            dash_direction start end_ len = Ok u ->
            f2z len = Some n ->
            render (S k) renderer self pos st
            = (r <- py_range 0 n dash_len ;;
               for_each_acc r (dash_step u dash_len (style o))
                            (NPoint_of (Point_add start pos)) ;;; ret tt) st).
  { intros len n u Hlen Hdir Hn. rewrite E0, Hlen.
    erewrite bind_ok; [|apply lift_ok]. rewrite Hdir.
    erewrite bind_ok; [|apply lift_ok].
    unfold py_int. rewrite Hn. erewrite bind_ok; [|reflexivity]. reflexivity. }
  assert (Hnone : forall len n u,
            segment_length (platform st) start end_ = Ok len ->
            dash_direction start end_ len = Ok u ->
            f2z len = Some n ->
            dash_len <> 0 -> range_len 0 n dash_len = 0 ->
            render (S k) renderer self pos st = Ok (tt, st)).
  { intros len n u Hlen Hdir Hn Hd Hr. rewrite (E len n u Hlen Hdir Hn).
    unfold py_range. destruct (Z.eqb_spec dash_len 0); [contradiction|].
    rewrite Hr. reflexivity. }
  split_and!.
  - intros <- Hd.
    apply (Hnone 0%float 0 (NPoint_of (P 0 1)));
      [apply segment_length_same | apply dash_direction_vertical; reflexivity
      | reflexivity | exact Hd |].
    unfold range_len. destruct (0 <? dash_len); reflexivity.
  - intros Hbig. rewrite E0. unfold segment_length, pow_half, as_float, and_then.
    rewrite Hbig. reflexivity.
  - intros len n u Hlen Hdir Hn. split_and!.
    + intros ->. rewrite (E len n u Hlen Hdir Hn). reflexivity.
    + intros Hpos Hneg. apply (Hnone len n u Hlen Hdir Hn); [lia|].
      apply range_len_backwards; assumption.
    + intros Hx Hd. rewrite (E len n u Hlen Hdir Hn).
      destruct (py_range_length n dash_len Hd st) as (r & Hr & Hlenr).
      erewrite bind_ok; [|exact Hr].
      rewrite (dash_direction_vertical _ _ _ Hx) in Hdir. injection Hdir as <-.
      pose proof (dash_loop (NPoint_of (P 0 1)) dash_len (style o) r
                    (NPoint_of (Point_add start pos)) st) as Hloop.
      unfold Point_add in Hloop at 1. rewrite vertical_dashes_eq in Hloop.
      destruct Hloop as (xy & Hxy).
      erewrite bind_ok; [|exact Hxy]. rewrite Hlenr. reflexivity.
    + intros Hx Hpos Hd Hbig. rewrite (E len n u Hlen Hdir Hn).
      destruct (py_range_length n dash_len Hd st) as (r & Hr & Hlenr).
      erewrite bind_ok; [|exact Hr].
      assert (Hu : exists ux uy, u = NP (NFloat ux) (NFloat uy)).
      { revert Hdir. unfold dash_direction.
        destruct (Z.eqb_spec (px end_) (px start)) as [|_]; [contradiction|].
        cbn [negb]. unfold NPoint_py_truediv, py_truediv, and_then.
        destruct (as_float (nx _)); [|discriminate].
        destruct (len =? 0)%float; [discriminate|].
        destruct (as_float (ny _)); [|discriminate].
        intros [= <-]. eauto. }
      destruct Hu as (ux & uy & ->).
      assert (Hcount : exists c, length r = S c).
      { rewrite Hlenr. exists (Z.to_nat ((n + dash_len - 1) / dash_len - 1)).
        assert (1 <= (n + dash_len - 1) / dash_len)
          by (apply Z.div_le_lower_bound; lia).
        lia. }
      destruct Hcount as (c & Hc').
      pose proof (dash_loop (NP (NFloat ux) (NFloat uy)) dash_len (style o) r
                    (NPoint_of (Point_add start pos)) st) as Hloop.
      rewrite Hc', dashes_overflow in Hloop by exact Hbig.
      unfold bind. rewrite Hloop. reflexivity.
Qed.

(** The line of [upward_dotted_scene], from (5, 40) up to (5, 10) with
    dashes of 10, drawn at the origin: three dashes, at y = 40, 50 and 60,
    below the start and away from the end. *)
Lemma DottedLine_upward_goes_down :
  exists st',
    render 1 fixed_renderer 0%nat (P 0 0) upward_dotted_scene = Ok (tt, st')
    /\ calls st'
       = [call_line (NPoint_of (P 5 40)) (NPoint_of (P 5 45)) Style_default;
          call_line (NPoint_of (P 5 50)) (NPoint_of (P 5 55)) Style_default;
          call_line (NPoint_of (P 5 60)) (NPoint_of (P 5 65)) Style_default].
Proof.
  set (o := mkNode (DottedLine (P 5 40) (P 5 10) 10) Style_default
                   (Some 5) (Some 40) [] None).
  destruct (DottedLine_render_edges 0 fixed_renderer upward_dotted_scene 0%nat o
              (P 5 40) (P 5 10) 10 (P 0 0) eq_refl eq_refl) as (_ & _ & H).
  destruct (H 30%float 30 (NPoint_of (P 0 1))) as (_ & _ & Hv & _);
    [vm_compute; reflexivity | reflexivity | vm_compute; reflexivity |].
  eexists. split; [apply Hv; reflexivity | reflexivity].
Defined.

(** ** Cycles *)

Lemma closed_cycle_shape h h' C :
  shape <$> h = shape <$> h' -> closed_cycle h C -> closed_cycle h' C.
Proof.
  intros Hs Hcyc x Hx. destruct (Hcyc x Hx) as (o & y & Ho & Hy & HyC).
  assert (E : (shape <$> h) !! x = (shape <$> h') !! x) by (rewrite Hs; reflexivity).
  rewrite !lookup_fmap, Ho in E.
  destruct (h' !! x) as [o'|]; simpl in E; [|discriminate].
  exists o', y. split; [reflexivity|]. split; [|exact HyC].
  replace (kids o') with (kids o) by (unfold shape in E; congruence). exact Hy.
Qed.

(** A loop over children among which one cannot be processed does not end
    well. *)
Lemma for_each_stuck {A} (Inv : State -> Prop) (f : oid * A -> M unit) y :
  (forall c s u s', Inv s -> f c s = Ok (u, s') -> Inv s') ->
  (forall a s, Inv s -> exists e, f (y, a) s = Err e) ->
  forall cs s, In y (map fst cs) -> Inv s -> exists e, for_each cs f s = Err e.
Proof.
  intros Hkeep Hy. induction cs as [|[c a] cs IH]; intros s Hin HI; [destruct Hin|].
  simpl. unfold bind. destruct (f (c, a) s) as [[u s1]|e] eqn:Ef; [|eauto].
  destruct Hin as [E | Hin].
  - simpl in E. subst c. destruct (Hy a s HI) as (e & He). congruence.
  - apply IH; [exact Hin|]. eapply Hkeep; eauto.
Qed.

Lemma prepare_cycle renderer C n :
  forall st x, closed_cycle (heap st) C -> In x C ->
               exists e, prepare n renderer x st = Err e.
Proof.
  induction n as [|n IH]; intros st x Hcyc Hx; [eexists; reflexivity|].
  destruct (Hcyc x Hx) as (o & y & Ho & Hy & HyC).
  assert (Hobj : exists e, Object_prepare (prepare n renderer) x st = Err e).
  { unfold Object_prepare. erewrite bind_ok; [|apply get_node_ok, Ho].
    apply (for_each_stuck (fun s => closed_cycle (heap s) C)
             (fun '(obj, _) => prepare n renderer obj) y).
    - intros [c a] s u s' HI H. eapply closed_cycle_shape; [|exact HI].
      exact (proj1 (prepare_frame renderer n c s u s' H)).
    - intros a s HI. apply IH; assumption.
    - exact Hy.
    - exact Hcyc. }
  destruct Hobj as (e & He).
  simpl prepare. erewrite bind_ok; [|apply get_node_ok, Ho].
  destruct (cls o); try (exists e; exact He);
    exists e; unfold Table_prepare, Text_prepare; apply bind_err; exact He.
Qed.

Lemma bind_stuck {A B} (m : M A) (k : A -> M B) s :
  (forall a s', m s = Ok (a, s') -> exists e, k a s' = Err e) ->
  exists e, bind m k s = Err e.
Proof.
  intros H. unfold bind. destruct (m s) as [[a s']|e]; eauto.
Qed.

Lemma bind_err_ex {A B} (m : M A) (k : A -> M B) s :
  (exists e, m s = Err e) -> exists e, bind m k s = Err e.
Proof. intros (e & He). exists e. apply bind_err, He. Qed.

Lemma for_each_acc_stuck {A B} (Inv : State -> Prop) (f : B -> oid * A -> M B) y :
  (forall b c s b' s', Inv s -> f b c s = Ok (b', s') -> Inv s') ->
  (forall b a s, Inv s -> exists e, f b (y, a) s = Err e) ->
  forall cs b s, In y (map fst cs) -> Inv s ->
                 exists e, for_each_acc cs f b s = Err e.
Proof.
  intros Hkeep Hy. induction cs as [|[c a] cs IH]; intros b s Hin HI;
    [destruct Hin|].
  simpl. unfold bind. destruct (f b (c, a) s) as [[b' s1]|e] eqn:Ef; [|eauto].
  destruct Hin as [E | Hin].
  - simpl in E. subst c. destruct (Hy b a s HI) as (e & He). congruence.
  - apply IH; [exact Hin|]. eapply Hkeep; eauto.
Qed.

(** The computation [m] leaves every node its class, style and children. *)
Lemma shape_kept_update self f s u s' :
  (forall o, shape (f o) = shape o) ->
  update_node self f s = Ok (u, s') -> shape <$> heap s' = shape <$> heap s.
Proof.
  intros Hf H. apply update_node_inv in H as (o & Ho & ->).
  apply (shape_put self o (f o) s Ho). apply Hf.
Qed.

Lemma shape_kept_set_width self v s u s' :
  Object_set_width self v s = Ok (u, s') -> shape <$> heap s' = shape <$> heap s.
Proof. apply shape_kept_update. reflexivity. Qed.

Lemma shape_kept_set_height self v s u s' :
  Object_set_height self v s = Ok (u, s') -> shape <$> heap s' = shape <$> heap s.
Proof. apply shape_kept_update. reflexivity. Qed.

Lemma on_cycle_shape (Q : Class -> bool) (h h' : gmap oid Node) C :
  shape <$> h = shape <$> h' ->
  (forall c o, In c C -> h !! c = Some o -> Q (cls o) = true) ->
  forall c o, In c C -> h' !! c = Some o -> Q (cls o) = true.
Proof.
  intros Hs HQ c o' Hc Ho'.
  assert (E : (shape <$> h) !! c = (shape <$> h') !! c) by (rewrite Hs; reflexivity).
  rewrite !lookup_fmap, Ho' in E.
  destruct (h !! c) as [o|] eqn:Ho; simpl in E; [|discriminate].
  replace (cls o') with (cls o) by (unfold shape in E; congruence).
  eapply HQ; eauto.
Qed.

Lemma derived_dim_stuck getf setf step (rec : oid -> M Z) x y st o :
  (forall v o', shape (setf v o') = shape o') ->
  (forall v o', children (setf v o') = children o') ->
  heap st !! x = Some o -> In y (kids o) ->
  (forall c s v s', rec c s = Ok (v, s') -> sim s s') ->
  (forall s, shape <$> heap s = shape <$> heap st -> exists e, rec y s = Err e) ->
  exists e, derived_dim getf setf step rec x st = Err e.
Proof.
  intros Hshape Hch Ho Hy Hsim Hrec. unfold derived_dim.
  erewrite bind_ok; [|apply update_node_put, Ho].
  erewrite bind_ok; [|apply get_node_ok, put_lookup]. rewrite Hch.
  apply bind_stuck. intros u s' Hloop. exfalso.
  destruct (for_each_stuck (fun s => shape <$> heap s = shape <$> heap st)
              (dim_step getf setf step rec x) y) with (cs := children o)
              (s := put x (setf (Some 0) o) st) as (e & He).
  - intros c s u0 s1 HI H. unfold dim_step in H.
    inv_bind H as o0 sa Hget. apply get_node_inv in Hget as [_ ->].
    inv_bind H as w sb Hw. apply Hsim in Hw.
    inv_bind H as cur sc Hcur. apply as_int_inv in Hcur as [_ ->].
    apply shape_kept_update in H; [|intros; apply Hshape].
    rewrite H, <- (sim_shape _ _ Hw). exact HI.
  - intros a s HI. unfold dim_step. apply bind_stuck. intros o0 sa Hget.
    apply get_node_inv in Hget as [_ ->]. simpl.
    destruct (Hrec s HI) as (e & He). exists e. apply bind_err. exact He.
  - exact Hy.
  - apply (shape_put x o); [exact Ho | apply Hshape].
  - congruence.
Qed.

Lemma dimension_cycle C n :
  forall st x,
    closed_cycle (heap st) C ->
    (forall c o, In c C -> heap st !! c = Some o -> derived (cls o) = true) ->
    In x C ->
    (exists e, width n x st = Err e) /\ (exists e, height n x st = Err e).
Proof.
  induction n as [|n IH]; intros st x Hcyc Hder Hx;
    [split; eexists; reflexivity|].
  destruct (Hcyc x Hx) as (o & y & Ho & Hy & HyC).
  pose proof (Hder x o Hx Ho) as Hd.
  assert (Hrec : forall s, shape <$> heap s = shape <$> heap st ->
            (exists e, width n y s = Err e) /\ (exists e, height n y s = Err e)).
  { intros s HI. apply IH; [|exact (on_cycle_shape derived _ _ C (eq_sym HI) Hder)|exact HyC].
    eapply closed_cycle_shape; [symmetry; exact HI | exact Hcyc]. }
  assert (HW : forall step, exists e,
            derived_dim _w with_w step (width n) x st = Err e).
  { intros step. eapply derived_dim_stuck; eauto; try reflexivity.
    - apply (width_sim n).
    - intros s HI. apply Hrec, HI. }
  assert (HH : forall step, exists e,
            derived_dim _h with_h step (height n) x st = Err e).
  { intros step. eapply derived_dim_stuck; eauto; try reflexivity.
    - apply (height_sim n).
    - intros s HI. apply Hrec, HI. }
  split; simpl; (erewrite bind_ok; [|apply get_node_ok, Ho]);
    destruct (cls o); try discriminate Hd;
    rewrite ?VLayout_width_eq, ?HLayout_width_eq, ?VLayout_height_eq,
            ?HLayout_height_eq; auto.
Qed.

Lemma shape_lookup (h h' : gmap oid Node) x o o' :
  shape <$> h = shape <$> h' -> h !! x = Some o -> h' !! x = Some o' ->
  shape o = shape o'.
Proof.
  intros Hs Ho Ho'.
  assert (E : (shape <$> h) !! x = (shape <$> h') !! x) by (rewrite Hs; reflexivity).
  rewrite !lookup_fmap, Ho, Ho' in E. simpl in E. congruence.
Qed.

Lemma render_cycle renderer C n :
  forall st x pos,
    closed_cycle (heap st) C ->
    (forall c o, In c C -> heap st !! c = Some o -> walks (cls o) = true) ->
    In x C ->
    exists e, render n renderer x pos st = Err e.
Proof.
  induction n as [|n IH]; intros st x pos Hcyc Hwalk Hx; [eexists; reflexivity|].
  destruct (Hcyc x Hx) as (o & y & Ho & Hy & HyC).
  pose proof (Hwalk x o Hx Ho) as Hwo.
  set (Inv := fun s : State => shape <$> heap s = shape <$> heap st).
  assert (Hrec : forall s p, Inv s -> exists e, render n renderer y p s = Err e).
  { intros s p HI. apply IH; [|exact (on_cycle_shape walks _ _ C (eq_sym HI) Hwalk)
                              |exact HyC].
    eapply closed_cycle_shape; [symmetry; exact HI | exact Hcyc]. }
  assert (Hprep : forall s, Inv s -> exists e, prepare n renderer y s = Err e).
  { intros s HI. apply prepare_cycle with (C := C); [|exact HyC].
    eapply closed_cycle_shape; [symmetry; exact HI | exact Hcyc]. }
  assert (Hkids : forall s o', Inv s -> heap s !! x = Some o' ->
                               In y (map fst (children o'))).
  { intros s o' HI Ho'.
    pose proof (shape_lookup _ _ x o' o HI Ho' Ho) as E.
    change (In y (kids o')). replace (kids o') with (kids o); [exact Hy|].
    unfold shape in E. congruence. }
  assert (Hr : forall c p s u s', Inv s -> render n renderer c p s = Ok (u, s') ->
                                  Inv s').
  { intros c p s u s' HI H. unfold Inv.
    rewrite <- (proj1 (render_frame renderer n c p s u s' H)). exact HI. }
  assert (Hw : forall c s v s', Inv s -> width n c s = Ok (v, s') -> Inv s').
  { intros c s v s' HI H. unfold Inv.
    rewrite <- (sim_shape _ _ (proj1 (width_sim n) _ _ _ _ H)). exact HI. }
  assert (Hh : forall c s v s', Inv s -> height n c s = Ok (v, s') -> Inv s').
  { intros c s v s' HI H. unfold Inv.
    rewrite <- (sim_shape _ _ (proj1 (height_sim n) _ _ _ _ H)). exact HI. }
  assert (Hobj : forall s p, Inv s ->
            exists e, Object_render (render n renderer) x p s = Err e).
  { intros s p HI. unfold Object_render. apply bind_stuck. intros o' s' Hget.
    apply get_node_inv in Hget as [Ho' ->].
    apply (for_each_stuck Inv
             (fun '(obj, offset) =>
                render n renderer obj (P (px p + px offset) (py p + py offset))) y).
    - intros [c a] s0 u s1 HI0 H. eapply Hr; eauto.
    - intros a s0 HI0. apply Hrec, HI0.
    - eapply Hkids; eauto.
    - exact HI. }
  assert (Hhl : forall s p, Inv s ->
            exists e, HLayout_render (width n) (render n renderer) x p s = Err e).
  { intros s p HI. unfold HLayout_render. apply bind_stuck. intros o' s' Hget.
    apply get_node_inv in Hget as [Ho' ->].
    apply bind_stuck. intros b s' Hloop. exfalso.
    destruct (for_each_acc_stuck Inv
                (fun x0 '(obj, offset) =>
                   render n renderer obj (P (x0 + px offset) (py p + py offset)) ;;;
                   obj_width <- width n obj ;;
                   ret (x0 + (obj_width + px offset))) y)
      with (cs := children o') (b := px p) (s := s) as (e & He).
    - intros b0 [c a] s0 b' s1 HI0 H. inv_bind H as u sa Hrend.
      inv_bind H as w sb Hwd. inversion H. subst. eauto.
    - intros b0 a s0 HI0. destruct (Hrec s0 (P (b0 + px a) (py p + py a)) HI0)
        as (e & He). exists e. apply bind_err. exact He.
    - eapply Hkids; eauto.
    - exact HI.
    - congruence. }
  assert (Hrect : forall s p, Inv s ->
            exists e, Rectangle_render (render n renderer) x p s = Err e).
  { intros s p HI. unfold Rectangle_render. apply bind_stuck. intros o' s' Hget.
    apply get_node_inv in Hget as [Ho' ->].
    apply bind_stuck. intros w s' Hw'. apply as_int_inv in Hw' as [_ ->].
    apply bind_stuck. intros h s' Hh'. apply as_int_inv in Hh' as [_ ->].
    apply bind_stuck. intros u s' Hemit. inversion Hemit. subst.
    apply Hobj. exact HI. }
  simpl render. erewrite bind_ok; [|apply get_node_ok, Ho].
  assert (HI0 : Inv st) by reflexivity.
  destruct (cls o) eqn:Hc; try discriminate Hwo; auto.
  - (* VLayout *)
    unfold VLayout_render. apply bind_stuck. intros W s1 HW.
    pose proof (Hw _ _ _ _ HI0 HW) as HI1.
    apply bind_stuck. intros o' s' Hget.
    apply get_node_inv in Hget as [Ho' ->].
    apply bind_stuck. intros b s' Hloop. exfalso.
    destruct (for_each_acc_stuck Inv
                (fun y0 '(obj, offset) =>
                   obj_width <- width n obj ;;
                   render n renderer obj
                     (P (px pos + px offset + (px pos + W / 2)
                         - (px pos + px offset + obj_width / 2)) (y0 + py offset)) ;;;
                   obj_height <- height n obj ;;
                   ret (y0 + (obj_height + py offset))) y)
      with (cs := children o') (b := py pos) (s := s1) as (e & He).
    + intros b0 [c a] s0 b' s2 HIa H. inv_bind H as w sa Hwd.
      inv_bind H as u sb Hrend. inv_bind H as h sc Hhd. inversion H. subst.
      eauto.
    + intros b0 a s0 HIa. apply bind_stuck. intros w sa Hwd.
      destruct (Hrec sa (P (px pos + px a + (px pos + W / 2)
                            - (px pos + px a + w / 2)) (b0 + py a)))
        as (e & He); [eauto|].
      exists e. apply bind_err. exact He.
    + eapply Hkids; eauto.
    + exact HI1.
    + congruence.
  - (* Canvas *)
    unfold Canvas_render. apply bind_stuck. intros o1 s1 Hget.
    apply get_node_inv in Hget as [Ho1 ->].
    apply bind_stuck. intros u1 s1 Hu1.
    assert (HI1 : Inv s1).
    { unfold Inv. rewrite (shape_kept_set_width _ _ _ _ _ Hu1).
      exact HI0. }
    apply bind_stuck. intros u2 s2 Hu2.
    assert (HI2 : Inv s2).
    { unfold Inv. rewrite (shape_kept_set_height _ _ _ _ _ Hu2).
      exact HI1. }
    apply bind_stuck. intros o2 s2' Hget.
    apply get_node_inv in Hget as [Ho2 ->].
    apply bind_err_ex.
    apply (for_each_stuck Inv
             (fun '(obj, offset) =>
                prepare n renderer obj ;;;
                render n renderer obj
                  (Point_add (Point_add_scalar pos (padding (style o1))) offset) ;;;
                self_width <- Object_width x ;;
                obj_width <- width n obj ;;
                Object_set_width x
                  (Some (Z.max self_width
                           (obj_width
                            + px (Point_add offset
                                    (Point_add_scalar pos (padding (style o1))))))) ;;;
                self_height <- Object_height x ;;
                obj_height <- height n obj ;;
                Object_set_height x
                  (Some (Z.max self_height
                           (obj_height
                            + py (Point_add offset
                                    (Point_add_scalar pos (padding (style o1)))))))) y).
    + intros [c a] s0 u s3 HIa H. inv_bind H as ua sa Hp.
      assert (HIp : Inv sa).
      { unfold Inv. rewrite <- (proj1 (prepare_frame renderer n c _ _ _ Hp)).
        exact HIa. }
      inv_bind H as ub sb Hrend. pose proof (Hr _ _ _ _ _ HIp Hrend) as HIb.
      inv_bind H as cw sc Hcw. apply Object_width_inv in Hcw as (? & ? & ? & ->).
      inv_bind H as w sd Hwd. pose proof (Hw _ _ _ _ HIb Hwd) as HId.
      inv_bind H as uc se Hu.
      assert (HIe : Inv se).
      { unfold Inv. rewrite (shape_kept_set_width _ _ _ _ _ Hu). exact HId. }
      inv_bind H as ch sf Hch. apply Object_height_inv in Hch as (? & ? & ? & ->).
      inv_bind H as h sg Hhd. pose proof (Hh _ _ _ _ HIe Hhd) as HIg.
      unfold Inv. rewrite (shape_kept_set_height _ _ _ _ _ H). exact HIg.
    + intros a s0 HIa. destruct (Hprep s0 HIa) as (e & He).
      exists e. apply bind_err. exact He.
    + eapply Hkids; eauto.
    + exact HI2.
Qed.

(** X14.  Nothing keeps the children a tree.  On nodes from which the children
    lead back to themselves ([C]: each has a child in [C]) [prepare] returns
    at no depth of recursion; nor does [render] when the classes on the
    cycle render their children, nor reading [width] or [height] when they
    are layouts. *)
Theorem cycle_never_returns :
  forall renderer C n st x pos,
    closed_cycle (heap st) C -> In x C ->
    (exists e, prepare n renderer x st = Err e)
    /\ ((forall c o, In c C -> heap st !! c = Some o -> walks (cls o) = true) ->
        exists e, render n renderer x pos st = Err e)
    /\ ((forall c o, In c C -> heap st !! c = Some o -> derived (cls o) = true) ->
        (exists e, width n x st = Err e) /\ (exists e, height n x st = Err e)).
Proof.
  intros renderer C n st x pos Hcyc Hx. split_and!.
  - eapply prepare_cycle; eauto.
  - intros Hw. eapply render_cycle; eauto.
  - intros Hd. eapply dimension_cycle; eauto.
Qed.

(** The layout of [self_child_scene], its own child: with a depth of 50 its
    width cannot be read, and the read ends in [RecursionError]. *)
Lemma self_child_width_fails :
  (exists e, width 50 0%nat self_child_scene = Err e)
  /\ width 50 0%nat self_child_scene = Err RecursionError.
Proof.
  split; [|vm_compute; reflexivity].
  destruct (cycle_never_returns fixed_renderer [0%nat] 50 self_child_scene 0%nat
              (P 0 0)) as (_ & _ & Hd).
  - intros x [<- | []].
    exists (mkNode (VLayout CENTER) Style_default None None [(0%nat, P 0 0)]
                   (Some 0%nat)), 0%nat.
    split; [vm_compute; reflexivity|]. split; left; reflexivity.
  - left. reflexivity.
  - apply Hd. intros c o [<- | []] Ho. vm_compute in Ho. inversion Ho. reflexivity.
Defined.

(** ** Moving a drawing *)

Lemma with_calls_same s : with_calls (calls s) s = s.
Proof. destruct s. reflexivity. Qed.

Lemma with_calls_twice a b s : with_calls a (with_calls b s) = with_calls a s.
Proof. reflexivity. Qed.

Lemma blind_calls {A} (m : M A) s a s' :
  blind m -> m s = Ok (a, s') -> calls s' = calls s.
Proof.
  intros Hb H. pose proof (Hb s (calls s)) as E.
  rewrite with_calls_same, H in E. inversion E as [E'].
  rewrite E' at 1. reflexivity.
Qed.

Lemma blind_ret {A} (a : A) : blind (ret a).
Proof. intros s c0. reflexivity. Qed.

Lemma blind_raise {A} e : blind (@raise A e).
Proof. intros s c0. reflexivity. Qed.

Lemma blind_bind {A B} (m : M A) (k : A -> M B) :
  blind m -> (forall a, blind (k a)) -> blind (bind m k).
Proof.
  intros Hm Hk s c0. unfold bind. rewrite Hm.
  destruct (m s) as [[a s1]|e]; [|reflexivity]. apply Hk.
Qed.

Lemma blind_for_each {A} (l : list A) (f : A -> M unit) :
  (forall a, blind (f a)) -> blind (for_each l f).
Proof.
  intros Hf. induction l as [|a l IH]; simpl; [apply blind_ret|].
  apply blind_bind; auto.
Qed.

Lemma blind_get_node self : blind (get_node self).
Proof.
  intros s c0. unfold get_node. simpl. destruct (heap s !! self); reflexivity.
Qed.

Lemma blind_update_node self f : blind (update_node self f).
Proof.
  intros s c0. unfold update_node. simpl. destruct (heap s !! self); reflexivity.
Qed.

Lemma blind_as_int a : blind (as_int a).
Proof. destruct a; [apply blind_ret | apply blind_raise]. Qed.

Lemma blind_Object_width self : blind (Object_width self).
Proof.
  unfold Object_width. apply blind_bind; [apply blind_get_node | intros o].
  destruct (_w o); [apply blind_ret | apply blind_raise].
Qed.

Lemma blind_Object_height self : blind (Object_height self).
Proof.
  unfold Object_height. apply blind_bind; [apply blind_get_node | intros o].
  destruct (_h o); [apply blind_ret | apply blind_raise].
Qed.

Lemma blind_derived_loop (getf : Node -> option Z) (setf : option Z -> Node -> Node)
    (step : Z -> Z -> Z) (rec : oid -> M Z) (sel : Point -> Z) self :
  (forall c, blind (rec c)) ->
  blind (update_node self (setf (Some 0)) ;;;
         o <- get_node self ;;
         for_each (children o) (fun '(obj, offset) =>
           s <- get_node self ;;
           w <- rec obj ;;
           cur <- as_int (getf s) ;;
           update_node self (setf (Some (step cur (w + sel offset))))) ;;;
         s <- get_node self ;;
         as_int (getf s)).
Proof.
  intros Hrec.
  apply blind_bind; [apply blind_update_node | intros _].
  apply blind_bind; [apply blind_get_node | intros o].
  apply blind_bind.
  { apply blind_for_each. intros [obj offset].
    apply blind_bind; [apply blind_get_node | intros s].
    apply blind_bind; [apply Hrec | intros w].
    apply blind_bind; [apply blind_as_int | intros cur].
    apply blind_update_node. }
  intros _. apply blind_bind; [apply blind_get_node | intros s].
  apply blind_as_int.
Qed.

Lemma blind_width n : forall c, blind (width n c).
Proof.
  induction n as [|n IH]; intros c; [apply blind_raise|].
  simpl. apply blind_bind; [apply blind_get_node | intros o].
  destruct (cls o); try apply blind_Object_width.
  - apply (blind_derived_loop _w with_w Z.max (width n) px c IH).
  - apply (blind_derived_loop _w with_w Z.add (width n) px c IH).
  - apply (blind_derived_loop _w with_w Z.add (width n) px c IH).
Qed.

Lemma blind_height n : forall c, blind (height n c).
Proof.
  induction n as [|n IH]; intros c; [apply blind_raise|].
  simpl. apply blind_bind; [apply blind_get_node | intros o].
  destruct (cls o); try apply blind_Object_height.
  - apply (blind_derived_loop _h with_h Z.add (height n) py c IH).
  - apply (blind_derived_loop _h with_h Z.max (height n) py c IH).
  - apply (blind_derived_loop _h with_h Z.max (height n) py c IH).
Qed.

Lemma moves_blind {A} d st0 S (m : M A) : blind m -> moves eq d st0 S m m.
Proof.
  intros Hb s a s' _ H. exists [], a. split; [reflexivity|].
  split; [rewrite app_nil_r; eapply blind_calls; eauto|].
  intros c0. rewrite Hb, H. simpl. rewrite app_nil_r. reflexivity.
Qed.

Lemma moves_ret {A} (R : A -> A -> Prop) d st0 S a a' :
  R a a' -> moves R d st0 S (ret a) (ret a').
Proof.
  intros HR s b s' _ H. inversion H. subst. exists [], a'.
  split; [exact HR|]. split; [rewrite app_nil_r; reflexivity|].
  intros c0. unfold ret. simpl. rewrite app_nil_r. reflexivity.
Qed.

Lemma moves_raise {A} (R : A -> A -> Prop) d st0 S e m' :
  moves R d st0 S (raise e) m'.
Proof. intros s a s' _ H. discriminate. Qed.

Lemma moves_emit d st0 S c : moves eq d st0 S (emit c) (emit (move_call d c)).
Proof.
  intros s a s' _ H. inversion H. subst. exists [c], tt.
  split; [reflexivity|]. split; [reflexivity|]. intros c0. reflexivity.
Qed.

Lemma moves_bind {A B} (R : A -> A -> Prop) (R' : B -> B -> Prop) d st0 S
    (m m' : M A) (k k' : A -> M B) :
  keeps st0 S m -> moves R d st0 S m m' ->
  (forall a a', R a a' -> moves R' d st0 S (k a) (k' a')) ->
  moves R' d st0 S (bind m k) (bind m' k').
Proof.
  intros Hkeep Hm Hk s b s2 Hf H. inv_bind H as a s1 Hrun.
  destruct (Hm _ _ _ Hf Hrun) as (l1 & a' & HR & E1 & Hm').
  assert (Hf1 : frame S st0 s1) by (eapply Hkeep; eauto).
  destruct (Hk a a' HR _ _ _ Hf1 H) as (l2 & b' & HR' & E2 & Hk').
  exists (l1 ++ l2), b'. split; [exact HR'|].
  split; [rewrite E2, E1, app_assoc; reflexivity|].
  intros c0. unfold bind. rewrite Hm'.
  rewrite Hk'. rewrite map_app, app_assoc. reflexivity.
Qed.

Lemma moves_get_node {A} (R : A -> A -> Prop) d st0 S self (k k' : Node -> M A) :
  (forall o o0, heap st0 !! self = Some o0 -> shape o = shape o0 ->
                moves R d st0 S (k o) (k' o)) ->
  moves R d st0 S (bind (get_node self) k) (bind (get_node self) k').
Proof.
  intros Hk s a s' Hf H. inv_bind H as o s1 Hget.
  apply get_node_inv in Hget as [Ho ->].
  destruct (frame_lookup _ _ _ _ _ Hf Ho) as (o0 & Ho0 & Hs).
  destruct (Hk o o0 Ho0 (eq_sym Hs) _ _ _ Hf H) as (l & a' & HR & E & Hk').
  exists l, a'. split; [exact HR|]. split; [exact E|].
  intros c0. unfold bind, get_node. simpl. rewrite Ho. apply Hk'.
Qed.

Lemma moves_for_each {A} d st0 S (l : list A) (f f' : A -> M unit) :
  (forall a, In a l -> keeps st0 S (f a)) ->
  (forall a, In a l -> moves eq d st0 S (f a) (f' a)) ->
  moves eq d st0 S (for_each l f) (for_each l f').
Proof.
  induction l as [|a l IH]; intros Hkeep Hf; simpl; [apply moves_ret; reflexivity|].
  eapply moves_bind; [apply Hkeep; left; reflexivity
                     | apply Hf; left; reflexivity |].
  intros _ _ _. apply IH; intros a' Ha'; [apply Hkeep | apply Hf]; right; exact Ha'.
Qed.

Lemma moves_for_each_acc {A B} (R : B -> B -> Prop) d st0 S (l : list A)
    (f f' : B -> A -> M B) :
  (forall b a, In a l -> keeps st0 S (f b a)) ->
  (forall b b' a, In a l -> R b b' -> moves R d st0 S (f b a) (f' b' a)) ->
  forall b b', R b b' ->
               moves R d st0 S (for_each_acc l f b) (for_each_acc l f' b').
Proof.
  induction l as [|a l IH]; intros Hkeep Hf b b' HR; simpl;
    [apply moves_ret; exact HR|].
  eapply moves_bind; [apply Hkeep; left; reflexivity
                     | apply Hf; [left; reflexivity | exact HR] |].
  intros b1 b1' HR1. apply IH; auto.
  - intros b2 a' Ha'. apply Hkeep. right. exact Ha'.
  - intros b2 b2' a' Ha'. apply Hf. right. exact Ha'.
Qed.

Lemma all_rigid_shape h h' ids :
  shape <$> h = shape <$> h' -> all_rigid h ids -> all_rigid h' ids.
Proof.
  intros Hs Hr id x' Hin Hx'.
  destruct (h !! id) as [x|] eqn:Hx.
  - pose proof (shape_lookup _ _ id x x' Hs Hx Hx') as E.
    replace (cls x') with (cls x) by (unfold shape in E; congruence).
    eapply Hr; eauto.
  - assert (E : (shape <$> h) !! id = (shape <$> h') !! id) by (rewrite Hs; reflexivity).
    rewrite !lookup_fmap, Hx, Hx' in E. discriminate E.
Qed.

Lemma NPoint_of_add a d :
  NPoint_move d (NPoint_of a) = NPoint_of (Point_add a d).
Proof. reflexivity. Qed.

Lemma Point_eq a b : px a = px b -> py a = py b -> a = b.
Proof. destruct a, b. simpl. intros -> ->. reflexivity. Qed.

Ltac point_eq := apply Point_eq; unfold Point_add, Point_sub_scalar, Point_add_scalar;
                 cbn [px py]; lia.

Section RenderMoves.
Variable n : nat.
Variable renderer : Renderer.
Variable d : Point.
Variable st0 : State.
Variable self : oid.
Variable render_n : oid -> Point -> M unit.

Hypothesis render_n_frame :
  forall c pos s u s', render_n c pos s = Ok (u, s') ->
                       frame (descendants n (heap s) c) s s'.
Hypothesis render_n_moves :
  forall c pos s u s',
    all_rigid (heap s) (descendants n (heap s) c) ->
    render_n c pos s = Ok (u, s') ->
    exists l,
      calls s' = calls s ++ l
      /\ forall c0, render_n c (Point_add pos d) (with_calls c0 s)
                    = Ok (u, with_calls (c0 ++ map (move_call d) l) s').
Hypothesis rigid_here :
  all_rigid (heap st0) (descendants (S n) (heap st0) self).

Local Notation "'here'" := (descendants (S n) (heap st0) self).

Lemma moves_render_child o0 o obj off pos pos' :
  heap st0 !! self = Some o0 -> shape o = shape o0 ->
  In (obj, off) (children o) ->
  pos' = Point_add pos d ->
  moves eq d st0 here (render_n obj pos) (render_n obj pos').
Proof.
  intros Ho0 Hs Hin -> s u s' Hf H.
  destruct (render_n_moves obj pos s u s') as (l & E & Hm); [|exact H|].
  { rewrite <- (descendants_shape n (heap st0) (heap s)) by apply Hf.
    eapply all_rigid_shape; [apply Hf|].
    intros id x Hid. apply rigid_here. eapply child_incl; eauto. }
  exists l, u. split; [reflexivity|]. split; [exact E | exact Hm].
Qed.

Lemma moves_Object_render pos :
  moves eq d st0 here (Object_render render_n self pos)
                      (Object_render render_n self (Point_add pos d)).
Proof.
  unfold Object_render. apply moves_get_node. intros o o0 Ho0 Hs.
  apply moves_for_each; intros [obj off] Hin.
  - eapply keeps_render_child; eauto.
  - eapply moves_render_child; eauto. point_eq.
Qed.

Lemma moves_Rectangle_render pos :
  moves eq d st0 here (Rectangle_render render_n self pos)
                      (Rectangle_render render_n self (Point_add pos d)).
Proof.
  unfold Rectangle_render. apply moves_get_node. intros o o0 Ho0 Hs.
  eapply moves_bind; [apply keeps_as_int | apply moves_blind, blind_as_int|].
  intros w _ <-.
  eapply moves_bind; [apply keeps_as_int | apply moves_blind, blind_as_int|].
  intros h _ <-.
  eapply moves_bind; [apply keeps_emit | |intros _ _ _; apply moves_Object_render].
  replace (call_rectangle (px (Point_add pos d), py (Point_add pos d))
             (px (Point_add pos d) + w, py (Point_add pos d) + h) (style o))
    with (move_call d (call_rectangle (px pos, py pos)
                         (px pos + w, py pos + h) (style o))).
  - apply moves_emit.
  - simpl. f_equal; f_equal; lia.
Qed.

Lemma moves_HLayout_render pos :
  moves eq d st0 here (HLayout_render (width n) render_n self pos)
                      (HLayout_render (width n) render_n self (Point_add pos d)).
Proof.
  unfold HLayout_render. apply moves_get_node. intros o o0 Ho0 Hs.
  eapply moves_bind with (R := fun x x' => x' = x + px d);
    [| |intros; apply moves_ret; reflexivity].
  - apply keeps_for_each_acc. intros x [obj off] Hin.
    apply keeps_bind; [eapply keeps_render_child; eauto | intros _].
    apply keeps_bind; [apply keeps_width | intros w]. apply keeps_ret.
  - apply moves_for_each_acc; [| |simpl; lia].
    + intros x [obj off] Hin.
      apply keeps_bind; [eapply keeps_render_child; eauto | intros _].
      apply keeps_bind; [apply keeps_width | intros w]. apply keeps_ret.
    + intros x x' [obj off] Hin ->.
      eapply moves_bind; [eapply keeps_render_child; eauto
                         | eapply moves_render_child; eauto; point_eq |].
      intros _ _ _.
      eapply moves_bind; [apply keeps_width | apply moves_blind, blind_width|].
      intros w _ <-. apply moves_ret. lia.
Qed.

Lemma moves_VLayout_render pos :
  moves eq d st0 here (VLayout_render (width n) (height n) render_n self pos)
        (VLayout_render (width n) (height n) render_n self (Point_add pos d)).
Proof.
  unfold VLayout_render.
  eapply moves_bind; [apply keeps_width | apply moves_blind, blind_width|].
  intros W _ <-. apply moves_get_node. intros o o0 Ho0 Hs.
  eapply moves_bind with (R := fun y y' => y' = y + py d);
    [| |intros; apply moves_ret; reflexivity].
  - apply keeps_for_each_acc. intros y [obj off] Hin.
    apply keeps_bind; [apply keeps_width | intros w].
    apply keeps_bind; [eapply keeps_render_child; eauto | intros _].
    apply keeps_bind; [apply keeps_height | intros h]. apply keeps_ret.
  - apply moves_for_each_acc; [| |simpl; lia].
    + intros y [obj off] Hin.
      apply keeps_bind; [apply keeps_width | intros w].
      apply keeps_bind; [eapply keeps_render_child; eauto | intros _].
      apply keeps_bind; [apply keeps_height | intros h]. apply keeps_ret.
    + intros y y' [obj off] Hin ->.
      eapply moves_bind; [apply keeps_width | apply moves_blind, blind_width|].
      intros w _ <-.
      eapply moves_bind; [eapply keeps_render_child; eauto
                         | eapply moves_render_child; eauto; point_eq |].
      intros _ _ _.
      eapply moves_bind; [apply keeps_height | apply moves_blind, blind_height|].
      intros h _ <-. apply moves_ret. lia.
Qed.

End RenderMoves.

Lemma moves_Line_render d st0 S self pos :
  moves eq d st0 S (Line_render self pos) (Line_render self (Point_add pos d)).
Proof.
  unfold Line_render. apply moves_get_node. intros o o0 _ _.
  destruct (cls o); try apply moves_raise;
    match goal with
    | |- moves _ _ _ _ (emit ?c) (emit ?c') =>
        replace c' with (move_call d c);
        [apply moves_emit
        |simpl; rewrite !NPoint_of_add; f_equal; f_equal; point_eq]
    end.
Qed.

Lemma moves_Arrow_render d st0 S self pos :
  moves eq d st0 S (Arrow_render self pos) (Arrow_render self (Point_add pos d)).
Proof.
  unfold Arrow_render. apply moves_get_node. intros o o0 _ _.
  destruct (cls o); try apply moves_raise.
  assert (Hline : forall p1 p2 p1' p2',
            p1' = Point_add p1 d -> p2' = Point_add p2 d ->
            moves eq d st0 S
              (emit (call_line (NPoint_of p1) (NPoint_of p2) (style o)))
              (emit (call_line (NPoint_of p1') (NPoint_of p2') (style o)))).
  { intros p1 p2 p1' p2' -> ->.
    replace (call_line (NPoint_of (Point_add p1 d)) (NPoint_of (Point_add p2 d))
                       (style o))
      with (move_call d (call_line (NPoint_of p1) (NPoint_of p2) (style o)))
      by reflexivity.
    apply moves_emit. }
  eapply moves_bind; [apply keeps_emit | apply Hline; point_eq | intros _ _ _].
  eapply moves_bind; [apply keeps_emit | apply Hline; point_eq | intros _ _ _].
  eapply moves_bind; [apply keeps_emit | apply Hline; point_eq | intros _ _ _].
  match goal with
  | |- context [if ?b then _ else _] => destruct b
  end; [|apply moves_ret; reflexivity].
  eapply moves_bind; [apply keeps_emit | apply Hline; point_eq | intros _ _ _].
  apply Hline; point_eq.
Qed.

Lemma moves_Text_render d st0 S self pos :
  moves eq d st0 S (Text_render self pos) (Text_render self (Point_add pos d)).
Proof.
  unfold Text_render. apply moves_get_node. intros o o0 _ _.
  destruct (cls o); try apply moves_raise.
  match goal with
  | |- context [match ?a with TOP => _ | _ => _ end] => destruct a
  end; try apply (moves_emit d st0 S (call_text _ pos (style o))).
  eapply moves_bind; [apply keeps_Object_width
                     | apply moves_blind, blind_Object_width |].
  intros w _ <-.
  match goal with
  | |- moves _ _ _ _ (emit ?c) (emit ?c') =>
      replace c' with (move_call d c);
      [apply moves_emit | simpl; f_equal; point_eq]
  end.
Qed.

Lemma render_moves renderer d n :
  forall self pos s u s',
    all_rigid (heap s) (descendants n (heap s) self) ->
    render n renderer self pos s = Ok (u, s') ->
    exists l,
      calls s' = calls s ++ l
      /\ forall c0, render n renderer self (Point_add pos d) (with_calls c0 s)
                    = Ok (u, with_calls (c0 ++ map (move_call d) l) s').
Proof.
  induction n as [|n IH]; intros self pos s u s' Hrigid H; [discriminate|].
  assert (K : moves eq d s (descendants (S n) (heap s) self)
                    (render (S n) renderer self pos)
                    (render (S n) renderer self (Point_add pos d))).
  { simpl render. apply moves_get_node. intros o o0 Ho0 Hs.
    assert (Hc : rigid (cls o) = true).
    { replace (cls o) with (cls o0) by (unfold shape in Hs; congruence).
      eapply Hrigid; [apply descendants_self | exact Ho0]. }
    destruct (cls o); try discriminate Hc;
      first [ apply moves_Object_render; [apply render_frame | exact IH | exact Hrigid]
            | apply moves_VLayout_render; [apply render_frame | exact IH | exact Hrigid]
            | apply moves_HLayout_render; [apply render_frame | exact IH | exact Hrigid]
            | apply moves_Rectangle_render; [apply render_frame | exact IH | exact Hrigid]
            | apply moves_Line_render
            | apply moves_Arrow_render
            | apply moves_Text_render ]. }
  destruct (K s u s' (frame_refl _ _) H) as (l & u' & _ & E & Hm).
  exists l. split; [exact E|]. destruct u, u'. exact Hm.
Qed.

(** X15.  A tree without canvas and without dotted line is drawn relative to the
    position it is given: rendered at [pos] moved by [d] it returns when it
    returns at [pos], leaves the same store, and makes the same calls with
    every coordinate moved by [d]. *)
Theorem render_moves_with_position :
  forall n renderer self pos d st u st',
    all_rigid (heap st) (descendants n (heap st) self) ->
    render n renderer self pos st = Ok (u, st') ->
    exists l,
      calls st' = calls st ++ l
      /\ render n renderer self (Point_add pos d) st
         = Ok (u, with_calls (calls st ++ map (move_call d) l) st').
Proof.
  intros n renderer self pos d st u st' Hrigid H.
  destruct (render_moves renderer d n self pos st u st' Hrigid H) as (l & E & Hm).
  exists l. split; [exact E|].
  rewrite <- (Hm (calls st)), with_calls_same. reflexivity.
Qed.

(** The rectangle of [arrow_scene] drawn at the origin and at (100, 200):
    the rectangle, the three strokes of the arrow and the two of its second
    head, and the text, all moved by (100, 200). *)
Lemma arrow_scene_moved :
  exists st' l,
    render 2 fixed_renderer 0%nat (P 0 0) arrow_scene = Ok (tt, st')
    /\ calls st' = l /\ length l = 7%nat
    /\ render 2 fixed_renderer 0%nat (P 100 200) arrow_scene
       = Ok (tt, with_calls (map (move_call (P 100 200)) l) st').
Proof.
  destruct (render_moves_with_position 2 fixed_renderer 0%nat (P 0 0) (P 100 200)
              arrow_scene tt
              (match render 2 fixed_renderer 0%nat (P 0 0) arrow_scene with
               | Ok (_, s) => s
               | Err _ => arrow_scene
               end))
    as (l & El & Hmoved).
  - intros id x Hin Hx. vm_compute in Hin.
    destruct Hin as [<- | [<- | [<- | []]]]; vm_compute in Hx;
      inversion Hx; reflexivity.
  - vm_compute. reflexivity.
  - eexists. exists l. split; [vm_compute; reflexivity|].
    split; [exact El|]. split; [|exact Hmoved].
    vm_compute in El. subst l. reflexivity.
Defined.

(** ** Rows and columns of rectangles *)

Lemma Rectangle_render_leaf k renderer st self o pos w h :
  heap st !! self = Some o -> cls o = Rectangle \/ cls o = TextBox ->
  _w o = Some w -> _h o = Some h -> children o = [] ->
  render (S k) renderer self pos st
  = Ok (tt, log [call_rectangle (px pos, py pos) (px pos + w, py pos + h)
                                (style o)] st).
Proof.
  intros Ho Hc Hw Hh Hch. simpl.
  erewrite bind_ok; [|apply get_node_ok, Ho].
  assert (E : forall m : M unit,
            match cls o with
            | Rectangle | TextBox => m
            | Object | Spacer => Object_render (render k renderer) self pos
            | VLayout _ =>
                VLayout_render (width k) (height k) (render k renderer) self pos
            | HLayout _ | Table _ =>
                HLayout_render (width k) (render k renderer) self pos
            | Line _ _ => Line_render self pos
            | DottedLine _ _ _ => DottedLine_render self pos
            | Arrow _ _ _ _ => Arrow_render self pos
            | Text _ _ => Text_render self pos
            | Canvas =>
                Canvas_render (prepare k renderer) (width k) (height k)
                              (render k renderer) self pos
            end = m)
    by (intros m; destruct Hc as [-> | ->]; reflexivity).
  rewrite E. unfold Rectangle_render.
  erewrite bind_ok; [|apply get_node_ok, Ho]. rewrite Hw, Hh.
  erewrite bind_ok; [|reflexivity]. erewrite bind_ok; [|reflexivity].
  erewrite bind_ok; [|apply emit_log].
  unfold Object_render. erewrite bind_ok; [|apply get_node_ok; exact Ho].
  rewrite Hch. reflexivity.
Qed.

Lemma is_box_width k h0 (st : State) c b :
  heap st = h0 -> is_box h0 c b ->
  width (S k) (fst c) st = Ok (box_w b, st)
  /\ height (S k) (fst c) st = Ok (box_h b, st).
Proof.
  intros <- (_ & r & Hr & Hc & _ & Hw & Hh & _). split.
  - rewrite (width_stored k _ _ r Hr) by (rewrite Hc; reflexivity).
    rewrite Hw. reflexivity.
  - rewrite (height_stored k _ _ r Hr) by (rewrite Hc; reflexivity).
    rewrite Hh. reflexivity.
Qed.

Lemma is_box_render k renderer h0 (st : State) c b pos :
  heap st = h0 -> is_box h0 c b ->
  render (S k) renderer (fst c) pos st
  = Ok (tt, log [call_rectangle (px pos, py pos)
                                (px pos + box_w b, py pos + box_h b)
                                (box_style b)] st).
Proof.
  intros <- (_ & r & Hr & Hc & Hch & Hw & Hh & Hs). rewrite <- Hs.
  apply Rectangle_render_leaf; auto.
Qed.

Lemma is_box_sim st st' cs bs :
  sim st st' -> Forall2 (is_box (heap st)) cs bs ->
  Forall2 (is_box (heap st')) cs bs.
Proof.
  intros Hs H. induction H as [|c b cs bs Hb H IH]; constructor; [|exact IH].
  destruct Hb as (Ho & r & Hr & Hc & Hrest). split; [exact Ho|].
  exists r. split; [|auto].
  eapply sim_stored; [exact Hs | exact Hr | rewrite Hc; reflexivity].
Qed.

Lemma boxes_reads k st cs bs :
  Forall2 (is_box (heap st)) cs bs ->
  reads (width (S k)) st cs (map box_w bs)
  /\ reads (height (S k)) st cs (map box_h bs)
  /\ extents px cs (map box_w bs) = x_extents bs
  /\ extents py cs (map box_h bs) = y_extents bs.
Proof.
  unfold reads, extents, x_extents, y_extents.
  intros H. induction H as [|c b cs bs Hb H (IH1 & IH2 & IH3 & IH4)]; simpl.
  - split_and!; constructor.
  - destruct (is_box_width k _ st c b eq_refl Hb) as [Hw Hh].
    destruct Hb as (Ho & _).
    split_and!; try (constructor; eauto); simpl; rewrite Ho; f_equal; auto.
Qed.

Lemma row_loop k renderer y bs :
  forall cs x st,
    Forall2 (is_box (heap st)) cs bs ->
    exists x',
      for_each_acc cs (fun x0 '(obj, offset) =>
        render (S k) renderer obj (P (x0 + px offset) (y + py offset)) ;;;
        obj_width <- width (S k) obj ;;
        ret (x0 + (obj_width + px offset))) x st
      = Ok (x', log (row_boxes x y bs) st).
Proof.
  induction bs as [|b bs IH]; intros cs x st H; inversion H as [|c b' cs' bs' Hb H']; subst.
  - exists x. simpl. rewrite log_nil. reflexivity.
  - destruct c as [obj offset]. pose proof Hb as (Ho & _). simpl in Ho. subst offset.
    set (box := call_rectangle (x + px (box_offset b), y + py (box_offset b))
                  (x + px (box_offset b) + box_w b, y + py (box_offset b) + box_h b)
                  (box_style b)).
    destruct (IH cs' (x + (box_w b + px (box_offset b))) (log [box] st) H')
      as (x' & Hrest).
    exists x'. cbn [for_each_acc row_boxes].
    erewrite bind_ok.
    2:{ erewrite bind_ok;
          [|apply (is_box_render k renderer _ st (obj, box_offset b) b
                     (P (x + px (box_offset b)) (y + py (box_offset b)))
                     eq_refl Hb)].
        erewrite bind_ok;
          [|apply (is_box_width k _ (log [box] st) (obj, box_offset b) b
                     eq_refl Hb)].
        reflexivity. }
    rewrite Hrest, log_log. reflexivity.
Qed.

Lemma column_loop k renderer x W bs :
  forall cs y st,
    Forall2 (is_box (heap st)) cs bs ->
    exists y',
      for_each_acc cs (fun y0 '(obj, offset) =>
        obj_width <- width (S k) obj ;;
        render (S k) renderer obj
               (P (x + px offset + (x + W / 2) - (x + px offset + obj_width / 2))
                  (y0 + py offset)) ;;;
        obj_height <- height (S k) obj ;;
        ret (y0 + (obj_height + py offset))) y st
      = Ok (y', log (column_boxes x W y bs) st).
Proof.
  induction bs as [|b bs IH]; intros cs y st H; inversion H as [|c b' cs' bs' Hb H']; subst.
  - exists y. simpl. rewrite log_nil. reflexivity.
  - destruct c as [obj offset]. pose proof Hb as (Ho & _). simpl in Ho. subst offset.
    set (box := call_rectangle (centred_x x W (box_w b), y + py (box_offset b))
                  (centred_x x W (box_w b) + box_w b,
                   y + py (box_offset b) + box_h b) (box_style b)).
    destruct (IH cs' (y + (box_h b + py (box_offset b))) (log [box] st) H')
      as (y' & Hrest).
    exists y'. cbn [for_each_acc column_boxes].
    erewrite bind_ok.
    2:{ erewrite bind_ok;
          [|apply (is_box_width k _ st (obj, box_offset b) b eq_refl Hb)].
        replace (x + px (box_offset b) + (x + W / 2)
                 - (x + px (box_offset b) + box_w b / 2))
          with (centred_x x W (box_w b)) by (unfold centred_x; lia).
        erewrite bind_ok;
          [|apply (is_box_render k renderer _ st (obj, box_offset b) b
                     (P (centred_x x W (box_w b)) (y + py (box_offset b)))
                     eq_refl Hb)].
        erewrite bind_ok;
          [|apply (is_box_width k _ (log [box] st) (obj, box_offset b) b
                     eq_refl Hb)].
        reflexivity. }
    rewrite Hrest, log_log. reflexivity.
Qed.

Lemma fold_add_acc l : forall a, fold_left Z.add l a = a + fold_left Z.add l 0.
Proof.
  induction l as [|x l IH]; intros a; simpl; [lia|].
  rewrite IH, (IH (0 + x)). lia.
Qed.

Lemma in_order_lo lo lo' hi l : lo' <= lo -> in_order lo hi l -> in_order lo' hi l.
Proof. destruct l as [|[a b] l]; simpl; intros; [lia | intuition lia]. Qed.

Lemma row_in_order y bs :
  forall x,
    Forall (fun b => 0 <= px (box_offset b) /\ 0 <= box_w b) bs ->
    in_order x (x + fold_left Z.add (x_extents bs) 0)
             (map x_span (row_boxes x y bs)).
Proof.
  induction bs as [|b bs IH]; intros x H; simpl; [lia|].
  inversion H as [|b' bs' [Ho Hw] H']; subst.
  split; [lia|]. split; [lia|].
  rewrite fold_add_acc.
  replace (x + (0 + (box_w b + px (box_offset b)) + fold_left Z.add (x_extents bs) 0))
    with (x + (box_w b + px (box_offset b)) + fold_left Z.add (x_extents bs) 0)
    by lia.
  eapply in_order_lo; [|apply IH; exact H']. lia.
Qed.

Lemma column_in_order x W bs :
  forall y,
    Forall (fun b => 0 <= py (box_offset b) /\ 0 <= box_h b) bs ->
    in_order y (y + fold_left Z.add (y_extents bs) 0)
             (map y_span (column_boxes x W y bs)).
Proof.
  induction bs as [|b bs IH]; intros y H; simpl; [lia|].
  inversion H as [|b' bs' [Ho Hh] H']; subst.
  split; [lia|]. split; [lia|].
  rewrite fold_add_acc.
  replace (y + (0 + (box_h b + py (box_offset b)) + fold_left Z.add (y_extents bs) 0))
    with (y + (box_h b + py (box_offset b)) + fold_left Z.add (y_extents bs) 0)
    by lia.
  eapply in_order_lo; [|apply IH; exact H']. lia.
Qed.

Lemma column_within x W bs :
  forall y,
    Forall (fun b => 0 <= box_w b <= W) bs ->
    Forall (fun c => x <= fst (x_span c) /\ snd (x_span c) <= x + W)
           (column_boxes x W y bs).
Proof.
  induction bs as [|b bs IH]; intros y H; simpl; constructor.
  - inversion H as [|b' bs' Hb H']; subst. simpl. unfold centred_x.
    Z.to_euclidean_division_equations. lia.
  - inversion H; subst. apply IH. assumption.
Qed.

(** X16.  A horizontal layout (or a table) whose children are rectangles without
    children draws them from left to right, each at the cursor moved by its
    offset, and leaves the store as it was.  When no width and no x offset
    is negative the rectangles follow one another without overlapping,
    between the layout's x and that x plus the width the layout reads. *)
Theorem HLayout_row_of_rectangles :
  forall k renderer st self o bs pos,
    heap st !! self = Some o ->
    (exists a, cls o = HLayout a \/ cls o = Table a) ->
    Forall2 (is_box (heap st)) (children o) bs ->
    render (S (S k)) renderer self pos st
    = Ok (tt, log (row_boxes (px pos) (py pos) bs) st)
    /\ exists W s,
         width (S (S k)) self st = Ok (W, s)
         /\ (Forall (fun b => 0 <= px (box_offset b) /\ 0 <= box_w b) bs ->
             in_order (px pos) (px pos + W)
                      (map x_span (row_boxes (px pos) (py pos) bs))).
Proof.
  intros k renderer st self o bs pos Ho Hc Hb. split.
  - assert (E : render (S (S k)) renderer self pos st
                = HLayout_render (width (S k)) (render (S k) renderer) self pos st).
    { destruct Hc as (a & Hc).
      change (render (S (S k)) renderer self pos st)
        with ((o' <- get_node self ;;
               match cls o' with
               | Object | Spacer => Object_render (render (S k) renderer) self pos
               | VLayout _ =>
                   VLayout_render (width (S k)) (height (S k))
                                  (render (S k) renderer) self pos
               | HLayout _ | Table _ =>
                   HLayout_render (width (S k)) (render (S k) renderer) self pos
               | Rectangle | TextBox =>
                   Rectangle_render (render (S k) renderer) self pos
               | Line _ _ => Line_render self pos
               | DottedLine _ _ _ => DottedLine_render self pos
               | Arrow _ _ _ _ => Arrow_render self pos
               | Text _ _ => Text_render self pos
               | Canvas =>
                   Canvas_render (prepare (S k) renderer) (width (S k))
                                 (height (S k)) (render (S k) renderer) self pos
               end) st).
      erewrite bind_ok; [|apply get_node_ok, Ho].
      destruct Hc as [-> | ->]; reflexivity. }
    rewrite E. unfold HLayout_render.
    erewrite bind_ok; [|apply get_node_ok, Ho].
    destruct (row_loop k renderer (py pos) bs (children o) (px pos) st Hb)
      as (x' & Hloop).
    erewrite bind_ok; [|exact Hloop]. reflexivity.
  - destruct (boxes_reads k st (children o) bs Hb) as (Hr & _ & Ex & _).
    destruct (HLayout_width_formula (S k) st self o _ Ho Hc Hr) as (s & Hw & _).
    rewrite Ex in Hw. eexists. exists s. split; [exact Hw|].
    intros Hpos. apply row_in_order. exact Hpos.
Qed.

(** The layout of [row_scene] drawn at (100, 50): the first rectangle from
    x = 102 to 132, the second from 137 to 157, within the 57 the layout is
    wide. *)
Lemma row_scene_in_order :
  exists st',
    render 2 fixed_renderer 0%nat (P 100 50) row_scene = Ok (tt, st')
    /\ calls st' = [call_rectangle (102, 50) (132, 60) Style_default;
                    call_rectangle (137, 51) (157, 66) Style_default]
    /\ (exists s, width 2 0%nat row_scene = Ok (57, s)).
Proof.
  set (bs := [mkBox (P 2 0) 30 10 Style_default; mkBox (P 5 1) 20 15 Style_default]).
  destruct (HLayout_row_of_rectangles 0 fixed_renderer row_scene 0%nat
              (mkNode (HLayout CENTER) Style_default None None
                      [(1%nat, P 2 0); (2%nat, P 5 1)] None)
              bs (P 100 50) eq_refl) as (Hrun & W & s & Hw & _).
  - exists CENTER. left. reflexivity.
  - repeat constructor; simpl; eexists; (split; [vm_compute; reflexivity|]);
      repeat split; reflexivity.
  - eexists. split; [exact Hrun|]. split; [reflexivity|].
    eexists. vm_compute. reflexivity.
Defined.

(** X17.  A vertical layout whose children are rectangles without children draws
    them from top to bottom, each centred on the layout's width, which is
    the largest of their widths plus x offsets and of 0; the store is left
    as it was, the cached dimensions of layouts apart.  When no height and no y
    offset is negative the rectangles follow one another without
    overlapping, between the layout's y and that y plus the height the
    layout reads; when no width and no x offset is negative each lies
    between the layout's x and that x plus the layout's width. *)
Theorem VLayout_column_of_rectangles :
  forall k renderer st self o a bs pos,
    heap st !! self = Some o -> cls o = VLayout a ->
    Forall2 (is_box (heap st)) (children o) bs ->
    let W := fold_left Z.max (x_extents bs) 0 in
    let boxes := column_boxes (px pos) W (py pos) bs in
    (exists st1,
       sim st st1
       /\ render (S (S (S k))) renderer self pos st = Ok (tt, log boxes st1))
    /\ (exists H s,
          height (S (S k)) self st = Ok (H, s)
          /\ (Forall (fun b => 0 <= py (box_offset b) /\ 0 <= box_h b) bs ->
              in_order (py pos) (py pos + H) (map y_span boxes)))
    /\ (Forall (fun b => 0 <= px (box_offset b) /\ 0 <= box_w b) bs ->
        Forall (fun c => px pos <= fst (x_span c)
                         /\ snd (x_span c) <= px pos + W) boxes).
Proof.
  intros k renderer st self o a bs pos Ho Hc Hb W boxes.
  destruct (boxes_reads k st (children o) bs Hb) as (Hrw & Hrh & Ex & Ey).
  split_and!.
  - destruct (VLayout_width_formula (S k) st self o a _ Ho Hc Hrw)
      as (s1 & Hw & Hsim).
    rewrite Ex in Hw. fold W in Hw.
    exists s1. split; [exact Hsim|].
    change (render (S (S (S k))) renderer self pos st)
      with ((o' <- get_node self ;;
             match cls o' with
             | Object | Spacer => Object_render (render (S (S k)) renderer) self pos
             | VLayout _ =>
                 VLayout_render (width (S (S k))) (height (S (S k)))
                                (render (S (S k)) renderer) self pos
             | HLayout _ | Table _ =>
                 HLayout_render (width (S (S k))) (render (S (S k)) renderer) self pos
             | Rectangle | TextBox =>
                 Rectangle_render (render (S (S k)) renderer) self pos
             | Line _ _ => Line_render self pos
             | DottedLine _ _ _ => DottedLine_render self pos
             | Arrow _ _ _ _ => Arrow_render self pos
             | Text _ _ => Text_render self pos
             | Canvas =>
                 Canvas_render (prepare (S (S k)) renderer) (width (S (S k)))
                               (height (S (S k))) (render (S (S k)) renderer)
                               self pos
             end) st).
    erewrite bind_ok; [|apply get_node_ok, Ho]. rewrite Hc.
    unfold VLayout_render. erewrite bind_ok; [|exact Hw].
    destruct (sim_lookup _ _ _ _ Hsim Ho) as (o1 & Ho1 & He).
    erewrite bind_ok; [|apply get_node_ok, Ho1].
    rewrite <- (erase_children _ _ He).
    destruct (column_loop (S k) renderer (px pos) W bs (children o) (py pos) s1)
      as (y' & Hloop); [eapply is_box_sim; eauto|].
    erewrite bind_ok; [|exact Hloop]. reflexivity.
  - destruct (VLayout_height_formula (S k) st self o a _ Ho Hc Hrh)
      as (s & Hh & _).
    rewrite Ey in Hh. eexists. exists s. split; [exact Hh|].
    intros Hpos. apply column_in_order. exact Hpos.
  - intros Hpos. apply column_within.
    pose proof (fold_max_upper (x_extents bs) 0) as Hup. fold W in Hup.
    unfold x_extents in Hup. rewrite Forall_map in Hup.
    rewrite List.Forall_forall in *. intros b Hin.
    specialize (Hpos b Hin). specialize (Hup b Hin). simpl in Hup. lia.
Qed.

(** The layout of [stacked_scene] drawn at (100, 200) is 40 wide: the first
    rectangle spans x from 100 to 140, the second from 115 to 125. *)
Lemma stacked_scene_column :
  exists st',
    render 3 fixed_renderer 0%nat (P 100 200) stacked_scene = Ok (tt, st')
    /\ map x_span (calls st') = [(100, 140); (115, 125)]
    /\ map y_span (calls st') = [(200, 210); (213, 233)].
Proof.
  set (bs := [mkBox (P 0 0) 40 10 Style_default; mkBox (P 6 3) 10 20 Style_default]).
  destruct (VLayout_column_of_rectangles 0 fixed_renderer stacked_scene 0%nat
              (mkNode (VLayout CENTER) Style_default None None
                      [(1%nat, P 0 0); (2%nat, P 6 3)] None)
              CENTER bs (P 100 200) eq_refl eq_refl)
    as ((st1 & Hsim & Hrun) & _).
  - repeat constructor; simpl; eexists; (split; [vm_compute; reflexivity|]);
      repeat split; reflexivity.
  - eexists. split; [exact Hrun|].
    destruct Hsim as (_ & _ & _ & Hc). simpl. rewrite <- Hc.
    split; reflexivity.
Defined.

(** ** When a dimension can be read *)

Section Readable.
Variable getf : Node -> option Z.
Variable setf : option Z -> Node -> Node.
Variable dim : nat -> oid -> M Z.

Hypothesis get_set : forall v o, getf (setf v o) = v.
Hypothesis set_erase :
  forall v o, derived (cls o) = true -> erase (setf v o) = erase o.
Hypothesis dim_sim :
  forall n,
    (forall c s v s1, dim n c s = Ok (v, s1) -> sim s s1)
    /\ (forall c s v s1 s', dim n c s = Ok (v, s1) -> sim s s' ->
                            exists s1', dim n c s' = Ok (v, s1')).
Hypothesis dim_zero : forall c s, dim 0 c s = Err RecursionError.
Hypothesis dim_stored :
  forall n st self o,
    heap st !! self = Some o -> derived (cls o) = false ->
    dim (S n) self st
    = match getf o with Some v => Ok (v, st) | None => Err AssertionError end.
Hypothesis dim_derived :
  forall n st self o,
    heap st !! self = Some o -> derived (cls o) = true ->
    exists step, dim (S n) self st = derived_dim getf setf step (dim n) self st.
Hypothesis dim_missing :
  forall n st self, heap st !! self = None -> dim (S n) self st = Err NoSuchObject.

Lemma reads_all n st cs :
  Forall (fun c => exists v s, dim n c st = Ok (v, s)) (map fst cs) ->
  exists ws, reads (dim n) st cs ws.
Proof.
  unfold reads. induction cs as [|c cs IH]; intros H.
  - exists []. constructor.
  - inversion H as [|c' cs' (v & s & Hc) H']; subst.
    destruct (IH H') as (ws & Hws). exists (v :: ws). constructor; eauto.
Qed.

Lemma reads_each n st cs ws :
  reads (dim n) st cs ws ->
  Forall (fun c => exists v s, dim n c st = Ok (v, s)) (map fst cs).
Proof.
  unfold reads. induction 1 as [|c w cs ws (s & Hc) H IH]; simpl; constructor; eauto.
Qed.

Lemma dim_readable n :
  forall st x,
    (exists v s, dim n x st = Ok (v, s)) <-> readable getf n (heap st) x.
Proof.
  induction n as [|n IH]; intros st x.
  - simpl. split; [|intros []]. intros (v & s & H). rewrite dim_zero in H.
    discriminate H.
  - cbn [readable]. destruct (heap st !! x) as [o|] eqn:Ho.
    2:{ split.
        - intros (v & s & H). rewrite dim_missing in H by exact Ho. discriminate H.
        - intros (o & Ho' & _). discriminate Ho'. }
    destruct (derived (cls o)) eqn:Hd.
    + destruct (dim_derived n st x o Ho Hd) as (step & E). rewrite E. split.
      * intros (v & s & H). exists o. split; [reflexivity|]. rewrite Hd.
        destruct (derived_dim_inv getf setf step (dim n) x get_set set_erase
                    (proj1 (dim_sim n)) (proj2 (dim_sim n)) st o v s Ho Hd H)
          as (ws & Hr & _ & _).
        apply reads_each in Hr. unfold kids.
        eapply Forall_impl; [exact Hr|]. intros c Hc. apply IH. exact Hc.
      * intros (o' & Ho' & H). inversion Ho'. subst o'. rewrite Hd in H.
        destruct (reads_all n st (children o)) as (ws & Hr).
        { eapply Forall_impl; [exact H|]. intros c Hc. apply IH. exact Hc. }
        destruct (derived_dim_ex getf setf step (dim n) x get_set set_erase
                    (proj1 (dim_sim n)) (proj2 (dim_sim n)) st o ws Ho Hd Hr)
          as (s & Hrun & _).
        eauto.
    + rewrite (dim_stored n st x o Ho Hd). split.
      * intros (v & s & H). exists o. split; [reflexivity|]. rewrite Hd.
        destruct (getf o); [discriminate | discriminate H].
      * intros (o' & Ho' & H). inversion Ho'. subst o'. rewrite Hd in H.
        destruct (getf o) as [v|]; [eauto | contradiction].
Qed.

End Readable.

(** X18.  Reading the width of a node with depth [n] returns exactly when every
    path down from the node through layouts ends, within [n] calls, at a
    node of another class whose width is set; and the same for the height.
    Otherwise the read raises. *)
Theorem dimension_read_returns_iff :
  forall n st x,
    ((exists v s, width n x st = Ok (v, s)) <-> readable _w n (heap st) x)
    /\ ((exists v s, height n x st = Ok (v, s)) <-> readable _h n (heap st) x).
Proof.
  intros n st x. split.
  - apply (dim_readable _w with_w width); try reflexivity.
    + apply with_w_erase.
    + apply width_sim.
    + intros k s self o Ho Hd. apply width_stored; assumption.
    + intros k s self o Ho Hd. simpl. erewrite bind_ok; [|apply get_node_ok, Ho].
      destruct (cls o); try discriminate Hd.
      * exists (max_step px). apply VLayout_width_eq.
      * exists (sum_step px). apply HLayout_width_eq.
      * exists (sum_step px). apply HLayout_width_eq.
    + intros k s self Ho. simpl. unfold bind, get_node. rewrite Ho. reflexivity.
  - apply (dim_readable _h with_h height); try reflexivity.
    + apply with_h_erase.
    + apply height_sim.
    + intros k s self o Ho Hd. apply height_stored; assumption.
    + intros k s self o Ho Hd. simpl. erewrite bind_ok; [|apply get_node_ok, Ho].
      destruct (cls o); try discriminate Hd.
      * exists (sum_step py). apply VLayout_height_eq.
      * exists (max_step py). apply HLayout_height_eq.
      * exists (max_step py). apply HLayout_height_eq.
    + intros k s self Ho. simpl. unfold bind, get_node. rewrite Ho. reflexivity.
Qed.

(** The layout of [stacked_scene] can be measured, its rectangles having
    their widths; the one of [unsized_leaf_scene] cannot, for the rectangle
    without dimensions two layouts down. *)
Lemma stacked_scene_readable :
  (exists v s, width 2 0%nat stacked_scene = Ok (v, s))
  /\ width 3 0%nat unsized_leaf_scene = Err AssertionError.
Proof.
  split; [|vm_compute; reflexivity].
  apply dimension_read_returns_iff.
  exists (mkNode (VLayout CENTER) Style_default None None
                 [(1%nat, P 0 0); (2%nat, P 6 3)] None).
  split; [vm_compute; reflexivity|]. cbn [derived cls kids children map fst].
  repeat constructor.
  - exists (mkNode Rectangle Style_default (Some 40) (Some 10) [] (Some 0%nat)).
    split; [vm_compute; reflexivity | discriminate].
  - exists (mkNode Rectangle Style_default (Some 10) (Some 20) [] (Some 0%nat)).
    split; [vm_compute; reflexivity | discriminate].
Defined.

(** ** Arrows *)



(** ** The [align] of a layout *)

Lemma agree_ret {A} a (v : A) : agree a (ret v) (ret v).
Proof. intros s. reflexivity. Qed.

Lemma agree_raise {A} a e : agree a (@raise A e) (raise e).
Proof. intros s. reflexivity. Qed.

Lemma agree_lift {A} a (r : Result A) : agree a (lift r) (lift r).
Proof. destruct r; [apply agree_ret | apply agree_raise]. Qed.

Lemma agree_get_platform a : agree a get_platform get_platform.
Proof. intros s. reflexivity. Qed.

Lemma agree_bind {A B} a (m m' : M A) (k k' : A -> M B) :
  agree a m m' -> (forall v, agree a (k v) (k' v)) ->
  agree a (bind m k) (bind m' k').
Proof.
  intros Hm Hk s. unfold bind. rewrite Hm.
  destruct (m s) as [[v s1]|e]; simpl; [apply Hk | reflexivity].
Qed.

Lemma agree_get_node {A} a self (k k' : Node -> M A) :
  (forall o, agree a (k o) (k' (realign_node a o))) ->
  agree a (bind (get_node self) k) (bind (get_node self) k').
Proof.
  intros Hk s. unfold bind, get_node. simpl. rewrite lookup_fmap.
  destruct (heap s !! self) as [o|]; simpl; [apply Hk | reflexivity].
Qed.

Lemma agree_update_node a self f :
  (forall o, f (realign_node a o) = realign_node a (f o)) ->
  agree a (update_node self f) (update_node self f).
Proof.
  intros Hf s. unfold update_node. simpl. rewrite lookup_fmap.
  destruct (heap s !! self) as [o|]; simpl; [|reflexivity].
  unfold realigned, with_heap. simpl. rewrite fmap_insert, Hf. reflexivity.
Qed.

Lemma agree_emit a c : agree a (emit c) (emit c).
Proof. intros s. reflexivity. Qed.

Lemma agree_as_int a v : agree a (as_int v) (as_int v).
Proof. destruct v; [apply agree_ret | apply agree_raise]. Qed.

Lemma agree_for_each {A} a (l : list A) (f : A -> M unit) :
  (forall x, agree a (f x) (f x)) -> agree a (for_each l f) (for_each l f).
Proof.
  intros Hf. induction l as [|x l IH]; simpl; [apply agree_ret|].
  apply agree_bind; auto.
Qed.

Lemma agree_for_each_acc {A B} a (l : list A) (f : B -> A -> M B) :
  (forall b x, agree a (f b x) (f b x)) ->
  forall b, agree a (for_each_acc l f b) (for_each_acc l f b).
Proof.
  intros Hf. induction l as [|x l IH]; intros b; simpl; [apply agree_ret|].
  apply agree_bind; auto.
Qed.

Lemma agree_Object_width a self : agree a (Object_width self) (Object_width self).
Proof.
  unfold Object_width. apply agree_get_node. intros o. cbn [realign_node _w].
  destruct (_w o); [apply agree_ret | apply agree_raise].
Qed.

Lemma agree_Object_height a self : agree a (Object_height self) (Object_height self).
Proof.
  unfold Object_height. apply agree_get_node. intros o. cbn [realign_node _h].
  destruct (_h o); [apply agree_ret | apply agree_raise].
Qed.

Lemma agree_derived_loop a (getf : Node -> option Z)
    (setf : option Z -> Node -> Node) (step : Z -> Z -> Z) (rec : oid -> M Z)
    (sel : Point -> Z) self :
  (forall o, getf (realign_node a o) = getf o) ->
  (forall v o, setf v (realign_node a o) = realign_node a (setf v o)) ->
  (forall c, agree a (rec c) (rec c)) ->
  let m := (update_node self (setf (Some 0)) ;;;
            o <- get_node self ;;
            for_each (children o) (fun '(obj, offset) =>
              s <- get_node self ;;
              w <- rec obj ;;
              cur <- as_int (getf s) ;;
              update_node self (setf (Some (step cur (w + sel offset))))) ;;;
            s <- get_node self ;;
            as_int (getf s)) in
  agree a m m.
Proof.
  intros Hget Hset Hrec m. unfold m.
  apply agree_bind; [apply agree_update_node; intros; apply Hset | intros _].
  apply agree_get_node. intros o. cbn [realign_node children].
  apply agree_bind.
  { apply agree_for_each. intros [obj offset].
    apply agree_get_node. intros s. rewrite Hget.
    apply agree_bind; [apply Hrec | intros w].
    apply agree_bind; [apply agree_as_int | intros cur].
    apply agree_update_node. intros; apply Hset. }
  intros _. apply agree_get_node. intros s. rewrite Hget. apply agree_as_int.
Qed.

Lemma agree_width a n : forall c, agree a (width n c) (width n c).
Proof.
  induction n as [|n IH]; intros c; [apply agree_raise|].
  simpl. apply agree_get_node. intros o. cbn [realign_node cls].
  destruct (cls o); cbn [realign]; try apply agree_Object_width.
  - apply (agree_derived_loop a _w with_w Z.max (width n) px c); auto.
  - apply (agree_derived_loop a _w with_w Z.add (width n) px c); auto.
  - apply (agree_derived_loop a _w with_w Z.add (width n) px c); auto.
Qed.

Lemma agree_height a n : forall c, agree a (height n c) (height n c).
Proof.
  induction n as [|n IH]; intros c; [apply agree_raise|].
  simpl. apply agree_get_node. intros o. cbn [realign_node cls].
  destruct (cls o); cbn [realign]; try apply agree_Object_height.
  - apply (agree_derived_loop a _h with_h Z.add (height n) py c); auto.
  - apply (agree_derived_loop a _h with_h Z.max (height n) py c); auto.
  - apply (agree_derived_loop a _h with_h Z.max (height n) py c); auto.
Qed.

Lemma agree_set_height a obj v : agree a (set_height obj v) (set_height obj v).
Proof.
  unfold set_height. apply agree_get_node. intros o. cbn [realign_node cls].
  assert (Hobj : agree a (Object_set_height obj v) (Object_set_height obj v))
    by (apply agree_update_node; reflexivity).
  destruct (cls o); cbn [realign]; try exact Hobj.
  unfold TextBox_set_height.
  apply agree_bind; [apply agree_update_node; reflexivity | intros _].
  apply agree_get_node. intros o'. cbn [realign_node children].
  destruct (children o') as [|[t off] rest]; [apply agree_raise|].
  apply agree_bind; [apply agree_Object_width | intros w].
  apply agree_bind; [apply agree_Object_height | intros h].
  apply agree_update_node. reflexivity.
Qed.

Lemma agree_prepare a renderer n :
  forall c, agree a (prepare n renderer c) (prepare n renderer c).
Proof.
  induction n as [|n IH]; intros c; [apply agree_raise|].
  assert (Hobj : agree a (Object_prepare (prepare n renderer) c)
                         (Object_prepare (prepare n renderer) c)).
  { unfold Object_prepare. apply agree_get_node. intros o.
    cbn [realign_node children]. apply agree_for_each. intros [obj off]. apply IH. }
  simpl. apply agree_get_node. intros o. cbn [realign_node cls].
  destruct (cls o); cbn [realign]; try exact Hobj.
  - unfold Table_prepare.
    apply agree_bind; [exact Hobj | intros _].
    apply agree_bind; [apply agree_update_node; reflexivity | intros _].
    apply agree_get_node. intros o1. cbn [realign_node children].
    apply agree_bind.
    { apply agree_for_each. intros [obj off].
      apply agree_get_node. intros s. cbn [realign_node _h].
      apply agree_bind; [apply agree_height | intros h].
      apply agree_bind; [apply agree_as_int | intros cur].
      apply agree_update_node. reflexivity. }
    intros _. apply agree_get_node. intros o2. cbn [realign_node children].
    apply agree_for_each. intros [obj off].
    apply agree_get_node. intros s. cbn [realign_node _h].
    apply agree_set_height.
  - unfold Text_prepare.
    apply agree_bind; [exact Hobj | intros _].
    apply agree_get_node. intros o1. cbn [realign_node _w _h cls style].
    destruct (py_not (_w o1) || py_not (_h o1)); [|apply agree_ret].
    destruct (cls o1); cbn [realign]; try apply agree_raise.
    apply agree_bind; [apply agree_emit | intros _].
    match goal with
    | |- context [text_bbox ?r ?t ?s] => destruct (text_bbox r t s) as [[[l t'] rr] b]
    end.
    apply agree_get_node. intros x. cbn [realign_node _w].
    apply agree_bind; [apply agree_update_node; reflexivity | intros _].
    apply agree_get_node. intros y. cbn [realign_node _h].
    apply agree_update_node. reflexivity.
Qed.

Lemma agree_render a renderer n :
  forall c pos, agree a (render n renderer c pos) (render n renderer c pos).
Proof.
  induction n as [|n IH]; intros c pos; [apply agree_raise|].
  assert (Hobj : forall p, agree a (Object_render (render n renderer) c p)
                                   (Object_render (render n renderer) c p)).
  { intros p. unfold Object_render. apply agree_get_node. intros o.
    cbn [realign_node children]. apply agree_for_each. intros [obj off]. apply IH. }
  assert (Hrect : agree a (Rectangle_render (render n renderer) c pos)
                          (Rectangle_render (render n renderer) c pos)).
  { unfold Rectangle_render. apply agree_get_node. intros o.
    cbn [realign_node _w _h style].
    apply agree_bind; [apply agree_as_int | intros w].
    apply agree_bind; [apply agree_as_int | intros h].
    apply agree_bind; [apply agree_emit | intros _]. apply Hobj. }
  assert (Hrow : agree a (HLayout_render (width n) (render n renderer) c pos)
                         (HLayout_render (width n) (render n renderer) c pos)).
  { unfold HLayout_render. apply agree_get_node. intros o.
    cbn [realign_node children].
    apply agree_bind; [|intros; apply agree_ret].
    apply agree_for_each_acc. intros x [obj off].
    apply agree_bind; [apply IH | intros _].
    apply agree_bind; [apply agree_width | intros w]. apply agree_ret. }
  simpl. apply agree_get_node. intros o. cbn [realign_node cls].
  destruct (cls o); cbn [realign]; try apply Hobj; try exact Hrect; try exact Hrow.
  - unfold VLayout_render.
    apply agree_bind; [apply agree_width | intros W].
    apply agree_get_node. intros o1. cbn [realign_node children].
    apply agree_bind; [|intros; apply agree_ret].
    apply agree_for_each_acc. intros y [obj off].
    apply agree_bind; [apply agree_width | intros w].
    apply agree_bind; [apply IH | intros _].
    apply agree_bind; [apply agree_height | intros h]. apply agree_ret.
  - unfold Line_render. apply agree_get_node. intros o1.
    cbn [realign_node cls style].
    destruct (cls o1); cbn [realign]; try apply agree_raise; apply agree_emit.
  - unfold DottedLine_render. apply agree_get_node. intros o1.
    cbn [realign_node cls style].
    destruct (cls o1); cbn [realign]; try apply agree_raise.
    apply agree_bind; [apply agree_get_platform | intros pf].
    apply agree_bind; [apply agree_lift | intros len].
    apply agree_bind; [apply agree_lift | intros u].
    apply agree_bind.
    { unfold py_int. destruct (f2z _); [apply agree_ret | apply agree_raise]. }
    intros m. apply agree_bind.
    { unfold py_range.
      match goal with
      | |- context [if ?b then _ else _] => destruct b
      end; [apply agree_raise | apply agree_ret]. }
    intros r. apply agree_bind; [|intros; apply agree_ret].
    apply agree_for_each_acc. intros xy i. unfold dash_step.
    apply agree_bind; [apply agree_lift | intros half].
    apply agree_bind; [apply agree_lift | intros xy2].
    apply agree_bind; [apply agree_emit | intros _].
    apply agree_bind; [apply agree_lift | intros full]. apply agree_lift.
  - unfold Arrow_render. apply agree_get_node. intros o1.
    cbn [realign_node cls style].
    destruct (cls o1); cbn [realign]; try apply agree_raise.
    repeat (apply agree_bind; [apply agree_emit | intros _]).
    match goal with
    | |- context [if ?b then _ else _] => destruct b
    end; [|apply agree_ret].
    apply agree_bind; [apply agree_emit | intros _]. apply agree_emit.
  - unfold Text_render. apply agree_get_node. intros o1.
    cbn [realign_node cls style].
    destruct (cls o1); cbn [realign]; try apply agree_raise.
    match goal with
    | |- context [match ?al with TOP => _ | _ => _ end] => destruct al
    end; try apply agree_emit.
    apply agree_bind; [apply agree_Object_width | intros w]. apply agree_emit.
  - unfold Canvas_render. apply agree_get_node. intros o1.
    cbn [realign_node style].
    apply agree_bind; [apply agree_update_node; reflexivity | intros _].
    apply agree_bind; [apply agree_update_node; reflexivity | intros _].
    apply agree_get_node. intros o2. cbn [realign_node children].
    apply agree_bind.
    { apply agree_for_each. intros [obj off].
      apply agree_bind; [apply agree_prepare | intros _].
      apply agree_bind; [apply IH | intros _].
      apply agree_bind; [apply agree_Object_width | intros sw].
      apply agree_bind; [apply agree_width | intros w].
      apply agree_bind; [apply agree_update_node; reflexivity | intros _].
      apply agree_bind; [apply agree_Object_height | intros sh].
      apply agree_bind; [apply agree_height | intros h].
      apply agree_update_node. reflexivity. }
    intros _.
    apply agree_bind; [apply agree_Object_width | intros sw].
    apply agree_bind; [apply agree_update_node; reflexivity | intros _].
    apply agree_bind; [apply agree_Object_height | intros sh].
    apply agree_bind; [apply agree_update_node; reflexivity | intros _].
    apply agree_bind; [apply agree_Object_width | intros sw'].
    apply agree_bind; [apply agree_Object_height | intros sh'].
    apply agree_emit.
Qed.

(** X20.  The [align] a [VLayout], an [HLayout] or a [Table] is built with is
    stored and never read: with any other [align] in every layout, reading
    a dimension, [prepare] and [render] return the same value or raise the
    same error, make the same calls and leave the same store, the [align]s
    apart. *)
Theorem layout_align_is_ignored :
  forall a n renderer x pos st,
    width n x (realigned a st) = lifted (realigned a) (width n x st)
    /\ height n x (realigned a st) = lifted (realigned a) (height n x st)
    /\ prepare n renderer x (realigned a st)
       = lifted (realigned a) (prepare n renderer x st)
    /\ render n renderer x pos (realigned a st)
       = lifted (realigned a) (render n renderer x pos st).
Proof.
  intros a n renderer x pos st. split_and!.
  - apply agree_width.
  - apply agree_height.
  - apply agree_prepare.
  - apply agree_render.
Qed.

(** The layout of [stacked_scene] with the alignment [LEFT] in place of
    [CENTER] is rendered as it was. *)
Lemma stacked_scene_left_aligned :
  render 3 fixed_renderer 0%nat (P 100 200) (realigned LEFT stacked_scene)
  = lifted (realigned LEFT)
           (render 3 fixed_renderer 0%nat (P 100 200) stacked_scene).
Proof.
  apply (layout_align_is_ignored LEFT 3 fixed_renderer 0%nat (P 100 200)
           stacked_scene).
Defined.

(** ** A canvas over rectangles *)

Lemma is_box_prepare k renderer h0 (st : State) c b :
  heap st = h0 -> is_box h0 c b ->
  prepare (S k) renderer (fst c) st = Ok (tt, st).
Proof.
  intros <- (_ & r & Hr & Hc & Hch & _). simpl.
  erewrite bind_ok; [|apply get_node_ok, Hr]. rewrite Hc.
  eapply Object_prepare_leaf; eauto.
Qed.

Lemma is_box_put self x x' (s : State) cs bs :
  heap s !! self = Some x -> cls x = Canvas ->
  Forall2 (is_box (heap s)) cs bs ->
  Forall2 (is_box (<[self := x']> (heap s))) cs bs.
Proof.
  intros Hx Hc H. induction H as [|c b cs bs Hb H IH]; constructor; [|exact IH].
  destruct Hb as (Ho & r & Hr & Hcr & Hrest). split; [exact Ho|].
  exists r. split; [|auto]. rewrite lookup_insert_ne; [exact Hr|].
  intros E. rewrite <- E, Hx in Hr. inversion Hr. subst. congruence.
Qed.

Lemma canvas_loop k renderer self o base bs :
  cls o = Canvas ->
  forall cs w h st,
    heap st !! self = Some (resized w h o) ->
    Forall2 (is_box (heap st)) cs bs ->
    for_each cs (fun '(obj, offset) =>
      prepare (S k) renderer obj ;;;
      render (S k) renderer obj (Point_add base offset) ;;;
      let x := px (Point_add offset base) in
      let y := py (Point_add offset base) in
      self_width <- Object_width self ;;
      obj_width <- width (S k) obj ;;
      Object_set_width self (Some (Z.max self_width (obj_width + x))) ;;;
      self_height <- Object_height self ;;
      obj_height <- height (S k) obj ;;
      Object_set_height self (Some (Z.max self_height (obj_height + y)))) st
    = Ok (tt, log (overlaid_boxes base bs)
                (put self (resized (fold_left Z.max (right_edges base bs) w)
                                   (fold_left Z.max (bottom_edges base bs) h) o)
                     st)).
Proof.
  intros Hc. induction bs as [|b bs IH]; intros cs w h st Hs H;
    inversion H as [|c b' cs' bs' Hb H']; subst.
  - simpl. rewrite log_nil. unfold put, with_heap.
    rewrite insert_id by exact Hs. destruct st. reflexivity.
  - destruct c as [obj offset]. pose proof Hb as (Ho & _). simpl in Ho. subst offset.
    set (off := box_offset b) in *.
    set (box := call_rectangle (px base + px off, py base + py off)
                  (px base + px off + box_w b, py base + py off + box_h b)
                  (box_style b)).
    set (w' := Z.max w (box_w b + (px off + px base))).
    set (h' := Z.max h (box_h b + (py off + py base))).
    set (s1 := log [box] st).
    set (s2 := put self (resized w' h' o) s1).
    assert (Hs1 : heap s1 !! self = Some (resized w h o)) by exact Hs.
    assert (Hb1 : is_box (heap s1) (obj, off) b) by exact Hb.
    assert (Hstep :
      (prepare (S k) renderer obj ;;;
       render (S k) renderer obj (Point_add base off) ;;;
       self_width <- Object_width self ;;
       obj_width <- width (S k) obj ;;
       Object_set_width self
         (Some (Z.max self_width (obj_width + px (Point_add off base)))) ;;;
       self_height <- Object_height self ;;
       obj_height <- height (S k) obj ;;
       Object_set_height self
         (Some (Z.max self_height (obj_height + py (Point_add off base))))) st
      = Ok (tt, s2)).
    { erewrite bind_ok;
        [|apply (is_box_prepare k renderer _ st (obj, off) b eq_refl Hb)].
      erewrite bind_ok;
        [|apply (is_box_render k renderer _ st (obj, off) b (Point_add base off)
                   eq_refl Hb)].
      fold box s1.
      erewrite bind_ok; [|eapply Object_width_ok; [exact Hs1 | reflexivity]].
      erewrite bind_ok;
        [|apply (is_box_width k _ s1 (obj, off) b eq_refl Hb1)].
      unfold Object_set_width, Object_set_height.
      erewrite bind_ok; [|apply update_node_put, Hs1].
      erewrite bind_ok; [|eapply Object_height_ok; [apply put_lookup | reflexivity]].
      assert (Hb2 : is_box (heap (put self (with_w (Some w') (resized w h o)) s1))
                           (obj, off) b).
      { assert (F : Forall2 (is_box (<[self := with_w (Some w') (resized w h o)]>
                                        (heap s1))) [(obj, off)] [b])
          by (eapply is_box_put; [exact Hs1 | exact Hc
                                  | constructor; [exact Hb1 | constructor]]).
        inversion F. assumption. }
      erewrite bind_ok;
        [|apply (is_box_width k _ _ (obj, off) b eq_refl Hb2)].
      erewrite update_node_put; [|apply put_lookup]. rewrite put_put.
      reflexivity. }
    cbn [for_each]. erewrite bind_ok; [|exact Hstep].
    etransitivity.
    { apply (IH cs' w' h' s2); [apply put_lookup|].
      unfold s2. simpl. eapply is_box_put; [exact Hs1 | exact Hc | exact H']. }
    unfold s2, s1. rewrite put_put.
    cbn [overlaid_boxes map right_edges bottom_edges fold_left].
    fold box. unfold put, with_heap, log. simpl. rewrite <- app_assoc. reflexivity.
Qed.

(** What [Canvas.render] does on a canvas over rectangles without
    children. *)
Lemma Canvas_over_boxes :
  forall k renderer st self o bs pos,
    heap st !! self = Some o -> cls o = Canvas ->
    Forall2 (is_box (heap st)) (children o) bs ->
    let pad := padding (style o) in
    let base := Point_add_scalar pos pad in
    let W := fold_left Z.max (right_edges base bs) pad + pad in
    let H := fold_left Z.max (bottom_edges base bs) pad + pad in
    render (S (S k)) renderer self pos st
    = Ok (tt, log (overlaid_boxes base bs ++ [call_set_dimensions (W, H)])
                (put self (resized W H o) st)).
Proof.
  intros k renderer st self o bs pos Ho Hc Hb pad base W H.
  change (render (S (S k)) renderer self pos st)
    with ((o' <- get_node self ;;
           match cls o' with
           | Object | Spacer => Object_render (render (S k) renderer) self pos
           | VLayout _ =>
               VLayout_render (width (S k)) (height (S k))
                              (render (S k) renderer) self pos
           | HLayout _ | Table _ =>
               HLayout_render (width (S k)) (render (S k) renderer) self pos
           | Rectangle | TextBox =>
               Rectangle_render (render (S k) renderer) self pos
           | Line _ _ => Line_render self pos
           | DottedLine _ _ _ => DottedLine_render self pos
           | Arrow _ _ _ _ => Arrow_render self pos
           | Text _ _ => Text_render self pos
           | Canvas =>
               Canvas_render (prepare (S k) renderer) (width (S k))
                             (height (S k)) (render (S k) renderer) self pos
           end) st).
  erewrite bind_ok; [|apply get_node_ok, Ho]. rewrite Hc.
  unfold Canvas_render. erewrite bind_ok; [|apply get_node_ok, Ho].
  unfold Object_set_width, Object_set_height.
  erewrite bind_ok; [|apply update_node_put, Ho].
  erewrite bind_ok; [|apply update_node_put, put_lookup].
  rewrite put_put. fold pad base.
  change (with_h (Some pad) (with_w (Some pad) o)) with (resized pad pad o).
  set (s0 := put self (resized pad pad o) st).
  assert (H0 : heap s0 !! self = Some (resized pad pad o)) by apply put_lookup.
  erewrite bind_ok; [|apply get_node_ok, H0].
  change (children (resized pad pad o)) with (children o).
  erewrite bind_ok.
  2:{ apply (canvas_loop k renderer self o base bs Hc (children o) pad pad s0 H0).
      unfold s0. simpl. eapply is_box_put; [exact Ho | exact Hc | exact Hb]. }
  unfold s0. rewrite put_put.
  set (Wl := fold_left Z.max (right_edges base bs) pad).
  set (Hl := fold_left Z.max (bottom_edges base bs) pad).
  set (s1 := log (overlaid_boxes base bs) (put self (resized Wl Hl o) st)).
  assert (H1 : heap s1 !! self = Some (resized Wl Hl o)) by apply put_lookup.
  erewrite bind_ok; [|eapply Object_width_ok; [exact H1 | reflexivity]].
  erewrite bind_ok; [|apply update_node_put, H1].
  erewrite bind_ok; [|eapply Object_height_ok; [apply put_lookup | reflexivity]].
  erewrite bind_ok; [|apply update_node_put, put_lookup].
  rewrite put_put.
  erewrite bind_ok; [|eapply Object_width_ok; [apply put_lookup | reflexivity]].
  erewrite bind_ok; [|eapply Object_height_ok; [apply put_lookup | reflexivity]].
  unfold s1, emit, put, with_heap, log. simpl.
  rewrite insert_insert_eq, <- app_assoc. reflexivity.
Qed.

(** X21.  A canvas whose children are rectangles without children draws
    every one of them at its padded position moved by the rectangle's own
    offset: it does not stack them.  It always returns, ends as wide as the
    larger of its padding and the furthest right edge, plus the padding, and
    as high likewise, and calls [set_dimensions] last, once, with these
    dimensions.  Rendered again, it makes the same calls once more and ends
    with the same dimensions: it does not grow. *)
Theorem Canvas_of_rectangles :
  forall k renderer st self o bs pos,
    heap st !! self = Some o -> cls o = Canvas ->
    Forall2 (is_box (heap st)) (children o) bs ->
    let pad := padding (style o) in
    let base := Point_add_scalar pos pad in
    let W := fold_left Z.max (right_edges base bs) pad + pad in
    let H := fold_left Z.max (bottom_edges base bs) pad + pad in
    let drawn := overlaid_boxes base bs ++ [call_set_dimensions (W, H)] in
    let st1 := log drawn (put self (resized W H o) st) in
    render (S (S k)) renderer self pos st = Ok (tt, st1)
    /\ render (S (S k)) renderer self pos st1 = Ok (tt, log drawn st1).
Proof.
  intros k renderer st self o bs pos Ho Hc Hb pad base W H drawn st1.
  split; [apply Canvas_over_boxes; assumption|].
  assert (H1 : heap st1 !! self = Some (resized W H o)) by apply put_lookup.
  assert (Hb1 : Forall2 (is_box (heap st1)) (children (resized W H o)) bs).
  { unfold st1. simpl. eapply is_box_put; [exact Ho | exact Hc | exact Hb]. }
  rewrite (Canvas_over_boxes k renderer st1 self (resized W H o) bs pos H1 Hc Hb1).
  fold pad base W H drawn.
  f_equal. f_equal. unfold st1, put, with_heap, log. simpl.
  rewrite insert_insert_eq. reflexivity.
Qed.

(** The canvas of [two_box_canvas_scene] at the origin: both rectangles
    start from the padded corner (10, 10), the second moved by its offset
    (5, 5), and the canvas is 70 by 85; a second render repeats the three
    calls. *)
Lemma Canvas_two_boxes :
  exists st1 st2,
    render 2 fixed_renderer 0%nat (P 0 0) two_box_canvas_scene = Ok (tt, st1)
    /\ calls st1 = [call_rectangle (10, 10) (60, 40) Style_default;
                    call_rectangle (15, 15) (35, 75) Style_default;
                    call_set_dimensions (70, 85)]
    /\ render 2 fixed_renderer 0%nat (P 0 0) st1 = Ok (tt, st2)
    /\ calls st2 = calls st1 ++ calls st1.
Proof.
  set (bs := [mkBox (P 0 0) 50 30 Style_default; mkBox (P 5 5) 20 60 Style_default]).
  destruct (Canvas_of_rectangles 0 fixed_renderer two_box_canvas_scene 0%nat
              (mkNode Canvas Style_default None None
                      [(1%nat, P 0 0); (2%nat, P 5 5)] None)
              bs (P 0 0) eq_refl eq_refl) as [H1 H2].
  - repeat constructor; simpl; eexists; (split; [vm_compute; reflexivity|]);
      repeat split; reflexivity.
  - eexists. eexists. split; [exact H1|]. split; [reflexivity|].
    split; [exact H2 | reflexivity].
Defined.

(** ** When [prepare] returns *)

Lemma tree_shape ok n (h h' : gmap oid Node) :
  shape <$> h = shape <$> h' -> forall x, tree ok n h x -> tree ok n h' x.
Proof.
  intros Hs. induction n as [|n IH]; intros x H; [exact H|].
  destruct H as (o & Ho & Hok & Hk).
  assert (E : (shape <$> h) !! x = (shape <$> h') !! x) by (rewrite Hs; reflexivity).
  rewrite !lookup_fmap, Ho in E.
  destruct (h' !! x) as [o'|] eqn:Ho'; simpl in E; [|discriminate].
  assert (Hc : cls o' = cls o) by (unfold shape in E; congruence).
  assert (Hkids : kids o' = kids o) by (unfold shape in E; congruence).
  exists o'. split; [exact Ho'|]. rewrite Hc, Hkids. split; [exact Hok|].
  eapply Forall_impl; [exact Hk | exact IH].
Qed.

Lemma prepare_children_return renderer n st :
  (forall s x, shape <$> heap s = shape <$> heap st ->
               tree not_table n (heap st) x ->
               exists s', prepare n renderer x s = Ok (tt, s')) ->
  forall (cs : list (oid * Point)) s,
    shape <$> heap s = shape <$> heap st ->
    Forall (tree not_table n (heap st)) (map fst cs) ->
    exists s',
      for_each cs (fun '(obj, _) => prepare n renderer obj) s = Ok (tt, s')
      /\ shape <$> heap s' = shape <$> heap st.
Proof.
  intros Hrec. induction cs as [|[c off] cs IH]; intros s Hs H.
  - exists s. split; [reflexivity | exact Hs].
  - inversion H as [|c' cs' Hc H']; subst.
    destruct (Hrec s c Hs Hc) as (s1 & H1).
    assert (Hs1 : shape <$> heap s1 = shape <$> heap st)
      by (rewrite <- (proj1 (prepare_frame renderer n c s tt s1 H1)); exact Hs).
    destruct (IH s1 Hs1 H') as (s' & Hl & Hs').
    exists s'. split; [|exact Hs']. simpl. erewrite bind_ok; [|exact H1]. exact Hl.
Qed.

Lemma prepare_returns renderer n :
  forall st x, tree not_table n (heap st) x ->
               exists st', prepare n renderer x st = Ok (tt, st').
Proof.
  induction n as [|n IH]; intros st x H; [destruct H|].
  destruct H as (o & Ho & Hok & Hk).
  destruct (prepare_children_return renderer n st) with (cs := children o) (s := st)
    as (s1 & Hloop & Hs1); auto.
  { intros s c Hs Hc. apply IH. eapply tree_shape; [symmetry; exact Hs | exact Hc]. }
  assert (Hobj : Object_prepare (prepare n renderer) x st = Ok (tt, s1))
    by (unfold Object_prepare; erewrite bind_ok; [|apply get_node_ok, Ho]; exact Hloop).
  simpl prepare. erewrite bind_ok; [|apply get_node_ok, Ho].
  destruct (cls o) eqn:Hc; try discriminate Hok; eauto.
  (* a text *)
  assert (E : (shape <$> heap s1) !! x = (shape <$> heap st) !! x)
    by (rewrite Hs1; reflexivity).
  rewrite !lookup_fmap, Ho in E.
  destruct (heap s1 !! x) as [o1|] eqn:Ho1; simpl in E; [|discriminate].
  assert (Hc1 : cls o1 = Text text align)
    by (unfold shape in E; rewrite <- Hc; congruence).
  eexists. eapply Text_prepare_after; eauto.
Qed.

Lemma prepare_children_tree renderer n st :
  (forall s x u s', shape <$> heap s = shape <$> heap st ->
                    prepare n renderer x s = Ok (u, s') ->
                    tree any_class n (heap st) x) ->
  forall (cs : list (oid * Point)) s u s',
    shape <$> heap s = shape <$> heap st ->
    for_each cs (fun '(obj, _) => prepare n renderer obj) s = Ok (u, s') ->
    Forall (tree any_class n (heap st)) (map fst cs).
Proof.
  intros Hrec. induction cs as [|[c off] cs IH]; intros s u s' Hs H;
    [constructor|].
  simpl in H. inv_bind H as u1 s1 H1.
  constructor; [eapply Hrec; eauto|].
  eapply (IH s1); [|exact H].
  rewrite <- (proj1 (prepare_frame renderer n c s u1 s1 H1)). exact Hs.
Qed.

Lemma prepare_tree renderer n :
  forall st x u st', prepare n renderer x st = Ok (u, st') ->
                     tree any_class n (heap st) x.
Proof.
  induction n as [|n IH]; intros st x u st' H; [discriminate H|].
  simpl in H. inv_bind H as o s Hget. apply get_node_inv in Hget as [Ho ->].
  assert (Hobj : exists u1 s1, Object_prepare (prepare n renderer) x st = Ok (u1, s1)).
  { destruct (cls o); try (eexists; eexists; exact H).
    - unfold Table_prepare in H. inv_bind H as u1 s1 H1. eauto.
    - unfold Text_prepare in H. inv_bind H as u1 s1 H1. eauto. }
  destruct Hobj as (u1 & s1 & Hobj). unfold Object_prepare in Hobj.
  erewrite bind_ok in Hobj; [|apply get_node_ok, Ho].
  exists o. split; [exact Ho|]. split; [reflexivity|].
  eapply (prepare_children_tree renderer n st); [|reflexivity | exact Hobj].
  intros s c u2 s2 Hs Hp. eapply tree_shape; [exact Hs|]. eapply IH. exact Hp.
Qed.

(** X22.  [prepare] with depth [n] returns only on a node below which the
    children form a finite tree within [n] levels, and it does return on
    every such tree that holds no table: the heights a table reads are the
    only thing that can make [prepare] raise on a tree. *)
Theorem prepare_returns_on_trees :
  forall n renderer st x,
    ((exists u st', prepare n renderer x st = Ok (u, st')) ->
     tree any_class n (heap st) x)
    /\ (tree not_table n (heap st) x ->
        exists st', prepare n renderer x st = Ok (tt, st')).
Proof.
  intros n renderer st x. split.
  - intros (u & st' & H). eapply prepare_tree. exact H.
  - intros H. apply prepare_returns. exact H.
Qed.

(** The vertical layout of [unsized_leaf_scene], whose last rectangle has
    no dimensions: no width can be read, and [prepare] returns all the
    same. *)
Lemma unsized_leaf_scene_prepared :
  exists st', prepare 3 fixed_renderer 0%nat unsized_leaf_scene = Ok (tt, st').
Proof.
  apply prepare_returns_on_trees.
  exists (mkNode (VLayout CENTER) Style_default None None
                 [(1%nat, P 0 0); (2%nat, P 0 0)] None).
  split; [vm_compute; reflexivity|]. split; [reflexivity|].
  cbn [kids children map fst]. repeat constructor.
  - exists (mkNode Rectangle Style_default (Some 10) (Some 10) [] (Some 0%nat)).
    split; [vm_compute; reflexivity|]. split; [reflexivity | constructor].
  - exists (mkNode (HLayout CENTER) Style_default None None [(3%nat, P 0 0)]
                   (Some 0%nat)).
    split; [vm_compute; reflexivity|]. split; [reflexivity|].
    cbn [kids children map fst]. repeat constructor.
    exists (mkNode Rectangle Style_default None None [] (Some 2%nat)).
    split; [vm_compute; reflexivity|]. split; [reflexivity | constructor].
Defined.
